(** * Receipt extraction pipeline of [ReceiptsService]

    A shallow embedding of the text-recovery core of
    [receipts.service.ts]: candidate location, [sanitizeJsonString],
    the parse strategy chain of [extractJsonFromLLMResponse],
    [validateAndCleanData], [extractDataWithRegex],
    [getPositionFromLineCol] and [parseDate], together with the
    JavaScript built-ins they rest on (strings of UTF-16 code units,
    backtracking regular expressions, [parseFloat], [String], strict
    JSON parsing, the [Date] constructor). *)

From Stdlib Require Import List NArith ZArith Bool Ascii String Lia.
From Stdlib Require Import DecimalString DecimalPos DecimalN.
Import ListNotations.

Set Implicit Arguments.
#[local] Set Warnings "-register-all".

(** ** JavaScript strings *)

(** A JavaScript string is a sequence of UTF-16 code units. *)
Definition jschar := N.
Definition jsstring := list jschar.

Definition js (s : string) : jsstring :=
  List.map N_of_ascii (list_ascii_of_string s).

(** The double-quote character U+0022.  Literals of this file that
    contain it are written with [jsq], which reads [~] as U+0022. *)
Definition dq : jschar := 34%N.

Definition jsq (s : string) : jsstring :=
  List.map (fun c => if N.eqb c 126 then dq else c) (js s).

Fixpoint str_eqb (a b : jsstring) : bool :=
  match a, b with
  | [], [] => true
  | x :: a', y :: b' => N.eqb x y && str_eqb a' b'
  | _, _ => false
  end.

(** [s.startsWith(p)]; on success the rest of [s] after [p]. *)
Fixpoint strip_prefix (p s : jsstring) : option jsstring :=
  match p, s with
  | [], _ => Some s
  | x :: p', y :: s' => if N.eqb x y then strip_prefix p' s' else None
  | _ :: _, [] => None
  end.

Definition startsWith (s p : jsstring) : bool :=
  match strip_prefix p s with Some _ => true | None => false end.

Definition endsWith (s p : jsstring) : bool :=
  startsWith (rev s) (rev p).

(** [s.includes(p)] *)
Fixpoint includes (s p : jsstring) : bool :=
  startsWith s p ||
  match s with
  | [] => false
  | _ :: s' => includes s' p
  end.

(** [s.substring(a, b)] for [0 <= a], [0 <= b] *)
Definition substring (s : jsstring) (a b : nat) : jsstring :=
  firstn (Nat.max a b - Nat.min a b) (skipn (Nat.min a b) s).

(** [s.replace(pat, rep)] with a string pattern: the first occurrence
    only.  The replacement strings used by the source hold no [$]. *)
Fixpoint replace_str (pat rep s : jsstring) : jsstring :=
  match strip_prefix pat s with
  | Some rest => rep ++ rest
  | None =>
      match s with
      | [] => []
      | x :: s' => x :: replace_str pat rep s'
      end
  end.

(** [s.split(sep)] for a one-character separator *)
Fixpoint split_char (sep : jschar) (s : jsstring) : list jsstring :=
  match s with
  | [] => [[]]
  | x :: s' =>
      if N.eqb x sep then [] :: split_char sep s'
      else match split_char sep s' with
           | [] => [[x]]
           | l :: ls => (x :: l) :: ls
           end
  end.

(** Character classes *)

Definition is_char (c : jschar) : jschar -> bool := N.eqb c.

Definition in_range (lo hi : N) (c : jschar) : bool :=
  N.leb lo c && N.leb c hi.

Definition one_of (cs : jsstring) (c : jschar) : bool :=
  existsb (N.eqb c) cs.

Definition none_of (cs : jsstring) (c : jschar) : bool :=
  negb (one_of cs c).

(** [\d] *)
Definition is_digit : jschar -> bool := in_range 48 57.

(** [[a-zA-Z]] *)
Definition is_alpha (c : jschar) : bool :=
  in_range 97 122 c || in_range 65 90 c.

(** [[a-zA-Z0-9_]] *)
Definition is_word (c : jschar) : bool :=
  is_alpha c || is_digit c || N.eqb c 95.

(** [\s]: WhiteSpace and LineTerminator of ECMAScript; the same set
    is what [trim] removes. *)
Definition is_space (c : jschar) : bool :=
  in_range 9 13 c || N.eqb c 32 || N.eqb c 160 || N.eqb c 5760 ||
  in_range 8192 8202 c || N.eqb c 8232 || N.eqb c 8233 ||
  N.eqb c 8239 || N.eqb c 8287 || N.eqb c 12288 || N.eqb c 65279.

(** [[\s\S]] *)
Definition any_char (_ : jschar) : bool := true.

Fixpoint trimStart (s : jsstring) : jsstring :=
  match s with
  | x :: s' => if is_space x then trimStart s' else s
  | [] => []
  end.

Definition trimEnd (s : jsstring) : jsstring := rev (trimStart (rev s)).

Definition trim (s : jsstring) : jsstring := trimEnd (trimStart s).

(** ** Regular expressions

    The backtracking semantics of ECMAScript regular expressions, for
    the constructs the source uses: character classes, sequence,
    alternation, greedy and lazy [*], capturing groups and positive
    lookahead.  None of the source's expressions has a flag other than
    [g], an anchor, a back-reference or a capturing group under [*] or
    [+]. *)

Inductive regex : Type :=
| Eps
| Chr (p : jschar -> bool)
| Seq (a b : regex)
| Alt (a b : regex)
| Star (greedy : bool) (a : regex)
| Group (i : nat) (a : regex)
| Look (a : regex).

(** Derived forms *)
Definition Opt (a : regex) : regex := Alt a Eps.
Definition Plus (a : regex) : regex := Seq a (Star true a).
Fixpoint Lit (s : jsstring) : regex :=
  match s with
  | [] => Eps
  | [c] => Chr (is_char c)
  | c :: s' => Seq (Chr (is_char c)) (Lit s')
  end.
Fixpoint Seqs (l : list regex) : regex :=
  match l with
  | [] => Eps
  | [a] => a
  | a :: l' => Seq a (Seqs l')
  end.

(** Captures: the most recent binding of a group comes first. *)
Definition caps := list (nat * jsstring).

Fixpoint cap (c : caps) (i : nat) : option jsstring :=
  match c with
  | [] => None
  | (j, s) :: c' => if Nat.eqb i j then Some s else cap c' i
  end.

(** One iteration of [a*] has to consume input (RepeatMatcher rejects
    an empty iteration), so [a*] on [s] runs at most [length s]
    iterations: [star_iter] counts them down from that bound. *)
Section StarIter.
Variable A : Type.
Variable body : jsstring -> caps -> (jsstring -> caps -> option A) -> option A.
Variable greedy : bool.
Variable k : jsstring -> caps -> option A.

Fixpoint star_iter (n : nat) (s : jsstring) (c : caps) : option A :=
  let more :=
    match n with
    | O => None
    | S n' =>
        body s c (fun s' c' =>
          if Nat.ltb (List.length s') (List.length s)
          then star_iter n' s' c' else None)
    end in
  if greedy
  then match more with Some x => Some x | None => k s c end
  else match k s c with Some x => Some x | None => more end.
End StarIter.

(** [rmatch r s c k]: match [r] at the front of [s] with captures [c],
    then continue with [k] on what is left; [None] makes the matcher
    backtrack. *)
Fixpoint rmatch (r : regex) (A : Type) (s : jsstring) (c : caps)
    (k : jsstring -> caps -> option A) {struct r} : option A :=
  match r with
  | Eps => k s c
  | Chr p =>
      match s with
      | x :: s' => if p x then k s' c else None
      | [] => None
      end
  | Seq a b => rmatch a s c (fun s' c' => rmatch b s' c' k)
  | Alt a b =>
      match rmatch a s c k with
      | Some x => Some x
      | None => rmatch b s c k
      end
  | Star g a =>
      star_iter (fun s0 c0 k0 => rmatch a s0 c0 k0) g k (List.length s) s c
  | Group i a =>
      rmatch a s c (fun s' c' =>
        k s' ((i, firstn (List.length s - List.length s') s) :: c'))
  | Look a =>
      match rmatch a s c (fun _ c' => Some c') with
      | Some c' => k s c'
      | None => None
      end
  end.

(** A successful match: the text before it, the matched text, the text
    after it, and the captures. *)
Record rmatch_result : Type := MatchResult {
  m_before : jsstring;
  m_text : jsstring;
  m_after : jsstring;
  m_caps : caps
}.

(** [m[i]] of a match array *)
Definition m_group (m : rmatch_result) (i : nat) : option jsstring :=
  match i with
  | O => Some (m_text m)
  | _ => cap (m_caps m) i
  end.

(** A match that starts at the front of [s] *)
Definition match_here (r : regex) (s : jsstring) : option (jsstring * caps) :=
  rmatch r s [] (fun s' c' => Some (s', c')).

(** [s.match(r)] without the [g] flag: the leftmost match *)
Fixpoint search_from (r : regex) (before s : jsstring) : option rmatch_result :=
  match match_here r s with
  | Some (rest, c) =>
      Some (MatchResult (rev before)
              (firstn (List.length s - List.length rest) s) rest c)
  | None =>
      match s with
      | [] => None
      | x :: s' => search_from r (x :: before) s'
      end
  end.

Definition search (r : regex) (s : jsstring) : option rmatch_result :=
  search_from r [] s.

Definition test (r : regex) (s : jsstring) : bool :=
  match search r s with Some _ => true | None => false end.

(** Replacement templates: literal text and [$n]. *)
Inductive tmpl_part : Type :=
| TLit (s : jsstring)
| TGroup (i : nat).

Definition template := list tmpl_part.

Definition expand (t : template) (c : caps) : jsstring :=
  flat_map (fun p =>
    match p with
    | TLit s => s
    | TGroup i => match cap c i with Some s => s | None => [] end
    end) t.

(** The scan of a [g] expression over [s].  [skip] characters of a match
    found earlier are still to be passed over; at [skip = 0] the
    expression is tried at the front of [s], and what is not matched is
    handed to [keep] while a match is handed to [hit].  An empty match
    moves the scan one character on. *)
Section Scan.
Variable B : Type.
Variable r : regex.
Variable keep : jschar -> B -> B.
Variable hit : jsstring -> caps -> B -> B.
Variable stop : B.

Fixpoint scan (skip : nat) (s : jsstring) : B :=
  match skip with
  | S n =>
      match s with
      | [] => stop
      | _ :: s' => scan n s'
      end
  | O =>
      match match_here r s with
      | Some (rest, c) =>
          let len := List.length s - List.length rest in
          match s with
          | [] => hit [] c stop
          | x :: s' =>
              match len with
              | O => hit [] c (keep x (scan 0 s'))
              | S n => hit (firstn len s) c (scan n s')
              end
          end
      | None =>
          match s with
          | [] => stop
          | x :: s' => keep x (scan 0 s')
          end
      end
  end.
End Scan.

(** [s.replace(r, t)] with the [g] flag *)
Definition replace_all (r : regex) (t : template) (s : jsstring) : jsstring :=
  scan r (fun x out => x :: out) (fun _ c out => expand t c ++ out) [] 0 s.

(** [s.match(r)] with the [g] flag: the matched texts ([null] is the
    empty list here; the source reads it as [[]] at once). *)
Definition match_all (r : regex) (s : jsstring) : list jsstring :=
  scan r (fun _ out => out) (fun m _ out => m :: out) [] 0 s.

(** [s.split(r)] for an expression without capturing groups that
    matches no empty text. *)
Definition split_regex (r : regex) (s : jsstring) : list jsstring :=
  scan r
    (fun x out => match out with
                  | [] => [[x]]
                  | l :: ls => (x :: l) :: ls
                  end)
    (fun _ _ out => [] :: out) [[]] 0 s.

(** ** Numbers, values, exceptions *)

(** A number of this pipeline comes from a decimal literal (a JSON
    number, or a string read by [parseFloat]) and no arithmetic is done
    on it afterwards.  It is modelled by the decimal it denotes,
    [(-1)^neg * m * 10^e], kept normalised ([m] has no trailing zero,
    and [e = 0] when [m = 0]), with the two ends of binary64: a literal
    too large is read as an infinity and one too small as zero (see
    [mk_number]).  What is left out is the rounding of the digits of a
    finite number other than zero to 53 bits: [NaN], the infinities,
    the zeros and the sign of a number are those of the code, and the
    digits are those of the literal. *)
Inductive number : Type :=
| NaN
| Inf (neg : bool)
| Fin (neg : bool) (m : N) (e : Z).

(** The values a response can parse to, and [undefined]. *)
Inductive value : Type :=
| VUndefined
| VNull
| VBool (b : bool)
| VNum (n : number)
| VStr (s : jsstring)
| VArr (l : list value)
| VObj (props : list (jsstring * value)).

(** What the code throws: every exception of the modelled code is an
    [Error] object with a [message] string. *)
Inductive exn : Type :=
| SyntaxError (message : jsstring)
| TypeError (message : jsstring).

Definition message (e : exn) : jsstring :=
  match e with
  | SyntaxError m => m
  | TypeError m => m
  end.

Inductive outcome (A : Type) : Type :=
| Ret (a : A)
| Throw (e : exn).

Arguments Ret {A} a.
Arguments Throw {A} e.

Definition bind {A B : Type} (x : outcome A) (f : A -> outcome B) : outcome B :=
  match x with
  | Ret a => f a
  | Throw e => Throw e
  end.

(** [try { body } catch (e) { handler(e) }] *)
Definition try_catch {A : Type} (body : outcome A) (handler : exn -> outcome A)
  : outcome A :=
  match body with
  | Ret a => Ret a
  | Throw e => handler e
  end.

Notation "x <- a ;; b" := (bind a (fun x => b))
  (at level 61, a at next level, right associativity).

(** [l.map(f)] for a callback that may throw *)
Fixpoint mapM {A B : Type} (f : A -> outcome B) (l : list A) : outcome (list B) :=
  match l with
  | [] => Ret []
  | a :: l' =>
      b <- f a ;;
      bs <- mapM f l' ;;
      Ret (b :: bs)
  end.

(** The [TypeError] of a property read on [undefined] or [null], and
    of a call of what is no function, with the messages of V8 *)
Definition cannotRead (o : value) (name : jsstring) : exn :=
  TypeError (js "Cannot read properties of " ++
             (match o with VNull => js "null" | _ => js "undefined" end) ++
             js " (reading '" ++ name ++ js "')").

Definition notAFunction (expr method : string) : exn :=
  TypeError (js expr ++ js "." ++ js method ++ js " is not a function").

(** The receiver [v] of a call [expr.method(...)] of a string method:
    anything but a string makes the call throw a [TypeError], since no
    value parsed from JSON has a function as a property.  The type
    annotation [string] is erased at run time. *)
Definition stringReceiver (expr method : string) (v : value) : outcome jsstring :=
  match v with
  | VStr s => Ret s
  | VUndefined | VNull => Throw (cannotRead v (js method))
  | _ => Throw (notAFunction expr method)
  end.

(** Property read [o.name]: [undefined] when absent, a [TypeError] on
    [null] and [undefined].  Primitives have none of the properties the
    source reads, apart from [length] of a string, which has its own
    function. *)
Fixpoint lookup (props : list (jsstring * value)) (name : jsstring) : value :=
  match props with
  | [] => VUndefined
  | (k, v) :: rest => if str_eqb k name then v else lookup rest name
  end.

Definition get (o : value) (name : jsstring) : outcome value :=
  match o with
  | VUndefined | VNull => Throw (cannotRead o name)
  | VObj props => Ret (lookup props name)
  | _ => Ret VUndefined
  end.

(** ToBoolean *)
Definition truthy (v : value) : bool :=
  match v with
  | VUndefined | VNull => false
  | VBool b => b
  | VNum NaN => false
  | VNum (Inf _) => true
  | VNum (Fin _ m _) => negb (N.eqb m 0)
  | VStr s => match s with [] => false | _ => true end
  | VArr _ | VObj _ => true
  end.

(** [a || b] *)
Definition or_else (a b : value) : value := if truthy a then a else b.

(** ** The expressions of the source

    In the comments, as in [jsq], [~] stands for the double-quote
    character. *)

Definition ch (a : ascii) : jschar := N_of_ascii a.
Definition C (a : ascii) : regex := Chr (is_char (ch a)).

Definition sq : jschar := ch "'".
Definition backslash : jschar := ch "\".
Definition newline : jschar := 10%N.

(** [[~']] *)
Definition is_quote : jschar -> bool := one_of [dq; sq].
Definition Quote : regex := Chr is_quote.
(** [\s*], [\s+], [\d{1,2}] *)
Definition Spaces : regex := Star true (Chr is_space).
Definition Spaces1 : regex := Plus (Chr is_space).
Definition Digit : regex := Chr is_digit.
Definition Digit12 : regex := Seq Digit (Opt Digit).

Module Re.

(** [/```(?:json)?\s*([\s\S]*?)\s*```/] *)
Definition codeBlock : regex :=
  Seqs [Lit (js "```"); Opt (Lit (js "json")); Spaces;
        Group 1 (Star false (Chr any_char)); Spaces; Lit (js "```")].

(** [/\{[\s\S]*\}/] *)
Definition jsonBlock : regex :=
  Seqs [C "{"; Star true (Chr any_char); C "}"].

(** [/[\u0000-\u001F\u007F-\u009F]/g] *)
Definition is_control (c : jschar) : bool :=
  in_range 0 31 c || in_range 127 159 c.
Definition control : regex := Chr is_control.

(** [/at (\d+):(\d+)/] *)
Definition errorAt : regex :=
  Seqs [Lit (js "at "); Group 1 (Plus Digit); C ":"; Group 2 (Plus Digit)].

(** [/[~']KEY[~']\s*:\s*[~']([^~']+)[~']/] *)
Definition stringField (key : string) : regex :=
  Seqs [Quote; Lit (js key); Quote; Spaces; C ":"; Spaces;
        Quote; Group 1 (Plus (Chr (none_of [dq; sq]))); Quote].

(** [/[~']KEY[~']\s*:\s*([\d.]+)/] *)
Definition numberField (key : string) : regex :=
  Seqs [Quote; Lit (js key); Quote; Spaces; C ":"; Spaces;
        Group 1 (Plus (Chr (fun c => is_digit c || is_char (ch ".") c)))].

(** [/[~']items[~']\s*:\s*\[([\s\S]*?)\]/] *)
Definition items : regex :=
  Seqs [Quote; Lit (js "items"); Quote; Spaces; C ":"; Spaces;
        C "["; Group 1 (Star false (Chr any_char)); C "]"].

(** [/\}\s*,\s*\{/] *)
Definition itemSplit : regex :=
  Seqs [C "}"; Spaces; C ","; Spaces; C "{"].

(** [/\\[~\\/bfnrt]/g] *)
Definition validEscape : regex :=
  Seq (C "\") (Chr (one_of (dq :: js "\/bfnrt"))).

(** [/\\/g] *)
Definition anyBackslash : regex := C "\".

(** [/(['~])?([a-zA-Z0-9_]+)(['~])?:/g] *)
Definition propertyName : regex :=
  Seqs [Opt (Group 1 Quote); Group 2 (Plus (Chr is_word));
        Opt (Group 3 Quote); C ":"].

(** [/:\s*'(Q)'/g] where [Q] is [[^']*] *)
Definition singleQuotedValue : regex :=
  Seqs [C ":"; Spaces; C "'";
        Group 1 (Star true (Chr (none_of [sq]))); C "'"].

(** [/:\s*([a-zA-Z][a-zA-Z0-9_\s]*[a-zA-Z0-9_])(?=\s*[,}])/g] *)
Definition bareValue : regex :=
  Seqs [C ":"; Spaces;
        Group 1 (Seqs [Chr is_alpha;
                       Star true (Chr (fun c => is_word c || is_space c));
                       Chr is_word]);
        Look (Seq Spaces (Chr (one_of (js ",}"))))].

(** [/X\s*Y/g] for two characters [X] and [Y] *)
Definition adjacent (x y : jschar) : regex :=
  Seqs [Chr (is_char x); Spaces; Chr (is_char y)].

(** [/~\s*,\s*~/g] *)
Definition quoteCommaQuote : regex :=
  Seqs [Chr (is_char dq); Spaces; C ","; Spaces; Chr (is_char dq)].

(** [/~,\s*~/g] *)
Definition quoteCommaQuote0 : regex :=
  Seqs [Chr (is_char dq); C ","; Spaces; Chr (is_char dq)].

(** [/~\s*\n\s*~/g] *)
Definition brokenString : regex :=
  Seqs [Chr (is_char dq); Spaces; Chr (is_char newline); Spaces;
        Chr (is_char dq)].

(** [/\n/g] *)
Definition lineBreak : regex := Chr (is_char newline).

(** [/\\\\~/g] *)
Definition doubleEscapedQuote : regex :=
  Seqs [C "\"; C "\"; Chr (is_char dq)].

(** [/(\d{1,2})\/(\d{1,2})\/(\d{2})(?:\s+(\d{1,2}):(\d{1,2})(?::(\d{1,2}))?)?/] *)
Definition dateDMYY : regex :=
  Seqs [Group 1 Digit12; C "/"; Group 2 Digit12; C "/";
        Group 3 (Seq Digit Digit);
        Opt (Seqs [Spaces1; Group 4 Digit12; C ":"; Group 5 Digit12;
                   Opt (Seq (C ":") (Group 6 Digit12))])].

Definition Digit4 : regex := Seqs [Digit; Digit; Digit; Digit].

(** [/(\d{1,2})\/(\d{1,2})\/(\d{4})/] *)
Definition dateMDYYYY : regex :=
  Seqs [Group 1 Digit12; C "/"; Group 2 Digit12; C "/"; Group 3 Digit4].

(** [/(\d{1,2})-(\d{1,2})-(\d{4})/] *)
Definition dateDMYYYY : regex :=
  Seqs [Group 1 Digit12; C "-"; Group 2 Digit12; C "-"; Group 3 Digit4].

End Re.

(** ** [sanitizeJsonString] *)

(** Decimal digits of a natural number, for [`${index}`]. *)
Definition nat_to_js (n : nat) : jsstring :=
  js (NilEmpty.string_of_uint (Nat.to_uint n)).

(** [`__ESCAPE_${index}__`] *)
Definition placeholder (index : nat) : jsstring :=
  js "__ESCAPE_" ++ nat_to_js index ++ js "__".

(** [validEscapeMatches.forEach((match, index) => ...)]: each matched
    escape, in turn, has its first occurrence replaced by its
    placeholder. *)
Fixpoint storeEscapes (matches : list jsstring) (index : nat)
    (cleaned : jsstring) : jsstring :=
  match matches with
  | [] => cleaned
  | m :: rest =>
      storeEscapes rest (S index) (replace_str m (placeholder index) cleaned)
  end.

(** [escapeMap.validEscapes.forEach(({ original, placeholder }) => ...)] *)
Fixpoint restoreEscapes (matches : list jsstring) (index : nat)
    (cleaned : jsstring) : jsstring :=
  match matches with
  | [] => cleaned
  | m :: rest =>
      restoreEscapes rest (S index) (replace_str (placeholder index) m cleaned)
  end.

(** Step 3: keep the valid escape sequences, drop every other
    backslash. *)
Definition fixEscapes (cleaned : jsstring) : jsstring :=
  let validEscapeMatches := match_all Re.validEscape cleaned in
  let cleaned := storeEscapes validEscapeMatches 0 cleaned in
  let cleaned := replace_all Re.anyBackslash [] cleaned in
  restoreEscapes validEscapeMatches 0 cleaned.

Definition lbrace : jschar := ch "{".
Definition rbrace : jschar := ch "}".
Definition lbracket : jschar := ch "[".
Definition rbracket : jschar := ch "]".

(** Step 4: the chain of [replace] calls, in the order of the source. *)
Definition syntaxFixes : list (regex * template) :=
  [ (Re.propertyName, [TLit [dq]; TGroup 2; TLit (jsq "~:")]);
    (Re.singleQuotedValue, [TLit (jsq ": ~"); TGroup 1; TLit [dq]]);
    (Re.bareValue, [TLit (jsq ": ~"); TGroup 1; TLit [dq]]);
    (Re.adjacent (ch ",") rbrace, [TLit (js "}")]);
    (Re.adjacent (ch ",") rbracket, [TLit (js "]")]);
    (Re.adjacent rbrace lbrace, [TLit (js "}, {")]);
    (Re.adjacent rbracket lbracket, [TLit (js "], [")]);
    (Re.adjacent dq lbracket, [TLit (jsq "~, [")]);
    (Re.adjacent rbracket dq, [TLit (jsq "], ~")]);
    (Re.adjacent rbrace lbracket, [TLit (js "}, [")]);
    (Re.adjacent rbracket lbrace, [TLit (js "], {")]);
    (Re.quoteCommaQuote0, [TLit (jsq "~, ~")]);
    (Re.quoteCommaQuote, [TLit (jsq "~, ~")]);
    (Re.brokenString, [TLit (js " ")]);
    (Re.lineBreak, [TLit (js " ")]) ].

Definition fixSyntax (cleaned : jsstring) : jsstring :=
  fold_left (fun cleaned rt => replace_all (fst rt) (snd rt) cleaned)
    syntaxFixes cleaned.

(** Step 5: the brace envelope. *)
Definition ensureObject (cleaned : jsstring) : jsstring :=
  let cleaned :=
    if negb (startsWith cleaned [lbrace]) then lbrace :: cleaned else cleaned in
  if negb (endsWith cleaned [rbrace]) then cleaned ++ [rbrace] else cleaned.

(** Step 6, the loop over the characters of [cleaned]: [inString] and
    [inEscape] are the two flags of the source, and the four tests come
    in the order of the source. *)
Fixpoint quoteLoop (inString inEscape : bool) (cleaned : jsstring) : jsstring :=
  match cleaned with
  | [] => []
  | char :: rest =>
      if inEscape then char :: quoteLoop inString false rest
      else if N.eqb char backslash then char :: quoteLoop inString true rest
      else if N.eqb char dq then char :: quoteLoop (negb inString) false rest
      else if inString && (N.eqb char dq || N.eqb char sq)
           then ch " " :: quoteLoop inString false rest
           else char :: quoteLoop inString false rest
  end.

(** [result || cleaned] *)
Definition nestedQuotes (cleaned : jsstring) : jsstring :=
  match quoteLoop false false cleaned with
  | [] => cleaned
  | result => result
  end.

(** The replacement of step 6: a backslash and a double quote. *)
Definition collapseTemplate : template := [TLit (jsq "\~")].

(** Steps 2 to 6 on a string. *)
Definition sanitizeSteps (jsonStr : jsstring) : jsstring :=
  let cleaned := trim jsonStr in
  let cleaned := fixEscapes cleaned in
  let cleaned := fixSyntax cleaned in
  let cleaned := ensureObject cleaned in
  let cleaned := replace_all Re.doubleEscapedQuote collapseTemplate cleaned in
  nestedQuotes cleaned.

Definition fallbackJson : jsstring :=
  jsq "{~vendorName~:~Unknown Vendor~,~transactionDate~:~2023-01-01~,~totalAmount~:0,~items~:[]}".

(** The body of the [try] block: the text it makes of a string, and
    nothing when it throws.  The type annotation [string] is erased at
    run time, and anything but a string makes the body throw a
    [TypeError] before step 3: at [jsonStr.length] for [null] and
    [undefined]; otherwise, if not before (the conversions of the
    logging can throw too), at [jsonStr.substring] or [jsonStr.trim],
    which no value parsed from JSON has as a function.  On a string
    nothing throws.  The exception is only logged by the [catch], so it
    is not kept here. *)
Definition sanitizeBody (jsonStr : value) : option jsstring :=
  match jsonStr with
  | VStr s => Some (sanitizeSteps s)
  | _ => None
  end.

(** The whole function: the [catch] returns the fixed text.  The debug
    logging and the trial [JSON.parse] of the result, whose outcome is
    only logged, leave no trace in the value returned. *)
Definition sanitizeJsonString (jsonStr : value) : outcome jsstring :=
  match sanitizeBody jsonStr with
  | Some cleaned => Ret cleaned
  | None => Ret fallbackJson
  end.

(** ** [parseFloat], [parseInt], [String] *)

(** The longest prefix of [s] whose characters satisfy [p], and the
    rest. *)
Fixpoint span (p : jschar -> bool) (s : jsstring) : jsstring * jsstring :=
  match s with
  | x :: s' =>
      if p x then let (a, b) := span p s' in (x :: a, b) else ([], s)
  | [] => ([], [])
  end.

Definition digits_val (ds : jsstring) : N :=
  fold_left (fun acc c => (10 * acc + (c - 48))%N) ds 0%N.

Fixpoint drop_zeros (ds : jsstring) : jsstring :=
  match ds with
  | x :: ds' => if N.eqb x 48 then drop_zeros ds' else ds
  | [] => []
  end.

(** Half way from the largest finite number of binary64,
    [2^1024 - 2^971], to [2^1024]: from here on a decimal is rounded to
    an infinity. *)
Definition overflowBound : Z := 2 ^ 1024 - 2 ^ 970.

(** [2^1075]: a decimal that is at most [2^-1075], half the least
    positive number of binary64, is rounded to zero. *)
Definition underflowScale : Z := 2 ^ 1075.

(** [overflowBound <= m * 10^e] *)
Definition overflows (m : N) (e : Z) : bool :=
  if (0 <=? e)%Z then (overflowBound <=? Z.of_N m * 10 ^ e)%Z
  else (overflowBound * 10 ^ (- e) <=? Z.of_N m)%Z.

(** [m * 10^e <= 2^-1075], for [m] other than zero *)
Definition underflows (m : N) (e : Z) : bool :=
  if (0 <=? e)%Z then false
  else (Z.of_N m * underflowScale <=? 10 ^ (- e))%Z.

(** The number written [int.frac] times ten to the [exp], normalised,
    as binary64 has it at its two ends. *)
Definition mk_number (neg : bool) (int frac : jsstring) (exp : Z) : number :=
  let ds := int ++ frac in
  let sig := rev (drop_zeros (rev ds)) in
  let m := digits_val sig in
  let e := (exp - Z.of_nat (List.length frac)
            + Z.of_nat (List.length ds - List.length sig))%Z in
  if N.eqb m 0 then Fin neg 0 0
  else if overflows m e then Inf neg
  else if underflows m e then Fin neg 0 0
  else Fin neg m e.

(** An optional sign *)
Definition read_sign (s : jsstring) : bool * jsstring :=
  match s with
  | c :: r =>
      if N.eqb c (ch "-") then (true, r)
      else if N.eqb c (ch "+") then (false, r)
      else (false, s)
  | [] => (false, s)
  end.

(** ExponentPart, when complete: [e] or [E], a sign, digits *)
Definition read_exponent (s : jsstring) : Z :=
  match s with
  | c :: r =>
      if N.eqb c (ch "e") || N.eqb c (ch "E") then
        let (eneg, r') := read_sign r in
        let (ed, _) := span is_digit r' in
        match ed with
        | [] => 0%Z
        | _ => if eneg then (- Z.of_N (digits_val ed))%Z
               else Z.of_N (digits_val ed)
        end
      else 0%Z
  | [] => 0%Z
  end.

(** [parseFloat(s)]: leading white space is skipped, the longest prefix
    that is a StrDecimalLiteral is read, and [NaN] results when there
    is none. *)
Definition parseFloat (s : jsstring) : number :=
  let (neg, s0) := read_sign (trimStart s) in
  if startsWith s0 (js "Infinity") then Inf neg
  else
    let (int, s1) := span is_digit s0 in
    let (frac, s2) :=
      match s1 with
      | c :: r => if N.eqb c (ch ".") then span is_digit r else ([], s1)
      | [] => ([], s1)
      end in
    match int ++ frac with
    | [] => NaN
    | _ => mk_number neg int frac (read_exponent s2)
    end.

(** [parseInt(s, 10)]; [None] is [NaN]. *)
Definition parseInt (s : jsstring) : option Z :=
  let (neg, s0) := read_sign (trimStart s) in
  let (ds, _) := span is_digit s0 in
  match ds with
  | [] => None
  | _ => Some (if neg then - Z.of_N (digits_val ds) else Z.of_N (digits_val ds))%Z
  end.

Definition N_to_js (n : N) : jsstring :=
  js (NilEmpty.string_of_uint (N.to_uint n)).

Definition zeros (n : nat) : jsstring := repeat (ch "0") n.

(** Number::toString of a positive finite number with digits [ds] and
    value [0.ds * 10^n] *)
Definition digits_toString (ds : jsstring) (n : Z) : jsstring :=
  let k := Z.of_nat (List.length ds) in
  if (k <=? n)%Z && (n <=? 21)%Z then ds ++ zeros (Z.to_nat (n - k))
  else if (0 <? n)%Z && (n <=? 21)%Z then
    firstn (Z.to_nat n) ds ++ js "." ++ skipn (Z.to_nat n) ds
  else if (-6 <? n)%Z && (n <=? 0)%Z then
    js "0." ++ zeros (Z.to_nat (- n)) ++ ds
  else
    let e := (n - 1)%Z in
    let expo := (if (e <? 0)%Z then js "-" else js "+") ++ N_to_js (Z.abs_N e) in
    match ds with
    | [d] => [d] ++ js "e" ++ expo
    | _ => firstn 1 ds ++ js "." ++ skipn 1 ds ++ js "e" ++ expo
    end.

(** Number::toString *)
Definition Number_toString (x : number) : jsstring :=
  match x with
  | NaN => js "NaN"
  | Inf neg => if neg then js "-Infinity" else js "Infinity"
  | Fin neg m e =>
      if N.eqb m 0 then js "0"
      else
        let ds := N_to_js m in
        (if neg then js "-" else []) ++
        digits_toString ds (e + Z.of_nat (List.length ds))
  end.

Fixpoint join (sep : jsstring) (l : list jsstring) : jsstring :=
  match l with
  | [] => []
  | [a] => a
  | a :: l' => a ++ sep ++ join sep l'
  end.

(** The [TypeError] of a conversion to a primitive value that no method
    gives, with the message of V8 *)
Definition conversionError : exn :=
  TypeError (js "Cannot convert object to primitive value").

(** An own property named [name] *)
Definition hasOwn (props : list (jsstring * value)) (name : jsstring) : bool :=
  existsb (fun kv => str_eqb (fst kv) name) props.

(** [String(v)].  No property of a value parsed from JSON is callable.
    An object without a [toString] of its own is converted by
    [Object.prototype.toString]; an own [toString] hides that method,
    [valueOf], own or inherited, gives no primitive value either, and
    the conversion throws.  An array is converted by [join], which
    converts its elements in turn. *)
Fixpoint ToString (v : value) : outcome jsstring :=
  match v with
  | VUndefined => Ret (js "undefined")
  | VNull => Ret (js "null")
  | VBool b => Ret (if b then js "true" else js "false")
  | VNum n => Ret (Number_toString n)
  | VStr s => Ret s
  | VArr l =>
      parts <- mapM (fun x =>
                 match x with
                 | VUndefined | VNull => Ret []
                 | _ => ToString x
                 end) l ;;
      Ret (join (js ",") parts)
  | VObj props =>
      if hasOwn props (js "toString") then Throw conversionError
      else Ret (js "[object Object]")
  end.

(** [String(v)] throws. *)
Fixpoint unprintable (v : value) : bool :=
  match v with
  | VArr l => existsb unprintable l
  | VObj props => hasOwn props (js "toString")
  | _ => false
  end.

(** [parseFloat(String(raw || dflt))], the coercion of the three numeric
    fields *)
Definition coerceNumber (raw : value) (dflt : string) : outcome value :=
  s <- ToString (or_else raw (VStr (js dflt))) ;;
  Ret (VNum (parseFloat s)).

(** ** Dates *)

(** A [Date] object is its time value, in milliseconds since the epoch
    in UTC; [None] is the invalid date, whose time value is [NaN]. *)
Definition Date := option Z.

Definition msPerDay : Z := 86400000.

(** The day number of the first day of month [month] (zero-based and of
    any size, as in MakeDay) of [year], plus [date - 1]. *)
Definition MakeDay (year month date : Z) : Z :=
  let ym := (year + month / 12)%Z in
  let mn := (month mod 12 + 1)%Z in
  let y := (if mn <=? 2 then ym - 1 else ym)%Z in
  let era := (y / 400)%Z in
  let yoe := (y - era * 400)%Z in
  let doy := ((153 * (if 2 <? mn then mn - 3 else mn + 9) + 2) / 5)%Z in
  let doe := (yoe * 365 + yoe / 4 - yoe / 100 + doy)%Z in
  (era * 146097 + doe - 719468 + date - 1)%Z.

Definition MakeTime (hour min sec ms : Z) : Z :=
  (hour * 3600000 + min * 60000 + sec * 1000 + ms)%Z.

Definition MakeDate (day time : Z) : Z := (day * msPerDay + time)%Z.

Definition TimeClip (t : Z) : Date :=
  if (Z.abs t <=? 8640000000000000)%Z then Some t else None.

(** Year, month (1 to 12) and day of the month of a day number. *)
Definition civil (day : Z) : Z * Z * Z :=
  let z := (day + 719468)%Z in
  let era := (z / 146097)%Z in
  let doe := (z - era * 146097)%Z in
  let yoe := ((doe - doe / 1460 + doe / 36524 - doe / 146096) / 365)%Z in
  let doy := (doe - (365 * yoe + yoe / 4 - yoe / 100))%Z in
  let mp := ((5 * doy + 2) / 153)%Z in
  let d := (doy - (153 * mp + 2) / 5 + 1)%Z in
  let m := (if mp <? 10 then mp + 3 else mp - 9)%Z in
  ((if m <=? 2 then yoe + era * 400 + 1 else yoe + era * 400)%Z, m, d).

Section LocalTime.

(** The offset of local time from UTC, in milliseconds, taken as
    fixed. *)
Variable LocalTZA : Z.

(** [new Date(year, month, day, hour, minute, second)]; a [NaN]
    argument ([None]) gives the invalid date, and a year from 0 to 99
    counts from 1900. *)
Definition newDate (year month day hour minute second : option Z) : Date :=
  match year, month, day, hour, minute, second with
  | Some y, Some mo, Some d, Some h, Some mi, Some s =>
      let yr := (if (0 <=? y) && (y <=? 99) then 1900 + y else y)%Z in
      TimeClip (MakeDate (MakeDay yr mo d) (MakeTime h mi s 0) - LocalTZA)
  | _, _, _, _, _, _ => None
  end.

Definition localDay (t : Z) : Z := ((t + LocalTZA) / msPerDay)%Z.
Definition localTimeInDay (t : Z) : Z := ((t + LocalTZA) mod msPerDay)%Z.

Definition getFullYear (d : Date) : option Z :=
  option_map (fun t => fst (fst (civil (localDay t)))) d.
(** zero-based, as [getMonth()] *)
Definition getMonth (d : Date) : option Z :=
  option_map (fun t => (snd (fst (civil (localDay t))) - 1)%Z) d.
Definition getDate (d : Date) : option Z :=
  option_map (fun t => snd (civil (localDay t))) d.
Definition getHours (d : Date) : option Z :=
  option_map (fun t => (localTimeInDay t / 3600000)%Z) d.
Definition getMinutes (d : Date) : option Z :=
  option_map (fun t => ((localTimeInDay t / 60000) mod 60)%Z) d.
Definition getSeconds (d : Date) : option Z :=
  option_map (fun t => ((localTimeInDay t / 1000) mod 60)%Z) d.

End LocalTime.

(** ** [parseDate] *)

(** [parseInt(m[i], 10)]; an absent group reads as [NaN]. *)
Definition groupInt (m : rmatch_result) (i : nat) : option Z :=
  match m_group m i with
  | Some s => parseInt s
  | None => None
  end.

(** [m[i] ? parseInt(m[i], 10) : 0] *)
Definition groupIntOr0 (m : rmatch_result) (i : nat) : option Z :=
  match m_group m i with
  | Some ((_ :: _) as s) => parseInt s
  | _ => Some 0%Z
  end.

(** What [parseDate] is given: a [Date] object, or any other value. *)
Inductive dateArg : Type :=
| ADate (d : Date)
| AValue (v : value).

(** ToIntegerOrInfinity of a finite number *)
Definition truncate (neg : bool) (m : N) (e : Z) : Z :=
  let a := (if 0 <=? e then Z.of_N m * 10 ^ e
            else Z.of_N m / 10 ^ (- e))%Z in
  if neg then (- a)%Z else a.

Section DateResolver.

Variable LocalTZA : Z.
(** [new Date()] *)
Variable now : Date.
(** [new Date(s)] for a string [s]: but for the ISO format, what it
    accepts is left to the implementation. *)
Variable nativeParse : jsstring -> Date.

(** [new Date(v)] for a value [v] that is no [Date].  An object or
    an array is converted to a primitive value first: [valueOf] gives
    the object itself, so the conversion is that of [String], and
    throws where [String] throws. *)
Definition dateOfValue (v : value) : outcome Date :=
  match v with
  | VStr s => Ret (nativeParse s)
  | VArr _ | VObj _ => s <- ToString v ;; Ret (nativeParse s)
  | VNum (Fin neg m e) => Ret (TimeClip (truncate neg m e))
  | VNum _ => Ret None
  | VBool b => Ret (Some (if b then 1 else 0)%Z)
  | VNull => Ret (Some 0%Z)
  | VUndefined => Ret None
  end.

(** The three formats, in the order of the source: the expression and
    the function [fn]. *)
Definition fnDMYY (m : rmatch_result) : Date :=
  let year := option_map (Z.add 2000) (groupInt m 3) in
  let month := option_map (fun x => x - 1)%Z (groupInt m 2) in
  let day := groupInt m 1 in
  let hour := groupIntOr0 m 4 in
  let minute := groupIntOr0 m 5 in
  let second := groupIntOr0 m 6 in
  newDate LocalTZA year month day hour minute second.

Definition fnMDYYYY (m : rmatch_result) : Date :=
  let month := option_map (fun x => x - 1)%Z (groupInt m 1) in
  let day := groupInt m 2 in
  let year := groupInt m 3 in
  newDate LocalTZA year month day (Some 0%Z) (Some 0%Z) (Some 0%Z).

Definition fnDMYYYY (m : rmatch_result) : Date :=
  let day := groupInt m 1 in
  let month := option_map (fun x => x - 1)%Z (groupInt m 2) in
  let year := groupInt m 3 in
  newDate LocalTZA year month day (Some 0%Z) (Some 0%Z) (Some 0%Z).

Definition formats : list (regex * (rmatch_result -> Date)) :=
  [ (Re.dateDMYY, fnDMYY);
    (Re.dateMDYYYY, fnMDYYYY);
    (Re.dateDMYYYY, fnDMYYYY) ].

(** [for (const format of formats) ...]: none of the three [fn]
    throws, so the first expression that matches decides; after the
    loop comes [new Date()]. *)
Fixpoint tryFormats (fs : list (regex * (rmatch_result -> Date)))
    (dateStr : jsstring) : Date :=
  match fs with
  | [] => now
  | (re, fn) :: rest =>
      match search re dateStr with
      | Some m => fn m
      | None => tryFormats rest dateStr
      end
  end.

Definition parseDate (dateStr : dateArg) : outcome Date :=
  match dateStr with
  | ADate d => Ret d
  | AValue v =>
      if negb (truthy v) then Ret now
      else
        parsedDate <- dateOfValue v ;;
        match parsedDate with
        | Some t => Ret (Some t)
        | None =>
            match v with
            | VStr s => Ret (tryFormats formats s)
            | _ => Throw (notAFunction "dateStr" "match")
            end
        end
  end.

End DateResolver.

(** ** The service *)

Definition isArray (v : value) : bool :=
  match v with
  | VArr _ => true
  | _ => false
  end.

(** [typeof v === 'object'] *)
Definition isObjectType (v : value) : bool :=
  match v with
  | VNull | VArr _ | VObj _ => true
  | _ => false
  end.

(** The record with the four fields *)
Definition receipt (vendorName transactionDate totalAmount items : value) : value :=
  VObj [ (js "vendorName", vendorName);
         (js "transactionDate", transactionDate);
         (js "totalAmount", totalAmount);
         (js "items", items) ].

Definition receiptItem (name quantity price : value) : value :=
  VObj [ (js "name", name); (js "quantity", quantity); (js "price", price) ].

(** [getPositionFromLineCol] *)
Fixpoint sumLines (lines : list jsstring) (i line position : Z) : Z :=
  match lines with
  | [] => position
  | l :: rest =>
      if (i <? line - 1)%Z
      then sumLines rest (i + 1)%Z line (position + Z.of_nat (List.length l) + 1)%Z
      else position
  end.

Definition getPositionFromLineCol (text : jsstring) (line col : Z) : Z :=
  let lines := split_char newline text in
  let position := sumLines lines 0 line 0 in
  if (line <=? Z.of_nat (List.length lines))%Z
  then (position + (col - 1))%Z
  else position.

(** The diagnostic of the lenient-parse handler: the position and the
    snippet it logs, if it logs them.  [parseInt] of a group of digits
    is never [NaN]. *)
Definition errorContext (sanitizedJson : jsstring) (json5Error : exn)
  : option (Z * jsstring) :=
  if includes (message json5Error) (js "at") then
    match search Re.errorAt (message json5Error) with
    | Some errorParts =>
        match groupInt errorParts 1, groupInt errorParts 2 with
        | Some line, Some col =>
            let position := getPositionFromLineCol sanitizedJson line col in
            if negb (position =? -1)%Z then
              Some (position,
                    substring sanitizedJson
                      (Z.to_nat (Z.max 0 (position - 20)))
                      (Z.to_nat (Z.min (Z.of_nat (List.length sanitizedJson))
                                       (position + 20))))
            else None
        | _, _ => None
        end
    | None => None
    end
  else None.

(** What an attempt of the strategy chain leaves behind: the record, or
    nothing but the diagnostic. *)
Inductive attempt : Type :=
| Parsed (data : value)
| Failed (context : option (Z * jsstring)).

Section Service.

(** [new Date().toISOString()]: the readings of the clock within one
    call are taken as one instant. *)
Variable nowISO : jsstring.
(** [JSON.parse] and [JSON5.parse] *)
Variable JSON_parse : jsstring -> outcome value.
Variable JSON5_parse : jsstring -> outcome value.

Definition defaultData : value :=
  receipt (VStr (js "Unknown Vendor")) (VStr nowISO)
          (VNum (Fin false 0 0)) (VArr []).

(** The callback of [data.items.map] *)
Definition cleanItem (item : value) : outcome value :=
  name <- get item (js "name") ;;
  rawQuantity <- get item (js "quantity") ;;
  quantity <- coerceNumber rawQuantity "1" ;;
  rawPrice <- get item (js "price") ;;
  price <- coerceNumber rawPrice "0" ;;
  Ret (receiptItem (or_else name (VStr (js "Unnamed Item"))) quantity price).

Definition validateAndCleanData (data : value) : outcome value :=
  if negb (truthy data) || negb (isObjectType data) then Ret defaultData
  else
    vendorName <- get data (js "vendorName") ;;
    transactionDate <- get data (js "transactionDate") ;;
    rawTotal <- get data (js "totalAmount") ;;
    totalAmount <- coerceNumber rawTotal "0" ;;
    items <- get data (js "items") ;;
    items' <- match items with
              | VArr l => l' <- mapM cleanItem l ;; Ret (VArr l')
              | _ => Ret (VArr [])
              end ;;
    Ret (receipt (or_else vendorName (VStr (js "Unknown Vendor")))
                 (or_else transactionDate (VStr nowISO))
                 totalAmount
                 items').

(** [m ? m[1] : dflt] *)
Definition group1Or (m : option rmatch_result) (f : jsstring -> value)
    (dflt : value) : value :=
  match m with
  | Some r => match m_group r 1 with Some s => f s | None => VUndefined end
  | None => dflt
  end.

(** The innermost [catch] of the item callback: the three fields read
    by expressions. *)
Definition itemFromFields (sanitizedItemStr : jsstring) : value :=
  let nameMatch := search (Re.stringField "name") sanitizedItemStr in
  let quantityMatch := search (Re.numberField "quantity") sanitizedItemStr in
  let priceMatch := search (Re.numberField "price") sanitizedItemStr in
  receiptItem
    (group1Or nameMatch VStr (VStr (js "Unknown Item")))
    (group1Or quantityMatch (fun s => VNum (parseFloat s)) (VNum (Fin false 1 0)))
    (group1Or priceMatch (fun s => VNum (parseFloat s)) (VNum (Fin false 0 0))).

(** The callback of [itemStrings.map]: the two tests that give the
    item string its braces, then the three attempts. *)
Definition ensureBraces (itemStr : jsstring) : jsstring :=
  let itemStr :=
    if negb (startsWith (trim itemStr) [lbrace]) then lbrace :: itemStr
    else itemStr in
  if negb (endsWith (trim itemStr) [rbrace]) then itemStr ++ [rbrace]
  else itemStr.

Definition parseItem (itemStr : jsstring) : outcome value :=
  sanitizedItemStr <- sanitizeJsonString (VStr (ensureBraces itemStr)) ;;
  try_catch (JSON_parse sanitizedItemStr) (fun e =>
    try_catch (JSON5_parse sanitizedItemStr) (fun e2 =>
      Ret (itemFromFields sanitizedItemStr))).

Definition extractDataWithRegex (text : jsstring) (defaultData : value)
  : outcome value :=
  let vendorNameMatch := search (Re.stringField "vendorName") text in
  let dateMatch := search (Re.stringField "transactionDate") text in
  let totalMatch := search (Re.numberField "totalAmount") text in
  dfltVendor <- get defaultData (js "vendorName") ;;
  dfltDate <- get defaultData (js "transactionDate") ;;
  dfltTotal <- get defaultData (js "totalAmount") ;;
  let itemsMatch := search Re.items text in
  items <- match itemsMatch with
           | Some m =>
               match m_group m 1 with
               | Some ((_ :: _) as body) =>
                   let itemStrings := split_regex Re.itemSplit body in
                   mapM parseItem itemStrings
               | _ => Ret []
               end
           | None => Ret []
           end ;;
  Ret (receipt (group1Or vendorNameMatch VStr dfltVendor)
               (group1Or dateMatch VStr dfltDate)
               (group1Or totalMatch (fun s => VNum (parseFloat s)) dfltTotal)
               (VArr items)).

(** Step 1 of [extractJsonFromLLMResponse]: the fenced block if its
    content is not empty, else the span from the first [{] to the last
    [}]. *)
Definition locateJson (text : jsstring) : option jsstring :=
  let fenced :=
    match search Re.codeBlock text with
    | Some codeBlockMatch =>
        match m_group codeBlockMatch 1 with
        | Some ((_ :: _) as content) => Some content
        | _ => None
        end
    | None => None
    end in
  match fenced with
  | Some content => Some content
  | None =>
      match search Re.jsonBlock text with
      | Some jsonBlockMatch => Some (m_text jsonBlockMatch)
      | None => None
      end
  end.

(** Approach 1 *)
Definition strictAttempt (sanitizedJson : jsstring) : outcome attempt :=
  try_catch
    (parsedData <- JSON_parse sanitizedJson ;;
     data <- validateAndCleanData parsedData ;;
     Ret (Parsed data))
    (fun jsonError => Ret (Failed None)).

(** Approach 2 *)
Definition lenientAttempt (sanitizedJson : jsstring) : outcome attempt :=
  try_catch
    (let cleanerJson := replace_all Re.control [] sanitizedJson in
     parsedData <- JSON5_parse cleanerJson ;;
     data <- validateAndCleanData parsedData ;;
     Ret (Parsed data))
    (fun json5Error => Ret (Failed (errorContext sanitizedJson json5Error))).

(** The body of the outer [try] *)
Definition extractBody (text : value) : outcome value :=
  text <- stringReceiver "text" "match" text ;;
  match locateJson text with
  | None => Ret defaultData
  | Some jsonText =>
      sanitizedJson <- sanitizeJsonString (VStr jsonText) ;;
      first <- strictAttempt sanitizedJson ;;
      match first with
      | Parsed data => Ret data
      | Failed _ =>
          second <- lenientAttempt sanitizedJson ;;
          match second with
          | Parsed data => Ret data
          | Failed _ => extractDataWithRegex sanitizedJson defaultData
          end
      end
  end.

Definition extractJsonFromLLMResponse (text : value) : outcome value :=
  try_catch (extractBody text) (fun error => Ret defaultData).

End Service.

(** ** Strict JSON parsing

    [JSON.parse] on the JSON grammar: the four white-space characters,
    the literals, numbers, strings with their escapes, arrays and
    objects; a later member of an object replaces an earlier one of the
    same name. *)

Module Json.

Definition is_ws (c : jschar) : bool :=
  N.eqb c 32 || N.eqb c 9 || N.eqb c 10 || N.eqb c 13.

Fixpoint skip_ws (s : jsstring) : jsstring :=
  match s with
  | x :: s' => if is_ws x then skip_ws s' else s
  | [] => []
  end.

Definition hex_val (c : jschar) : option N :=
  if is_digit c then Some (c - 48)%N
  else if in_range 97 102 c then Some (c - 87)%N
  else if in_range 65 70 c then Some (c - 55)%N
  else None.

Definition hex4 (a b c d : jschar) : option jschar :=
  match hex_val a, hex_val b, hex_val c, hex_val d with
  | Some x, Some y, Some z, Some w => Some (((x * 16 + y) * 16 + z) * 16 + w)%N
  | _, _, _, _ => None
  end.

Definition escaped (c : jschar) : option jschar :=
  if N.eqb c dq then Some dq
  else if N.eqb c backslash then Some backslash
  else if N.eqb c (ch "/") then Some (ch "/")
  else if N.eqb c (ch "b") then Some 8%N
  else if N.eqb c (ch "f") then Some 12%N
  else if N.eqb c (ch "n") then Some 10%N
  else if N.eqb c (ch "r") then Some 13%N
  else if N.eqb c (ch "t") then Some 9%N
  else None.

(** The characters of a string after its opening quote, up to the
    closing one. *)
Fixpoint string_body (s : jsstring) : option (jsstring * jsstring) :=
  match s with
  | [] => None
  | x :: s' =>
      if N.eqb x dq then Some ([], s')
      else if N.eqb x backslash then
        match s' with
        | e :: s'' =>
            if N.eqb e (ch "u") then
              match s'' with
              | a :: b :: c :: d :: s3 =>
                  match hex4 a b c d, string_body s3 with
                  | Some u, Some (str, rest) => Some (u :: str, rest)
                  | _, _ => None
                  end
              | _ => None
              end
            else
              match escaped e, string_body s'' with
              | Some u, Some (str, rest) => Some (u :: str, rest)
              | _, _ => None
              end
        | [] => None
        end
      else if N.ltb x 32 then None
      else
        match string_body s' with
        | Some (str, rest) => Some (x :: str, rest)
        | None => None
        end
  end.

(** A number token at the front of [s] *)
Definition number_token (s : jsstring) : option (number * jsstring) :=
  let (neg, s0) :=
    match s with
    | c :: r => if N.eqb c (ch "-") then (true, r) else (false, s)
    | [] => (false, s)
    end in
  let int_part :=
    match s0 with
    | c :: r =>
        if N.eqb c 48 then Some ([c], r)
        else if is_digit c then Some (span is_digit s0)
        else None
    | [] => None
    end in
  match int_part with
  | None => None
  | Some (int, s1) =>
      let frac_part :=
        match s1 with
        | c :: r =>
            if N.eqb c (ch ".") then
              match span is_digit r with
              | ([], _) => None
              | (frac, s2) => Some (frac, s2)
              end
            else Some ([], s1)
        | [] => Some ([], s1)
        end in
      match frac_part with
      | None => None
      | Some (frac, s2) =>
          match s2 with
          | c :: r =>
              if N.eqb c (ch "e") || N.eqb c (ch "E") then
                let (eneg, r') := read_sign r in
                match span is_digit r' with
                | ([], _) => None
                | (ed, s3) =>
                    Some (mk_number neg int frac
                            (if eneg then - Z.of_N (digits_val ed)
                             else Z.of_N (digits_val ed))%Z, s3)
                end
              else Some (mk_number neg int frac 0, s2)
          | [] => Some (mk_number neg int frac 0, s2)
          end
      end
  end.

(** [o[k] = v]: an existing member keeps its place. *)
Fixpoint set_prop (k : jsstring) (v : value) (props : list (jsstring * value))
  : list (jsstring * value) :=
  match props with
  | [] => [(k, v)]
  | (k', v') :: rest =>
      if str_eqb k' k then (k', v) :: rest
      else (k', v') :: set_prop k v rest
  end.

(** The parser proper; every call uses up input, so a [fuel] of the
    order of the length of the text is never used up. *)
Fixpoint parse_value (fuel : nat) (s : jsstring) {struct fuel}
  : option (value * jsstring) :=
  match fuel with
  | O => None
  | S fuel' =>
      match skip_ws s with
      | [] => None
      | c :: r =>
          if N.eqb c lbrace then
            match skip_ws r with
            | c' :: r' =>
                if N.eqb c' rbrace then Some (VObj [], r')
                else parse_members fuel' [] (c' :: r')
            | [] => None
            end
          else if N.eqb c lbracket then
            match skip_ws r with
            | c' :: r' =>
                if N.eqb c' rbracket then Some (VArr [], r')
                else parse_elements fuel' [] (c' :: r')
            | [] => None
            end
          else if N.eqb c dq then
            match string_body r with
            | Some (str, rest) => Some (VStr str, rest)
            | None => None
            end
          else
            match strip_prefix (js "true") (c :: r),
                  strip_prefix (js "false") (c :: r),
                  strip_prefix (js "null") (c :: r) with
            | Some rest, _, _ => Some (VBool true, rest)
            | _, Some rest, _ => Some (VBool false, rest)
            | _, _, Some rest => Some (VNull, rest)
            | None, None, None =>
                match number_token (c :: r) with
                | Some (n, rest) => Some (VNum n, rest)
                | None => None
                end
            end
      end
  end

with parse_elements (fuel : nat) (acc : list value) (s : jsstring)
    {struct fuel} : option (value * jsstring) :=
  match fuel with
  | O => None
  | S fuel' =>
      match parse_value fuel' s with
      | Some (v, rest) =>
          match skip_ws rest with
          | c :: r =>
              if N.eqb c (ch ",") then parse_elements fuel' (acc ++ [v]) r
              else if N.eqb c rbracket then Some (VArr (acc ++ [v]), r)
              else None
          | [] => None
          end
      | None => None
      end
  end

with parse_members (fuel : nat) (acc : list (jsstring * value)) (s : jsstring)
    {struct fuel} : option (value * jsstring) :=
  match fuel with
  | O => None
  | S fuel' =>
      match skip_ws s with
      | q :: r =>
          if N.eqb q dq then
            match string_body r with
            | Some (key, rest) =>
                match skip_ws rest with
                | colon :: r1 =>
                    if N.eqb colon (ch ":") then
                      match parse_value fuel' r1 with
                      | Some (v, rest') =>
                          match skip_ws rest' with
                          | c :: r2 =>
                              if N.eqb c (ch ",")
                              then parse_members fuel' (set_prop key v acc) r2
                              else if N.eqb c rbrace
                              then Some (VObj (set_prop key v acc), r2)
                              else None
                          | [] => None
                          end
                      | None => None
                      end
                    else None
                | [] => None
                end
            | None => None
            end
          else None
      | [] => None
      end
  end.

(** [JSON.parse(text)] *)
Definition parse (text : jsstring) : outcome value :=
  match parse_value (2 * List.length text + 3) text with
  | Some (v, rest) =>
      match skip_ws rest with
      | [] => Ret v
      | _ => Throw (SyntaxError (js "Unexpected non-whitespace character after JSON"))
      end
  | None => Throw (SyntaxError (js "Unexpected token in JSON"))
  end.

End Json.

(** ** Step 4 of [scanReceipt] *)

Record ReceiptData : Type := {
  vendorName : value;
  transactionDate : Date;
  totalAmount : value;
  items : value;
  imageUrl : jsstring;
  userId : jsstring
}.

Section ScanReceipt.

Variable LocalTZA : Z.
Variable now : Date.
Variable nativeParse : jsstring -> Date.

(** [imagePath.replace(/^\./, '')] *)
Definition relativeUrl (imagePath : jsstring) : jsstring :=
  match imagePath with
  | c :: rest => if N.eqb c (ch ".") then rest else imagePath
  | [] => []
  end.

(** The record [receiptData] built from [extractedData] *)
Definition formatReceipt (extractedData : value) (imagePath userId : jsstring)
  : outcome ReceiptData :=
  rawVendor <- get extractedData (js "vendorName") ;;
  rawDate <- get extractedData (js "transactionDate") ;;
  date <- parseDate LocalTZA now nativeParse (AValue rawDate) ;;
  rawTotal <- get extractedData (js "totalAmount") ;;
  total <- coerceNumber rawTotal "0" ;;
  rawItems <- get extractedData (js "items") ;;
  Ret {| vendorName := or_else rawVendor (VStr (js "Unknown Vendor"));
         transactionDate := date;
         totalAmount := total;
         items := if isArray rawItems then rawItems else VArr [];
         imageUrl := relativeUrl imagePath;
         userId := userId |}.

End ScanReceipt.

(** ** The strategy chain in the words of the specification

    An ordered list of strategies, each giving a record or nothing, run
    by a combinator that returns the first success. *)

Section StrategyChain.

Variable nowISO : jsstring.
Variable JSON_parse : jsstring -> outcome value.
Variable JSON5_parse : jsstring -> outcome value.

Definition strategy := jsstring -> option value.

Fixpoint firstSuccess (strategies : list strategy) (sanitized : jsstring)
  : option value :=
  match strategies with
  | [] => None
  | st :: rest =>
      match st sanitized with
      | Some data => Some data
      | None => firstSuccess rest sanitized
      end
  end.

Definition succeeded (o : outcome value) : option value :=
  match o with
  | Ret v => Some v
  | Throw _ => None
  end.

(** Strict parse, then normalisation *)
Definition strictStrategy : strategy := fun sanitized =>
  succeeded (parsed <- JSON_parse sanitized ;;
             validateAndCleanData nowISO parsed).

(** Lenient parse of the text without the code points U+0000 to
    U+001F and U+007F to U+009F, then normalisation *)
Definition stripControl (s : jsstring) : jsstring :=
  filter (fun c => negb (in_range 0 31 c || in_range 127 159 c)) s.

Definition lenientStrategy : strategy := fun sanitized =>
  succeeded (parsed <- JSON5_parse (stripControl sanitized) ;;
             validateAndCleanData nowISO parsed).

(** Field extraction by expressions *)
Definition regexStrategy : strategy := fun sanitized =>
  succeeded (extractDataWithRegex JSON_parse JSON5_parse sanitized
               (defaultData nowISO)).

Definition strategyChain : jsstring -> option value :=
  firstSuccess [strictStrategy; lenientStrategy; regexStrategy].

End StrategyChain.

(** ** The whole of the scan, after the model has answered

    [scanReceipt] from step 3 on: the response is parsed with
    [extractJsonFromLLMResponse], strict parsing being [Json.parse], and
    the record is built from what it returns. *)

Section Pipeline.

Variable LocalTZA : Z.
Variable now : Date.
Variable nativeParse : jsstring -> Date.
Variable nowISO : jsstring.
Variable JSON5_parse : jsstring -> outcome value.

Definition scanResponse (aiResponse imagePath userId : jsstring)
  : outcome ReceiptData :=
  extractedData <-
    extractJsonFromLLMResponse nowISO Json.parse JSON5_parse (VStr aiResponse) ;;
  formatReceipt LocalTZA now nativeParse extractedData imagePath userId.

End Pipeline.

(** ** Predicates of the claims *)

(** A finite number that is not negative; [-0] counts as zero. *)
Definition finiteNonNegative (v : value) : bool :=
  match v with
  | VNum (Fin neg m _) => negb neg || N.eqb m 0
  | _ => false
  end.

Definition isNumber (v : value) : bool :=
  match v with
  | VNum _ => true
  | _ => false
  end.

Definition isNaN (v : value) : bool :=
  match v with
  | VNum NaN => true
  | _ => false
  end.

(** The invariant of an item record *)
Definition itemInvariant (item : value) : bool :=
  match item with
  | VObj props =>
      finiteNonNegative (lookup props (js "quantity")) &&
      finiteNonNegative (lookup props (js "price"))
  | _ => false
  end.

(** An item record whose quantity and price are numbers *)
Definition numericItem (item : value) : Prop :=
  exists name quantity price,
    item = receiptItem name (VNum quantity) (VNum price).

Definition itemsInvariant (items : value) : bool :=
  match items with
  | VArr l => forallb itemInvariant l
  | _ => false
  end.

(** ** Engines and lenient parsers to run the model with *)

(** A [Date] constructor that reads the ISO date form [YYYY-MM-DD], as
    midnight UTC, and nothing else. *)
Definition isoDateOnly (s : jsstring) : Date :=
  match match_here
          (Seqs [Group 1 Re.Digit4; C "-"; Group 2 (Seq Digit Digit);
                 C "-"; Group 3 (Seq Digit Digit)]) s with
  | Some ([], c) =>
      match cap c 1, cap c 2, cap c 3 with
      | Some y, Some m, Some d =>
          let mo := Z.of_N (digits_val m) in
          let da := Z.of_N (digits_val d) in
          if ((1 <=? mo) && (mo <=? 12) && (1 <=? da) && (da <=? 31))%Z
          then TimeClip (MakeDate (MakeDay (Z.of_N (digits_val y)) (mo - 1) da) 0)
          else None
      | _, _, _ => None
      end
  | _ => None
  end.

(** A lenient parser that is no more lenient than the strict one, with
    the wording of the errors of the library. *)
Definition strictAsLenient (s : jsstring) : outcome value :=
  match Json.parse s with
  | Ret v => Ret v
  | Throw _ => Throw (SyntaxError (js "JSON5: invalid character at 1:1"))
  end.

(** ** Texts that the sanitizer keeps

    A text as a sequence of JSON tokens, each with the white space in
    front of it. *)

Definition comma : jschar := ch ",".
Definition colon : jschar := ch ":".
Definition space : jschar := ch " ".

(** A key is a token together with its colon, [~k~:]; [TWord] is one
    of [true], [false] and [null]; [TSep] is the comma. *)
Inductive token : Type :=
| TLBrace
| TRBrace
| TLBracket
| TRBracket
| TKey (k : jsstring)
| TStr (s : jsstring)
| TNum (n : jsstring)
| TWord (w : jsstring)
| TSep.

Definition print_token (t : token) : jsstring :=
  match t with
  | TLBrace => [lbrace]
  | TRBrace => [rbrace]
  | TLBracket => [lbracket]
  | TRBracket => [rbracket]
  | TKey k => dq :: k ++ [dq; colon]
  | TStr s => dq :: s ++ [dq]
  | TNum n => n
  | TWord w => w
  | TSep => [comma]
  end.

(** The white space in front of a token, and the token *)
Definition print_spaced (wt : jsstring * token) : jsstring :=
  fst wt ++ print_token (snd wt).

Definition print_tokens (toks : list (jsstring * token)) : jsstring :=
  flat_map print_spaced toks.

(** A character of a string: not a control character, not one of the
    characters the sanitizer acts on wherever they stand, and no white
    space but the space. *)
Definition strChar (c : jschar) : bool :=
  N.leb 32 c &&
  negb (one_of [dq; sq; backslash; colon;
                lbrace; rbrace; lbracket; rbracket] c) &&
  (negb (is_space c) || N.eqb c space).

(** A character of a number after the first *)
Definition numChar (c : jschar) : bool :=
  is_digit c || one_of (js ".eE+-") c.

Definition isWord (w : jsstring) : bool :=
  str_eqb w (js "true") || str_eqb w (js "false") || str_eqb w (js "null").

(** A key is a word of the property-name expression; a string has a
    character other than a comma as its first that is no space. *)
Definition token_ok (t : token) : bool :=
  match t with
  | TKey k => match k with [] => false | _ => forallb is_word k end
  | TStr s => forallb strChar s && negb (startsWith (trimStart s) [comma])
  | TNum n =>
      match n with
      | d :: ds => (is_digit d || N.eqb d (ch "-")) && forallb numChar ds
      | [] => false
      end
  | TWord w => isWord w
  | _ => true
  end.

(** [follows a b]: token [b] may come right after token [a].  A word
    comes after a bracket or a comma, not after a key. *)
Definition follows (a b : token) : bool :=
  match a, b with
  | TLBrace, (TKey _ | TRBrace) => true
  | TLBracket,
    (TStr _ | TNum _ | TWord _ | TLBrace | TLBracket | TRBracket) => true
  | TKey _, (TStr _ | TNum _ | TLBrace | TLBracket) => true
  | (TStr _ | TNum _ | TRBrace | TRBracket), (TSep | TRBrace | TRBracket) => true
  | TWord _, (TSep | TRBracket) => true
  | TSep, (TKey _ | TStr _ | TNum _ | TWord _ | TLBrace | TLBracket) => true
  | _, _ => false
  end.

Definition isRBrace (t : token) : bool :=
  match t with
  | TRBrace => true
  | _ => false
  end.

(** Every gap white space of JSON, every token well formed, every
    neighbour allowed, and a closing brace at the end *)
Fixpoint chain_ok (toks : list (jsstring * token)) : bool :=
  match toks with
  | [] => false
  | wt :: rest =>
      forallb Json.is_ws (fst wt) && token_ok (snd wt) &&
      match rest with
      | [] => isRBrace (snd wt)
      | wt2 :: _ => follows (snd wt) (snd wt2) && chain_ok rest
      end
  end.

(** The texts of claim C5: an opening brace at the very front. *)
Definition safeTokens (toks : list (jsstring * token)) : bool :=
  match toks with
  | ([], TLBrace) :: _ => chain_ok toks
  | _ => false
  end.

(** Every number is one that [JSON.parse] reads whole. *)
Definition jsonNumber (n : jsstring) : bool :=
  match Json.number_token n with
  | Some (_, []) => true
  | _ => false
  end.

Definition jsonNumbers (toks : list (jsstring * token)) : bool :=
  forallb (fun wt => match snd wt with
                     | TNum n => jsonNumber n
                     | _ => true
                     end) toks.

Definition startsQuote (t : token) : bool :=
  match t with
  | TKey _ | TStr _ => true
  | _ => false
  end.

Definition isStr (t : token) : bool :=
  match t with
  | TStr _ => true
  | _ => false
  end.

Definition isEmpty (w : jsstring) : bool :=
  match w with
  | [] => true
  | _ => false
  end.

(** What one of the two quote-comma-quote expressions of step 4 makes
    of the white space: between a string and the quote that comes after
    its comma, a comma and one space.  [tight] is the first expression,
    which wants the comma right after the quote; [afterStr] tells that
    the token before was a string. *)
Fixpoint respace (tight afterStr : bool) (toks : list (jsstring * token))
  : list (jsstring * token) :=
  match toks with
  | [] => []
  | wt :: rest =>
      match snd wt, rest with
      | TSep, wt3 :: rest3 =>
          if afterStr && startsQuote (snd wt3) && (negb tight || isEmpty (fst wt))
          then ([], TSep) :: ([space], snd wt3)
                 :: respace tight (isStr (snd wt3)) rest3
          else wt :: respace tight false rest
      | t, _ => wt :: respace tight (isStr t) rest
      end
  end.

(** [/\n/g] on white space *)
Definition unbreak (w : jsstring) : jsstring :=
  List.map (fun c => if N.eqb c newline then space else c) w.

(** The tokens of a text after the sanitizer *)
Definition sanitizedTokens (toks : list (jsstring * token))
  : list (jsstring * token) :=
  List.map (fun wt => (unbreak (fst wt), snd wt))
    (respace false false (respace true false toks)).


(** The white space is what the sanitizer makes it: no line break, and
    a comma and one space between a string and the quote that comes
    after its comma. *)
Fixpoint tidy (afterStr : bool) (toks : list (jsstring * token)) : bool :=
  match toks with
  | [] => true
  | wt :: rest =>
      forallb (fun c => negb (N.eqb c newline)) (fst wt) &&
      match snd wt, rest with
      | TSep, wt3 :: rest3 =>
          if afterStr && startsQuote (snd wt3)
          then isEmpty (fst wt) && str_eqb (fst wt3) [space] &&
               tidy (isStr (snd wt3)) rest3
          else tidy false rest
      | t, _ => tidy (isStr t) rest
      end
  end.

(** The normal form of the sanitizer *)
Definition normalTokens (toks : list (jsstring * token)) : bool :=
  safeTokens toks && tidy false toks.

(** [u] is what is left of [s] from some position on. *)
Definition Suffix (u s : jsstring) : Prop := exists pre, s = pre ++ u.

(** The end of a property name: a colon, or a quote and a colon *)
Definition keyEnd (s : jsstring) : bool :=
  match s with
  | x :: s' =>
      N.eqb x colon ||
      (is_quote x && match s' with y :: _ => N.eqb y colon | [] => false end)
  | [] => false
  end.

(** No run of word characters at the front of [s] is followed by the
    end of a property name. *)
Definition NoKeyEnd (s : jsstring) : Prop :=
  forall w rest, s = w ++ rest -> forallb is_word w = true -> keyEnd rest = false.

(** The local conditions under which the expressions of steps 3 to 6,
    other than the three that act on white space, find nothing to
    change at the front of [u]: the first character is no backslash
    and no single quote; with the next character that is no white
    space, it is none of the pairs the expressions look for; and
    between a quote and a quote that comes next there is no line
    break. *)
Definition cleanChar (c : jschar) : bool :=
  negb (one_of [backslash; sq] c).

Definition pairAllowed (x y : jschar) : bool :=
  if N.eqb x colon then negb (is_alpha y || N.eqb y sq)
  else if N.eqb x comma then negb (one_of [rbrace; rbracket] y)
  else if N.eqb x rbrace then negb (one_of [lbrace; lbracket] y)
  else if N.eqb x rbracket then negb (one_of [lbracket; dq; lbrace] y)
  else if N.eqb x dq then negb (N.eqb y lbracket)
  else true.

Definition breakFree (u1 : jsstring) : bool :=
  negb (existsb (N.eqb newline) (fst (span is_space u1))).

Definition localOk (u : jsstring) : bool :=
  match u with
  | [] => true
  | x :: u1 =>
      cleanChar x &&
      match trimStart u1 with
      | [] => true
      | y :: _ =>
          pairAllowed x y &&
          (negb (N.eqb x dq && N.eqb y dq) || breakFree u1)
      end
  end.

(** A match is harmless when the template gives back the text it
    replaces. *)
Definition harmless (r : regex) (t : template) (u : jsstring) : Prop :=
  match_here r u = None \/
  exists x m rest c,
    u = (x :: m) ++ rest /\ match_here r u = Some (rest, c) /\
    expand t c = x :: m.

(** The replacement of the two quote-comma-quote expressions of step 4 *)
Definition quoteTemplate : template := [TLit (jsq "~, ~")].

(** The two expressions, by the flag of [respace] *)
Definition quoteComma (tight : bool) : regex :=
  if tight then Re.quoteCommaQuote0 else Re.quoteCommaQuote.

(** One of the two replacements *)
Definition requote (tight : bool) (u : jsstring) : jsstring :=
  replace_all (quoteComma tight) quoteTemplate u.

(** The expression matches at the closing quote of a string that comes
    before [toks]. *)
Definition hits (tight : bool) (toks : list (jsstring * token)) : bool :=
  match toks with
  | wt :: wt3 :: _ =>
      match snd wt with
      | TSep => startsQuote (snd wt3) && (negb tight || isEmpty (fst wt))
      | _ => false
      end
  | _ => false
  end.

Definition gapOk (wt : jsstring * token) : bool := forallb Json.is_ws (fst wt).

Definition tokenOk (wt : jsstring * token) : bool := token_ok (snd wt).

Definition unbreakGaps (toks : list (jsstring * token))
  : list (jsstring * token) :=
  List.map (fun wt => (unbreak (fst wt), snd wt)) toks.

(** The expression after its optional opening quote *)
Definition keyTail : regex :=
  Seqs [Group 2 (Plus (Chr is_word)); Opt (Group 3 Quote); C ":"].

(** The first character of a token *)
Definition startChar (t : token) : jschar :=
  match t with
  | TLBrace => lbrace
  | TRBrace => rbrace
  | TLBracket => lbracket
  | TRBracket => rbracket
  | TKey _ | TStr _ => dq
  | TNum n => hd 0%N n
  | TWord w => hd 0%N w
  | TSep => comma
  end.

(** A character on which none of the local conditions bears *)
Definition neutral (x : jschar) : bool :=
  cleanChar x && negb (one_of [colon; comma; rbrace; rbracket; dq] x).

(** What may come after a value or a closing bracket, and what after a
    key or a separator *)
Definition afterValue (y : jschar) : bool := one_of [comma; rbrace; rbracket] y.

Definition valueStart (y : jschar) : bool :=
  one_of [dq; lbrace; lbracket] y || is_digit y || N.eqb y (ch "-").

(** The replacement of the property-name expression of step 4 *)
Definition keyTemplate : template := [TLit [dq]; TGroup 2; TLit (jsq "~:")].

(** A character that is neither a quote nor a colon *)
Definition plain (x : jschar) : bool :=
  negb (is_quote x) && negb (N.eqb x colon).

(** What [JSON.parse] needs of a sequence of tokens to read it token by
    token; the empty sequence is what is left at the end. *)
Fixpoint lexable (toks : list (jsstring * token)) : bool :=
  match toks with
  | [] => true
  | wt :: rest =>
      gapOk wt && tokenOk wt &&
      match snd wt with TNum n => jsonNumber n | _ => true end &&
      match rest with [] => true | wt2 :: _ => follows (snd wt) (snd wt2) end &&
      lexable rest
  end.

(** A text that goes on with no character of a number *)
Definition stops (R : jsstring) : Prop :=
  match R with
  | [] => True
  | y :: _ => numChar y = false
  end.

(** The value of a word *)
Definition wordValue (w : jsstring) : value :=
  if str_eqb w (js "true") then VBool true
  else if str_eqb w (js "false") then VBool false
  else VNull.

(** The tokens [toks] without white space *)
Definition tight (toks : list token) : list (jsstring * token) :=
  List.map (fun t => ([], t)) toks.

(** The example of the prompt as [JSON.stringify] writes it, a receipt
    on several lines, and a receipt in normal form, with the values
    they denote *)
Definition exampleTokens : list (jsstring * token) :=
  tight
    [TLBrace; TKey (js "vendorName"); TStr (js "name"); TSep;
     TKey (js "transactionDate"); TStr (js "18/05/25"); TSep;
     TKey (js "totalAmount"); TNum (js "16.05"); TSep;
     TKey (js "items"); TLBracket;
     TLBrace; TKey (js "name"); TStr (js "Items"); TSep;
     TKey (js "quantity"); TNum (js "0.87945"); TSep;
     TKey (js "price"); TNum (js "0.88"); TRBrace;
     TRBracket; TRBrace].

Definition exampleValue : value :=
  receipt (VStr (js "name")) (VStr (js "18/05/25"))
    (VNum (Fin false 1605 (-2)))
    (VArr [receiptItem (VStr (js "Items")) (VNum (Fin false 87945 (-5)))
                       (VNum (Fin false 88 (-2)))]).

Definition indent (n : nat) : jsstring := newline :: repeat space n.

Definition prettyTokens : list (jsstring * token) :=
  [([], TLBrace);
   (indent 2, TKey (js "vendorName")); ([space], TStr (js "Kedai Kopi, Ipoh"));
   ([], TSep);
   (indent 2, TKey (js "tags")); ([space], TLBracket);
   ([], TStr (js "cash")); ([space], TSep); ([], TStr (js "dine-in"));
   ([], TSep); ([space], TWord (js "null")); ([], TRBracket); ([], TSep);
   (indent 2, TKey (js "totalAmount")); ([space], TNum (js "12.5"));
   ([newline], TRBrace)].

Definition prettyValue : value :=
  VObj [(js "vendorName", VStr (js "Kedai Kopi, Ipoh"));
        (js "tags", VArr [VStr (js "cash"); VStr (js "dine-in"); VNull]);
        (js "totalAmount", VNum (Fin false 125 (-1)))].

Definition receiptTokens : list (jsstring * token) :=
  [([], TLBrace); ([], TKey (js "vendorName")); ([], TStr (js "Joe Diner"));
   ([], TSep);
   ([space], TKey (js "transactionDate")); ([], TStr (js "2025-05-18"));
   ([], TSep);
   ([space], TKey (js "totalAmount")); ([], TNum (js "12.5")); ([], TSep);
   ([space], TKey (js "items")); ([], TLBracket);
   ([], TLBrace); ([], TKey (js "name")); ([], TStr (js "tea")); ([], TSep);
   ([space], TKey (js "quantity")); ([], TNum (js "2")); ([], TSep);
   ([space], TKey (js "price")); ([], TNum (js "3.25")); ([], TRBrace);
   ([], TRBracket); ([], TRBrace)].

Definition receiptValue : value :=
  receipt (VStr (js "Joe Diner")) (VStr (js "2025-05-18"))
    (VNum (Fin false 125 (-1)))
    (VArr [receiptItem (VStr (js "tea")) (VNum (Fin false 2 0))
                       (VNum (Fin false 325 (-2)))]).

(** The line and the column, both counted from 1, that a reader is at
    after the text [p], when it was at [line] and [col] before it *)
Fixpoint lineCol (p : jsstring) (line col : Z) : Z * Z :=
  match p with
  | [] => (line, col)
  | x :: p' =>
      if N.eqb x newline then lineCol p' (line + 1) 1
      else lineCol p' line (col + 1)
  end.

(** [a] put before the first of the lines [ls] *)
Definition onFirst (a : jsstring) (ls : list jsstring) : list jsstring :=
  match ls with
  | [] => [a]
  | l :: ls' => (a ++ l) :: ls'
  end.

Definition backtick : jschar := ch "`".

(** The fence of a code block *)
Definition fence : jsstring := js "```".

(** What follows the content of a fenced block in the expression: white
    space and the closing fence *)
Definition fenceEnd : regex := Seq Spaces (Lit fence).

(** No valid escape sequence: no backslash of [s] is followed by one of
    the characters [~ \ / b f n r t]. *)
Fixpoint noValidEscape (s : jsstring) : bool :=
  match s with
  | x :: s' =>
      negb (N.eqb x backslash &&
            match s' with
            | y :: _ => one_of (dq :: js "\/bfnrt") y
            | [] => false
            end) && noValidEscape s'
  | [] => true
  end.

(** What step 6 may do to a character: keep it, or write a space for a
    single quote *)
Definition keptOrBlanked (x y : jschar) : Prop :=
  y = x \/ (x = sq /\ y = space).

(** [null] or [undefined] *)
Definition isNullish (v : value) : bool :=
  match v with
  | VUndefined | VNull => true
  | _ => false
  end.

(** [item.name] for an [item] that is neither [null] nor [undefined] *)
Definition rawField (item : value) (name : jsstring) : value :=
  match item with
  | VObj props => lookup props name
  | _ => VUndefined
  end.

(** An item on which the callback of [data.items.map] throws: [null]
    or [undefined], or one whose quantity or price [String] cannot
    convert *)
Definition badItem (item : value) : bool :=
  isNullish item ||
  unprintable (rawField item (js "quantity")) ||
  unprintable (rawField item (js "price")).

(** [NaN], or a number that is not negative: a zero, a positive finite
    number or the positive infinity *)
Definition nanOrNonNegative (v : value) : bool :=
  match v with
  | VNum NaN => true
  | VNum (Inf neg) => negb neg
  | VNum (Fin neg m _) => negb neg || N.eqb m 0
  | _ => false
  end.

Definition digitOrDot (c : jschar) : bool := is_digit c || is_char (ch ".") c.

Definition slash : jschar := ch "/".
Definition hyphen : jschar := ch "-".

(** A run of [lo] to [hi] decimal digits *)
Definition isDigits (lo hi : nat) (w : jsstring) : bool :=
  forallb is_digit w && Nat.leb lo (List.length w) && Nat.leb (List.length w) hi.

(** The number that a run of digits denotes *)
Definition digitsZ (w : jsstring) : Z := Z.of_N (digits_val w).

(** The captures of a match of the first format: day, month and year,
    then hour and minute if the time is there, then the second *)
Definition capsDMYY (c : caps) : Prop :=
  exists d mo y,
    isDigits 1 2 d = true /\ isDigits 1 2 mo = true /\ isDigits 2 2 y = true /\
    (c = [(3, y); (2, mo); (1, d)] \/
     exists h mi,
       isDigits 1 2 h = true /\ isDigits 1 2 mi = true /\
       (c = [(5, mi); (4, h); (3, y); (2, mo); (1, d)] \/
        exists sec,
          isDigits 1 2 sec = true /\
          c = [(6, sec); (5, mi); (4, h); (3, y); (2, mo); (1, d)])).

(** The captures of a match of the second or the third format *)
Definition capsYYYY (c : caps) : Prop :=
  exists a b y,
    isDigits 1 2 a = true /\ isDigits 1 2 b = true /\ isDigits 4 4 y = true /\
    c = [(3, y); (2, b); (1, a)].

(** ** [scanReceipt] of the service and of the controller

    The calls that leave the program (the file system, the
    configuration, the request to the model, the database) are
    parameters: each gives its result, or the error it throws.  The
    logging leaves no trace in what is returned or thrown. *)

(** What the two functions throw: an exception of the framework, or
    any other [Error]; each has a [message]. *)
Inductive httpError : Type :=
| BadRequestException (message : jsstring)
| NotFoundException (message : jsstring)
| OtherError (message : jsstring).

Definition errorMessage (e : httpError) : jsstring :=
  match e with
  | BadRequestException m => m
  | NotFoundException m => m
  | OtherError m => m
  end.

Inductive result (A : Type) : Type :=
| Done (a : A)
| Raised (e : httpError).

Arguments Done {A} a.
Arguments Raised {A} e.

Definition andThen {A B : Type} (x : result A) (f : A -> result B) : result B :=
  match x with
  | Done a => f a
  | Raised e => Raised e
  end.

Notation "x <~ a ;; b" := (andThen a (fun x => b))
  (at level 61, a at next level, right associativity).

(** An exception of the extraction code, seen from the HTTP layer *)
Definition ofOutcome {A : Type} (o : outcome A) : result A :=
  match o with
  | Ret a => Done a
  | Throw e => Raised (OtherError (message e))
  end.

(** [choices.length] is truthy *)
Definition lengthTruthy (choices : value) : bool :=
  match choices with
  | VArr l => match l with [] => false | _ => true end
  | VStr s => match s with [] => false | _ => true end
  | VObj props => truthy (lookup props (js "length"))
  | _ => false
  end.

(** [choices[0]] *)
Definition index0 (choices : value) : value :=
  match choices with
  | VArr l => match l with x :: _ => x | [] => VUndefined end
  | VStr s => match s with c :: _ => VStr [c] | [] => VUndefined end
  | VObj props => lookup props (js "0")
  | _ => VUndefined
  end.

Section ScanReceiptService.

Variable LocalTZA : Z.
Variable now : Date.
Variable nativeParse : jsstring -> Date.
Variable nowISO : jsstring.
Variable JSON5_parse : jsstring -> outcome value.

(** [fs.readFileSync(imagePath).toString('base64')] *)
Variable readImage : jsstring -> result jsstring.
(** [this.configService.get('OPENROUTER_API_KEY')] *)
Variable apiKey : value.
(** [axios.post(...)], from the image and the key to [response.data] *)
Variable post : jsstring -> value -> result value.

Definition invalidResponse {A : Type} : result A :=
  Raised (BadRequestException (js "Invalid response from OpenRouter API")).

(** The body of the [try] block of [scanReceipt] *)
Definition scanReceiptBody (imagePath userId : jsstring) : result ReceiptData :=
  base64Image <~ readImage imagePath ;;
  if negb (truthy apiKey)
  then Raised (BadRequestException (js "OpenRouter API key is not configured"))
  else
    data <~ post base64Image apiKey ;;
    if negb (truthy data) then invalidResponse
    else
      choices <~ ofOutcome (get data (js "choices")) ;;
      if negb (truthy choices) || negb (lengthTruthy choices)
      then invalidResponse
      else
        message <~ ofOutcome (get (index0 choices) (js "message")) ;;
        aiResponse <~ ofOutcome (get message (js "content")) ;;
        aiResponse <~ ofOutcome (stringReceiver "aiResponse" "substring" aiResponse) ;;
        ofOutcome (scanResponse LocalTZA now nativeParse nowISO JSON5_parse
                     aiResponse imagePath userId).

(** [scanReceipt] of the service: whatever the body throws is thrown
    again as a [BadRequestException]. *)
Definition scanReceipt (imagePath userId : jsstring) : result ReceiptData :=
  match scanReceiptBody imagePath userId with
  | Done receiptData => Done receiptData
  | Raised error =>
      Raised (BadRequestException
                (js "Failed to scan receipt: " ++ errorMessage error))
  end.

End ScanReceiptService.

Section ScanReceiptController.

(** The saved document *)
Variable Saved : Type.
(** [this.receiptsService.scanReceipt] and [this.receiptsService.create] *)
Variable serviceScan : jsstring -> jsstring -> result ReceiptData.
Variable create : ReceiptData -> result Saved.

(** [scanReceipt] of the controller, on the path of the uploaded file,
    if there is a file *)
Definition controllerScanReceipt (file : option jsstring)
  : result (jsstring * Saved) :=
  match file with
  | None => Raised (BadRequestException (js "No receipt image provided"))
  | Some path =>
      match
        (receiptData <~ serviceScan path (js "demo-user") ;;
         savedReceipt <~ create receiptData ;;
         Done (js "Receipt scanned and saved successfully", savedReceipt))
      with
      | Done r => Done r
      | Raised error =>
          Raised (BadRequestException
                    (js "Failed to process receipt: " ++ errorMessage error))
      end
  end.

End ScanReceiptController.

(** A request that the model answers with [content] *)
Definition answer (content : value) : value :=
  VObj [(js "choices",
         VArr [VObj [(js "message", VObj [(js "content", content)])]])].

(** The form in which [parseFloat] gives a finite number: zero with
    exponent zero, or digits without a trailing zero and a value within
    the two ends of binary64. *)
Definition canonical (x : number) : Prop :=
  match x with
  | Fin _ m e =>
      (m = 0%N /\ e = 0%Z) \/
      ((m mod 10 <> 0)%N /\ overflows m e = false /\ underflows m e = false)
  | _ => True
  end.

(** The value of the digits of [d] read after the value [acc]. *)
Fixpoint uint_val (d : Decimal.uint) (acc : N) : N :=
  match d with
  | Decimal.Nil => acc
  | Decimal.D0 l => uint_val l (10 * acc)
  | Decimal.D1 l => uint_val l (10 * acc + 1)
  | Decimal.D2 l => uint_val l (10 * acc + 2)
  | Decimal.D3 l => uint_val l (10 * acc + 3)
  | Decimal.D4 l => uint_val l (10 * acc + 4)
  | Decimal.D5 l => uint_val l (10 * acc + 5)
  | Decimal.D6 l => uint_val l (10 * acc + 6)
  | Decimal.D7 l => uint_val l (10 * acc + 7)
  | Decimal.D8 l => uint_val l (10 * acc + 8)
  | Decimal.D9 l => uint_val l (10 * acc + 9)
  end%N.

Definition digitStep (acc : N) (c : jschar) : N := (10 * acc + (c - 48))%N.

Definition signText (neg : bool) : jsstring := if neg then js "-" else [].

(** The quantity and the price of an item are numbers other than zero
    and [NaN]. *)
Definition itemTruthy (item : value) : bool :=
  match item with
  | VObj props =>
      truthy (lookup props (js "quantity")) && truthy (lookup props (js "price"))
  | _ => false
  end.

(** The same of the total and of every item of a record *)
Definition numbersTruthy (data : value) : bool :=
  match data with
  | VObj props =>
      truthy (lookup props (js "totalAmount")) &&
      match lookup props (js "items") with
      | VArr l => forallb itemTruthy l
      | _ => true
      end
  | _ => false
  end.

(** A parsed answer with numbers given as texts, and its normal form *)
Definition kopiData : value :=
  VObj [ (js "vendorName", VStr (js "Kedai Kopi"));
         (js "totalAmount", VStr (js "12.50"));
         (js "items",
          VArr [ VObj [ (js "name", VStr (js "teh tarik"));
                        (js "quantity", VNum (Fin false 2 0));
                        (js "price", VStr (js "3.25")) ] ]) ].

Definition kopiRecord : value :=
  receipt (VStr (js "Kedai Kopi")) (VStr (js "2025-05-18T10:30:00.000Z"))
          (VNum (Fin false 125 (-1)))
          (VArr [ receiptItem (VStr (js "teh tarik")) (VNum (Fin false 2 0))
                              (VNum (Fin false 325 (-2))) ]).

(** A text without braces *)
Definition noBrace (s : jsstring) : bool :=
  forallb (fun x => negb (N.eqb lbrace x) && negb (N.eqb rbrace x)) s.

(** What stands between two item objects in the array, without their
    braces: white space, a comma, white space. *)
Definition isGap (gap : jsstring * jsstring) : bool :=
  forallb is_space (fst gap) && forallb is_space (snd gap).

(** The text of an array of item objects, after the first brace:
    [first}], then for every entry of [more] a gap and [{item}]. *)
Fixpoint itemsTail (first : jsstring)
    (more : list (jsstring * jsstring * jsstring)) : jsstring :=
  first ++ rbrace ::
  match more with
  | [] => []
  | (gap, item) :: more' =>
      (fst gap ++ comma :: snd gap ++ [lbrace]) ++ itemsTail item more'
  end.

Definition itemsText (first : jsstring)
    (more : list (jsstring * jsstring * jsstring)) : jsstring :=
  lbrace :: itemsTail first more.

(** The pieces the separator leaves of it *)
Fixpoint tailPieces (first : jsstring)
    (more : list (jsstring * jsstring * jsstring)) : list jsstring :=
  match more with
  | [] => [first ++ [rbrace]]
  | (_, item) :: more' => first :: tailPieces item more'
  end.

Definition flatItems (more : list (jsstring * jsstring * jsstring)) : bool :=
  forallb (fun e => isGap (fst e) && noBrace (snd e)) more.

Definition braced (item : jsstring) : jsstring := lbrace :: item ++ [rbrace].

(** * Properties *)

#[local] Arguments N.eqb : simpl never.
#[local] Arguments N.leb : simpl never.
#[local] Arguments N.ltb : simpl never.

(** Arithmetic on the character classes *)
Ltac class_lia :=
  unfold cleanChar, strChar, numChar in *;
  unfold is_word, is_alpha, is_digit, is_space, is_quote, is_char, one_of,
    none_of, in_range, comma, colon, space, dq, sq,
    backslash, newline, lbrace, rbrace, lbracket, rbracket, ch in *;
  cbn [existsb N_of_ascii N_of_digits js List.map list_ascii_of_string] in *;
  repeat match goal with
         | H : _ = true |- _ => revert H
         | H : _ = false |- _ => revert H
         end;
  repeat first
    [ rewrite orb_false_r | rewrite orb_true_iff | rewrite andb_true_iff
    | rewrite negb_true_iff | rewrite negb_false_iff | rewrite orb_false_iff
    | rewrite andb_false_iff | rewrite N.leb_le | rewrite N.eqb_eq
    | rewrite N.eqb_neq | rewrite N.leb_gt ];
  simpl; lia.

Lemma trimStart_head (x : jschar) (s : jsstring) :
  is_space x = false -> trimStart (x :: s) = x :: s.
Proof. intros H. cbn [trimStart]. rewrite H. reflexivity. Qed.

Lemma span_all (p : jschar -> bool) (w : jsstring) :
  forallb p w = true -> span p w = (w, []).
Proof.
  induction w as [|x w IH]; [reflexivity |]. cbn [forallb span].
  intros H. apply andb_true_iff in H as [-> H]. rewrite (IH H). reflexivity.
Qed.


(** ** The outcome monad *)

Lemma bind_Ret_inv {A B : Type} (x : outcome A) (f : A -> outcome B) (b : B) :
  bind x f = Ret b -> exists a, x = Ret a /\ f a = Ret b.
Proof.
  destruct x as [a|e]; simpl; intros H; [exists a; auto | discriminate].
Qed.

(** ** Strings *)

Lemma startsWith_char (s : jsstring) (c : jschar) :
  startsWith s [c] = true <-> exists r, s = c :: r.
Proof.
  unfold startsWith; destruct s as [|y s']; simpl.
  - split; [discriminate | intros [r H]; discriminate].
  - destruct (N.eqb_spec c y) as [->|Hne].
    + split; [intros _; eexists; reflexivity | reflexivity].
    + split; [discriminate | intros [r H]; inversion H; congruence].
Qed.

Lemma endsWith_char (s : jsstring) (c : jschar) :
  endsWith s [c] = true <-> exists r, s = r ++ [c].
Proof.
  unfold endsWith; simpl rev. rewrite startsWith_char. split.
  - intros [r H]. exists (rev r).
    rewrite <- (rev_involutive s), H. reflexivity.
  - intros [r ->]. exists (rev r). apply rev_unit.
Qed.

Lemma ensureObject_envelope (s : jsstring) :
  startsWith (ensureObject s) [lbrace] = true /\
  endsWith (ensureObject s) [rbrace] = true.
Proof.
  unfold ensureObject.
  set (s1 := if negb (startsWith s [lbrace]) then lbrace :: s else s).
  assert (H1 : startsWith s1 [lbrace] = true).
  { subst s1. destruct (startsWith s [lbrace]) eqn:E; simpl; auto. }
  destruct (endsWith s1 [rbrace]) eqn:E; simpl; split; trivial.
  - apply startsWith_char in H1 as [r ->].
    apply startsWith_char. eexists; simpl; reflexivity.
  - apply endsWith_char. eexists; reflexivity.
Qed.

(** ** The scan of a global expression *)

Section ScanLemmas.
Variable B : Type.
Variable r : regex.
Variable keep : jschar -> B -> B.
Variable hit : jsstring -> caps -> B -> B.
Variable stop : B.

Lemma scan_miss (x : jschar) (s : jsstring) :
  match_here r (x :: s) = None ->
  scan r keep hit stop 0 (x :: s) = keep x (scan r keep hit stop 0 s).
Proof. intros H. simpl. rewrite H. reflexivity. Qed.

Lemma scan_hit (x : jschar) (s rest : jsstring) (c : caps) (n : nat) :
  match_here r (x :: s) = Some (rest, c) ->
  List.length (x :: s) - List.length rest = S n ->
  scan r keep hit stop 0 (x :: s) =
  hit (firstn (S n) (x :: s)) c (scan r keep hit stop n s).
Proof.
  intros H Hlen. cbn [scan]. rewrite H. cbv zeta. rewrite Hlen. reflexivity.
Qed.
End ScanLemmas.

(** ** The matcher *)

Section StarLemmas.
Variable A : Type.
Variable body : jsstring -> caps -> (jsstring -> caps -> option A) -> option A.
Variable greedy : bool.

Hypothesis body_ext : forall s c k1 k2,
  (forall s' c', k1 s' c' = k2 s' c') -> body s c k1 = body s c k2.
Hypothesis body_fail : forall s c, body s c (fun _ _ => None) = None.

Lemma star_iter_ext (k1 k2 : jsstring -> caps -> option A) :
  (forall s c, k1 s c = k2 s c) ->
  forall n s c,
    star_iter body greedy k1 n s c = star_iter body greedy k2 n s c.
Proof.
  intros Hk. induction n as [|n IH]; intros s c; simpl; rewrite Hk.
  - reflexivity.
  - match goal with
    | |- ?L = ?R =>
        match L with
        | context [body s c ?K1] =>
            match R with
            | context [body s c ?K2] =>
                assert (E : body s c K1 = body s c K2)
                  by (apply body_ext; intros s' c'; rewrite IH; reflexivity)
            end
        end
    end.
    rewrite E. reflexivity.
Qed.

Variable k : jsstring -> caps -> option A.

Lemma star_iter_nil (n : nat) (c : caps) :
  star_iter body greedy k n [] c = star_iter body greedy k 0 [] c.
Proof.
  destruct n as [|n]; [reflexivity |]. simpl.
  rewrite body_fail. reflexivity.
Qed.

(** The count of iterations never runs out: any bound from the length
    of the input on gives the same result. *)
Lemma star_iter_enough (n : nat) :
  forall m s c,
    List.length s <= n -> List.length s <= m ->
    star_iter body greedy k n s c = star_iter body greedy k m s c.
Proof.
  induction n as [|n IH]; intros m s c Hn Hm.
  - destruct s; [| simpl in Hn; lia].
    symmetry. apply star_iter_nil.
  - destruct m as [|m].
    + destruct s; [| simpl in Hm; lia]. apply star_iter_nil.
    + simpl.
      match goal with
      | |- ?L = ?R =>
          match L with
          | context [body s c ?K1] =>
              match R with
              | context [body s c ?K2] =>
                  assert (E : body s c K1 = body s c K2)
              end
          end
      end.
      { apply body_ext. intros s' c'.
        destruct (Nat.ltb_spec (List.length s') (List.length s));
          [apply IH; lia | reflexivity]. }
      rewrite E. reflexivity.
Qed.
End StarLemmas.

Lemma rmatch_ext_fail (r : regex) :
  forall A : Type,
    (forall s c (k1 k2 : jsstring -> caps -> option A),
       (forall s' c', k1 s' c' = k2 s' c') ->
       rmatch r s c k1 = rmatch r s c k2) /\
    (forall s c, rmatch r s c (fun _ _ => @None A) = None).
Proof.
  induction r as [|p|a IHa b IHb|a IHa b IHb|g a IHa|i a IHa|a IHa]; intros A.
  - split; [intros s c k1 k2 H; apply H | reflexivity].
  - split.
    + intros s c k1 k2 H. simpl. destruct s; [reflexivity |].
      destruct (p j); [apply H | reflexivity].
    + intros s c. simpl. destruct s; [reflexivity |]. destruct (p j); reflexivity.
  - destruct (IHa A) as [Ea Fa], (IHb A) as [Eb Fb]. split.
    + intros s c k1 k2 H. simpl. apply Ea. intros s' c'. apply Eb, H.
    + intros s c. simpl.
      rewrite (Ea s c) with (k2 := fun _ _ => None); [apply Fa |].
      intros s' c'. apply Fb.
  - destruct (IHa A) as [Ea Fa], (IHb A) as [Eb Fb]. split.
    + intros s c k1 k2 H. simpl.
      rewrite (Ea s c k1 k2 H), (Eb s c k1 k2 H). reflexivity.
    + intros s c. simpl. rewrite Fa, Fb. reflexivity.
  - destruct (IHa A) as [Ea Fa]. split.
    + intros s c k1 k2 H. simpl. apply star_iter_ext; [exact Ea | exact H].
    + intros s c. simpl. generalize (List.length s) at 1. intros n.
      revert s c. induction n as [|n IH]; intros s c; simpl.
      * destruct g; reflexivity.
      * rewrite (Ea s c) with (k2 := fun _ _ => None).
        -- rewrite Fa. destruct g; reflexivity.
        -- intros s' c'. rewrite IH. destruct (Nat.ltb _ _); reflexivity.
  - destruct (IHa A) as [Ea Fa]. split.
    + intros s c k1 k2 H. simpl. apply Ea. intros s' c'. apply H.
    + intros s c. simpl. apply Fa.
  - split.
    + intros s c k1 k2 H. simpl.
      destruct (rmatch a s c (fun _ c' => Some c')); [apply H | reflexivity].
    + intros s c. simpl.
      destruct (rmatch a s c (fun _ c' => Some c')); reflexivity.
Qed.

Lemma rmatch_ext (r : regex) (A : Type) (s : jsstring) (c : caps)
    (k1 k2 : jsstring -> caps -> option A) :
  (forall s' c', k1 s' c' = k2 s' c') -> rmatch r s c k1 = rmatch r s c k2.
Proof. apply rmatch_ext_fail. Qed.

Lemma rmatch_fail (r : regex) (A : Type) (s : jsstring) (c : caps) :
  rmatch r s c (fun _ _ => @None A) = None.
Proof. apply rmatch_ext_fail. Qed.

(** The equation of [a*]: one more iteration that consumes input and
    then [a*] again, or the continuation; which comes first depends on
    the greediness. *)
Lemma rmatch_star (g : bool) (a : regex) (A : Type) (s : jsstring) (c : caps)
    (k : jsstring -> caps -> option A) :
  rmatch (Star g a) s c k =
  let more :=
    rmatch a s c (fun s' c' =>
      if Nat.ltb (List.length s') (List.length s)
      then rmatch (Star g a) s' c' k else None) in
  if g
  then match more with Some x => Some x | None => k s c end
  else match k s c with Some x => Some x | None => more end.
Proof.
  cbv zeta. destruct s as [|x s].
  - simpl. rewrite rmatch_fail. reflexivity.
  - cbn [rmatch List.length star_iter].
    rewrite (@rmatch_ext a A (x :: s) c) with
      (k2 := fun s' c' =>
               if Nat.ltb (List.length s') (List.length (x :: s))
               then rmatch (Star g a) s' c' k else None);
      [reflexivity |].
    intros s' c'. cbn [rmatch List.length].
    destruct (Nat.ltb_spec (List.length s') (S (List.length s)));
      [| reflexivity].
    apply star_iter_enough; try lia.
    + intros; apply rmatch_ext; assumption.
    + intros; apply rmatch_fail.
Qed.

(** Whether a match is found does not depend on the captures, and a
    continuation that succeeds more often finds at least as much. *)
Lemma rmatch_success_mono (r : regex) :
  forall (A B : Type) s c1 c2
         (k1 : jsstring -> caps -> option A) (k2 : jsstring -> caps -> option B),
    (forall s' c1' c2', k1 s' c1' <> None -> k2 s' c2' <> None) ->
    rmatch r s c1 k1 <> None -> rmatch r s c2 k2 <> None.
Proof.
  induction r as [|p|a IHa b IHb|a IHa b IHb|g a IHa|i a IHa|a IHa];
    intros A B s c1 c2 k1 k2 Hk.
  - simpl. apply Hk.
  - simpl. destruct s; [auto |]. destruct (p j); [apply Hk | auto].
  - simpl. apply IHa. intros s' c1' c2'. apply IHb, Hk.
  - simpl. intros H.
    destruct (rmatch a s c1 k1) eqn:E1.
    + assert (H2 : rmatch a s c2 k2 <> None)
        by (apply (IHa A B s c1 c2 k1 k2 Hk); rewrite E1; discriminate).
      destruct (rmatch a s c2 k2); [discriminate | contradiction].
    + destruct (rmatch a s c2 k2); [discriminate |].
      apply (IHb A B s c1 c2 k1 k2 Hk H).
  - simpl. generalize (List.length s). intros n. revert s c1 c2.
    induction n as [|n IH]; intros s c1 c2; simpl.
    + destruct g.
      * apply Hk.
      * intros H. destruct (k1 s c1) eqn:E1; [| contradiction].
        assert (H2 : k2 s c2 <> None) by (apply (Hk s c1 c2); rewrite E1; discriminate).
        destruct (k2 s c2); [discriminate | contradiction].
    + set (m1 := rmatch a s c1 _). set (m2 := rmatch a s c2 _).
      assert (Hm : m1 <> None -> m2 <> None).
      { subst m1 m2. apply IHa. intros s' c1' c2'.
        destruct (Nat.ltb _ _); [apply IH | auto]. }
      destruct g.
      * intros H. destruct m1 eqn:E1.
        -- destruct m2; [discriminate | exfalso; apply Hm; [discriminate | reflexivity]].
        -- destruct m2; [discriminate |]. apply (Hk s c1 c2 H).
      * intros H. destruct (k1 s c1) eqn:E1.
        -- assert (H2 : k2 s c2 <> None) by (apply (Hk s c1 c2); rewrite E1; discriminate).
           destruct (k2 s c2); [discriminate | contradiction].
        -- destruct (k2 s c2); [discriminate |]. apply Hm, H.
  - simpl. apply IHa. intros s' c1' c2'. apply Hk.
  - simpl. intros H.
    destruct (rmatch a s c1 (fun _ c' => Some c')) eqn:E1; [| contradiction].
    assert (H2 : rmatch a s c2 (fun _ c' => Some c') <> None).
    { apply (IHa caps caps s c1 c2 (fun _ c' => Some c') (fun _ c' => Some c')).
      - intros; discriminate.
      - rewrite E1; discriminate. }
    destruct (rmatch a s c2 (fun _ c' => Some c')); [| contradiction].
    apply (Hk s c c0 H).
Qed.

(** ** The character loop of the sanitizer *)

(** The loop rewrites nothing but a single quote, and that to a
    space. *)
Lemma quoteLoop_cons (inString inEscape : bool) (c : jschar) (rest : jsstring) :
  exists c' inString' inEscape',
    quoteLoop inString inEscape (c :: rest) =
      c' :: quoteLoop inString' inEscape' rest /\
    (c' = c \/ (c = sq /\ c' = ch " ")).
Proof.
  simpl.
  destruct inEscape; [do 3 eexists; split; [reflexivity | auto] |].
  destruct (N.eqb c backslash); [do 3 eexists; split; [reflexivity | auto] |].
  destruct (N.eqb c dq) eqn:Edq; [do 3 eexists; split; [reflexivity | auto] |].
  destruct inString; simpl.
  - destruct (N.eqb_spec c sq) as [->|Hne];
      do 3 eexists; (split; [reflexivity | auto]).
  - do 3 eexists; split; [reflexivity | auto].
Qed.

Lemma quoteLoop_snoc (c : jschar) (s : jsstring) :
  c <> sq ->
  forall inString inEscape,
  exists r, quoteLoop inString inEscape (s ++ [c]) = r ++ [c].
Proof.
  intros Hc. induction s as [|x s IH]; intros inString inEscape.
  - destruct (quoteLoop_cons inString inEscape c []) as (c' & a & b & E & [->|[H _]]).
    + exists []. simpl app. rewrite E. reflexivity.
    + contradiction.
  - simpl app.
    destruct (quoteLoop_cons inString inEscape x (s ++ [c])) as (c' & a & b & E & _).
    destruct (IH a b) as [r Hr]. exists (c' :: r). rewrite E, Hr. reflexivity.
Qed.

Lemma nestedQuotes_envelope (s : jsstring) :
  startsWith s [lbrace] = true -> endsWith s [rbrace] = true ->
  startsWith (nestedQuotes s) [lbrace] = true /\
  endsWith (nestedQuotes s) [rbrace] = true.
Proof.
  intros H1 H2. unfold nestedQuotes.
  apply startsWith_char in H1 as [r1 E1].
  apply endsWith_char in H2 as [r2 E2].
  assert (Hs : startsWith (quoteLoop false false s) [lbrace] = true).
  { rewrite E1.
    destruct (quoteLoop_cons false false lbrace r1) as (c' & a & b & E & [->|[H _]]).
    - rewrite E. apply startsWith_char. eexists; reflexivity.
    - discriminate. }
  assert (He : endsWith (quoteLoop false false s) [rbrace] = true).
  { rewrite E2.
    destruct (@quoteLoop_snoc rbrace r2 ltac:(discriminate) false false) as [r Hr].
    rewrite Hr. apply endsWith_char. eexists; reflexivity. }
  destruct (quoteLoop false false s); [discriminate | auto].
Qed.

(** ** Collapsing double-escaped quotes keeps the envelope *)

Lemma doubleEscapedQuote_here (s : jsstring) :
  match_here Re.doubleEscapedQuote s =
  match s with
  | x :: y :: z :: rest =>
      if N.eqb backslash x && N.eqb backslash y && N.eqb dq z
      then Some (rest, []) else None
  | _ => None
  end.
Proof.
  unfold match_here, Re.doubleEscapedQuote, C, is_char, backslash, dq, ch; simpl.
  destruct s as [|x [|y [|z rest]]]; simpl; try reflexivity;
    repeat match goal with
           | |- context [N.eqb ?a ?v] => destruct (N.eqb a v); simpl
           end; reflexivity.
Qed.

Lemma collapse_cons (x : jschar) (s : jsstring) :
  x <> backslash ->
  replace_all Re.doubleEscapedQuote collapseTemplate (x :: s) =
  x :: replace_all Re.doubleEscapedQuote collapseTemplate s.
Proof.
  intros Hx. unfold replace_all. apply scan_miss.
  rewrite doubleEscapedQuote_here.
  destruct s as [|y [|z rest]]; try reflexivity.
  destruct (N.eqb_spec backslash x); [congruence | reflexivity].
Qed.

Lemma collapse_snoc_bounded (c : jschar) (n : nat) :
  c <> dq ->
  forall s, List.length s <= n ->
    replace_all Re.doubleEscapedQuote collapseTemplate (s ++ [c]) =
    replace_all Re.doubleEscapedQuote collapseTemplate s ++ [c].
Proof.
  intros Hc. induction n as [|n IH]; intros s Hn.
  - destruct s; [| simpl in Hn; lia].
    unfold replace_all. simpl app. rewrite scan_miss; [reflexivity |].
    rewrite doubleEscapedQuote_here. reflexivity.
  - destruct s as [|x s]; [apply (IH []); simpl; lia |].
    simpl in Hn. unfold replace_all in *. rewrite <- app_comm_cons.
    destruct (match_here Re.doubleEscapedQuote (x :: s)) as [[rest cs]|] eqn:E.
    + rewrite doubleEscapedQuote_here in E.
      destruct s as [|y [|z s3]]; try discriminate.
      destruct (N.eqb backslash x && N.eqb backslash y && N.eqb dq z) eqn:Eb;
        [| discriminate].
      injection E as <- <-.
      assert (E1 : match_here Re.doubleEscapedQuote (x :: y :: z :: s3)
                   = Some (s3, [])).
      { rewrite doubleEscapedQuote_here, Eb. reflexivity. }
      assert (E2 : match_here Re.doubleEscapedQuote (x :: (y :: z :: s3) ++ [c])
                   = Some (s3 ++ [c], [])).
      { rewrite doubleEscapedQuote_here. simpl. rewrite Eb. reflexivity. }
      rewrite scan_hit with (s := y :: z :: s3) (rest := s3) (c := []) (n := 2);
        [| exact E1 | cbn [List.length]; lia].
      rewrite scan_hit with (rest := s3 ++ [c]) (c := []) (n := 2);
        [| exact E2 | cbn [List.length app]; rewrite length_app; cbn [List.length]; lia].
      cbn [scan app]. simpl in Hn. rewrite (IH s3) by lia.
      reflexivity.
    + assert (E' : match_here Re.doubleEscapedQuote (x :: s ++ [c]) = None).
      { rewrite doubleEscapedQuote_here in *.
        destruct s as [|y [|z s3]]; simpl app; try reflexivity.
        - destruct (N.eqb backslash x); destruct (N.eqb backslash y); simpl;
            try reflexivity.
          destruct (N.eqb_spec dq c); [congruence | reflexivity].
        - revert E. simpl.
          destruct (N.eqb backslash x); destruct (N.eqb backslash y);
            destruct (N.eqb dq z); simpl; intros E;
            try discriminate; reflexivity. }
      rewrite scan_miss by exact E'.
      rewrite scan_miss with (s := s) by exact E.
      rewrite (IH s) by lia. reflexivity.
Qed.

Lemma collapse_envelope (s : jsstring) :
  startsWith s [lbrace] = true -> endsWith s [rbrace] = true ->
  startsWith (replace_all Re.doubleEscapedQuote collapseTemplate s) [lbrace] = true /\
  endsWith (replace_all Re.doubleEscapedQuote collapseTemplate s) [rbrace] = true.
Proof.
  intros H1 H2. split.
  - apply startsWith_char in H1 as [r ->].
    rewrite collapse_cons by discriminate.
    apply startsWith_char. eexists; reflexivity.
  - apply endsWith_char in H2 as [r ->].
    rewrite (@collapse_snoc_bounded rbrace (List.length r)) by (auto; discriminate).
    apply endsWith_char. eexists; reflexivity.
Qed.

Lemma sanitizeSteps_envelope (s : jsstring) :
  startsWith (sanitizeSteps s) [lbrace] = true /\
  endsWith (sanitizeSteps s) [rbrace] = true.
Proof.
  unfold sanitizeSteps. cbv zeta.
  destruct (ensureObject_envelope (fixSyntax (fixEscapes (trim s)))) as [H1 H2].
  destruct (collapse_envelope _ H1 H2) as [H3 H4].
  apply nestedQuotes_envelope; assumption.
Qed.

(** The sanitizer returns, whatever it is given. *)
Lemma sanitizeJsonString_returns (jsonStr : value) :
  exists s, sanitizeJsonString jsonStr = Ret s.
Proof.
  unfold sanitizeJsonString.
  destruct (sanitizeBody jsonStr); eexists; reflexivity.
Qed.

(** ** The sanitizer: claims C2, C9 and C10 *)

(** C2 (the code departs from the claim).  In the character loop of
    [sanitizeJsonString], a single quote met inside a string and not
    escaped is replaced by a space, as the claim says.  A double quote
    met there is not: the test [char === '~'] that toggles [inString]
    comes first and continues, so the replacing test never sees a
    double quote.  The quote is kept and ends the string: on
    [{~vendorName~:~Joe~s Diner~}] the sanitizer returns the text
    unchanged, and strict parsing rejects it. *)
Theorem C2_double_quote_in_string_is_kept :
  (forall rest,
     quoteLoop true false (sq :: rest) = ch " " :: quoteLoop true false rest) /\
  (forall rest,
     quoteLoop true false (dq :: rest) = dq :: quoteLoop false false rest) /\
  sanitizeJsonString (VStr (jsq "{~vendorName~:~Joe~s Diner~}"))
    = Ret (jsq "{~vendorName~:~Joe~s Diner~}") /\
  Json.parse (jsq "{~vendorName~:~Joe~s Diner~}")
    = Throw (SyntaxError (js "Unexpected token in JSON")).
Proof.
  split; [intros rest; reflexivity |].
  split; [intros rest; reflexivity |].
  split; vm_compute; reflexivity.
Qed.

(** C9.  [sanitizeJsonString] returns a text for every argument,
    never an exception.  Whenever the body of its [try] throws, which
    it does on every argument that is not a string, the text returned
    is exactly the literal
    [{~vendorName~:~Unknown Vendor~,~transactionDate~:~2023-01-01~,~totalAmount~:0,~items~:[]}]. *)
Theorem C9_sanitizer_never_fails_outward (jsonStr : value) :
  (exists s, sanitizeJsonString jsonStr = Ret s) /\
  (sanitizeBody jsonStr = None ->
   sanitizeJsonString jsonStr =
   Ret (jsq "{~vendorName~:~Unknown Vendor~,~transactionDate~:~2023-01-01~,~totalAmount~:0,~items~:[]}")) /\
  ((forall s, jsonStr <> VStr s) ->
   sanitizeBody jsonStr = None /\
   sanitizeJsonString jsonStr =
   Ret (jsq "{~vendorName~:~Unknown Vendor~,~transactionDate~:~2023-01-01~,~totalAmount~:0,~items~:[]}")).
Proof.
  split; [apply sanitizeJsonString_returns |].
  assert (H : sanitizeBody jsonStr = None ->
              sanitizeJsonString jsonStr =
              Ret (jsq "{~vendorName~:~Unknown Vendor~,~transactionDate~:~2023-01-01~,~totalAmount~:0,~items~:[]}")).
  { intros E. unfold sanitizeJsonString. rewrite E. reflexivity. }
  split; [exact H |].
  intros Hs.
  assert (E : sanitizeBody jsonStr = None).
  { destruct jsonStr; try reflexivity. exfalso. apply (Hs s). reflexivity. }
  split; [exact E | exact (H E)].
Qed.

(** A fault of the body: a number in place of the string. *)
Lemma C9_witness :
  sanitizeBody (VNum (Fin false 5 0)) = None /\
  sanitizeJsonString (VNum (Fin false 5 0)) =
  Ret (jsq "{~vendorName~:~Unknown Vendor~,~transactionDate~:~2023-01-01~,~totalAmount~:0,~items~:[]}").
Proof.
  apply (proj2 (proj2 (C9_sanitizer_never_fails_outward (VNum (Fin false 5 0))))).
  intros s. discriminate.
Defined.

(** C10.  Whatever [sanitizeJsonString] is given, the text it returns
    begins with [{] and ends with [}]: the envelope step sets the two
    braces, collapsing [\\~] and the character loop leave them, and the
    fixed text of the [catch] has them too. *)
Theorem C10_sanitized_text_is_braced (jsonStr : value) :
  exists s, sanitizeJsonString jsonStr = Ret s /\
            startsWith s [lbrace] = true /\ endsWith s [rbrace] = true.
Proof.
  unfold sanitizeJsonString.
  assert (F : exists s, Ret fallbackJson = Ret s /\
                        startsWith s [lbrace] = true /\
                        endsWith s [rbrace] = true).
  { exists fallbackJson. split; [reflexivity |]. split; vm_compute; reflexivity. }
  destruct jsonStr; try exact F. cbn [sanitizeBody].
  exists (sanitizeSteps s). split; [reflexivity |].
  apply sanitizeSteps_envelope.
Qed.

(** ** Dates: claims C4 and C8 *)

Section DateProperties.

Variable LocalTZA : Z.
Variable now : Date.
Variable nativeParse : jsstring -> Date.

Lemma parseDate_string (s : jsstring) :
  s <> [] -> nativeParse s = None ->
  parseDate LocalTZA now nativeParse (AValue (VStr s))
    = Ret (tryFormats now (formats LocalTZA) s).
Proof.
  intros Hs Hn. unfold parseDate. destruct s; [contradiction |].
  simpl truthy. simpl negb. cbv iota. simpl dateOfValue. rewrite Hn. reflexivity.
Qed.

Lemma tryFormats_DMYY (s : jsstring) (m : rmatch_result) :
  search Re.dateDMYY s = Some m ->
  tryFormats now (formats LocalTZA) s = fnDMYY LocalTZA m.
Proof. intros H. unfold formats. cbn [tryFormats]. rewrite H. reflexivity. Qed.

(** A date built from fields in range and read back in local time *)
Lemma newDate_fields (T : Z) (y mo d h mi s : Z) :
  (- msPerDay < LocalTZA < msPerDay)%Z ->
  (Z.abs T <= 8000000000000000)%Z ->
  (100 <= y)%Z ->
  MakeDate (MakeDay y mo d) (MakeTime h mi s 0) = T ->
  exists t,
    newDate LocalTZA (Some y) (Some mo) (Some d) (Some h) (Some mi) (Some s)
      = Some t /\
    (t + LocalTZA)%Z = T.
Proof.
  intros Htz HT Hy E. exists (T - LocalTZA)%Z. split; [| lia].
  unfold newDate.
  replace ((0 <=? y)%Z && (y <=? 99)%Z) with false
    by (symmetry; apply andb_false_iff; right; apply Z.leb_gt; lia).
  rewrite E. unfold TimeClip, msPerDay in *.
  destruct (Z.leb_spec (Z.abs (T - LocalTZA)) 8640000000000000); [reflexivity | lia].
Qed.

End DateProperties.

(** Where the four-digit pattern finds a match, the two-digit pattern
    finds one: it reads the first two digits of the year and asks for
    nothing after them. *)
Lemma dateMDYYYY_here_DMYY_here (s : jsstring) :
  match_here Re.dateMDYYYY s <> None -> match_here Re.dateDMYY s <> None.
Proof.
  unfold match_here, Re.dateMDYYYY, Re.dateDMYY. cbn [Seqs].
  do 3 (cbn [rmatch]; apply rmatch_success_mono; intros ? ? ?).
  cbn [rmatch]; apply rmatch_success_mono; intros t ca cb.
  unfold Re.Digit4, Opt, Digit. cbn [Seqs rmatch].
  destruct t as [|d1 [|d2 [|d3 [|d4 rest]]]]; try (destruct (is_digit d1));
    try (destruct (is_digit d2)); try (destruct (is_digit d3));
    try (destruct (is_digit d4)); try (intros H; now contradiction H).
  intros _.
  match goal with
  | |- match ?X with _ => _ end <> None => destruct X; discriminate
  end.
Qed.

Lemma dateMDYYYY_shadowed_from (s before : jsstring) :
  search_from Re.dateMDYYYY before s <> None ->
  search_from Re.dateDMYY before s <> None.
Proof.
  revert before. induction s as [|x s IH]; intros before; cbn [search_from].
  - destruct (match_here Re.dateMDYYYY []) as [[? ?]|] eqn:E.
    + intros _.
      assert (H : match_here Re.dateDMYY [] <> None)
        by (apply dateMDYYYY_here_DMYY_here; rewrite E; discriminate).
      destruct (match_here Re.dateDMYY []) as [[? ?]|];
        [discriminate | contradiction].
    + intros H; contradiction.
  - destruct (match_here Re.dateMDYYYY (x :: s)) as [[? ?]|] eqn:E.
    + intros _.
      assert (H : match_here Re.dateDMYY (x :: s) <> None)
        by (apply dateMDYYYY_here_DMYY_here; rewrite E; discriminate).
      destruct (match_here Re.dateDMYY (x :: s)) as [[? ?]|];
        [discriminate | contradiction].
    + intros H. destruct (match_here Re.dateDMYY (x :: s)) as [[? ?]|];
        [discriminate | apply IH, H].
Qed.

Lemma dateMDYYYY_shadowed (s : jsstring) :
  search Re.dateMDYYYY s <> None -> exists m, search Re.dateDMYY s = Some m.
Proof.
  intros H. apply dateMDYYYY_shadowed_from in H. unfold search.
  destruct (search_from Re.dateDMYY [] s) as [m|]; [exists m; reflexivity | contradiction].
Qed.

Ltac read_back Ht :=
  unfold getFullYear, getMonth, getDate, getHours, getMinutes, getSeconds,
    localDay, localTimeInDay, option_map;
  rewrite Ht; vm_compute; reflexivity.

(** C8.  On an engine whose own date parsing does not accept it,
    [parseDate] of [18/05/25 10:30:00] is the local date and time
    2025-05-18 10:30:00: day first, year 2000 + 25, month index 4, and
    the time of the text. *)
Theorem C8_parseDate_day_first_two_digit_year
    (LocalTZA : Z) (now : Date) (nativeParse : jsstring -> Date) :
  (- msPerDay < LocalTZA < msPerDay)%Z ->
  nativeParse (js "18/05/25 10:30:00") = None ->
  exists d,
    parseDate LocalTZA now nativeParse (AValue (VStr (js "18/05/25 10:30:00")))
      = Ret d /\
    getFullYear LocalTZA d = Some 2025%Z /\
    getMonth LocalTZA d = Some 4%Z /\
    getDate LocalTZA d = Some 18%Z /\
    getHours LocalTZA d = Some 10%Z /\
    getMinutes LocalTZA d = Some 30%Z /\
    getSeconds LocalTZA d = Some 0%Z.
Proof.
  intros Htz Hn.
  rewrite parseDate_string;
    [| intros E; vm_compute in E; discriminate | exact Hn].
  assert (Es : exists m,
             search Re.dateDMYY (js "18/05/25 10:30:00") = Some m /\
             fnDMYY LocalTZA m =
             newDate LocalTZA (Some 2025%Z) (Some 4%Z) (Some 18%Z)
                     (Some 10%Z) (Some 30%Z) (Some 0%Z)).
  { eexists. split; [vm_compute; reflexivity | reflexivity]. }
  destruct Es as (m & Es & Ef).
  rewrite (tryFormats_DMYY LocalTZA now _ Es), Ef.
  destruct (@newDate_fields LocalTZA 1747564200000 2025 4 18 10 30 0)%Z
    as (t & Et & Ht); [exact Htz | vm_compute; discriminate | lia | reflexivity |].
  exists (Some t). split; [rewrite Et; reflexivity |].
  repeat split; read_back Ht.
Qed.

(** An engine that reads ISO dates only, eight hours east of UTC. *)
Lemma C8_witness :
  exists d,
    parseDate 28800000 (Some 0%Z) isoDateOnly
      (AValue (VStr (js "18/05/25 10:30:00"))) = Ret d /\
    getFullYear 28800000 d = Some 2025%Z /\
    getMonth 28800000 d = Some 4%Z /\
    getDate 28800000 d = Some 18%Z /\
    getHours 28800000 d = Some 10%Z /\
    getMinutes 28800000 d = Some 30%Z /\
    getSeconds 28800000 d = Some 0%Z.
Proof.
  apply (@C8_parseDate_day_first_two_digit_year 28800000 (Some 0%Z) isoDateOnly).
  - unfold msPerDay; lia.
  - vm_compute; reflexivity.
Defined.

(** C4 (the code departs from the claim).  A text in which the pattern
    [M/D/YYYY] finds a match is never resolved by it: the pattern
    [D/M/YY], tried first and not anchored, finds a match in the same
    text, reading the first two digits of the year, and its function
    decides.  So [05/18/2025], on an engine whose own parsing does not
    accept it, becomes day 5 of month index 17 of 2020, which is 5 June
    2021, and not 18 May 2025. *)
Theorem C4_four_digit_year_pattern_is_shadowed
    (LocalTZA : Z) (now : Date) (nativeParse : jsstring -> Date) :
  (forall s,
     nativeParse s = None ->
     search Re.dateMDYYYY s <> None ->
     exists m,
       search Re.dateDMYY s = Some m /\
       parseDate LocalTZA now nativeParse (AValue (VStr s))
         = Ret (fnDMYY LocalTZA m)) /\
  ((- msPerDay < LocalTZA < msPerDay)%Z ->
   nativeParse (js "05/18/2025") = None ->
   exists d,
     parseDate LocalTZA now nativeParse (AValue (VStr (js "05/18/2025")))
       = Ret d /\
     getFullYear LocalTZA d = Some 2021%Z /\
     getMonth LocalTZA d = Some 5%Z /\
     getDate LocalTZA d = Some 5%Z).
Proof.
  split.
  - intros s Hn Hs. destruct (@dateMDYYYY_shadowed s Hs) as [m Hm].
    exists m. split; [exact Hm |].
    rewrite parseDate_string; [| | exact Hn].
    + rewrite (tryFormats_DMYY LocalTZA now _ Hm). reflexivity.
    + intros ->. apply Hs. reflexivity.
  - intros Htz Hn.
    rewrite parseDate_string;
      [| intros E; vm_compute in E; discriminate | exact Hn].
    assert (Es : exists m,
               search Re.dateDMYY (js "05/18/2025") = Some m /\
               fnDMYY LocalTZA m =
               newDate LocalTZA (Some 2020%Z) (Some 17%Z) (Some 5%Z)
                       (Some 0%Z) (Some 0%Z) (Some 0%Z)).
    { eexists. split; [vm_compute; reflexivity | reflexivity]. }
    destruct Es as (m & Es & Ef).
    rewrite (tryFormats_DMYY LocalTZA now _ Es), Ef.
    destruct (@newDate_fields LocalTZA 1622851200000 2020 17 5 0 0 0)%Z
      as (t & Et & Ht); [exact Htz | vm_compute; discriminate | lia | reflexivity |].
    exists (Some t). split; [rewrite Et; reflexivity |].
    repeat split; read_back Ht.
Qed.

Lemma C4_witness :
  isoDateOnly (js "05/18/2025") = None /\
  search Re.dateMDYYYY (js "05/18/2025") <> None /\
  exists d,
    parseDate 0 (Some 0%Z) isoDateOnly (AValue (VStr (js "05/18/2025")))
      = Ret d /\
    getFullYear 0 d = Some 2021%Z /\
    getMonth 0 d = Some 5%Z /\
    getDate 0 d = Some 5%Z.
Proof.
  split; [vm_compute; reflexivity |].
  split; [vm_compute; discriminate |].
  apply (proj2 (@C4_four_digit_year_pattern_is_shadowed 0 (Some 0%Z) isoDateOnly)).
  - unfold msPerDay; lia.
  - vm_compute; reflexivity.
Defined.

(** ** Numbers read from their own text *)

Lemma digit_cases (d : jschar) :
  is_digit d = true ->
  d = 48%N \/ d = 49%N \/ d = 50%N \/ d = 51%N \/ d = 52%N \/
  d = 53%N \/ d = 54%N \/ d = 55%N \/ d = 56%N \/ d = 57%N.
Proof.
  unfold is_digit, in_range. rewrite andb_true_iff, !N.leb_le. lia.
Qed.

Lemma mk_number_not_NaN (neg : bool) (int frac : jsstring) (exp : Z) :
  mk_number neg int frac exp <> NaN.
Proof.
  unfold mk_number. cbv zeta.
  repeat match goal with
         | |- (if ?b then _ else _) <> NaN => destruct b
         end; discriminate.
Qed.

(** A text that starts with a digit, or with [-] and a digit, is not
    read as [NaN]. *)
Lemma parseFloat_digit (neg : bool) (d : jschar) (rest : jsstring) :
  is_digit d = true ->
  parseFloat ((if neg then [ch "-"] else []) ++ d :: rest) <> NaN.
Proof.
  intros Hd. unfold parseFloat.
  assert (E : read_sign (trimStart ((if neg then [ch "-"] else []) ++ d :: rest))
              = (neg, d :: rest)).
  { apply digit_cases in Hd.
    destruct neg; simpl;
      repeat (destruct Hd as [->|Hd]; [reflexivity |]); subst d; reflexivity. }
  rewrite E.
  replace (startsWith (d :: rest) (js "Infinity")) with false
    by (apply digit_cases in Hd;
        repeat (destruct Hd as [->|Hd]; [reflexivity |]); subst d; reflexivity).
  cbn [span]. rewrite Hd. destruct (span is_digit rest) as [a b].
  match goal with
  | |- (let (frac, s2) := ?X in _) <> NaN => destruct X as [frac s2]
  end.
  cbn [app]. apply mk_number_not_NaN.
Qed.

Lemma string_of_uint_digits (u : Decimal.uint) :
  Forall (fun c => is_digit c = true) (js (NilEmpty.string_of_uint u)).
Proof.
  induction u; simpl; constructor; (reflexivity || assumption).
Qed.

Lemma N_to_js_head (m : N) :
  exists d rest, N_to_js m = d :: rest /\ is_digit d = true.
Proof.
  unfold N_to_js.
  pose proof (string_of_uint_digits (N.to_uint m)) as H.
  destruct (js (NilEmpty.string_of_uint (N.to_uint m))) as [|d rest] eqn:E.
  - exfalso. destruct m as [|p]; [discriminate E |].
    simpl in E. pose proof (DecimalPos.Unsigned.to_uint_nonnil p) as Hp.
    destruct (Pos.to_uint p); [contradiction | discriminate E ..].
  - inversion H; subst. eauto.
Qed.

Lemma digits_toString_head (d : jschar) (ds : jsstring) (n : Z) :
  is_digit d = true ->
  exists d' rest, digits_toString (d :: ds) n = d' :: rest /\ is_digit d' = true.
Proof.
  intros Hd. unfold digits_toString.
  destruct ((Z.of_nat (List.length (d :: ds)) <=? n)%Z && (n <=? 21)%Z);
    [simpl; eauto |].
  destruct ((0 <? n)%Z && (n <=? 21)%Z) eqn:E1.
  - apply andb_true_iff in E1 as [E1 _]. apply Z.ltb_lt in E1.
    destruct (Z.to_nat n) as [|k] eqn:Ek; [lia |]. simpl. eauto.
  - destruct ((-6 <? n)%Z && (n <=? 0)%Z); [simpl; eexists; eexists; split; reflexivity |].
    destruct ds; simpl; eauto.
Qed.

(** ** A number and its text *)

Lemma digits_val_fold (ds : jsstring) :
  digits_val ds = fold_left digitStep ds 0%N.
Proof. reflexivity. Qed.

Lemma fold_string_of_uint (d : Decimal.uint) (acc : N) :
  fold_left digitStep (js (NilEmpty.string_of_uint d)) acc = uint_val d acc.
Proof.
  revert acc. induction d; intros acc; cbn [NilEmpty.string_of_uint uint_val];
    [reflexivity | ..];
    (change (js (String ?c ?s)) with (N_of_ascii c :: js s);
     cbn [fold_left]; rewrite IHd; f_equal; unfold digitStep;
     vm_compute (N_of_ascii _ - 48)%N; lia).
Qed.

Lemma of_uint_acc_val (d : Decimal.uint) (acc : positive) :
  N.pos (Pos.of_uint_acc d acc) = uint_val d (N.pos acc).
Proof.
  revert acc. induction d; intros acc; cbn [Pos.of_uint_acc uint_val];
    [reflexivity | ..]; rewrite IHd; f_equal; lia.
Qed.

Lemma of_uint_val (d : Decimal.uint) : N.of_uint d = uint_val d 0.
Proof.
  unfold N.of_uint.
  induction d; cbn [Pos.of_uint uint_val]; [reflexivity | exact IHd | ..];
    rewrite of_uint_acc_val; reflexivity.
Qed.

Lemma digits_val_N_to_js (m : N) : digits_val (N_to_js m) = m.
Proof.
  unfold N_to_js. rewrite digits_val_fold, fold_string_of_uint, <- of_uint_val.
  apply DecimalN.Unsigned.of_to.
Qed.

Lemma N_to_js_digits (m : N) : forallb is_digit (N_to_js m) = true.
Proof.
  apply forallb_forall. apply Forall_forall. apply string_of_uint_digits.
Qed.

Lemma digits_val_snoc (l : jsstring) (c : jschar) :
  digits_val (l ++ [c]) = (10 * digits_val l + (c - 48))%N.
Proof. unfold digits_val. rewrite fold_left_app. reflexivity. Qed.

Lemma digits_val_zeros (j : nat) (ds : jsstring) :
  digits_val (zeros j ++ ds) = digits_val ds.
Proof.
  unfold digits_val. rewrite fold_left_app. f_equal.
  induction j as [|j IH]; [reflexivity |]. exact IH.
Qed.

Lemma zeros_digits (j : nat) : forallb is_digit (zeros j) = true.
Proof. induction j as [|j IH]; [reflexivity | exact IH]. Qed.

Lemma drop_zeros_zeros (j : nat) (l : jsstring) :
  drop_zeros (zeros j ++ l) = drop_zeros l.
Proof. induction j as [|j IH]; [reflexivity | exact IH]. Qed.

Lemma drop_zeros_head (c : jschar) (l : jsstring) :
  c <> 48%N -> drop_zeros (c :: l) = c :: l.
Proof.
  intros H. cbn [drop_zeros]. destruct (N.eqb_spec c 48); [contradiction | reflexivity].
Qed.

(** The last digit of the text of a number that 10 does not divide is
    not [0]. *)
Lemma N_to_js_last (m : N) :
  (m mod 10 <> 0)%N ->
  exists l c, N_to_js m = l ++ [c] /\ c <> 48%N.
Proof.
  intros Hm. destruct (N_to_js_head m) as (d & rest & E & _).
  destruct (@exists_last _ (N_to_js m)) as (l & c & El);
    [rewrite E; discriminate |].
  exists l, c. split; [exact El |]. intros ->.
  pose proof (digits_val_N_to_js m) as Hv. rewrite El, digits_val_snoc in Hv.
  apply Hm. rewrite <- Hv. change (48 - 48)%N with 0%N. rewrite N.add_0_r.
  rewrite N.mul_comm. apply N.Div0.mod_mul.
Qed.

(** The significant digits of such a text, with zeros before and after
    it, are the text and the zeros before it. *)
Lemma significant (m : N) (a b : nat) :
  (m mod 10 <> 0)%N ->
  rev (drop_zeros (rev (zeros a ++ N_to_js m ++ zeros b))) = zeros a ++ N_to_js m.
Proof.
  intros Hm. destruct (@N_to_js_last _ Hm) as (l & c & E & Hc).
  rewrite app_assoc, rev_app_distr. unfold zeros at 1. rewrite rev_repeat.
  fold (zeros b). rewrite drop_zeros_zeros.
  rewrite E, app_assoc, rev_app_distr. cbn [rev app].
  rewrite (@drop_zeros_head c _ Hc). cbn [rev]. rewrite rev_involutive.
  reflexivity.
Qed.

Lemma mk_number_text (neg : bool) (m : N) (e : Z) (a b : nat)
    (int frac : jsstring) (exp : Z) :
  m <> 0%N -> (m mod 10 <> 0)%N ->
  overflows m e = false -> underflows m e = false ->
  int ++ frac = zeros a ++ N_to_js m ++ zeros b ->
  e = (exp - Z.of_nat (List.length frac) + Z.of_nat b)%Z ->
  mk_number neg int frac exp = Fin neg m e.
Proof.
  intros Hm Hm10 Ho Hu E He. unfold mk_number. cbv zeta.
  rewrite E, (@significant m a b Hm10).
  rewrite digits_val_zeros, digits_val_N_to_js.
  destruct (N.eqb_spec m 0); [contradiction |].
  replace (exp - Z.of_nat (List.length frac) +
           Z.of_nat (List.length (zeros a ++ N_to_js m ++ zeros b) -
                     List.length (zeros a ++ N_to_js m)))%Z with e.
  - rewrite Ho, Hu. reflexivity.
  - rewrite He. f_equal. f_equal. rewrite !length_app. unfold zeros.
    rewrite !repeat_length. lia.
Qed.

Lemma span_app (p : jschar -> bool) (a b : jsstring) :
  forallb p a = true ->
  match b with [] => True | y :: _ => p y = false end ->
  span p (a ++ b) = (a, b).
Proof.
  intros Ha Hb. induction a as [|x a IH]; cbn [app].
  - destruct b as [|y b]; [reflexivity |]. cbn [span]. rewrite Hb. reflexivity.
  - cbn [forallb] in Ha. apply andb_true_iff in Ha as [Hx Ha].
    cbn [span]. rewrite Hx, (IH Ha). reflexivity.
Qed.

Lemma span_digits (s : jsstring) : forallb is_digit (fst (span is_digit s)) = true.
Proof.
  induction s as [|x s IH]; [reflexivity |]. cbn [span].
  destruct (is_digit x) eqn:Hx; [| reflexivity].
  destruct (span is_digit s) as [a b]. cbn [fst forallb] in *.
  rewrite Hx, IH. reflexivity.
Qed.

Lemma read_sign_text (neg : bool) (d : jschar) (rest : jsstring) :
  is_digit d = true ->
  read_sign (trimStart (signText neg ++ d :: rest)) = (neg, d :: rest).
Proof.
  intros Hd. destruct neg; cbn [signText js list_ascii_of_string List.map app].
  - rewrite trimStart_head by reflexivity. reflexivity.
  - rewrite trimStart_head by class_lia. unfold read_sign.
    replace (N.eqb d (ch "-")) with false by (symmetry; class_lia).
    replace (N.eqb d (ch "+")) with false by (symmetry; class_lia).
    reflexivity.
Qed.

Lemma not_Infinity (d : jschar) (rest : jsstring) :
  is_digit d = true -> startsWith (d :: rest) (js "Infinity") = false.
Proof.
  intros Hd. unfold startsWith.
  cbn [js list_ascii_of_string List.map strip_prefix].
  replace (N.eqb (N_of_ascii "I") d) with false by (symmetry; class_lia).
  reflexivity.
Qed.

(** [parseFloat] of digits, a point, digits and a rest that does not
    go on with a digit *)
Lemma parseFloat_point (neg : bool) (d : jschar) (int frac rest : jsstring) :
  forallb is_digit (d :: int) = true ->
  forallb is_digit frac = true ->
  match rest with [] => True | y :: _ => is_digit y = false end ->
  parseFloat (signText neg ++ (d :: int) ++ js "." ++ frac ++ rest) =
  mk_number neg (d :: int) frac (read_exponent rest).
Proof.
  intros Hi Hf Hr. pose proof Hi as Hd. cbn [forallb] in Hd.
  apply andb_true_iff in Hd as [Hd _].
  unfold parseFloat. cbn [app]. rewrite (@read_sign_text neg d _ Hd).
  rewrite (@not_Infinity d _ Hd).
  change (d :: int ++ js "." ++ frac ++ rest)
    with ((d :: int) ++ js "." ++ frac ++ rest).
  rewrite (@span_app is_digit (d :: int) _ Hi) by reflexivity.
  cbn [js list_ascii_of_string List.map app].
  change (N.eqb (N_of_ascii ".") (ch ".")) with true. cbv iota.
  rewrite (@span_app is_digit frac rest Hf Hr). reflexivity.
Qed.

(** The same without a point *)
Lemma parseFloat_integer (neg : bool) (d : jschar) (int rest : jsstring) :
  forallb is_digit (d :: int) = true ->
  match rest with
  | [] => True
  | y :: _ => is_digit y = false /\ N.eqb y (ch ".") = false
  end ->
  parseFloat (signText neg ++ (d :: int) ++ rest) =
  mk_number neg (d :: int) [] (read_exponent rest).
Proof.
  intros Hi Hr. pose proof Hi as Hd. cbn [forallb] in Hd.
  apply andb_true_iff in Hd as [Hd _].
  unfold parseFloat. cbn [app]. rewrite (@read_sign_text neg d _ Hd).
  rewrite (@not_Infinity d _ Hd).
  change (d :: int ++ rest) with ((d :: int) ++ rest).
  rewrite (@span_app is_digit (d :: int) rest Hi)
    by (destruct rest; [exact I | apply Hr]).
  destruct rest as [|y rest]; [rewrite app_nil_r; reflexivity |].
  destruct Hr as [_ ->]. rewrite app_nil_r. reflexivity.
Qed.

Lemma read_exponent_text (e : Z) :
  read_exponent
    (js "e" ++ (if (e <? 0)%Z then js "-" else js "+") ++ N_to_js (Z.abs_N e)) = e.
Proof.
  cbn [js list_ascii_of_string List.map app read_exponent].
  change (N.eqb (N_of_ascii "e") (ch "e")) with true. cbn [orb].
  assert (G : forall eneg : bool,
            (let (ed, _) := span is_digit (N_to_js (Z.abs_N e)) in
             match ed with
             | [] => 0%Z
             | _ => if eneg then (- Z.of_N (digits_val ed))%Z
                    else Z.of_N (digits_val ed)
             end) = if eneg then (- Z.of_N (Z.abs_N e))%Z else Z.of_N (Z.abs_N e)).
  { intros eneg. rewrite (span_all _ _ (N_to_js_digits (Z.abs_N e))).
    rewrite digits_val_N_to_js.
    destruct (N_to_js_head (Z.abs_N e)) as (d & r & -> & _). reflexivity. }
  destruct (Z.ltb_spec e 0); cbn [app read_sign].
  - change (N.eqb (N_of_ascii "-") (ch "-")) with true. cbv iota.
    rewrite (G true). lia.
  - change (N.eqb (N_of_ascii "+") (ch "-")) with false.
    change (N.eqb (N_of_ascii "+") (ch "+")) with true. cbv iota.
    rewrite (G false). lia.
Qed.

(** [parseFloat] reads the text of a number back: the four forms of
    Number::toString. *)
Lemma parseFloat_digits_toString (neg : bool) (m : N) (e : Z) :
  m <> 0%N -> (m mod 10 <> 0)%N ->
  overflows m e = false -> underflows m e = false ->
  parseFloat (signText neg ++
              digits_toString (N_to_js m) (e + Z.of_nat (List.length (N_to_js m))))
  = Fin neg m e.
Proof.
  intros Hm Hm10 Ho Hu.
  pose proof (N_to_js_digits m) as Hds.
  pose proof (fun a b int frac exp =>
                @mk_number_text neg m e a b int frac exp Hm Hm10 Ho Hu) as MK.
  destruct (N_to_js_head m) as (d & ds & E & Hd).
  revert Hds MK. rewrite E. intros Hds MK.
  set (k := Z.of_nat (List.length (d :: ds))).
  set (n := (e + k)%Z).
  unfold digits_toString. fold k.
  destruct ((k <=? n)%Z && (n <=? 21)%Z) eqn:C1.
  { (* digits and zeros *)
    apply andb_true_iff in C1 as [C1 _]. apply Z.leb_le in C1.
    change ((d :: ds) ++ zeros (Z.to_nat (n - k)))
      with (d :: (ds ++ zeros (Z.to_nat (n - k)))).
    rewrite <- (app_nil_r (d :: ds ++ zeros (Z.to_nat (n - k)))) at 1.
    rewrite parseFloat_integer; [| | exact I].
    - apply (MK 0%nat (Z.to_nat (n - k))).
      + rewrite app_nil_r. reflexivity.
      + cbn [read_exponent List.length]. unfold n in *. lia.
    - change (d :: ds ++ zeros (Z.to_nat (n - k)))
        with ((d :: ds) ++ zeros (Z.to_nat (n - k))).
      rewrite forallb_app, Hds, zeros_digits. reflexivity. }
  destruct ((0 <? n)%Z && (n <=? 21)%Z) eqn:C2.
  { (* a point inside the digits *)
    apply andb_true_iff in C2 as [C2 C2']. apply Z.ltb_lt in C2.
    apply Z.leb_le in C2'.
    assert (Hk : (n < k)%Z).
    { apply andb_false_iff in C1 as [C1 | C1];
        [apply Z.leb_gt in C1; exact C1 | apply Z.leb_gt in C1; lia]. }
    destruct (Z.to_nat n) as [|j] eqn:Ej; [lia |].
    cbn [firstn skipn].
    pose proof (firstn_skipn j ds) as Efs.
    assert (Hall : forallb is_digit (firstn j ds ++ skipn j ds) = true).
    { rewrite Efs. cbn [forallb] in Hds. apply andb_true_iff in Hds as [_ H].
      exact H. }
    rewrite forallb_app in Hall. apply andb_true_iff in Hall as [Hf Hs].
    rewrite <- (app_nil_r (skipn j ds)) at 1.
    rewrite parseFloat_point; [| | exact Hs | exact I].
    - apply (MK 0%nat 0%nat).
      + cbn [app zeros repeat]. rewrite app_nil_r, Efs. reflexivity.
      + cbn [read_exponent].
        assert (List.length ds = (j + List.length (skipn j ds))%nat).
        { rewrite <- Efs at 1.
          rewrite length_app, firstn_length_le; [reflexivity |].
          unfold k in Hk. cbn [List.length] in Hk. lia. }
        unfold n, k in *. cbn [List.length] in *. lia.
    - cbn [forallb]. rewrite Hd, Hf. reflexivity. }
  destruct ((-6 <? n)%Z && (n <=? 0)%Z) eqn:C3.
  { (* zeros after the point *)
    apply andb_true_iff in C3 as [_ C3]. apply Z.leb_le in C3.
    change (js "0." ++ zeros (Z.to_nat (- n)) ++ d :: ds)
      with ([ch "0"] ++ js "." ++ zeros (Z.to_nat (- n)) ++ d :: ds).
    rewrite <- (app_nil_r (zeros (Z.to_nat (- n)) ++ d :: ds)).
    rewrite <- app_assoc.
    change (zeros (Z.to_nat (- n)) ++ (d :: ds) ++ [])
      with (zeros (Z.to_nat (- n)) ++ ((d :: ds) ++ [])).
    rewrite (app_assoc (zeros (Z.to_nat (- n))) (d :: ds) []).
    rewrite parseFloat_point; [| reflexivity | | exact I].
    - apply (MK (S (Z.to_nat (- n))) 0%nat).
      + rewrite app_nil_r. reflexivity.
      + cbn [read_exponent]. rewrite length_app. unfold zeros.
        rewrite repeat_length. unfold n, k in *. cbn [List.length] in *. lia.
    - rewrite forallb_app, zeros_digits, Hds. reflexivity. }
  (* exponent notation *)
  destruct ds as [|d2 ds].
  - rewrite parseFloat_integer; [| cbn [forallb]; rewrite Hd; reflexivity
                                  | split; reflexivity].
    rewrite read_exponent_text.
    apply (MK 0%nat 0%nat); [reflexivity |].
    unfold n, k. cbn [List.length]. lia.
  - cbn [firstn skipn].
    rewrite parseFloat_point;
      [| cbn [forallb]; rewrite Hd; reflexivity
       | cbn [forallb] in Hds; apply andb_true_iff in Hds as [_ H]; exact H
       | reflexivity].
    rewrite read_exponent_text.
    apply (MK 0%nat 0%nat).
    + cbn [app zeros repeat]. rewrite app_nil_r. reflexivity.
    + unfold n, k. cbn [List.length]. lia.
Qed.

Lemma parseFloat_Number_toString (x : number) :
  canonical x -> truthy (VNum x) = true ->
  parseFloat (Number_toString x) = x.
Proof.
  destruct x as [|neg|neg m e]; cbn [canonical truthy Number_toString].
  - discriminate.
  - intros _ _. destruct neg; reflexivity.
  - intros Hc Ht. apply negb_true_iff in Ht. rewrite Ht.
    apply N.eqb_neq in Ht.
    destruct Hc as [[Hc _] | (Hc & Ho & Hu)]; [contradiction |].
    apply (@parseFloat_digits_toString neg m e Ht Hc Ho Hu).
Qed.

Lemma drop_zeros_spec (l : jsstring) :
  forallb is_digit l = true ->
  drop_zeros l = [] \/
  exists c r, drop_zeros l = c :: r /\ is_digit c = true /\ c <> 48%N.
Proof.
  induction l as [|x l IH]; [left; reflexivity |]. cbn [forallb drop_zeros].
  intros H. apply andb_true_iff in H as [Hx H].
  destruct (N.eqb_spec x 48); [exact (IH H) |]. right. eauto.
Qed.

Lemma mk_number_canonical (neg : bool) (int frac : jsstring) (exp : Z) :
  forallb is_digit (int ++ frac) = true ->
  canonical (mk_number neg int frac exp).
Proof.
  intros H. unfold mk_number. cbv zeta.
  assert (Hr : forallb is_digit (rev (int ++ frac)) = true).
  { apply forallb_forall. intros c Hc. apply in_rev in Hc.
    exact (proj1 (forallb_forall _ _) H c Hc). }
  set (sig := rev (drop_zeros (rev (int ++ frac)))).
  assert (Hm10 : digits_val sig = 0%N \/ (digits_val sig mod 10 <> 0)%N).
  { unfold sig.
    destruct (drop_zeros_spec _ Hr) as [-> | (c & r & -> & Hc & Hc0)];
      [left; reflexivity |].
    right. cbn [rev]. rewrite digits_val_snoc.
    rewrite N.add_comm, N.mul_comm, N.Div0.mod_add.
    assert (49 <= c <= 57)%N by (split; class_lia).
    rewrite N.mod_small by lia. lia. }
  destruct (N.eqb_spec (digits_val sig) 0) as [E0 | E0];
    [left; split; reflexivity |].
  match goal with
  | |- canonical (if ?o then _ else if ?u then _ else _) =>
      destruct o eqn:Ho; [exact I |];
      destruct u eqn:Hu; [left; split; reflexivity |]
  end.
  right. destruct Hm10 as [Hm | Hm]; [contradiction |].
  repeat split; assumption.
Qed.

(** What [parseFloat] gives is in canonical form. *)
Lemma parseFloat_canonical (s : jsstring) : canonical (parseFloat s).
Proof.
  unfold parseFloat. destruct (read_sign (trimStart s)) as [neg s0].
  destruct (startsWith s0 (js "Infinity")); [exact I |].
  pose proof (span_digits s0) as Hi.
  destruct (span is_digit s0) as [int s1]. cbn [fst] in Hi.
  assert (Hf : forall frac s2,
            match s1 with
            | c :: r => if N.eqb c (ch ".") then span is_digit r else ([], s1)
            | [] => ([], s1)
            end = (frac, s2) -> forallb is_digit frac = true).
  { intros frac s2 E. destruct s1 as [|c r]; [injection E as <- _; reflexivity |].
    destruct (N.eqb c (ch ".")); [| injection E as <- _; reflexivity].
    pose proof (span_digits r) as Hr. rewrite E in Hr. exact Hr. }
  destruct (match s1 with
            | c :: r => if N.eqb c (ch ".") then span is_digit r else ([], s1)
            | [] => ([], s1)
            end) as [frac s2].
  specialize (Hf frac s2 eq_refl).
  destruct (int ++ frac) eqn:E; [exact I |].
  apply mk_number_canonical. rewrite forallb_app, Hi, Hf. reflexivity.
Qed.

(** ** [String] of a value *)

Lemma value_ind_nested (P : value -> Prop) :
  P VUndefined -> P VNull -> (forall b, P (VBool b)) ->
  (forall n, P (VNum n)) -> (forall s, P (VStr s)) ->
  (forall l, Forall P l -> P (VArr l)) ->
  (forall props, P (VObj props)) ->
  forall v, P v.
Proof.
  intros HU HN HB HNum HS HA HO. fix IH 1.
  intros [| | b | n | s | l | props];
    [exact HU | exact HN | apply HB | apply HNum | apply HS | | apply HO].
  apply HA. induction l as [|x l IHl]; constructor; [apply IH | exact IHl].
Qed.

(** [String] throws on the values that [unprintable] marks, and on no
    other. *)
Lemma ToString_unprintable (v : value) :
  if unprintable v then ToString v = Throw conversionError
  else exists s, ToString v = Ret s.
Proof.
  induction v as [| | b | n | s | l Hl | props] using value_ind_nested;
    try (cbn [unprintable ToString]; eexists; reflexivity).
  - cbn [unprintable ToString].
    set (f := fun x => match x with
                       | VUndefined | VNull => Ret []
                       | _ => ToString x
                       end).
    assert (G : if existsb unprintable l then mapM f l = Throw conversionError
                else exists ss, mapM f l = Ret ss).
    { induction Hl as [|x l Hx Hl IH]; [exists []; reflexivity |].
      cbn [existsb mapM]. destruct (unprintable x) eqn:Ux; cbn [orb].
      - assert (E : f x = Throw conversionError)
          by (destruct x; try discriminate Ux; exact Hx).
        rewrite E. reflexivity.
      - assert (E : exists s, f x = Ret s)
          by (destruct x; try exact Hx; exists []; reflexivity).
        destruct E as [s ->]. cbn [bind].
        destruct (existsb unprintable l).
        + rewrite IH. reflexivity.
        + destruct IH as [ss ->]. eexists. reflexivity. }
    destruct (existsb unprintable l).
    + rewrite G. reflexivity.
    + destruct G as [ss ->]. eexists. reflexivity.
  - cbn [unprintable ToString].
    destruct (hasOwn props (js "toString")); [reflexivity | eexists; reflexivity].
Qed.

Lemma unprintable_truthy (v : value) : unprintable v = true -> truthy v = true.
Proof. destruct v; try discriminate; reflexivity. Qed.

(** The coercion of a numeric field throws where [String] throws. *)
Lemma coerceNumber_unprintable (raw : value) (dflt : string) :
  if unprintable raw then coerceNumber raw dflt = Throw conversionError
  else exists n, coerceNumber raw dflt = Ret (VNum n).
Proof.
  unfold coerceNumber, or_else. pose proof (ToString_unprintable raw) as H.
  destruct (unprintable raw) eqn:U.
  - rewrite (unprintable_truthy _ U), H. reflexivity.
  - destruct (truthy raw).
    + destruct H as [s ->]. eexists. reflexivity.
    + eexists. reflexivity.
Qed.

Lemma coerceNumber_Ret_inv (raw : value) (dflt : string) (v : value) :
  coerceNumber raw dflt = Ret v ->
  exists s, ToString (or_else raw (VStr (js dflt))) = Ret s /\
            v = VNum (parseFloat s).
Proof.
  unfold coerceNumber. intros H.
  apply bind_Ret_inv in H as (s & Hs & [= <-]). eauto.
Qed.

Lemma coerceNumber_VNum (x : number) (dflt : string) :
  coerceNumber (VNum x) dflt =
  Ret (VNum (parseFloat (if truthy (VNum x) then Number_toString x
                         else js dflt))).
Proof. unfold coerceNumber, or_else. destruct (truthy (VNum x)); reflexivity. Qed.

Lemma coerceNumber_falsy (raw : value) (dflt : string) :
  truthy raw = false ->
  coerceNumber raw dflt = Ret (VNum (parseFloat (js dflt))).
Proof. intros H. unfold coerceNumber, or_else. rewrite H. reflexivity. Qed.

(** A number other than zero and [NaN] goes through its own text and
    comes back as it was. *)
Lemma coerceNumber_canonical (x : number) (dflt : string) :
  canonical x -> truthy (VNum x) = true ->
  coerceNumber (VNum x) dflt = Ret (VNum x).
Proof.
  intros Hc Ht. rewrite coerceNumber_VNum, Ht.
  rewrite (parseFloat_Number_toString _ Hc Ht). reflexivity.
Qed.

(** The coercion of a numeric field applied to what it gave: nothing
    changes unless that was zero or [NaN]. *)
Lemma coerceNumber_again (raw : value) (dflt dflt' : string) (v : value) :
  coerceNumber raw dflt = Ret v -> truthy v = true ->
  coerceNumber v dflt' = Ret v.
Proof.
  intros H Ht. apply coerceNumber_Ret_inv in H as (s & _ & ->).
  apply coerceNumber_canonical; [apply parseFloat_canonical | exact Ht].
Qed.

(** The second coercion of the total: a number goes through its own
    text and comes back a number that is not [NaN]; [NaN] comes back
    as 0. *)
Lemma coerceNumber_number (n : number) :
  exists n', coerceNumber (VNum n) "0" = Ret (VNum n') /\
             n' <> NaN /\ (n = NaN -> n' = Fin false 0 0).
Proof.
  rewrite coerceNumber_VNum. eexists. split; [reflexivity |]. split.
  - destruct n as [|neg|neg m e]; cbn [truthy].
    + vm_compute; discriminate.
    + destruct neg; vm_compute; discriminate.
    + destruct (N.eqb_spec m 0) as [->|Hm]; cbn [negb];
        [vm_compute; discriminate |].
      unfold Number_toString.
      destruct (N.eqb_spec m 0); [contradiction |].
      destruct (N_to_js_head m) as (d & rest & -> & Hd).
      destruct (@digits_toString_head d rest
                  (e + Z.of_nat (List.length (d :: rest))) Hd)
        as (d' & rest' & -> & Hd').
      destruct neg.
      * apply (@parseFloat_digit true d' rest' Hd').
      * apply (@parseFloat_digit false d' rest' Hd').
  - intros ->. reflexivity.
Qed.

(** A text that begins with a letter other than [I] is read as
    [NaN]. *)
Lemma parseFloat_alpha (c : jschar) (rest : jsstring) :
  is_alpha c = true -> c <> ch "I" -> parseFloat (c :: rest) = NaN.
Proof.
  intros Hc HI. unfold parseFloat.
  rewrite trimStart_head by class_lia. unfold read_sign.
  replace (N.eqb c (ch "-")) with false by (symmetry; class_lia).
  replace (N.eqb c (ch "+")) with false by (symmetry; class_lia).
  unfold startsWith. cbn [js list_ascii_of_string List.map strip_prefix].
  replace (N.eqb (N_of_ascii "I") c) with false
    by (symmetry; apply N.eqb_neq; intros E; apply HI; symmetry; exact E).
  cbn [span]. replace (is_digit c) with false by (symmetry; class_lia).
  replace (N.eqb c (ch ".")) with false by (symmetry; class_lia).
  reflexivity.
Qed.

(** ** Normalisation: claims C3 and C7 *)

Lemma cleanItem_object (props : list (jsstring * value)) :
  cleanItem (VObj props) =
  (quantity <- coerceNumber (lookup props (js "quantity")) "1" ;;
   price <- coerceNumber (lookup props (js "price")) "0" ;;
   Ret (receiptItem
          (or_else (lookup props (js "name")) (VStr (js "Unnamed Item")))
          quantity price)).
Proof. reflexivity. Qed.

(** What the callback returns, when it returns *)
Lemma cleanItem_fields (item out : value) :
  cleanItem item = Ret out ->
  exists name rawQuantity rawPrice q p,
    get item (js "name") = Ret name /\
    get item (js "quantity") = Ret rawQuantity /\
    get item (js "price") = Ret rawPrice /\
    ToString (or_else rawQuantity (VStr (js "1"))) = Ret q /\
    ToString (or_else rawPrice (VStr (js "0"))) = Ret p /\
    out = receiptItem (or_else name (VStr (js "Unnamed Item")))
                      (VNum (parseFloat q)) (VNum (parseFloat p)).
Proof.
  unfold cleanItem. intros H.
  apply bind_Ret_inv in H as (name & Hn & H).
  apply bind_Ret_inv in H as (rq & Hrq & H).
  apply bind_Ret_inv in H as (q & Hq & H).
  apply bind_Ret_inv in H as (rp & Hrp & H).
  apply bind_Ret_inv in H as (pr & Hp & [= <-]).
  apply coerceNumber_Ret_inv in Hq as (sq' & Hq & ->).
  apply coerceNumber_Ret_inv in Hp as (sp' & Hp & ->).
  exists name, rq, rp, sq', sp'. repeat split; assumption.
Qed.

Lemma cleanItem_numeric (item out : value) :
  cleanItem item = Ret out -> numericItem out.
Proof.
  intros H. apply cleanItem_fields in H as (n & rq & rp & q & p & H).
  destruct H as (_ & _ & _ & _ & _ & ->). unfold numericItem. eauto.
Qed.

Lemma mapM_cleanItem_numeric (l out : list value) :
  mapM cleanItem l = Ret out -> Forall numericItem out.
Proof.
  revert out. induction l as [|item l IH]; intros out; cbn [mapM].
  - intros [= <-]. constructor.
  - intros H. apply bind_Ret_inv in H as (b & Hb & H).
    apply bind_Ret_inv in H as (bs & Hbs & [= <-]).
    constructor; [exact (cleanItem_numeric _ Hb) | apply IH, Hbs].
Qed.

(** What [validateAndCleanData] returns, when it returns: the four
    fields, the total coerced from some raw value, the items all
    numeric. *)
Lemma validateAndCleanData_shape (nowISO : jsstring) (data r : value) :
  validateAndCleanData nowISO data = Ret r ->
  exists v d raw t l,
    r = receipt v d t (VArr l) /\ coerceNumber raw "0" = Ret t /\
    Forall numericItem l.
Proof.
  unfold validateAndCleanData.
  destruct (negb (truthy data) || negb (isObjectType data)).
  - intros [= <-].
    exists (VStr (js "Unknown Vendor")), (VStr nowISO), VUndefined,
           (VNum (Fin false 0 0)), [].
    split; [reflexivity |]. split; [reflexivity | constructor].
  - intros H.
    apply bind_Ret_inv in H as (v & _ & H).
    apply bind_Ret_inv in H as (d & _ & H).
    apply bind_Ret_inv in H as (raw & _ & H).
    apply bind_Ret_inv in H as (t & Ht & H).
    apply bind_Ret_inv in H as (its & _ & H).
    apply bind_Ret_inv in H as (its' & Hi & [= <-]).
    destruct its; try (injection Hi as <-; do 5 eexists; split;
                       [reflexivity | split; [exact Ht | constructor]]).
    apply bind_Ret_inv in Hi as (l' & Hl & [= <-]).
    do 5 eexists. split; [reflexivity |]. split; [exact Ht |].
    exact (mapM_cleanItem_numeric _ Hl).
Qed.

(** The raw total of a parsed object *)
Lemma validateAndCleanData_total (nowISO : jsstring)
    (props : list (jsstring * value)) (r : value) :
  validateAndCleanData nowISO (VObj props) = Ret r ->
  exists v d t i,
    r = receipt v d t i /\
    coerceNumber (lookup props (js "totalAmount")) "0" = Ret t.
Proof.
  unfold validateAndCleanData. cbn [truthy isObjectType negb orb get bind].
  intros H. apply bind_Ret_inv in H as (t & Ht & H).
  apply bind_Ret_inv in H as (its' & _ & [= <-]).
  do 4 eexists. split; [reflexivity | exact Ht].
Qed.

Section FormatProperties.

Variable LocalTZA : Z.
Variable now : Date.
Variable nativeParse : jsstring -> Date.

Lemma formatReceipt_fields (v d t i : value) (imagePath userId : jsstring)
    (rec : ReceiptData) :
  formatReceipt LocalTZA now nativeParse (receipt v d t i) imagePath userId
    = Ret rec ->
  coerceNumber t "0" = Ret (totalAmount rec) /\
  items rec = (if isArray i then i else VArr []).
Proof.
  unfold formatReceipt.
  change (get (receipt v d t i) (js "vendorName")) with (Ret v).
  change (get (receipt v d t i) (js "transactionDate")) with (Ret d).
  change (get (receipt v d t i) (js "totalAmount")) with (Ret t).
  change (get (receipt v d t i) (js "items")) with (Ret i).
  cbn [bind]. intros H. apply bind_Ret_inv in H as (date & _ & H).
  apply bind_Ret_inv in H as (total & Ht & [= <-]).
  split; [exact Ht | reflexivity].
Qed.

End FormatProperties.




(** ** The strategy chain: claims C1 and C6 *)

Lemma replace_all_class_empty (p : jschar -> bool) (s : jsstring) :
  replace_all (Chr p) [] s = filter (fun c => negb (p c)) s.
Proof.
  unfold replace_all. induction s as [|x s IH]; [reflexivity |].
  cbn [filter]. destruct (p x) eqn:E.
  - rewrite scan_hit with (rest := s) (c := []) (n := 0).
    + cbn [expand flat_map app negb]. exact IH.
    + unfold match_here. cbn [rmatch]. rewrite E. reflexivity.
    + cbn [List.length]. lia.
  - rewrite scan_miss.
    + cbn [negb]. rewrite IH. reflexivity.
    + unfold match_here. cbn [rmatch]. rewrite E. reflexivity.
Qed.

Lemma strip_control (s : jsstring) :
  replace_all Re.control [] s = stripControl s.
Proof. apply replace_all_class_empty. Qed.

Lemma mapM_returns {A B : Type} (f : A -> outcome B) :
  (forall a, exists b, f a = Ret b) ->
  forall l, exists l', mapM f l = Ret l'.
Proof.
  intros Hf. induction l as [|a l [l' IH]]; cbn [mapM].
  - eexists; reflexivity.
  - destruct (Hf a) as [b Hb]. rewrite Hb, IH. eexists; reflexivity.
Qed.

Section ChainProperties.

Variable nowISO : jsstring.
Variable JSON_parse : jsstring -> outcome value.
Variable JSON5_parse : jsstring -> outcome value.

Lemma parseItem_returns (itemStr : jsstring) :
  exists item, parseItem JSON_parse JSON5_parse itemStr = Ret item.
Proof.
  unfold parseItem.
  match goal with
  | |- context [sanitizeJsonString ?v] =>
      destruct (sanitizeJsonString_returns v) as [s ->]
  end.
  cbn [bind]. destruct (JSON_parse s); cbn [try_catch]; [eauto |].
  destruct (JSON5_parse s); cbn [try_catch]; eauto.
Qed.

(** The last strategy finds a record in any text; its total is a
    number, or nothing. *)
Lemma extractDataWithRegex_returns (text : jsstring) :
  exists v d t i,
    extractDataWithRegex JSON_parse JSON5_parse text (defaultData nowISO)
      = Ret (receipt v d t i) /\ unprintable t = false.
Proof.
  unfold extractDataWithRegex. cbv zeta.
  change (get (defaultData nowISO) (js "vendorName"))
    with (Ret (VStr (js "Unknown Vendor"))).
  change (get (defaultData nowISO) (js "transactionDate"))
    with (Ret (VStr nowISO)).
  change (get (defaultData nowISO) (js "totalAmount"))
    with (Ret (VNum (Fin false 0 0))).
  cbn [bind].
  match goal with
  | |- context [bind ?X _] =>
      assert (H : exists l, X = Ret l)
  end.
  { destruct (search Re.items text) as [m|]; [| eexists; reflexivity].
    destruct (m_group m 1) as [[|c body]|]; try (eexists; reflexivity).
    apply mapM_returns, parseItem_returns. }
  destruct H as [l ->]. cbn [bind]. do 4 eexists. split; [reflexivity |].
  unfold group1Or.
  destruct (search (Re.numberField "totalAmount") text) as [m |];
    [| reflexivity].
  destruct (m_group m 1); reflexivity.
Qed.

Lemma strictAttempt_spec (sanitized : jsstring) :
  strictAttempt nowISO JSON_parse sanitized =
  Ret (match strictStrategy nowISO JSON_parse sanitized with
       | Some data => Parsed data
       | None => Failed None
       end).
Proof.
  unfold strictAttempt, strictStrategy.
  destruct (JSON_parse sanitized) as [p|e]; cbn [bind try_catch succeeded];
    [| reflexivity].
  destruct (validateAndCleanData nowISO p); reflexivity.
Qed.

(** The diagnostic of a failed lenient parse sits in [Failed] and
    nowhere else. *)
Lemma lenientAttempt_spec (sanitized : jsstring) :
  exists context,
    lenientAttempt nowISO JSON5_parse sanitized =
    Ret (match lenientStrategy nowISO JSON5_parse sanitized with
         | Some data => Parsed data
         | None => Failed context
         end).
Proof.
  unfold lenientAttempt, lenientStrategy. cbv zeta. rewrite strip_control.
  destruct (JSON5_parse (stripControl sanitized)) as [p|e];
    cbn [bind try_catch succeeded].
  - destruct (validateAndCleanData nowISO p) as [data|e]; cbn [try_catch].
    + exists None. reflexivity.
    + exists (errorContext sanitized e). reflexivity.
  - exists (errorContext sanitized e). reflexivity.
Qed.

(** With a candidate located, the function returns what the chain of
    the specification returns on the sanitized candidate. *)
Lemma extract_located (text jsonText : jsstring) :
  locateJson text = Some jsonText ->
  exists data,
    strategyChain nowISO JSON_parse JSON5_parse (sanitizeSteps jsonText)
      = Some data /\
    extractJsonFromLLMResponse nowISO JSON_parse JSON5_parse (VStr text)
      = Ret data.
Proof.
  intros Hloc.
  unfold extractJsonFromLLMResponse, extractBody, strategyChain.
  cbn [stringReceiver bind firstSuccess]. rewrite Hloc.
  change (sanitizeJsonString (VStr jsonText)) with (Ret (sanitizeSteps jsonText)).
  cbn [bind]. set (sanitized := sanitizeSteps jsonText).
  rewrite strictAttempt_spec. cbn [bind].
  destruct (strictStrategy nowISO JSON_parse sanitized) as [d1|];
    [exists d1; split; reflexivity |].
  destruct (lenientAttempt_spec sanitized) as [context ->]. cbn [bind].
  destruct (lenientStrategy nowISO JSON5_parse sanitized) as [d2|];
    [exists d2; split; reflexivity |].
  unfold regexStrategy.
  destruct (extractDataWithRegex_returns sanitized) as (v & d & t & i & -> & _).
  eexists; split; reflexivity.
Qed.

Lemma strategyChain_shape (sanitized : jsstring) (data : value) :
  strategyChain nowISO JSON_parse JSON5_parse sanitized = Some data ->
  exists v d t i, data = receipt v d t i /\ unprintable t = false.
Proof.
  unfold strategyChain. cbn [firstSuccess].
  assert (Hv : forall o p, succeeded (bind o (validateAndCleanData nowISO))
                           = Some p ->
                           exists v d t i,
                             p = receipt v d t i /\ unprintable t = false).
  { intros o p. destruct o as [x|e]; cbn [bind succeeded]; [| discriminate].
    destruct (validateAndCleanData nowISO x) as [r|e] eqn:E;
      cbn [succeeded]; [| discriminate].
    intros [= <-].
    apply validateAndCleanData_shape in E as (v & d & raw & t & l & -> & Ht & _).
    apply coerceNumber_Ret_inv in Ht as (s & _ & ->).
    do 4 eexists. split; reflexivity. }
  destruct (strictStrategy nowISO JSON_parse sanitized) as [d1|] eqn:E1.
  { intros [= <-]. apply (Hv _ _ E1). }
  destruct (lenientStrategy nowISO JSON5_parse sanitized) as [d2|] eqn:E2.
  { intros [= <-]. apply (Hv _ _ E2). }
  unfold regexStrategy.
  destruct (extractDataWithRegex_returns sanitized) as (v & d & t & i & -> & Ht).
  cbn [succeeded]. intros [= <-]. eauto 6.
Qed.

End ChainProperties.

(** C6.  With a candidate located, [extractJsonFromLLMResponse] returns
    what the chain of the specification returns on the sanitized
    candidate: strict parsing first, lenient parsing of the text
    without the code points U+0000 to U+001F and U+007F to U+009F
    second, field extraction last, the first success deciding.  The
    chain knows nothing of the line and column diagnostic, so that the
    diagnostic has no part in the result. *)
Theorem C6_strategies_in_order
    (nowISO : jsstring) (JSON_parse JSON5_parse : jsstring -> outcome value)
    (text jsonText : jsstring) :
  locateJson text = Some jsonText ->
  exists sanitized data,
    sanitizeJsonString (VStr jsonText) = Ret sanitized /\
    strategyChain nowISO JSON_parse JSON5_parse sanitized = Some data /\
    extractJsonFromLLMResponse nowISO JSON_parse JSON5_parse (VStr text)
      = Ret data /\
    (forall d, strictStrategy nowISO JSON_parse sanitized = Some d ->
       data = d) /\
    (forall d, strictStrategy nowISO JSON_parse sanitized = None ->
       lenientStrategy nowISO JSON5_parse sanitized = Some d ->
       data = d) /\
    (strictStrategy nowISO JSON_parse sanitized = None ->
     lenientStrategy nowISO JSON5_parse sanitized = None ->
     extractDataWithRegex JSON_parse JSON5_parse sanitized (defaultData nowISO)
       = Ret data).
Proof.
  intros Hloc.
  destruct (extract_located nowISO JSON_parse JSON5_parse _ Hloc)
    as (data & Hchain & Hres).
  exists (sanitizeSteps jsonText), data.
  split; [reflexivity |]. split; [exact Hchain |]. split; [exact Hres |].
  unfold strategyChain in Hchain. cbn [firstSuccess] in Hchain.
  split; [| split].
  - intros d E. rewrite E in Hchain. congruence.
  - intros d E1 E2. rewrite E1, E2 in Hchain. congruence.
  - intros E1 E2. rewrite E1, E2 in Hchain. unfold regexStrategy in Hchain.
    destruct (extractDataWithRegex JSON_parse JSON5_parse
                (sanitizeSteps jsonText) (defaultData nowISO));
      cbn [succeeded] in Hchain; congruence.
Qed.

(** A response whose candidate only the lenient parser could read, had
    it been more lenient than the strict one: here both fail and the
    expressions decide. *)
Lemma C6_witness :
  locateJson (jsq "Here you go: {~vendorName~:~Cafe~ ~totalAmount~: 7.5}")
    = Some (jsq "{~vendorName~:~Cafe~ ~totalAmount~: 7.5}") /\
  exists sanitized data,
    sanitizeJsonString (VStr (jsq "{~vendorName~:~Cafe~ ~totalAmount~: 7.5}"))
      = Ret sanitized /\
    strategyChain (js "2025-05-18T10:30:00.000Z") Json.parse strictAsLenient
      sanitized = Some data /\
    extractJsonFromLLMResponse (js "2025-05-18T10:30:00.000Z") Json.parse
      strictAsLenient
      (VStr (jsq "Here you go: {~vendorName~:~Cafe~ ~totalAmount~: 7.5}"))
      = Ret data /\
    (forall d, strictStrategy (js "2025-05-18T10:30:00.000Z") Json.parse
                 sanitized = Some d -> data = d) /\
    (forall d, strictStrategy (js "2025-05-18T10:30:00.000Z") Json.parse
                 sanitized = None ->
       lenientStrategy (js "2025-05-18T10:30:00.000Z") strictAsLenient
         sanitized = Some d -> data = d) /\
    (strictStrategy (js "2025-05-18T10:30:00.000Z") Json.parse sanitized
       = None ->
     lenientStrategy (js "2025-05-18T10:30:00.000Z") strictAsLenient sanitized
       = None ->
     extractDataWithRegex Json.parse strictAsLenient sanitized
       (defaultData (js "2025-05-18T10:30:00.000Z")) = Ret data).
Proof.
  split; [vm_compute; reflexivity |].
  apply (@C6_strategies_in_order (js "2025-05-18T10:30:00.000Z") Json.parse
           strictAsLenient).
  vm_compute; reflexivity.
Defined.



Section RegexFallback.

Variable nowISO : jsstring.
Variable JSON_parse : jsstring -> outcome value.
Variable JSON5_parse : jsstring -> outcome value.

(** An item that neither parser reads is read field by field. *)
Lemma parseItem_fallback (itemStr sanitized : jsstring) (e e2 : exn) :
  sanitizeJsonString (VStr (ensureBraces itemStr)) = Ret sanitized ->
  JSON_parse sanitized = Throw e ->
  JSON5_parse sanitized = Throw e2 ->
  parseItem JSON_parse JSON5_parse itemStr = Ret (itemFromFields sanitized).
Proof.
  intros Hs H1 H2. unfold parseItem. rewrite Hs.
  cbn [bind]. rewrite H1. cbn [try_catch]. rewrite H2. reflexivity.
Qed.

(** The record of the last strategy when the text has an items array
    that is not empty. *)
Lemma extractDataWithRegex_items (text body : jsstring) (m : rmatch_result)
    (l : list value) :
  search Re.items text = Some m ->
  m_group m 1 = Some body ->
  body <> [] ->
  mapM (parseItem JSON_parse JSON5_parse) (split_regex Re.itemSplit body)
    = Ret l ->
  extractDataWithRegex JSON_parse JSON5_parse text (defaultData nowISO) =
  Ret (receipt
         (group1Or (search (Re.stringField "vendorName") text) VStr
                   (VStr (js "Unknown Vendor")))
         (group1Or (search (Re.stringField "transactionDate") text) VStr
                   (VStr nowISO))
         (group1Or (search (Re.numberField "totalAmount") text)
                   (fun s => VNum (parseFloat s)) (VNum (Fin false 0 0)))
         (VArr l)).
Proof.
  intros Hm Hg Hb Hl. unfold extractDataWithRegex. cbv zeta.
  change (get (defaultData nowISO) (js "vendorName"))
    with (Ret (VStr (js "Unknown Vendor"))).
  change (get (defaultData nowISO) (js "transactionDate"))
    with (Ret (VStr nowISO)).
  change (get (defaultData nowISO) (js "totalAmount"))
    with (Ret (VNum (Fin false 0 0))).
  cbn [bind]. rewrite Hm, Hg.
  destruct body as [|c body]; [contradiction |].
  rewrite Hl. reflexivity.
Qed.

End RegexFallback.

(** C3 (the code departs from the claim).  The callback of
    [validateAndCleanData], which serves the strict and the lenient
    path, gives an item without a name the name [Unnamed Item], without
    a quantity the quantity 1, without a price the price 0, in every
    item it returns; and it returns an item whenever quantity and price
    are both missing.  The per-item fallback of [extractDataWithRegex]
    has the same defaults for quantity and price, but names the item
    [Unknown Item].  The response
    [{~vendorName~:~Cafe~ ~items~:[{~quantity~: 2 ~price~: 3}]}], which
    no parser accepts, comes back with that name. *)
Theorem C3_regex_fallback_names_item_Unknown :
  (forall props item,
     cleanItem (VObj props) = Ret item ->
     exists name quantity price,
       item = receiptItem name quantity price /\
       (lookup props (js "name") = VUndefined ->
          name = VStr (js "Unnamed Item")) /\
       (lookup props (js "quantity") = VUndefined ->
          quantity = VNum (Fin false 1 0)) /\
       (lookup props (js "price") = VUndefined ->
          price = VNum (Fin false 0 0))) /\
  (forall props,
     lookup props (js "quantity") = VUndefined ->
     lookup props (js "price") = VUndefined ->
     cleanItem (VObj props) =
     Ret (receiptItem
            (or_else (lookup props (js "name")) (VStr (js "Unnamed Item")))
            (VNum (Fin false 1 0)) (VNum (Fin false 0 0)))) /\
  (forall sanitizedItemStr, exists name quantity price,
     itemFromFields sanitizedItemStr = receiptItem name quantity price /\
     (search (Re.stringField "name") sanitizedItemStr = None ->
        name = VStr (js "Unknown Item")) /\
     (search (Re.numberField "quantity") sanitizedItemStr = None ->
        quantity = VNum (Fin false 1 0)) /\
     (search (Re.numberField "price") sanitizedItemStr = None ->
        price = VNum (Fin false 0 0))) /\
  (forall nowISO JSON5_parse e1 e2,
     JSON5_parse (jsq "{~vendorName~:~Cafe~ ~items~:[{~quantity~: 2 ~price~: 3}]}")
       = Throw e1 ->
     JSON5_parse (jsq "{~quantity~: 2 ~price~: 3}") = Throw e2 ->
     extractJsonFromLLMResponse nowISO Json.parse JSON5_parse
       (VStr (jsq "{~vendorName~:~Cafe~ ~items~:[{~quantity~: 2 ~price~: 3}]}"))
     = Ret (receipt (VStr (js "Cafe")) (VStr nowISO) (VNum (Fin false 0 0))
              (VArr [receiptItem (VStr (js "Unknown Item"))
                                 (VNum (Fin false 2 0))
                                 (VNum (Fin false 3 0))]))).
Proof.
  split; [| split; [| split]].
  - intros props item H.
    apply cleanItem_fields in H
      as (n & rq & rp & q & p & Hn & Hrq & Hrp & Hq & Hp & ->).
    cbn [get] in Hn, Hrq, Hrp.
    injection Hn as <-. injection Hrq as <-. injection Hrp as <-.
    do 3 eexists. split; [reflexivity |]. split; [| split].
    + intros ->. reflexivity.
    + intros E. rewrite E in Hq. injection Hq as <-. reflexivity.
    + intros E. rewrite E in Hp. injection Hp as <-. reflexivity.
  - intros props Hq Hp. rewrite cleanItem_object, Hq, Hp. reflexivity.
  - intros s. unfold itemFromFields. do 3 eexists. split; [reflexivity |].
    repeat split; intros ->; reflexivity.
  - intros nowISO JSON5_parse e1 e2 H1 H2.
    set (text := jsq "{~vendorName~:~Cafe~ ~items~:[{~quantity~: 2 ~price~: 3}]}") in *.
    set (item := jsq "{~quantity~: 2 ~price~: 3}") in *.
    assert (Hloc : locateJson text = Some text) by (vm_compute; reflexivity).
    destruct (extract_located nowISO Json.parse JSON5_parse _ Hloc)
      as (data & Hchain & ->).
    f_equal.
    replace (sanitizeSteps text) with text in Hchain by (vm_compute; reflexivity).
    unfold strategyChain in Hchain. cbn [firstSuccess] in Hchain.
    unfold strictStrategy in Hchain.
    replace (Json.parse text)
      with (@Throw value (SyntaxError (js "Unexpected token in JSON")))
      in Hchain by (vm_compute; reflexivity).
    cbn [bind succeeded] in Hchain.
    unfold lenientStrategy in Hchain.
    replace (stripControl text) with text in Hchain by (vm_compute; reflexivity).
    rewrite H1 in Hchain. cbn [bind succeeded] in Hchain.
    unfold regexStrategy in Hchain.
    assert (Hm : exists m, search Re.items text = Some m /\
                           m_group m 1 = Some item)
      by (eexists; split; vm_compute; reflexivity).
    destruct Hm as (m & Hm & Hg).
    rewrite (@extractDataWithRegex_items nowISO Json.parse JSON5_parse text
               item m [itemFromFields item] Hm Hg) in Hchain.
    + cbn [succeeded] in Hchain. injection Hchain as <-.
      vm_compute. reflexivity.
    + intros E; vm_compute in E; discriminate.
    + replace (split_regex Re.itemSplit item) with [item]
        by (vm_compute; reflexivity).
      cbn [mapM].
      rewrite (@parseItem_fallback Json.parse JSON5_parse item item
                 (SyntaxError (js "Unexpected token in JSON")) e2);
        [reflexivity | vm_compute; reflexivity | vm_compute; reflexivity
         | exact H2].
Qed.

Lemma C3_witness :
  cleanItem (VObj [])
    = Ret (receiptItem (VStr (js "Unnamed Item")) (VNum (Fin false 1 0))
                       (VNum (Fin false 0 0))) /\
  itemFromFields (jsq "{}")
    = receiptItem (VStr (js "Unknown Item")) (VNum (Fin false 1 0))
                  (VNum (Fin false 0 0)) /\
  extractJsonFromLLMResponse (js "2025-05-18T10:30:00.000Z") Json.parse
    strictAsLenient
    (VStr (jsq "{~vendorName~:~Cafe~ ~items~:[{~quantity~: 2 ~price~: 3}]}"))
  = Ret (receipt (VStr (js "Cafe")) (VStr (js "2025-05-18T10:30:00.000Z"))
           (VNum (Fin false 0 0))
           (VArr [receiptItem (VStr (js "Unknown Item"))
                              (VNum (Fin false 2 0))
                              (VNum (Fin false 3 0))])).
Proof.
  destruct C3_regex_fallback_names_item_Unknown as (_ & H1 & H2 & H3).
  split; [| split].
  - exact (H1 [] eq_refl eq_refl).
  - destruct (H2 (jsq "{}")) as (n & q & p & E & Hn & Hq & Hp).
    rewrite E, (Hn eq_refl), (Hq eq_refl), (Hp eq_refl). reflexivity.
  - apply (H3 (js "2025-05-18T10:30:00.000Z") strictAsLenient
              (SyntaxError (js "JSON5: invalid character at 1:1"))
              (SyntaxError (js "JSON5: invalid character at 1:1")));
      vm_compute; reflexivity.
Defined.

(** * The sanitizer on texts of JSON tokens: claim C5 *)

(** ** Runs of a character class under a greedy star *)

(** The equation of a greedy star over a class *)
Lemma star_class_nil (p : jschar -> bool) (A : Type)
    (k : jsstring -> caps -> option A) (c : caps) :
  rmatch (Star true (Chr p)) [] c k = k [] c.
Proof. reflexivity. Qed.

Lemma star_class_cons (p : jschar -> bool) (A : Type)
    (k : jsstring -> caps -> option A) (c : caps) (x : jschar) (s : jsstring) :
  rmatch (Star true (Chr p)) (x :: s) c k =
  if p x
  then match rmatch (Star true (Chr p)) s c k with
       | Some r => Some r
       | None => k (x :: s) c
       end
  else k (x :: s) c.
Proof.
  rewrite rmatch_star. cbv zeta.
  match goal with
  | |- context [rmatch (Chr p) (x :: s) c ?K] =>
      change (rmatch (Chr p) (x :: s) c K) with (if p x then K s c else None)
  end.
  destruct (p x); [| reflexivity]. cbv beta.
  replace (Nat.ltb (List.length s) (List.length (x :: s)))
    with true by (symmetry; apply Nat.ltb_lt; cbn [List.length]; lia).
  reflexivity.
Qed.

Lemma star_run_hit (p : jschar -> bool) (A : Type)
    (k : jsstring -> caps -> option A) (c : caps) (r : A)
    (w rest : jsstring) :
  forallb p w = true ->
  match rest with [] => true | x :: _ => negb (p x) end = true ->
  k rest c = Some r ->
  rmatch (Star true (Chr p)) (w ++ rest) c k = Some r.
Proof.
  intros Hw Hrest Hk. induction w as [|x w IH]; cbn [app].
  - destruct rest as [|y rest]; [exact Hk |].
    rewrite star_class_cons. apply negb_true_iff in Hrest. rewrite Hrest.
    exact Hk.
  - cbn [forallb] in Hw. apply andb_true_iff in Hw as [Hx Hw].
    rewrite star_class_cons, Hx, (IH Hw). reflexivity.
Qed.

Lemma star_run_inv (p : jschar -> bool) (A : Type)
    (k : jsstring -> caps -> option A) (c : caps) (s : jsstring) :
  rmatch (Star true (Chr p)) s c k <> None ->
  exists w rest, s = w ++ rest /\ forallb p w = true /\ k rest c <> None.
Proof.
  induction s as [|x s IH].
  - intros H. exists [], []. auto.
  - rewrite star_class_cons. destruct (p x) eqn:Hx.
    + destruct (rmatch (Star true (Chr p)) s c k) eqn:E.
      * intros _. destruct IH as (w & rest & -> & Hw & Hk); [discriminate |].
        exists (x :: w), rest. cbn [forallb]. rewrite Hx. auto.
      * intros H. exists [], (x :: s). auto.
    + intros H. exists [], (x :: s). auto.
Qed.

(** ** Suffixes *)

Lemma Suffix_refl (s : jsstring) : Suffix s s.
Proof. exists []. reflexivity. Qed.

Lemma Suffix_tail (x : jschar) (u s : jsstring) :
  Suffix (x :: u) s -> Suffix u s.
Proof.
  intros [pre ->]. exists (pre ++ [x]). rewrite <- app_assoc. reflexivity.
Qed.

Lemma Suffix_app (m u s : jsstring) : Suffix (m ++ u) s -> Suffix u s.
Proof. intros [pre ->]. exists (pre ++ m). rewrite <- app_assoc. reflexivity. Qed.

(** ** Expressions that leave a text as it is *)

Section Stable.
Variable B : Type.
Variable r : regex.
Variable keep : jschar -> B -> B.
Variable hit : jsstring -> caps -> B -> B.
Variable stop : B.

Lemma scan_skip (m rest : jsstring) :
  scan r keep hit stop (List.length m) (m ++ rest) = scan r keep hit stop 0 rest.
Proof. induction m as [|x m IH]; [reflexivity | exact IH]. Qed.

Lemma scan_nil :
  match_here r [] = None -> scan r keep hit stop 0 [] = stop.
Proof. intros H. cbn [scan]. rewrite H. reflexivity. Qed.
End Stable.

Lemma replace_all_stable (r : regex) (t : template) (n : nat) :
  forall s, List.length s <= n ->
    (forall u, Suffix u s -> harmless r t u) ->
    replace_all r t s = s.
Proof.
  induction n as [|n IH]; intros s Hn Hs.
  - destruct s; [| simpl in Hn; lia].
    unfold replace_all. apply scan_nil.
    destruct (Hs [] (Suffix_refl _)) as [H | (x & m & rest & c & E & _)];
      [exact H | discriminate E].
  - destruct s as [|y s]; [apply (IH []); [simpl; lia | exact Hs] |].
    cbn [List.length] in Hn. unfold replace_all in *.
    destruct (Hs (y :: s) (Suffix_refl _))
      as [H | (x & m & rest & c & E & Hm & Hx)].
    + rewrite scan_miss by exact H. f_equal. apply IH; [lia |].
      intros u Hu. apply Hs. destruct Hu as [pre ->]. exists (y :: pre). reflexivity.
    + cbn [app] in E. injection E as -> ->.
      rewrite scan_hit with (rest := rest) (c := c) (n := List.length m);
        [| exact Hm | cbn [List.length]; rewrite length_app; lia].
      rewrite scan_skip. rewrite Hx.
      replace (firstn (S (List.length m)) (x :: m ++ rest)) with (x :: m)
        by (cbn [firstn]; f_equal; rewrite firstn_app, firstn_all, Nat.sub_diag;
            cbn [firstn]; rewrite app_nil_r; reflexivity).
      cbn [app]. f_equal. f_equal. apply IH.
      * rewrite length_app in Hn. lia.
      * intros u Hu. apply Hs. destruct Hu as [pre ->].
        exists (x :: m ++ pre). cbn [app]. rewrite <- app_assoc. reflexivity.
Qed.

Lemma replace_all_harmless (r : regex) (t : template) (s : jsstring) :
  (forall u, Suffix u s -> harmless r t u) -> replace_all r t s = s.
Proof. apply (@replace_all_stable r t (List.length s)). lia. Qed.

Lemma replace_all_nomatch (r : regex) (t : template) (s : jsstring) :
  (forall u, Suffix u s -> match_here r u = None) -> replace_all r t s = s.
Proof. intros H. apply replace_all_harmless. intros u Hu. left. auto. Qed.

Lemma match_all_nomatch (r : regex) (s : jsstring) :
  (forall u, Suffix u s -> match_here r u = None) -> match_all r s = [].
Proof.
  unfold match_all. induction s as [|x s IH]; intros H.
  - apply scan_nil, H, Suffix_refl.
  - rewrite scan_miss by (apply H, Suffix_refl). apply IH.
    intros u Hu. apply H. destruct Hu as [pre ->]. exists (x :: pre). reflexivity.
Qed.

(** ** What a match of the repairing expressions needs *)

Lemma chr_inv (p : jschar -> bool) (A : Type) (s : jsstring) (c : caps)
    (k : jsstring -> caps -> option A) :
  rmatch (Chr p) s c k <> None ->
  exists y s', s = y :: s' /\ p y = true /\ k s' c <> None.
Proof.
  cbn [rmatch]. destruct s as [|y s']; [intros H; contradiction |].
  destruct (p y) eqn:E; [| intros H; contradiction].
  intros H. exists y, s'. auto.
Qed.

Lemma seq_chr_inv (p : jschar -> bool) (b : regex) (A : Type) (s : jsstring)
    (c : caps) (k : jsstring -> caps -> option A) :
  rmatch (Seq (Chr p) b) s c k <> None ->
  exists y s', s = y :: s' /\ p y = true /\ rmatch b s' c k <> None.
Proof.
  intros H.
  change (rmatch (Chr p) s c (fun s' c' => rmatch b s' c' k) <> None) in H.
  apply chr_inv in H. exact H.
Qed.

Lemma seq_spaces_inv (R : regex) (A : Type) (s : jsstring)
    (c : caps) (k : jsstring -> caps -> option A) :
  rmatch (Seq Spaces R) s c k <> None ->
  exists w rest,
    s = w ++ rest /\ forallb is_space w = true /\ rmatch R rest c k <> None.
Proof.
  intros H.
  change (rmatch (Star true (Chr is_space)) s c
            (fun s' c' => rmatch R s' c' k) <> None) in H.
  apply star_run_inv in H. exact H.
Qed.

(** A character, white space, and then [R] *)
Lemma spaced_inv (px : jschar -> bool) (R : regex) (A : Type) (u : jsstring)
    (c : caps) (k : jsstring -> caps -> option A) :
  rmatch (Seq (Chr px) (Seq Spaces R)) u c k <> None ->
  exists x w rest,
    u = x :: w ++ rest /\ px x = true /\ forallb is_space w = true /\
    rmatch R rest c k <> None.
Proof.
  cbn [rmatch]. intros H.
  change (rmatch (Chr px) u c
            (fun s' c' => rmatch Spaces s' c' (fun s2 c2 => rmatch R s2 c2 k))
          <> None) in H.
  apply chr_inv in H as (x & u1 & -> & Hx & H).
  apply star_run_inv in H as (w & rest & -> & Hw & H).
  exists x, w, rest. auto.
Qed.

Lemma trimStart_run (w s : jsstring) :
  forallb is_space w = true ->
  match s with [] => true | y :: _ => negb (is_space y) end = true ->
  trimStart (w ++ s) = s.
Proof.
  intros Hw Hs. induction w as [|x w IH]; cbn [app].
  - destruct s as [|y s]; [reflexivity |]. cbn [trimStart].
    apply negb_true_iff in Hs. rewrite Hs. reflexivity.
  - cbn [forallb] in Hw. apply andb_true_iff in Hw as [Hx Hw].
    cbn [trimStart]. rewrite Hx. exact (IH Hw).
Qed.

(** [/X\s*Y.../]: the character at the front is [X] and the next
    character that is no white space starts [R]. *)
Lemma spaced_next (px py : jschar -> bool) (R : regex) (u : jsstring) :
  (forall y, py y = true -> is_space y = false) ->
  (forall A s c (k : jsstring -> caps -> option A),
     rmatch R s c k <> None -> exists y s', s = y :: s' /\ py y = true) ->
  match_here (Seq (Chr px) (Seq Spaces R)) u <> None ->
  exists x u1 y v,
    u = x :: u1 /\ px x = true /\ trimStart u1 = y :: v /\ py y = true.
Proof.
  intros Hsp HR H. unfold match_here in H.
  apply spaced_inv in H as (x & w & rest & -> & Hx & Hw & H).
  apply HR in H as (y & v & -> & Hy).
  exists x, (w ++ y :: v), y, v. repeat split; try assumption.
  apply trimStart_run; [exact Hw |]. cbn. rewrite (Hsp y Hy). reflexivity.
Qed.

Lemma lead_chr (p : jschar -> bool) :
  forall A s c (k : jsstring -> caps -> option A),
    rmatch (Chr p) s c k <> None -> exists y s', s = y :: s' /\ p y = true.
Proof.
  intros A s c k H. apply chr_inv in H as (y & s' & -> & Hy & _). eauto.
Qed.

Lemma lead_seq (p : jschar -> bool) (b : regex) :
  forall A s c (k : jsstring -> caps -> option A),
    rmatch (Seq (Chr p) b) s c k <> None ->
    exists y s', s = y :: s' /\ p y = true.
Proof.
  intros A s c k H. cbn [rmatch] in H.
  change (rmatch (Chr p) s c (fun s' c' => rmatch b s' c' k) <> None) in H.
  apply chr_inv in H as (y & s' & -> & Hy & _). eauto.
Qed.

(** The expressions of step 4 that start with a character and white
    space, with the class of the character that has to come next. *)
Lemma adjacent_next (x y : jschar) (u : jsstring) :
  is_space y = false ->
  match_here (Re.adjacent x y) u <> None ->
  exists u1 v, u = x :: u1 /\ trimStart u1 = y :: v.
Proof.
  intros Hy H. unfold Re.adjacent in H. cbn [Seqs] in H.
  apply (@spaced_next (is_char x) (is_char y)) in H
    as (x' & u1 & y' & v & -> & Hx & Ht & Hy').
  - apply N.eqb_eq in Hx, Hy'. subst. eauto.
  - intros z Hz. apply N.eqb_eq in Hz. subst. exact Hy.
  - apply lead_chr.
Qed.

Lemma singleQuotedValue_next (u : jsstring) :
  match_here Re.singleQuotedValue u <> None ->
  exists u1 v, u = colon :: u1 /\ trimStart u1 = sq :: v.
Proof.
  intros H. unfold Re.singleQuotedValue in H. cbn [Seqs] in H.
  apply (@spaced_next (is_char (ch ":")) (is_char (ch "'"))) in H
    as (x' & u1 & y' & v & -> & Hx & Ht & Hy').
  - apply N.eqb_eq in Hx, Hy'. subst. eauto.
  - intros z Hz. apply N.eqb_eq in Hz. subst. reflexivity.
  - apply lead_seq.
Qed.

Lemma alpha_not_space (y : jschar) : is_alpha y = true -> is_space y = false.
Proof. intros H. class_lia. Qed.

Lemma bareValue_next (u : jsstring) :
  match_here Re.bareValue u <> None ->
  exists u1 y v, u = colon :: u1 /\ trimStart u1 = y :: v /\ is_alpha y = true.
Proof.
  intros H. unfold Re.bareValue in H. cbn [Seqs] in H.
  apply (@spaced_next (is_char (ch ":")) is_alpha) in H
    as (x' & u1 & y' & v & -> & Hx & Ht & Hy').
  - apply N.eqb_eq in Hx. subst. exists u1, y', v. auto.
  - apply alpha_not_space.
  - intros A s c k H1. cbn [rmatch Seqs] in H1.
    destruct s as [|y s']; [contradiction |].
    destruct (is_alpha y) eqn:Hy; [eauto | contradiction].
Qed.

Lemma brokenString_newline (u : jsstring) :
  match_here Re.brokenString u <> None -> In newline u.
Proof.
  intros H. unfold Re.brokenString, match_here in H. cbn [Seqs] in H.
  apply spaced_inv in H as (x & w & rest & -> & _ & _ & H).
  apply lead_seq in H as (y & s' & -> & Hy). apply N.eqb_eq in Hy. subst y.
  right. apply in_or_app. right. left. reflexivity.
Qed.

Lemma class_head (p : jschar -> bool) (u : jsstring) :
  match_here (Chr p) u <> None -> exists y v, u = y :: v /\ p y = true.
Proof. apply lead_chr. Qed.

Lemma seq_head (p : jschar -> bool) (b : regex) (u : jsstring) :
  match_here (Seq (Chr p) b) u <> None -> exists y v, u = y :: v /\ p y = true.
Proof. apply lead_seq. Qed.

(** The two expressions of a quote, a comma and a quote: what a match
    looks like. *)
Lemma quoteCommaQuote_inv (u : jsstring) :
  match_here Re.quoteCommaQuote u <> None ->
  exists w1 w2 rest,
    u = dq :: w1 ++ comma :: w2 ++ dq :: rest /\
    forallb is_space w1 = true /\ forallb is_space w2 = true.
Proof.
  intros H. unfold Re.quoteCommaQuote, match_here in H. cbn [Seqs] in H.
  apply spaced_inv in H as (x & w1 & r1 & -> & Hx & Hw1 & H).
  unfold C in H. apply spaced_inv in H as (y & w2 & r2 & -> & Hy & Hw2 & H).
  apply chr_inv in H as (z & r3 & -> & Hz & _).
  apply N.eqb_eq in Hx, Hy, Hz. subst.
  exists w1, w2, r3. auto.
Qed.

Lemma quoteCommaQuote0_inv (u : jsstring) :
  match_here Re.quoteCommaQuote0 u <> None ->
  exists w2 rest,
    u = dq :: comma :: w2 ++ dq :: rest /\ forallb is_space w2 = true.
Proof.
  intros H. unfold Re.quoteCommaQuote0, match_here, C in H. cbn [Seqs] in H.
  apply seq_chr_inv in H as (x & u1 & -> & Hx & H).
  apply seq_chr_inv in H as (y & u2 & -> & Hy & H).
  apply seq_spaces_inv in H as (w2 & r2 & -> & Hw2 & H).
  apply chr_inv in H as (z & r3 & -> & Hz & _).
  apply N.eqb_eq in Hx, Hy, Hz. subst. exists w2, r3. auto.
Qed.

(** ** From the local conditions to the expressions *)

Lemma localOk_clean (x : jschar) (u1 : jsstring) :
  localOk (x :: u1) = true -> cleanChar x = true.
Proof. cbn [localOk]. intros H. apply andb_true_iff in H as [H _]. exact H. Qed.

Lemma localOk_pair (x y : jschar) (u1 v : jsstring) :
  localOk (x :: u1) = true -> trimStart u1 = y :: v -> pairAllowed x y = true.
Proof.
  cbn [localOk]. intros H E. rewrite E in H.
  apply andb_true_iff in H as [_ H]. apply andb_true_iff in H as [H _]. exact H.
Qed.

Lemma localOk_break (u1 v : jsstring) :
  localOk (dq :: u1) = true -> trimStart u1 = dq :: v -> breakFree u1 = true.
Proof.
  cbn [localOk]. intros H E. rewrite E in H.
  apply andb_true_iff in H as [_ H]. apply andb_true_iff in H as [_ H].
  exact H.
Qed.

Lemma adjacent_blocked (x y : jschar) (u : jsstring) :
  is_space y = false -> pairAllowed x y = false ->
  localOk u = true -> match_here (Re.adjacent x y) u = None.
Proof.
  intros Hy Hp Hu. destruct (match_here (Re.adjacent x y) u) eqn:E; [| reflexivity].
  exfalso. destruct (@adjacent_next x y u Hy) as (u1 & v & -> & Ht);
    [rewrite E; discriminate |].
  rewrite (@localOk_pair _ _ _ _ Hu Ht) in Hp. discriminate.
Qed.

Lemma singleQuotedValue_blocked (u : jsstring) :
  localOk u = true -> match_here Re.singleQuotedValue u = None.
Proof.
  intros Hu. destruct (match_here Re.singleQuotedValue u) eqn:E; [| reflexivity].
  exfalso. destruct (@singleQuotedValue_next u) as (u1 & v & -> & Ht);
    [rewrite E; discriminate |].
  pose proof (@localOk_pair _ _ _ _ Hu Ht) as H. discriminate H.
Qed.

Lemma bareValue_blocked (u : jsstring) :
  localOk u = true -> match_here Re.bareValue u = None.
Proof.
  intros Hu. destruct (match_here Re.bareValue u) eqn:E; [| reflexivity].
  exfalso. destruct (@bareValue_next u) as (u1 & y & v & -> & Ht & Hy);
    [rewrite E; discriminate |].
  pose proof (@localOk_pair _ _ _ _ Hu Ht) as H. unfold pairAllowed in H.
  change (N.eqb colon colon) with true in H. cbv iota in H.
  rewrite Hy in H. discriminate H.
Qed.

Lemma head_blocked (p : jschar -> bool) (b : regex) (u : jsstring) :
  (forall x, p x = true -> cleanChar x = false) ->
  localOk u = true ->
  match_here (Chr p) u = None /\ match_here (Seq (Chr p) b) u = None.
Proof.
  intros Hp Hu. split.
  - destruct (match_here (Chr p) u) eqn:E; [| reflexivity]. exfalso.
    destruct (@class_head p u) as (y & v & -> & Hy); [rewrite E; discriminate |].
    pose proof (@localOk_clean _ _ Hu) as H. rewrite (Hp y Hy) in H. discriminate.
  - destruct (match_here (Seq (Chr p) b) u) eqn:E; [| reflexivity]. exfalso.
    destruct (@seq_head p b u) as (y & v & -> & Hy); [rewrite E; discriminate |].
    pose proof (@localOk_clean _ _ Hu) as H. rewrite (Hp y Hy) in H. discriminate.
Qed.

Lemma all_clean (u : jsstring) :
  (forall u', Suffix u' u -> localOk u' = true) ->
  forall x, In x u -> cleanChar x = true.
Proof.
  induction u as [|y u IH]; intros H x Hx; [contradiction |].
  destruct Hx as [<- | Hx].
  - apply (@localOk_clean y u), H, Suffix_refl.
  - apply IH; [| exact Hx]. intros u' Hu'. apply H.
    destruct Hu' as [pre ->]. exists (y :: pre). reflexivity.
Qed.

(** A quote, white space with a line break in it, and a quote *)
Lemma brokenString_inv (u : jsstring) :
  match_here Re.brokenString u <> None ->
  exists w1 w2 rest,
    u = dq :: w1 ++ newline :: w2 ++ dq :: rest /\
    forallb is_space w1 = true /\ forallb is_space w2 = true.
Proof.
  intros H. unfold Re.brokenString, match_here in H. cbn [Seqs] in H.
  apply spaced_inv in H as (x & w1 & r1 & -> & Hx & Hw1 & H).
  apply spaced_inv in H as (y & w2 & r2 & -> & Hy & Hw2 & H).
  apply chr_inv in H as (z & r3 & -> & Hz & _).
  apply N.eqb_eq in Hx, Hy, Hz. subst.
  exists w1, w2, r3. auto.
Qed.

Lemma brokenString_blocked (u : jsstring) :
  localOk u = true -> match_here Re.brokenString u = None.
Proof.
  intros Hu. destruct (match_here Re.brokenString u) eqn:E; [| reflexivity].
  exfalso. destruct (@brokenString_inv u) as (w1 & w2 & rest & -> & H1 & H2);
    [rewrite E; discriminate |].
  assert (Hw : forallb is_space (w1 ++ newline :: w2) = true).
  { rewrite forallb_app. cbn [forallb]. rewrite H1, H2. reflexivity. }
  assert (Eu : w1 ++ newline :: w2 ++ dq :: rest
               = (w1 ++ newline :: w2) ++ dq :: rest)
    by (rewrite <- app_assoc; reflexivity).
  rewrite Eu in Hu.
  assert (Ht : trimStart ((w1 ++ newline :: w2) ++ dq :: rest) = dq :: rest)
    by (apply trimStart_run; [exact Hw | reflexivity]).
  pose proof (@localOk_break _ _ Hu Ht) as Hb. unfold breakFree in Hb.
  rewrite (@span_app is_space _ (dq :: rest) Hw) in Hb by reflexivity.
  cbn [fst] in Hb. rewrite existsb_app in Hb. cbn [existsb] in Hb.
  rewrite N.eqb_refl in Hb. rewrite orb_true_r in Hb. discriminate Hb.
Qed.

(** The two expressions of a quote, a comma and a quote: what makes a
    match. *)
Lemma quoteComma_inv (tight : bool) (u : jsstring) :
  match_here (quoteComma tight) u <> None ->
  exists w1 w2 rest,
    u = dq :: w1 ++ comma :: w2 ++ dq :: rest /\
    forallb is_space w1 = true /\ forallb is_space w2 = true /\
    (tight = true -> w1 = []).
Proof.
  destruct tight; cbn [quoteComma]; intros H.
  - apply quoteCommaQuote0_inv in H as (w2 & rest & -> & H2).
    exists [], w2, rest. auto.
  - apply quoteCommaQuote_inv in H as (w1 & w2 & rest & -> & H1 & H2).
    exists w1, w2, rest. repeat split; try assumption. discriminate.
Qed.

Lemma quoteComma_hit (tight : bool) (w1 w2 rest : jsstring) :
  forallb is_space w1 = true -> forallb is_space w2 = true ->
  (tight = true -> w1 = []) ->
  match_here (quoteComma tight) (dq :: w1 ++ comma :: w2 ++ dq :: rest)
    = Some (rest, []).
Proof.
  intros H1 H2 Ht.
  assert (Hq : match_here Re.quoteCommaQuote (dq :: w1 ++ comma :: w2 ++ dq :: rest)
               = Some (rest, [])).
  { unfold match_here, Re.quoteCommaQuote, C, Spaces. cbn [Seqs].
    cbn [rmatch]. change (is_char dq dq) with true. cbv iota.
    change (rmatch (Star true (Chr is_space)) (w1 ++ comma :: w2 ++ dq :: rest) []
              (fun s' c' =>
                 rmatch (Chr (is_char (ch ","))) s' c'
                   (fun s2 c2 =>
                      rmatch (Star true (Chr is_space)) s2 c2
                        (fun s3 c3 => rmatch (Chr (is_char dq)) s3 c3
                           (fun s4 c4 => Some (s4, c4)))))
            = Some (rest, [])).
    apply star_run_hit; [exact H1 | reflexivity |].
    cbn [rmatch]. change (is_char (ch ",") comma) with true. cbv iota.
    apply star_run_hit; [exact H2 | reflexivity |].
    cbn [rmatch]. change (is_char dq dq) with true. reflexivity. }
  destruct tight; cbn [quoteComma]; [| exact Hq].
  rewrite (Ht eq_refl). cbn [app].
  unfold match_here, Re.quoteCommaQuote0, C, Spaces. cbn [Seqs].
  cbn [rmatch]. change (is_char dq dq) with true.
  change (is_char (ch ",") comma) with true. cbv iota.
  apply star_run_hit; [exact H2 | reflexivity |].
  cbn [rmatch]. change (is_char dq dq) with true. reflexivity.
Qed.

(** ** The expression of property names *)

Lemma propertyName_unfold (u : jsstring) :
  match_here Re.propertyName u =
  match rmatch (Group 1 Quote) u []
          (fun s c => rmatch keyTail s c (fun s' c' => Some (s', c'))) with
  | Some x => Some x
  | None => rmatch keyTail u [] (fun s' c' => Some (s', c'))
  end.
Proof. reflexivity. Qed.

Lemma keyEnd_inv (A : Type) (s : jsstring) (c : caps)
    (k : jsstring -> caps -> option A) :
  rmatch (Seq (Opt (Group 3 Quote)) (C ":")) s c k <> None ->
  keyEnd s = true.
Proof.
  unfold Opt, C, Quote. cbn [rmatch]. unfold keyEnd.
  destruct s as [|x s]; [intros H; contradiction |].
  destruct (is_quote x) eqn:Hq.
  - destruct s as [|y s].
    + unfold is_char. fold colon. destruct (N.eqb_spec colon x) as [<-|Hn];
        [discriminate Hq | intros H; contradiction].
    + unfold is_char. fold colon. rewrite (N.eqb_sym y colon).
      destruct (N.eqb colon y); [intros _; apply orb_true_r |].
      rewrite (N.eqb_sym x colon).
      destruct (N.eqb colon x); [reflexivity | intros H; contradiction].
  - unfold is_char. fold colon. rewrite (N.eqb_sym x colon).
    destruct (N.eqb colon x); [reflexivity | intros H; contradiction].
Qed.

Lemma keyTail_inv (A : Type) (s : jsstring) (c : caps)
    (k : jsstring -> caps -> option A) :
  rmatch keyTail s c k <> None ->
  exists x w rest,
    s = (x :: w) ++ rest /\ forallb is_word (x :: w) = true /\
    keyEnd rest = true.
Proof.
  unfold keyTail, Plus. cbn [Seqs]. intros H.
  change (rmatch (Chr is_word) s c
            (fun s1 c1 =>
               rmatch (Star true (Chr is_word)) s1 c1
                 (fun s2 c2 =>
                    rmatch (Seq (Opt (Group 3 Quote)) (C ":")) s2
                      ((2, firstn (List.length s - List.length s2) s) :: c2) k))
          <> None) in H.
  apply chr_inv in H as (x & s1 & -> & Hx & H).
  apply star_run_inv in H as (w & rest & -> & Hw & H).
  apply keyEnd_inv in H.
  exists x, w, rest. cbn [forallb]. rewrite Hx, Hw. auto.
Qed.

Lemma propertyName_none (u : jsstring) :
  NoKeyEnd u -> NoKeyEnd (tl u) -> match_here Re.propertyName u = None.
Proof.
  intros H1 H2. rewrite propertyName_unfold.
  destruct (rmatch (Group 1 Quote) u [] _) eqn:E1.
  - exfalso.
    assert (H : rmatch (Group 1 Quote) u []
                  (fun s c => rmatch keyTail s c (fun s' c' => Some (s', c')))
                <> None) by (rewrite E1; discriminate).
    unfold Quote in H. cbn [rmatch] in H.
    destruct u as [|q u]; [contradiction |].
    destruct (is_quote q); [| contradiction].
    apply keyTail_inv in H as (x & w & rest & E & Hw & Hk).
    cbn [tl] in H2. rewrite (H2 _ _ E Hw) in Hk. discriminate.
  - destruct (rmatch keyTail u [] _) eqn:E2; [| reflexivity]. exfalso.
    assert (H : rmatch keyTail u [] (fun s' c' => Some (s', c')) <> None)
      by (rewrite E2; discriminate).
    apply keyTail_inv in H as (x & w & rest & E & Hw & Hk).
    rewrite (H1 _ _ E Hw) in Hk. discriminate.
Qed.

Lemma word_not_quote_colon (x : jschar) :
  is_word x = true -> is_quote x = false /\ N.eqb x colon = false.
Proof. intros H. split; class_lia. Qed.

Lemma firstn_length_app (m rest : jsstring) :
  firstn (List.length (m ++ rest) - List.length rest) (m ++ rest) = m.
Proof.
  rewrite length_app.
  replace (List.length m + List.length rest - List.length rest)
    with (List.length m) by lia.
  rewrite firstn_app, firstn_all, Nat.sub_diag. cbn [firstn].
  apply app_nil_r.
Qed.

(** A quoted key in its place: the match, and the template gives the
    same text back. *)
Lemma propertyName_key (x : jschar) (k R : jsstring) :
  forallb is_word (x :: k) = true ->
  exists c,
    match_here Re.propertyName (dq :: (x :: k) ++ dq :: colon :: R)
      = Some (R, c) /\
    expand [TLit [dq]; TGroup 2; TLit (jsq "~:")] c
      = dq :: (x :: k) ++ [dq; colon].
Proof.
  intros Hw. cbn [forallb] in Hw. apply andb_true_iff in Hw as [Hx Hk].
  rewrite propertyName_unfold. unfold Quote. cbn [rmatch].
  change (is_quote dq) with true. cbv iota.
  unfold keyTail, Plus. cbn [Seqs app].
  match goal with
  | |- exists c, match ?M with Some a => Some a | None => _ end = _ /\ _ =>
      assert (E : exists c, M = Some (R, c) /\ cap c 2 = Some (x :: k))
  end.
  { change (exists c0,
      rmatch (Chr is_word) (x :: k ++ dq :: colon :: R)
        [(1, firstn (List.length (dq :: x :: k ++ dq :: colon :: R)
                     - List.length (x :: k ++ dq :: colon :: R))
               (dq :: x :: k ++ dq :: colon :: R))]
        (fun s1 c1 =>
           rmatch (Star true (Chr is_word)) s1 c1
             (fun s2 c2 =>
                rmatch (Seq (Opt (Group 3 Quote)) (C ":")) s2
                  ((2, firstn (List.length (x :: k ++ dq :: colon :: R)
                               - List.length s2)
                         (x :: k ++ dq :: colon :: R)) :: c2)
                  (fun s' c' => Some (s', c'))))
      = Some (R, c0) /\ cap c0 2 = Some (x :: k)).
    cbn [rmatch]. rewrite Hx.
    eexists. split.
    - apply star_run_hit with (w := k) (rest := dq :: colon :: R);
        [exact Hk | reflexivity |].
      unfold Opt, C, Quote. cbn [rmatch].
      change (is_quote dq) with true. cbv iota.
      change (is_char (ch ":") colon) with true. cbv iota. reflexivity.
    - cbn [cap Nat.eqb]. f_equal.
      apply (@firstn_length_app (x :: k) (dq :: colon :: R)). }
  destruct E as (c & E & Hc). exists c. rewrite E. split; [reflexivity |].
  cbn [expand flat_map]. rewrite Hc. rewrite app_nil_r. reflexivity.
Qed.

(** ** Where no property name can end *)

Lemma NoKeyEnd_nil : NoKeyEnd [].
Proof.
  intros w rest E _. symmetry in E. apply app_eq_nil in E as [_ ->]. reflexivity.
Qed.

Lemma NoKeyEnd_word (x : jschar) (s : jsstring) :
  is_word x = true -> NoKeyEnd s -> NoKeyEnd (x :: s).
Proof.
  intros Hx Hs w rest E Hw. destruct w as [|y w].
  - cbn [app] in E. subst rest. cbn [keyEnd].
    destruct (word_not_quote_colon x Hx) as [Hq Hc]. rewrite Hq, Hc. reflexivity.
  - cbn [app] in E. injection E as -> ->. cbn [forallb] in Hw.
    apply andb_true_iff in Hw as [_ Hw]. apply (Hs w rest eq_refl Hw).
Qed.

Lemma NoKeyEnd_other (x : jschar) (s : jsstring) :
  is_word x = false -> keyEnd (x :: s) = false -> NoKeyEnd (x :: s).
Proof.
  intros Hx Hk w rest E Hw. destruct w as [|y w].
  - cbn [app] in E. subst rest. exact Hk.
  - cbn [app] in E. injection E as -> ->. cbn [forallb] in Hw.
    rewrite Hx in Hw. discriminate Hw.
Qed.

(** A character that neither is nor ends a property name *)
Lemma NoKeyEnd_plain (x : jschar) (s : jsstring) :
  is_quote x = false -> N.eqb x colon = false -> NoKeyEnd s ->
  NoKeyEnd (x :: s).
Proof.
  intros Hq Hc Hs. destruct (is_word x) eqn:Hx.
  - apply NoKeyEnd_word; assumption.
  - apply NoKeyEnd_other; [exact Hx |]. cbn [keyEnd]. rewrite Hq, Hc. reflexivity.
Qed.

Lemma NoKeyEnd_quote (s : jsstring) :
  match s with y :: _ => N.eqb y colon | [] => false end = false ->
  NoKeyEnd (dq :: s).
Proof.
  intros H. apply NoKeyEnd_other; [reflexivity |].
  cbn [keyEnd]. change (N.eqb dq colon) with false.
  change (is_quote dq) with true. cbn [orb andb]. exact H.
Qed.

(** ** Token sequences *)

Lemma chain_cons (wt wt2 : jsstring * token) (rest : list (jsstring * token)) :
  chain_ok (wt :: wt2 :: rest) = true ->
  forallb Json.is_ws (fst wt) = true /\ token_ok (snd wt) = true /\
  follows (snd wt) (snd wt2) = true /\ chain_ok (wt2 :: rest) = true.
Proof.
  cbn [chain_ok]. intros H. apply andb_true_iff in H as [H1 H].
  apply andb_true_iff in H1 as [H0 H1].
  apply andb_true_iff in H as [H2 H]. auto.
Qed.

Lemma chain_last (wt : jsstring * token) :
  chain_ok [wt] = true -> snd wt = TRBrace.
Proof.
  cbn [chain_ok]. intros H. apply andb_true_iff in H as [_ H].
  destruct (snd wt); try discriminate H. reflexivity.
Qed.

Lemma chain_token (wt : jsstring * token) (rest : list (jsstring * token)) :
  chain_ok (wt :: rest) = true ->
  forallb Json.is_ws (fst wt) = true /\ token_ok (snd wt) = true.
Proof.
  cbn [chain_ok]. intros H. apply andb_true_iff in H as [H _].
  apply andb_true_iff in H. exact H.
Qed.

Lemma print_cons (wt : jsstring * token) (rest : list (jsstring * token)) :
  print_tokens (wt :: rest) = fst wt ++ print_token (snd wt) ++ print_tokens rest.
Proof. unfold print_tokens, print_spaced. cbn [flat_map]. apply eq_sym, app_assoc. Qed.

Lemma ws_space (x : jschar) : Json.is_ws x = true -> is_space x = true.
Proof. unfold Json.is_ws. intros H. class_lia. Qed.

Lemma ws_spaces (w : jsstring) :
  forallb Json.is_ws w = true -> forallb is_space w = true.
Proof.
  intros H. rewrite forallb_forall in *. intros x Hx. apply ws_space, H, Hx.
Qed.

Lemma first_digit_or_minus (d : jschar) :
  is_digit d || N.eqb d (ch "-") = true ->
  is_space d = false /\ is_alpha d = false /\ neutral d = true /\
  is_quote d = false /\ N.eqb d colon = false /\
  N.eqb d lbracket = false /\ N.eqb d sq = false /\ N.eqb d rbrace = false /\
  N.eqb d rbracket = false.
Proof. intros H. unfold neutral, cleanChar. repeat split; class_lia. Qed.

Lemma str_eqb_eq (a b : jsstring) : str_eqb a b = true -> a = b.
Proof.
  revert b. induction a as [|x a IH]; intros [|y b] H; try discriminate H.
  - reflexivity.
  - cbn [str_eqb] in H. apply andb_true_iff in H as [Hx H].
    apply N.eqb_eq in Hx. subst y. f_equal. apply IH, H.
Qed.

Lemma isWord_inv (w : jsstring) :
  isWord w = true -> w = js "true" \/ w = js "false" \/ w = js "null".
Proof.
  unfold isWord. intros H. apply orb_true_iff in H as [H | H].
  - apply orb_true_iff in H as [H | H]; apply str_eqb_eq in H; auto.
  - apply str_eqb_eq in H. auto.
Qed.

(** The text of a token starts with its first character, which is no
    white space. *)
Lemma token_start (t : token) :
  token_ok t = true ->
  exists R, print_token t = startChar t :: R /\ is_space (startChar t) = false.
Proof.
  intros H. destruct t; cbn [print_token startChar app];
    try (eexists; split; reflexivity).
  - cbn [token_ok] in H. destruct n as [|d ds]; [discriminate H |].
    apply andb_true_iff in H as [H _]. cbn [hd].
    eexists; split; [reflexivity |]. apply (@first_digit_or_minus d H).
  - cbn [token_ok] in H. apply isWord_inv in H as [-> | [-> | ->]];
      eexists; split; reflexivity.
Qed.

(** The text of a sequence: white space, and the first character of
    the first token. *)
Lemma print_head (wt : jsstring * token) (rest : list (jsstring * token)) :
  chain_ok (wt :: rest) = true ->
  exists R', print_tokens (wt :: rest) = fst wt ++ startChar (snd wt) :: R' /\
             trimStart (print_tokens (wt :: rest)) = startChar (snd wt) :: R' /\
             is_space (startChar (snd wt)) = false.
Proof.
  intros H. apply chain_token in H as [Hw Ht]. rewrite print_cons.
  destruct (token_start _ Ht) as (R & -> & Hs).
  exists (R ++ print_tokens rest). cbn [app]. repeat split; [| exact Hs].
  apply trimStart_run; [apply ws_spaces, Hw |]. rewrite Hs. reflexivity.
Qed.

(** ** Suffixes of texts put together *)

Lemma Suffix_nil_inv (v : jsstring) : Suffix v [] -> v = [].
Proof.
  intros [pre E]. symmetry in E. apply app_eq_nil in E as [_ E]. exact E.
Qed.

Lemma Suffix_cons_inv (v : jsstring) (x : jschar) (a : jsstring) :
  Suffix v (x :: a) -> v = x :: a \/ Suffix v a.
Proof.
  intros [pre E]. destruct pre as [|y pre].
  - left. symmetry. exact E.
  - right. cbn [app] in E. injection E as _ E. exists pre. exact E.
Qed.

Lemma Suffix_app_inv (u a b : jsstring) :
  Suffix u (a ++ b) ->
  Suffix u b \/ exists x v, Suffix (x :: v) a /\ u = (x :: v) ++ b.
Proof.
  induction a as [|y a IH]; cbn [app]; intros H.
  - left. exact H.
  - apply Suffix_cons_inv in H as [-> | H].
    + right. exists y, a. split; [apply Suffix_refl | reflexivity].
    + apply IH in H as [H | (x & v & Hv & ->)]; [left; exact H |].
      right. exists x, v. split; [| reflexivity].
      destruct Hv as [pre ->]. exists (y :: pre). reflexivity.
Qed.

Lemma Suffix_In (x : jschar) (v a : jsstring) :
  Suffix (x :: v) a -> In x a.
Proof. intros [pre ->]. apply in_or_app. right. left. reflexivity. Qed.

Lemma Suffix_forallb (p : jschar -> bool) (v a : jsstring) :
  Suffix v a -> forallb p a = true -> forallb p v = true.
Proof.
  intros [pre ->] H. rewrite forallb_app in H.
  apply andb_true_iff in H as [_ H]. exact H.
Qed.

(** ** The local conditions hold all along a token sequence *)

Lemma localOk_neutral (x : jschar) (s : jsstring) :
  neutral x = true -> localOk (x :: s) = true.
Proof.
  unfold neutral. intros H. apply andb_true_iff in H as [Hc Hn].
  cbn [localOk]. rewrite Hc. cbn [andb].
  destruct (trimStart s) as [|y v]; [reflexivity |].
  cbn [one_of existsb] in Hn. apply negb_true_iff in Hn.
  repeat (apply orb_false_iff in Hn as [? Hn]).
  unfold pairAllowed.
  repeat match goal with
         | H : N.eqb x _ = false |- _ => rewrite H; clear H
         end.
  reflexivity.
Qed.

Lemma content_local (a R : jsstring) :
  forallb neutral a = true ->
  forall x v, Suffix (x :: v) a -> localOk (x :: v ++ R) = true.
Proof.
  intros Ha x v Hv. apply localOk_neutral.
  rewrite forallb_forall in Ha. apply Ha. exact (@Suffix_In _ _ _ Hv).
Qed.

Lemma word_neutral (x : jschar) : is_word x = true -> neutral x = true.
Proof. intros H. unfold neutral, cleanChar. class_lia. Qed.

Lemma numChar_neutral (x : jschar) : numChar x = true -> neutral x = true.
Proof. intros H. unfold neutral, cleanChar. class_lia. Qed.

Lemma ws_neutral (x : jschar) : Json.is_ws x = true -> neutral x = true.
Proof. unfold Json.is_ws. intros H. unfold neutral, cleanChar. class_lia. Qed.

Lemma forallb_impl (p q : jschar -> bool) (l : jsstring) :
  (forall x, p x = true -> q x = true) ->
  forallb p l = true -> forallb q l = true.
Proof.
  intros H. rewrite !forallb_forall. intros Hl x Hx. apply H, Hl, Hx.
Qed.

Lemma localOk_next (x y : jschar) (u1 R' : jsstring) :
  trimStart u1 = y :: R' -> cleanChar x = true -> pairAllowed x y = true ->
  N.eqb x dq && N.eqb y dq = false \/ breakFree u1 = true ->
  localOk (x :: u1) = true.
Proof.
  intros Ht Hc Hp Hq. cbn [localOk]. rewrite Ht, Hc, Hp. cbn [andb].
  destruct Hq as [-> | ->]; [reflexivity | apply orb_true_r].
Qed.

Lemma start_afterValue (t t2 : token) :
  follows t t2 = true ->
  match t with
  | TStr _ | TNum _ | TWord _ | TRBrace | TRBracket => True
  | _ => False
  end ->
  afterValue (startChar t2) = true.
Proof.
  intros Hf Ht. destruct t; try contradiction;
    destruct t2; try discriminate Hf; reflexivity.
Qed.

Lemma start_valueStart (t2 : token) :
  token_ok t2 = true -> follows (TKey []) t2 = true ->
  valueStart (startChar t2) = true.
Proof.
  intros Hok Hf.
  destruct t2; try discriminate Hf; try reflexivity;
    cbn [token_ok] in Hok; (destruct n as [|d ds]; [discriminate Hok |]);
    apply andb_true_iff in Hok as [Hd _]; cbn [startChar hd];
    unfold valueStart; rewrite <- orb_assoc, Hd; apply orb_true_r.
Qed.

Lemma start_afterSep (t2 : token) :
  token_ok t2 = true -> follows TSep t2 = true ->
  pairAllowed comma (startChar t2) = true.
Proof.
  intros Hok Hf. unfold pairAllowed.
  change (N.eqb comma colon) with false. change (N.eqb comma comma) with true.
  cbv iota.
  destruct t2; try discriminate Hf; try reflexivity; cbn [startChar].
  - cbn [token_ok] in Hok. destruct n as [|d ds]; [discriminate Hok |].
    apply andb_true_iff in Hok as [Hd _]. cbn [hd]. class_lia.
  - cbn [token_ok] in Hok. apply isWord_inv in Hok as [-> | [-> | ->]];
      reflexivity.
Qed.

Lemma pair_colon (y : jschar) :
  valueStart y = true -> pairAllowed colon y = true.
Proof.
  intros H. unfold pairAllowed. change (N.eqb colon colon) with true.
  cbv iota. unfold valueStart in H. class_lia.
Qed.

Lemma pair_rbrace (y : jschar) :
  afterValue y = true -> pairAllowed rbrace y = true.
Proof.
  intros H. unfold pairAllowed. change (N.eqb rbrace colon) with false.
  change (N.eqb rbrace comma) with false.
  change (N.eqb rbrace rbrace) with true. cbv iota. unfold afterValue in H.
  class_lia.
Qed.

Lemma pair_rbracket (y : jschar) :
  afterValue y = true -> pairAllowed rbracket y = true.
Proof.
  intros H. unfold pairAllowed. change (N.eqb rbracket colon) with false.
  change (N.eqb rbracket comma) with false.
  change (N.eqb rbracket rbrace) with false.
  change (N.eqb rbracket rbracket) with true. cbv iota. unfold afterValue in H.
  class_lia.
Qed.

Lemma pair_dq (y : jschar) :
  N.eqb y lbracket = false -> pairAllowed dq y = true.
Proof.
  intros H. unfold pairAllowed. change (N.eqb dq colon) with false.
  change (N.eqb dq comma) with false. change (N.eqb dq rbrace) with false.
  change (N.eqb dq rbracket) with false. change (N.eqb dq dq) with true.
  cbv iota. rewrite H. reflexivity.
Qed.

(** After the opening quote of a string: the first character that is no
    white space is a character of the string or its closing quote, and
    there is no line break before it. *)
Lemma str_trim (s R : jsstring) :
  forallb strChar s = true ->
  exists y R', trimStart (s ++ dq :: R) = y :: R' /\
               (strChar y = true \/ y = dq) /\
               breakFree (s ++ dq :: R) = true.
Proof.
  unfold breakFree. induction s as [|x s IH]; intros H.
  - exists dq, R. repeat split. right. reflexivity.
  - cbn [forallb] in H. apply andb_true_iff in H as [Hx H].
    cbn [app trimStart span]. destruct (is_space x) eqn:Hs.
    + destruct (IH H) as (y & R' & E & Hy & Hb). exists y, R'.
      repeat split; try assumption.
      destruct (span is_space (s ++ dq :: R)) as [a b]. cbn [fst existsb] in *.
      replace (N.eqb newline x) with false by (symmetry; class_lia).
      exact Hb.
    + exists x, (s ++ dq :: R). repeat split. left. exact Hx.
Qed.

Lemma strChar_pairs (y : jschar) :
  strChar y = true \/ y = dq ->
  N.eqb y lbracket = false /\ pairAllowed comma y = true.
Proof.
  unfold pairAllowed.
  change (N.eqb comma colon) with false. change (N.eqb comma comma) with true.
  cbv iota. intros [H | ->]; [| split; reflexivity]. split; class_lia.
Qed.

(** A character of a string, before the rest of the string *)
Lemma strChar_local (x : jschar) (v R : jsstring) :
  strChar x = true -> forallb strChar v = true ->
  localOk (x :: v ++ dq :: R) = true.
Proof.
  intros Hx Hv. destruct (N.eqb x comma) eqn:Ec.
  - apply N.eqb_eq in Ec. subst x.
    destruct (@str_trim v R Hv) as (y & R' & E & Hy & _).
    apply localOk_next with (1 := E); [reflexivity | | left; reflexivity].
    apply strChar_pairs, Hy.
  - apply localOk_neutral. unfold neutral, cleanChar. class_lia.
Qed.

Lemma word_chars (w : jsstring) :
  isWord w = true -> forallb is_alpha w = true.
Proof. intros H. apply isWord_inv in H as [-> | [-> | ->]]; reflexivity. Qed.

Lemma alpha_neutral (x : jschar) : is_alpha x = true -> neutral x = true.
Proof. intros H. unfold neutral, cleanChar. class_lia. Qed.

Lemma token_local (wt wt2 : jsstring * token) (rest : list (jsstring * token)) :
  chain_ok (wt :: wt2 :: rest) = true ->
  forall x v, Suffix (x :: v) (fst wt ++ print_token (snd wt)) ->
    localOk ((x :: v) ++ print_tokens (wt2 :: rest)) = true.
Proof.
  intros H x v Hv. apply chain_cons in H as (Hw & Hok & Hf & Hch).
  destruct wt as [w t]. cbn [fst snd] in *.
  apply Suffix_app_inv in Hv as [Hv | (x' & v' & Hv & E)].
  2: { injection E as -> ->. cbn [app]. apply localOk_neutral, ws_neutral.
       rewrite forallb_forall in Hw. apply Hw, (@Suffix_In _ _ _ Hv). }
  cbn [app].
  destruct (@print_head _ _ Hch) as (R' & _ & Htrim & Hsp).
  pose proof (@chain_token _ _ Hch) as [_ Hok2].
  destruct t; cbn [print_token] in Hv.
  - (* { *)
    apply content_local with (a := [lbrace]); [reflexivity | exact Hv].
  - (* } *)
    apply Suffix_cons_inv in Hv as [Hv | Hv];
      [| apply Suffix_nil_inv in Hv; discriminate Hv].
    injection Hv as -> ->. cbn [app].
    apply localOk_next with (1 := Htrim); [reflexivity | | left; reflexivity].
    apply pair_rbrace, (@start_afterValue _ _ Hf I).
  - (* [ *)
    apply content_local with (a := [lbracket]); [reflexivity | exact Hv].
  - (* ] *)
    apply Suffix_cons_inv in Hv as [Hv | Hv];
      [| apply Suffix_nil_inv in Hv; discriminate Hv].
    injection Hv as -> ->. cbn [app].
    apply localOk_next with (1 := Htrim); [reflexivity | | left; reflexivity].
    apply pair_rbracket, (@start_afterValue _ _ Hf I).
  - (* a key *)
    cbn [token_ok] in Hok. destruct k as [|c k]; [discriminate Hok |].
    apply Suffix_cons_inv in Hv as [Hv | Hv].
    + injection Hv as -> ->. cbn [forallb] in Hok.
      apply andb_true_iff in Hok as [Hc _]. cbn [app].
      apply localOk_next
        with (y := c) (R' := k ++ [dq; colon] ++ print_tokens (wt2 :: rest)).
      * cbn [trimStart]. replace (is_space c) with false by (symmetry; class_lia).
        rewrite <- app_assoc. reflexivity.
      * reflexivity.
      * apply pair_dq. class_lia.
      * left. change (N.eqb dq dq) with true. cbn [andb]. class_lia.
    + apply Suffix_app_inv in Hv as [Hv | (x' & v' & Hv & E)].
      * apply Suffix_cons_inv in Hv as [Hv | Hv].
        { injection Hv as -> ->. cbn [app].
          apply localOk_next with (y := colon) (R' := print_tokens (wt2 :: rest));
            [reflexivity | reflexivity | reflexivity | left; reflexivity]. }
        apply Suffix_cons_inv in Hv as [Hv | Hv];
          [| apply Suffix_nil_inv in Hv; discriminate Hv].
        injection Hv as -> ->. cbn [app].
        apply localOk_next with (1 := Htrim); [reflexivity | | left; reflexivity].
        apply pair_colon, (@start_valueStart _ Hok2).
        destruct (snd wt2); try discriminate Hf; reflexivity.
      * injection E as -> ->.
        apply localOk_neutral, word_neutral.
        rewrite forallb_forall in Hok. apply Hok, (@Suffix_In _ _ _ Hv).
  - (* a string *)
    cbn [token_ok] in Hok. apply andb_true_iff in Hok as [Hok _].
    apply Suffix_cons_inv in Hv as [Hv | Hv].
    + injection Hv as -> ->. rewrite <- app_assoc. cbn [app].
      destruct (@str_trim s (print_tokens (wt2 :: rest)) Hok)
        as (y & R2 & E & Hy & Hb).
      apply localOk_next with (1 := E);
        [reflexivity | apply pair_dq, strChar_pairs, Hy | right; exact Hb].
    + apply Suffix_app_inv in Hv as [Hv | (x' & v' & Hv & E)].
      * apply Suffix_cons_inv in Hv as [Hv | Hv];
          [| apply Suffix_nil_inv in Hv; discriminate Hv].
        injection Hv as -> ->. cbn [app].
        pose proof (@start_afterValue _ _ Hf I) as Ha.
        apply localOk_next with (1 := Htrim); [reflexivity | |].
        { apply pair_dq. unfold afterValue in Ha. class_lia. }
        left. change (N.eqb dq dq) with true. cbn [andb].
        unfold afterValue in Ha. class_lia.
      * injection E as -> ->. rewrite <- app_assoc. cbn [app].
        apply strChar_local.
        -- rewrite forallb_forall in Hok. apply Hok, (@Suffix_In _ _ _ Hv).
        -- apply (Suffix_forallb strChar (Suffix_tail Hv) Hok).
  - (* a number *)
    apply content_local with (a := n); [| exact Hv].
    cbn [token_ok] in Hok. destruct n as [|d ds]; [discriminate Hok |].
    apply andb_true_iff in Hok as [Hd Hds]. cbn [forallb].
    destruct (@first_digit_or_minus d Hd) as (_ & _ & -> & _). cbn [andb].
    apply forallb_impl with (2 := Hds). apply numChar_neutral.
  - (* a word *)
    apply content_local with (a := w0); [| exact Hv].
    cbn [token_ok] in Hok.
    apply forallb_impl with (2 := word_chars _ Hok). apply alpha_neutral.
  - (* a comma *)
    apply Suffix_cons_inv in Hv as [Hv | Hv];
      [| apply Suffix_nil_inv in Hv; discriminate Hv].
    injection Hv as -> ->. cbn [app].
    apply localOk_next with (1 := Htrim); [reflexivity | | left; reflexivity].
    apply (@start_afterSep _ Hok2 Hf).
Qed.

(** Every position of the text of a token sequence meets the local
    conditions. *)
Lemma tokens_local (toks : list (jsstring * token)) :
  chain_ok toks = true ->
  forall u, Suffix u (print_tokens toks) -> localOk u = true.
Proof.
  induction toks as [|wt rest IH]; intros H u Hu; [discriminate H |].
  destruct rest as [|wt2 rest].
  - pose proof (chain_last _ H) as Et. apply chain_token in H as [Hw _].
    rewrite print_cons, Et in Hu. cbn [print_token print_tokens flat_map] in Hu.
    rewrite app_nil_r in Hu.
    destruct u as [|x v]; [reflexivity |].
    apply Suffix_app_inv in Hu as [Hu | (x' & v' & Hv & E)].
    + apply Suffix_cons_inv in Hu as [Hu | Hu];
        [| apply Suffix_nil_inv in Hu; discriminate Hu].
      injection Hu as -> ->. reflexivity.
    + injection E as -> ->. apply localOk_neutral, ws_neutral.
      rewrite forallb_forall in Hw. apply Hw, (@Suffix_In _ _ _ Hv).
  - rewrite print_cons, app_assoc in Hu.
    apply Suffix_app_inv in Hu as [Hu | (x & v & Hv & ->)].
    + apply IH; [| exact Hu]. apply chain_cons in H as (_ & _ & _ & H). exact H.
    + apply (@token_local _ _ _ H _ _ Hv).
Qed.

(** ** Property names along a token sequence *)

Lemma replace_all_miss (r : regex) (t : template) (x : jschar) (s : jsstring) :
  match_here r (x :: s) = None ->
  replace_all r t (x :: s) = x :: replace_all r t s.
Proof. intros H. unfold replace_all. rewrite scan_miss by exact H. reflexivity. Qed.

Lemma replace_all_hit (r : regex) (t : template) (x : jschar)
    (m rest : jsstring) (c : caps) :
  match_here r ((x :: m) ++ rest) = Some (rest, c) ->
  replace_all r t ((x :: m) ++ rest) = expand t c ++ replace_all r t rest.
Proof.
  intros H. unfold replace_all. cbn [app] in *.
  rewrite scan_hit with (rest := rest) (c := c) (n := List.length m);
    [| exact H | cbn [List.length]; rewrite length_app; lia].
  rewrite scan_skip. reflexivity.
Qed.

(** Where the expression finds nothing at any position of [v], the
    replacement passes [v] on unchanged. *)
Lemma replace_all_run (r : regex) (t : template) (v R : jsstring) :
  (forall x v', Suffix (x :: v') v -> match_here r ((x :: v') ++ R) = None) ->
  replace_all r t (v ++ R) = v ++ replace_all r t R.
Proof.
  induction v as [|x v IH]; intros H; [reflexivity |].
  cbn [app]. rewrite replace_all_miss.
  - f_equal. apply IH. intros y v' Hv'. apply H.
    destruct Hv' as [pre ->]. exists (x :: pre). reflexivity.
  - apply (H x v), Suffix_refl.
Qed.

Lemma NoKeyEnd_plain_char (x : jschar) (s : jsstring) :
  plain x = true -> NoKeyEnd s -> NoKeyEnd (x :: s).
Proof.
  unfold plain. intros H. apply andb_true_iff in H as [H1 H2].
  apply negb_true_iff in H1, H2. apply NoKeyEnd_plain; assumption.
Qed.

Lemma plain_upto (v R : jsstring) :
  forallb plain v = true -> NoKeyEnd R ->
  forall v', Suffix v' v -> NoKeyEnd (v' ++ R).
Proof.
  induction v as [|x v IH]; intros Hv HR v' Hs.
  - apply Suffix_nil_inv in Hs. subst v'. exact HR.
  - cbn [forallb] in Hv. apply andb_true_iff in Hv as [Hx Hv].
    apply Suffix_cons_inv in Hs as [-> | Hs].
    + cbn [app]. apply NoKeyEnd_plain_char; [exact Hx |].
      apply (IH Hv HR v (Suffix_refl v)).
    + apply IH; assumption.
Qed.

Lemma strChar_plain (x : jschar) : strChar x = true -> plain x = true.
Proof. intros H. unfold plain. class_lia. Qed.

Lemma numChar_plain (x : jschar) : numChar x = true -> plain x = true.
Proof. intros H. unfold plain. class_lia. Qed.

Lemma alpha_plain (x : jschar) : is_alpha x = true -> plain x = true.
Proof. intros H. unfold plain. class_lia. Qed.

Lemma ws_plain (x : jschar) : Json.is_ws x = true -> plain x = true.
Proof. unfold Json.is_ws. intros H. unfold plain. class_lia. Qed.

Lemma first_plain (x : jschar) :
  is_digit x || N.eqb x (ch "-") = true -> plain x = true.
Proof. intros H. unfold plain. class_lia. Qed.

Lemma afterValue_not_colon (y : jschar) :
  afterValue y = true -> N.eqb y colon = false.
Proof. unfold afterValue. intros H. class_lia. Qed.

(** The first character of the text of a sequence is no colon. *)
Lemma print_not_colon (toks : list (jsstring * token)) :
  chain_ok toks = true ->
  match print_tokens toks with y :: _ => N.eqb y colon | [] => false end = false.
Proof.
  intros H. destruct toks as [|wt rest]; [discriminate H |].
  destruct (@print_head _ _ H) as (R' & E & _ & _). rewrite E.
  apply chain_token in H as [Hw Ht].
  destruct (fst wt) as [|x w]; cbn [app].
  - destruct (snd wt); try reflexivity; cbn [startChar].
    + cbn [token_ok] in Ht. destruct n as [|d ds]; [discriminate Ht |].
      apply andb_true_iff in Ht as [Hd _]. cbn [hd]. class_lia.
    + cbn [token_ok] in Ht. apply isWord_inv in Ht as [-> | [-> | ->]];
        reflexivity.
  - cbn [forallb] in Hw. apply andb_true_iff in Hw as [Hx _].
    unfold Json.is_ws in Hx. class_lia.
Qed.

(** The text of a token other than a key, from any of its positions
    on, before a text with no end of a property name at its front *)
Lemma token_NoKeyEnd (t : token) (R : jsstring) :
  token_ok t = true ->
  match t with TKey _ => False | _ => True end ->
  match R with y :: _ => N.eqb y colon | [] => false end = false ->
  NoKeyEnd R ->
  forall v, Suffix v (print_token t) -> NoKeyEnd (v ++ R).
Proof.
  intros Hok Hk Hc HR v Hv.
  destruct t; cbn [print_token] in Hv; try contradiction.
  - apply plain_upto with (v := [lbrace]); [reflexivity | exact HR | exact Hv].
  - apply plain_upto with (v := [rbrace]); [reflexivity | exact HR | exact Hv].
  - apply plain_upto with (v := [lbracket]); [reflexivity | exact HR | exact Hv].
  - apply plain_upto with (v := [rbracket]); [reflexivity | exact HR | exact Hv].
  - cbn [token_ok] in Hok. apply andb_true_iff in Hok as [Hok _].
    assert (Hq : NoKeyEnd (dq :: R)) by (apply NoKeyEnd_quote, Hc).
    apply Suffix_cons_inv in Hv as [-> | Hv].
    + cbn [app]. apply NoKeyEnd_quote. rewrite <- app_assoc.
      destruct s as [|x s]; [reflexivity |]. cbn [app forallb] in *.
      apply andb_true_iff in Hok as [Hx _]. class_lia.
    + apply Suffix_app_inv in Hv as [Hv | (x & v' & Hv & ->)].
      * apply Suffix_cons_inv in Hv as [-> | Hv]; [exact Hq |].
        apply Suffix_nil_inv in Hv. subst v. exact HR.
      * rewrite <- app_assoc.
        apply plain_upto with (v := s); [| exact Hq | exact Hv].
        apply forallb_impl with (2 := Hok). apply strChar_plain.
  - apply plain_upto with (v := n); [| exact HR | exact Hv].
    cbn [token_ok] in Hok. destruct n as [|d ds]; [discriminate Hok |].
    apply andb_true_iff in Hok as [Hd Hds]. cbn [forallb].
    rewrite (@first_plain d Hd). cbn [andb].
    apply forallb_impl with (2 := Hds). apply numChar_plain.
  - apply plain_upto with (v := w); [| exact HR | exact Hv].
    cbn [token_ok] in Hok.
    apply forallb_impl with (2 := word_chars _ Hok). apply alpha_plain.
  - apply plain_upto with (v := [comma]); [reflexivity | exact HR | exact Hv].
Qed.

Lemma key_NoKeyEnd (k R : jsstring) :
  token_ok (TKey k) = true -> NoKeyEnd (print_token (TKey k) ++ R).
Proof.
  intros Hok. cbn [token_ok] in Hok. destruct k as [|c k]; [discriminate Hok |].
  cbn [forallb] in Hok. apply andb_true_iff in Hok as [Hc _].
  cbn [print_token app]. apply NoKeyEnd_quote. class_lia.
Qed.

(** White space in front of a text *)
Lemma gap_NoKeyEnd (w R : jsstring) :
  forallb Json.is_ws w = true -> NoKeyEnd R ->
  forall v, Suffix v w -> NoKeyEnd (v ++ R).
Proof.
  intros Hw HR. apply plain_upto; [| exact HR].
  apply forallb_impl with (2 := Hw). apply ws_plain.
Qed.

Lemma tokens_NoKeyEnd (toks : list (jsstring * token)) :
  chain_ok toks = true -> NoKeyEnd (print_tokens toks).
Proof.
  induction toks as [|wt rest IH]; intros H; [discriminate H |].
  rewrite print_cons.
  destruct (@chain_token _ _ H) as [Hw Hok].
  apply gap_NoKeyEnd with (w := fst wt); [exact Hw | | apply Suffix_refl].
  destruct rest as [|wt2 rest].
  - rewrite (chain_last _ H). cbn [print_token print_tokens flat_map app].
    apply plain_upto with (v := [rbrace]) (R := []) (v' := [rbrace]);
      [reflexivity | apply NoKeyEnd_nil | apply Suffix_refl].
  - apply chain_cons in H as (_ & _ & Hf & Hch).
    destruct (snd wt) eqn:Et;
      try (match goal with
           | |- NoKeyEnd (print_token ?t0 ++ _) =>
               apply token_NoKeyEnd with (t := t0)
           end;
           [exact Hok | exact I | apply print_not_colon, Hch | apply IH, Hch
           | apply Suffix_refl]).
    apply key_NoKeyEnd, Hok.
Qed.

(** Where no position of [v] starts a property name, the replacement
    passes [v] on unchanged. *)
Lemma propertyName_run (v R : jsstring) :
  (forall v', Suffix v' v -> NoKeyEnd (v' ++ R)) ->
  replace_all Re.propertyName keyTemplate (v ++ R)
  = v ++ replace_all Re.propertyName keyTemplate R.
Proof.
  intros H. apply replace_all_run. intros x v' Hv.
  apply propertyName_none.
  - apply (H (x :: v')), Hv.
  - cbn [app tl]. apply (H v'). apply (Suffix_tail Hv).
Qed.

(** Step 4, property names: every key of a token sequence is found, and
    written back as it was. *)
Lemma tokens_propertyName (toks : list (jsstring * token)) :
  chain_ok toks = true ->
  replace_all Re.propertyName keyTemplate (print_tokens toks) = print_tokens toks.
Proof.
  induction toks as [|wt rest IH]; intros H; [discriminate H |].
  destruct (@chain_token _ _ H) as [Hw Hok].
  destruct rest as [|wt2 rest].
  - rewrite print_cons, (chain_last _ H).
    cbn [print_token print_tokens flat_map]. rewrite app_nil_r.
    rewrite <- (app_nil_r (fst wt ++ [rbrace])) at 1.
    rewrite propertyName_run; [apply app_nil_r |].
    intros v' Hv'. rewrite app_nil_r.
    rewrite <- (app_nil_r v').
    apply plain_upto with (v := fst wt ++ [rbrace]);
      [| apply NoKeyEnd_nil | exact Hv'].
    rewrite forallb_app. cbn [forallb].
    rewrite (@forallb_impl Json.is_ws plain _ ws_plain Hw). reflexivity.
  - pose proof H as H'. apply chain_cons in H as (_ & _ & Hf & Hch).
    rewrite print_cons.
    destruct (snd wt) as [ | | | | k | s | n | w | ] eqn:Et.
    5: {
      rewrite propertyName_run.
      2: { intros v' Hv'. apply (@gap_NoKeyEnd (fst wt) _ Hw); [| exact Hv'].
           apply key_NoKeyEnd, Hok. }
      f_equal.
      cbn [token_ok] in Hok. destruct k as [|c k]; [discriminate Hok |].
      destruct (@propertyName_key c k (print_tokens (wt2 :: rest)) Hok)
        as (cp & Hm & Hx).
      cbn [print_token].
      replace (dq :: (c :: k) ++ dq :: colon :: print_tokens (wt2 :: rest))
        with ((dq :: (c :: k) ++ [dq; colon]) ++ print_tokens (wt2 :: rest)) in Hm
        by (cbn [app]; rewrite <- app_assoc; reflexivity).
      rewrite (@replace_all_hit _ keyTemplate _ _ _ _ Hm).
      rewrite (IH Hch). unfold keyTemplate. rewrite Hx. reflexivity. }
    all: rewrite app_assoc, propertyName_run;
      [rewrite (IH Hch); reflexivity |];
      intros v' Hv';
      apply Suffix_app_inv in Hv' as [Hv' | (x & v2 & Hv2 & ->)];
      [ apply token_NoKeyEnd with (1 := Hok);
        [exact I | apply print_not_colon, Hch
        | apply tokens_NoKeyEnd, Hch | exact Hv']
      | rewrite <- app_assoc;
        apply (@gap_NoKeyEnd (fst wt) _ Hw); [| exact Hv2];
        apply token_NoKeyEnd with (1 := Hok);
        [exact I | apply print_not_colon, Hch
        | apply tokens_NoKeyEnd, Hch | apply Suffix_refl] ].
Qed.

(** ** The steps of the sanitizer on a text that meets the local
    conditions everywhere *)

Section LocalSteps.
Variable s : jsstring.
Hypothesis L : forall u, Suffix u s -> localOk u = true.

Lemma Suffix_trans (a b c : jsstring) : Suffix a b -> Suffix b c -> Suffix a c.
Proof.
  intros [p ->] [q ->]. exists (q ++ p). rewrite <- app_assoc. reflexivity.
Qed.

Lemma backslash_unclean (x : jschar) :
  is_char (ch "\") x = true -> cleanChar x = false.
Proof. intros H. apply N.eqb_eq in H. subst x. reflexivity. Qed.

Lemma local_fixEscapes : fixEscapes s = s.
Proof.
  unfold fixEscapes.
  rewrite match_all_nomatch.
  - cbn [storeEscapes restoreEscapes]. apply replace_all_nomatch.
    intros u Hu. apply (@head_blocked _ Eps u backslash_unclean (L Hu)).
  - intros u Hu. apply (@head_blocked _ _ u backslash_unclean (L Hu)).
Qed.

Lemma local_adjacent (x y : jschar) (t : template) :
  is_space y = false -> pairAllowed x y = false ->
  replace_all (Re.adjacent x y) t s = s.
Proof.
  intros Hy Hp. apply replace_all_nomatch. intros u Hu.
  apply adjacent_blocked; [exact Hy | exact Hp | exact (L Hu)].
Qed.

Lemma local_singleQuotedValue (t : template) :
  replace_all Re.singleQuotedValue t s = s.
Proof.
  apply replace_all_nomatch. intros u Hu.
  apply singleQuotedValue_blocked, (L Hu).
Qed.

Lemma local_bareValue (t : template) : replace_all Re.bareValue t s = s.
Proof.
  apply replace_all_nomatch. intros u Hu. apply bareValue_blocked, (L Hu).
Qed.

Lemma local_brokenString (t : template) : replace_all Re.brokenString t s = s.
Proof.
  apply replace_all_nomatch. intros u Hu. apply brokenString_blocked, (L Hu).
Qed.

Lemma local_doubleEscapedQuote :
  replace_all Re.doubleEscapedQuote collapseTemplate s = s.
Proof.
  apply replace_all_nomatch. intros u Hu.
  apply (@head_blocked _ _ u backslash_unclean (L Hu)).
Qed.

Lemma quoteLoop_clean (u : jsstring) :
  (forall x, In x u -> cleanChar x = true) ->
  forall inString, quoteLoop inString false u = u.
Proof.
  induction u as [|x u IH]; intros H inString; [reflexivity |].
  cbn [quoteLoop].
  assert (Hx : cleanChar x = true) by (apply H; left; reflexivity).
  assert (IHu : forall b, quoteLoop b false u = u)
    by (apply IH; intros y Hy; apply H; right; exact Hy).
  replace (N.eqb x backslash) with false by (symmetry; class_lia).
  destruct (N.eqb x dq) eqn:Hq.
  - rewrite IHu. reflexivity.
  - replace (N.eqb x sq) with false by (symmetry; class_lia).
    rewrite andb_false_r, IHu. reflexivity.
Qed.

Lemma local_nestedQuotes : nestedQuotes s = s.
Proof.
  unfold nestedQuotes. rewrite quoteLoop_clean.
  - destruct s; reflexivity.
  - apply all_clean, L.
Qed.

(** The expressions of step 4 before the three that act on white
    space *)
Lemma local_fixes :
  replace_all Re.propertyName keyTemplate s = s ->
  fold_left (fun cleaned rt => replace_all (fst rt) (snd rt) cleaned)
    (firstn 11 syntaxFixes) s = s.
Proof.
  intros Hpn. unfold syntaxFixes. cbn [firstn fold_left fst snd].
  unfold keyTemplate in Hpn.
  rewrite Hpn, local_singleQuotedValue, local_bareValue.
  rewrite !local_adjacent by reflexivity. reflexivity.
Qed.
End LocalSteps.

(** ** The two expressions of a quote, a comma and a quote *)

Section QuoteComma.
Variable tight : bool.

Lemma quoteComma_miss_char (x : jschar) (u : jsstring) :
  N.eqb x dq = false -> match_here (quoteComma tight) (x :: u) = None.
Proof.
  intros Hx. destruct (match_here (quoteComma tight) (x :: u)) eqn:E;
    [| reflexivity].
  exfalso. destruct (@quoteComma_inv tight (x :: u))
    as (w1 & w2 & rest & Eu & _); [rewrite E; discriminate |].
  injection Eu as -> _. discriminate Hx.
Qed.

Lemma quoteComma_miss_next (u1 : jsstring) (y : jschar) (v : jsstring) :
  trimStart u1 = y :: v -> N.eqb y comma = false ->
  match_here (quoteComma tight) (dq :: u1) = None.
Proof.
  intros Ht Hy. destruct (match_here (quoteComma tight) (dq :: u1)) eqn:E;
    [| reflexivity].
  exfalso. destruct (@quoteComma_inv tight (dq :: u1))
    as (w1 & w2 & rest & Eu & H1 & _); [rewrite E; discriminate |].
  injection Eu as ->.
  rewrite trimStart_run in Ht by (assumption || reflexivity).
  injection Ht as <- _. discriminate Hy.
Qed.

Lemma quoteComma_miss_after (u1 v : jsstring) (y : jschar) (v' : jsstring) :
  trimStart u1 = comma :: v -> trimStart v = y :: v' -> N.eqb y dq = false ->
  match_here (quoteComma tight) (dq :: u1) = None.
Proof.
  intros Ht Hv Hy. destruct (match_here (quoteComma tight) (dq :: u1)) eqn:E;
    [| reflexivity].
  exfalso. destruct (@quoteComma_inv tight (dq :: u1))
    as (w1 & w2 & rest & Eu & H1 & H2 & _); [rewrite E; discriminate |].
  injection Eu as ->.
  rewrite trimStart_run in Ht by (assumption || reflexivity).
  injection Ht as <-.
  rewrite trimStart_run in Hv by (assumption || reflexivity).
  injection Hv as <- _. discriminate Hy.
Qed.

Lemma quoteComma_miss_tight (x : jschar) (u1 : jsstring) :
  tight = true -> N.eqb x comma = false ->
  match_here (quoteComma tight) (dq :: x :: u1) = None.
Proof.
  intros Ht Hx. destruct (match_here (quoteComma tight) (dq :: x :: u1)) eqn:E;
    [| reflexivity].
  exfalso. destruct (@quoteComma_inv tight (dq :: x :: u1))
    as (w1 & w2 & rest & Eu & _ & _ & Hw); [rewrite E; discriminate |].
  rewrite (Hw Ht) in Eu. injection Eu as ->. discriminate Hx.
Qed.

Lemma requote_plain (v R : jsstring) :
  forallb (fun x => negb (N.eqb x dq)) v = true ->
  requote tight (v ++ R) = v ++ requote tight R.
Proof.
  intros Hv. apply replace_all_run. intros x v' Hs.
  apply quoteComma_miss_char. apply negb_true_iff.
  rewrite forallb_forall in Hv. apply (Hv x), (@Suffix_In _ _ _ Hs).
Qed.

Lemma requote_char (x : jschar) (R : jsstring) :
  N.eqb x dq = false -> requote tight (x :: R) = x :: requote tight R.
Proof. intros H. apply replace_all_miss, quoteComma_miss_char, H. Qed.

Lemma requote_hit (w1 w2 rest : jsstring) :
  forallb is_space w1 = true -> forallb is_space w2 = true ->
  (tight = true -> w1 = []) ->
  requote tight (dq :: w1 ++ comma :: w2 ++ dq :: rest)
  = dq :: comma :: space :: dq :: requote tight rest.
Proof.
  intros H1 H2 Ht. unfold requote.
  pose proof (@quoteComma_hit tight w1 w2 rest H1 H2 Ht) as Hm.
  replace (dq :: w1 ++ comma :: w2 ++ dq :: rest)
    with ((dq :: w1 ++ comma :: w2 ++ [dq]) ++ rest) in *
    by (cbn [app]; rewrite <- !app_assoc; cbn [app]; rewrite <- app_assoc;
        reflexivity).
  rewrite (@replace_all_hit _ quoteTemplate _ _ _ _ Hm). reflexivity.
Qed.

Lemma strChar_not_dq (s : jsstring) :
  forallb strChar s = true -> forallb (fun x => negb (N.eqb x dq)) s = true.
Proof. apply forallb_impl. intros x H. class_lia. Qed.

Lemma word_not_dq (k : jsstring) :
  forallb is_word k = true -> forallb (fun x => negb (N.eqb x dq)) k = true.
Proof. apply forallb_impl. intros x H. class_lia. Qed.

Lemma ws_not_dq (w : jsstring) :
  forallb Json.is_ws w = true -> forallb (fun x => negb (N.eqb x dq)) w = true.
Proof. apply forallb_impl. unfold Json.is_ws. intros x H. class_lia. Qed.

(** The rest of a key after its opening quote *)
Lemma requote_key (k R : jsstring) :
  forallb is_word k = true ->
  requote tight (k ++ dq :: colon :: R) = k ++ dq :: colon :: requote tight R.
Proof.
  intros Hk. rewrite requote_plain by (apply word_not_dq, Hk). f_equal.
  unfold requote. rewrite replace_all_miss
    by (apply quoteComma_miss_next with (y := colon) (v := R); reflexivity).
  f_equal. apply requote_char. reflexivity.
Qed.

(** The first character of a string that is no white space is no
    comma, and neither is the quote that closes it. *)
Lemma str_not_comma (s R : jsstring) :
  token_ok (TStr s) = true ->
  exists y v, trimStart (s ++ dq :: R) = y :: v /\ N.eqb y comma = false.
Proof.
  cbn [token_ok]. intros H. apply andb_true_iff in H as [_ H].
  apply negb_true_iff in H. induction s as [|x s IH].
  - exists dq, R. split; reflexivity.
  - cbn [app trimStart] in *. destruct (is_space x) eqn:Hs.
    + apply IH, H.
    + exists x, (s ++ dq :: R). split; [reflexivity |].
      unfold startsWith in H. cbn [strip_prefix] in H.
      rewrite N.eqb_sym. destruct (N.eqb comma x); [discriminate H | reflexivity].
Qed.

(** A whole token that is no string, with the white space in front of
    it, and a string up to its closing quote *)
Lemma requote_token (w : jsstring) (t : token) (R : jsstring) :
  forallb Json.is_ws w = true -> token_ok t = true -> isStr t = false ->
  requote tight (w ++ print_token t ++ R) = w ++ print_token t ++ requote tight R.
Proof.
  intros Hw Hok Hs. rewrite requote_plain by (apply ws_not_dq, Hw). f_equal.
  destruct t; try discriminate Hs; cbn [print_token app];
    try (apply requote_char; reflexivity).
  - cbn [token_ok] in Hok. destruct k as [|c k]; [discriminate Hok |].
    rewrite <- !app_assoc. cbn [app].
    unfold requote at 1. rewrite replace_all_miss.
    + f_equal. apply (@requote_key (c :: k) R Hok).
    + cbn [forallb] in Hok. apply andb_true_iff in Hok as [Hc _].
      apply quoteComma_miss_next with (y := c) (v := k ++ dq :: colon :: R).
      * apply trimStart_head. class_lia.
      * class_lia.
  - apply requote_plain. cbn [token_ok] in Hok.
    destruct n as [|d ds]; [discriminate Hok |].
    apply andb_true_iff in Hok as [Hd Hds]. cbn [forallb].
    apply andb_true_iff. split; [class_lia |].
    apply forallb_impl with (2 := Hds). intros x H. class_lia.
  - apply requote_plain. cbn [token_ok] in Hok.
    apply forallb_impl with (2 := word_chars _ Hok). intros x H. class_lia.
Qed.

Lemma requote_string (w s R : jsstring) :
  forallb Json.is_ws w = true -> token_ok (TStr s) = true ->
  requote tight (w ++ print_token (TStr s) ++ R) = w ++ dq :: s ++ requote tight (dq :: R).
Proof.
  intros Hw Hok. rewrite requote_plain by (apply ws_not_dq, Hw). f_equal.
  cbn [print_token app]. rewrite <- app_assoc. cbn [app].
  destruct (@str_not_comma s R Hok) as (y & v & Ht & Hy).
  unfold requote at 1.
  rewrite replace_all_miss by (apply (quoteComma_miss_next _ Ht Hy)).
  f_equal. apply requote_plain, strChar_not_dq.
  cbn [token_ok] in Hok. apply andb_true_iff in Hok as [Hok _]. exact Hok.
Qed.
End QuoteComma.

(** ** The white space after the two expressions *)

Lemma respace_sep (tight b : bool) (w : jsstring) (wt3 : jsstring * token)
    (rest3 : list (jsstring * token)) :
  respace tight b ((w, TSep) :: wt3 :: rest3) =
  if b && startsQuote (snd wt3) && (negb tight || isEmpty w)
  then ([], TSep) :: ([space], snd wt3) :: respace tight (isStr (snd wt3)) rest3
  else (w, TSep) :: respace tight false (wt3 :: rest3).
Proof. reflexivity. Qed.

Lemma respace_other (tight b : bool) (wt : jsstring * token)
    (rest : list (jsstring * token)) :
  (snd wt = TSep -> rest = []) ->
  respace tight b (wt :: rest) = wt :: respace tight (isStr (snd wt)) rest.
Proof.
  intros H. cbn [respace]. destruct (snd wt) eqn:E; try reflexivity.
  rewrite (H eq_refl). reflexivity.
Qed.

Lemma respace_miss (tight : bool) (toks : list (jsstring * token)) :
  hits tight toks = false -> respace tight true toks = respace tight false toks.
Proof.
  destruct toks as [|[w t] rest]; [reflexivity |].
  destruct t; try reflexivity.
  destruct rest as [|wt3 rest3]; [reflexivity |].
  cbn [hits fst snd]. intros H. rewrite !respace_sep.
  cbn [andb]. rewrite H. reflexivity.
Qed.

Lemma start_not_comma (t : token) :
  token_ok t = true ->
  match t with TSep => True | _ => N.eqb (startChar t) comma = false end.
Proof.
  intros Hok. destruct t; try reflexivity; try exact I; cbn [startChar].
  - cbn [token_ok] in Hok. destruct n as [|d ds]; [discriminate Hok |].
    apply andb_true_iff in Hok as [Hd _]. cbn [hd]. class_lia.
  - cbn [token_ok] in Hok. apply isWord_inv in Hok as [-> | [-> | ->]];
      reflexivity.
Qed.

Lemma start_not_quote (t : token) :
  token_ok t = true -> startsQuote t = false -> N.eqb (startChar t) dq = false.
Proof.
  intros Hok Hq. destruct t; try discriminate Hq; try reflexivity;
    cbn [startChar].
  - cbn [token_ok] in Hok. destruct n as [|d ds]; [discriminate Hok |].
    apply andb_true_iff in Hok as [Hd _]. cbn [hd]. class_lia.
  - cbn [token_ok] in Hok. apply isWord_inv in Hok as [-> | [-> | ->]];
      reflexivity.
Qed.

Lemma quote_miss (tight : bool) (toks : list (jsstring * token)) :
  chain_ok toks = true -> hits tight toks = false ->
  match_here (quoteComma tight) (dq :: print_tokens toks) = None.
Proof.
  intros Hc Hh. destruct toks as [|[w t] rest]; [discriminate Hc |].
  destruct (@print_head _ _ Hc) as (R' & _ & Ht & _). cbn [fst snd] in Ht.
  destruct (@chain_token _ _ Hc) as [Hw Hok]. cbn [fst snd] in Hw, Hok.
  pose proof (@start_not_comma t Hok) as Hs.
  destruct t; try (apply (quoteComma_miss_next tight _ Ht Hs)).
  destruct rest as [|[w3 t3] rest3]; [apply chain_last in Hc; discriminate Hc |].
  apply chain_cons in Hc as (_ & _ & _ & Hc3).
  cbn [hits fst snd] in Hh.
  assert (Hp : trimStart (print_tokens ((w, TSep) :: (w3, t3) :: rest3))
               = comma :: print_tokens ((w3, t3) :: rest3)).
  { rewrite print_cons. cbn [fst snd print_token app].
    apply trimStart_run; [apply ws_spaces, Hw | reflexivity]. }
  apply andb_false_iff in Hh as [Hh | Hh].
  - destruct (@print_head _ _ Hc3) as (R3 & _ & Ht3 & _). cbn [fst snd] in Ht3.
    destruct (@chain_token _ _ Hc3) as [_ Hok3]. cbn [snd] in Hok3.
    apply (quoteComma_miss_after tight _ Hp Ht3 (start_not_quote _ Hok3 Hh)).
  - apply orb_false_iff in Hh as [Ht' He]. apply negb_false_iff in Ht'.
    destruct w as [|x w]; [discriminate He |].
    rewrite print_cons. cbn [fst app].
    apply quoteComma_miss_tight; [exact Ht' |].
    cbn [forallb] in Hw. apply andb_true_iff in Hw as [Hx _].
    unfold Json.is_ws in Hx. class_lia.
Qed.

Lemma requote_nil (tight : bool) : requote tight [] = [].
Proof. destruct tight; reflexivity. Qed.

Lemma str_chain (w s : jsstring) (rest : list (jsstring * token)) :
  chain_ok ((w, TStr s) :: rest) = true -> chain_ok rest = true.
Proof.
  intros H. destruct rest as [|wt2 rest].
  - apply chain_last in H. discriminate H.
  - apply chain_cons in H as (_ & _ & _ & H). exact H.
Qed.

(** The text after one of the two expressions, from the start of a
    token on and from the closing quote of a string on. *)
Lemma respace_text (tight : bool) (n : nat) :
  forall toks, List.length toks <= n -> chain_ok toks = true ->
    requote tight (print_tokens toks) = print_tokens (respace tight false toks) /\
    requote tight (dq :: print_tokens toks)
      = dq :: print_tokens (respace tight true toks).
Proof.
  induction n as [|n IH]; intros toks Hn Hc.
  { destruct toks; [discriminate Hc | cbn [List.length] in Hn; lia]. }
  destruct toks as [|[w t] rest]; [discriminate Hc |].
  cbn [List.length] in Hn.
  destruct (@chain_token _ _ Hc) as [Hw Hok]. cbn [fst snd] in Hw, Hok.
  assert (A : requote tight (print_tokens ((w, t) :: rest))
              = print_tokens (respace tight false ((w, t) :: rest))).
  { destruct rest as [|wt2 rest].
    - pose proof (chain_last _ Hc) as Et. cbn [snd] in Et. subst t.
      rewrite respace_other by reflexivity. cbn [respace].
      rewrite print_cons. cbn [fst snd print_tokens flat_map].
      rewrite requote_token by (assumption || reflexivity).
      rewrite requote_nil. reflexivity.
    - pose proof Hc as Hc'. apply chain_cons in Hc' as (_ & _ & _ & Hch).
      destruct (IH (wt2 :: rest)) as [A' B'];
        [cbn [List.length] in *; lia | exact Hch |].
      destruct (isStr t) eqn:Es.
      + destruct t; try discriminate Es.
        rewrite respace_other by (cbn [snd]; intros E0; discriminate E0).
        cbn [snd isStr].
        rewrite (print_cons (w, TStr s) (wt2 :: rest)). cbn [fst snd].
        rewrite requote_string by assumption. rewrite B'.
        rewrite print_cons. cbn [fst snd print_token app].
        rewrite <- app_assoc. reflexivity.
      + assert (Er : respace tight false ((w, t) :: wt2 :: rest)
                     = (w, t) :: respace tight false (wt2 :: rest)).
        { destruct t; try discriminate Es;
            try (apply respace_other; cbn [snd]; intros E0; discriminate E0).
          destruct wt2 as [w2 t2]. rewrite respace_sep. reflexivity. }
        rewrite Er, !(print_cons (w, t)). cbn [fst snd].
        rewrite requote_token by assumption. rewrite A'. reflexivity. }
  split; [exact A |].
  destruct (hits tight ((w, t) :: rest)) eqn:Eh.
  - destruct rest as [|[w3 t3] rest3]; [discriminate Eh |].
    cbn [hits fst snd] in Eh. destruct t; try discriminate Eh.
    apply andb_true_iff in Eh as [Hq He].
    pose proof Hc as Hc'. apply chain_cons in Hc' as (_ & _ & _ & Hc3).
    destruct (@chain_token _ _ Hc3) as [Hw3 Hok3]. cbn [fst snd] in Hw3, Hok3.
    rewrite respace_sep. cbn [snd andb]. rewrite Hq, He. cbn [andb].
    rewrite (print_cons (w, TSep)), (print_cons (w3, t3)).
    rewrite (print_cons ([], TSep)), (print_cons ([space], t3)).
    cbn [fst snd print_token app].
    assert (Ht : tight = true -> w = []).
    { intros ->. cbn [negb orb] in He. destruct w; [reflexivity | discriminate He]. }
    destruct t3; try discriminate Hq; cbn [print_token app isStr].
    + (* a key comes next *)
      rewrite requote_hit by (try apply ws_spaces; assumption).
      do 4 f_equal. rewrite <- app_assoc. cbn [app].
      cbn [token_ok] in Hok3.
      rewrite requote_key by (destruct k; [discriminate Hok3 | exact Hok3]).
      destruct rest3 as [|wt4 rest4].
      * apply chain_last in Hc3. discriminate Hc3.
      * apply chain_cons in Hc3 as (_ & _ & _ & Hc4).
        destruct (IH (wt4 :: rest4)) as [A4 _];
          [cbn [List.length] in *; lia | exact Hc4 |].
        rewrite A4, <- app_assoc. reflexivity.
    + (* a string comes next *)
      rewrite requote_hit by (try apply ws_spaces; assumption).
      do 4 f_equal. rewrite <- !app_assoc. cbn [app].
      cbn [token_ok] in Hok3. apply andb_true_iff in Hok3 as [Hs3 _].
      rewrite requote_plain by (apply strChar_not_dq, Hs3). f_equal.
      pose proof (str_chain _ _ _ Hc3) as Hc4.
      destruct (IH rest3) as [_ B4];
        [cbn [List.length] in *; lia | exact Hc4 |].
      exact B4.
  - unfold requote at 1.
    rewrite replace_all_miss by (apply quote_miss; assumption).
    fold (requote tight (print_tokens ((w, t) :: rest))).
    rewrite A, (respace_miss _ _ Eh). reflexivity.
Qed.

(** The tokens stay, and the white space stays white space. *)
Lemma respace_layout (tight : bool) (n : nat) :
  forall toks b, List.length toks <= n ->
    List.map snd (respace tight b toks) = List.map snd toks /\
    (forallb gapOk toks = true ->
     forallb gapOk (respace tight b toks) = true).
Proof.
  induction n as [|n IH]; intros toks b Hn.
  { destruct toks; [split; auto | cbn [List.length] in Hn; lia]. }
  destruct toks as [|[w t] rest]; [split; auto |].
  cbn [List.length] in Hn.
  assert (G : List.map snd ((w, t) :: respace tight (isStr t) rest)
              = List.map snd ((w, t) :: rest) /\
              (forallb gapOk ((w, t) :: rest) = true ->
               forallb gapOk
                 ((w, t) :: respace tight (isStr t) rest) = true)).
  { destruct (IH rest (isStr t)) as [H1 H2]; [lia |]. split.
    - cbn [List.map]. rewrite H1. reflexivity.
    - cbn [forallb]. intros H. apply andb_true_iff in H as [Hw H].
      rewrite Hw, (H2 H). reflexivity. }
  destruct t; try (rewrite respace_other by (cbn [snd]; intros E0; discriminate E0); exact G).
  destruct rest as [|[w3 t3] rest3];
    [rewrite respace_other by reflexivity; exact G |].
  rewrite respace_sep.
  destruct (b && startsQuote (snd (w3, t3)) && (negb tight || isEmpty w)).
  - destruct (IH rest3 (isStr t3)) as [H1 H2]; [cbn [List.length] in *; lia |].
    split.
    + cbn [List.map snd]. rewrite H1. reflexivity.
    + cbn [forallb fst snd]. intros H. apply andb_true_iff in H as [_ H].
      apply andb_true_iff in H as [_ H]. rewrite (H2 H). reflexivity.
  - exact G.
Qed.

Lemma chain_gaps (toks : list (jsstring * token)) :
  chain_ok toks = true ->
  forallb gapOk toks = true /\
  forallb tokenOk toks = true.
Proof.
  induction toks as [|wt rest IH]; intros H; [discriminate H |].
  destruct (@chain_token _ _ H) as [Hw Hok]. cbn [forallb].
  assert (G : forallb gapOk rest = true /\
              forallb tokenOk rest = true).
  { destruct rest as [|wt2 rest]; [split; reflexivity |].
    apply chain_cons in H as (_ & _ & _ & H). apply IH, H. }
  destruct G as [G1 G2].
  split; apply andb_true_iff; split; assumption.
Qed.

(** Whether a sequence is well formed depends on its tokens, once the
    gaps are white space. *)
Lemma chain_ok_layout (toks toks' : list (jsstring * token)) :
  chain_ok toks = true -> List.map snd toks' = List.map snd toks ->
  forallb gapOk toks' = true ->
  chain_ok toks' = true.
Proof.
  revert toks'. induction toks as [|wt rest IH]; intros toks' H E G;
    [discriminate H |].
  destruct toks' as [|wt' rest']; [discriminate E |].
  cbn [List.map] in E. injection E as E1 E2.
  cbn [forallb] in G. apply andb_true_iff in G as [Gw G]. unfold gapOk in Gw.
  destruct (@chain_token _ _ H) as [_ Hok].
  destruct rest as [|wt2 rest].
  - destruct rest'; [| discriminate E2].
    cbn [chain_ok] in *. rewrite Gw, E1.
    apply andb_true_iff in H as [H1 H2]. apply andb_true_iff in H1 as [_ H1].
    rewrite H1, H2. reflexivity.
  - destruct rest' as [|wt2' rest']; [discriminate E2 |].
    apply chain_cons in H as (_ & _ & Hf & Hch).
    pose proof (IH (wt2' :: rest') Hch E2 G) as IH'.
    cbn [List.map] in E2. injection E2 as E3 _.
    change (forallb Json.is_ws (fst wt') && token_ok (snd wt') &&
            (follows (snd wt') (snd wt2') && chain_ok (wt2' :: rest')) = true).
    rewrite Gw, E1, E3, Hok, Hf, IH'. reflexivity.
Qed.

Lemma respace_chain (tight b : bool) (toks : list (jsstring * token)) :
  chain_ok toks = true -> chain_ok (respace tight b toks) = true.
Proof.
  intros H.
  destruct (@respace_layout tight (List.length toks) toks b (le_n _)) as [H1 H2].
  apply (@chain_ok_layout _ _ H H1), H2, (chain_gaps _ H).
Qed.

Lemma respace_safe (tight : bool) (toks : list (jsstring * token)) :
  safeTokens toks = true -> safeTokens (respace tight false toks) = true.
Proof.
  intros H. destruct toks as [|[w t] rest]; [discriminate H |].
  destruct w; [| discriminate H]. destruct t; try discriminate H.
  cbn [safeTokens] in H. pose proof (respace_chain tight false _ H) as Hc.
  rewrite respace_other in * by (cbn [snd]; intros E0; discriminate E0). exact Hc.
Qed.

(** ** The line breaks *)

Lemma lineBreak_unbreak (s : jsstring) :
  replace_all Re.lineBreak [TLit (js " ")] s = unbreak s.
Proof.
  induction s as [|x s IH]; [reflexivity |].
  cbn [unbreak List.map]. fold (unbreak s).
  destruct (N.eqb x newline) eqn:E.
  - apply N.eqb_eq in E. subst x.
    pose proof (@replace_all_hit Re.lineBreak [TLit (js " ")] newline [] s []
                  eq_refl) as Hh.
    cbn [app] in Hh. rewrite Hh, IH. reflexivity.
  - rewrite replace_all_miss.
    + rewrite IH. reflexivity.
    + unfold match_here, Re.lineBreak. cbn [rmatch]. unfold is_char.
      rewrite N.eqb_sym, E. reflexivity.
Qed.

Lemma unbreak_id (l : jsstring) :
  forallb (fun c => negb (N.eqb c newline)) l = true -> unbreak l = l.
Proof.
  induction l as [|x l IH]; [reflexivity |]. cbn [forallb unbreak List.map].
  intros H. apply andb_true_iff in H as [Hx H]. apply negb_true_iff in Hx.
  rewrite Hx. f_equal. apply IH, H.
Qed.

Lemma token_unbreak (t : token) :
  token_ok t = true -> unbreak (print_token t) = print_token t.
Proof.
  intros Hok. apply unbreak_id. destruct t; try reflexivity;
    cbn [print_token forallb token_ok] in *.
  - rewrite forallb_app. cbn [forallb]. rewrite andb_true_r.
    destruct k; [discriminate Hok |].
    apply forallb_impl with (2 := Hok). intros x H. class_lia.
  - rewrite forallb_app. cbn [forallb]. rewrite andb_true_r.
    apply andb_true_iff in Hok as [Hok _].
    apply forallb_impl with (2 := Hok). intros x H. class_lia.
  - destruct n as [|d ds]; [discriminate Hok |].
    apply andb_true_iff in Hok as [Hd Hds]. cbn [forallb].
    apply andb_true_iff. split; [class_lia |].
    apply forallb_impl with (2 := Hds). intros x H. class_lia.
  - apply forallb_impl with (2 := word_chars _ Hok). intros x H. class_lia.
Qed.

Lemma unbreak_app (a b : jsstring) : unbreak (a ++ b) = unbreak a ++ unbreak b.
Proof. apply map_app. Qed.

Lemma print_unbreak (toks : list (jsstring * token)) :
  forallb tokenOk toks = true ->
  unbreak (print_tokens toks) = print_tokens (unbreakGaps toks).
Proof.
  induction toks as [|wt rest IH]; [reflexivity |]. cbn [forallb].
  intros H. apply andb_true_iff in H as [Hok H]. unfold tokenOk in Hok.
  change (unbreakGaps (wt :: rest))
    with ((unbreak (fst wt), snd wt) :: unbreakGaps rest).
  rewrite !print_cons. cbn [fst snd]. rewrite !unbreak_app.
  rewrite (token_unbreak _ Hok), (IH H). reflexivity.
Qed.

Lemma unbreak_ws (w : jsstring) :
  forallb Json.is_ws w = true -> forallb Json.is_ws (unbreak w) = true.
Proof.
  induction w as [|x w IH]; [reflexivity |]. cbn [forallb unbreak List.map].
  intros H. apply andb_true_iff in H as [Hx H]. fold (unbreak w).
  rewrite (IH H), andb_true_r. destruct (N.eqb x newline); [reflexivity | exact Hx].
Qed.

Lemma unbreak_chain (toks : list (jsstring * token)) :
  chain_ok toks = true -> chain_ok (unbreakGaps toks) = true.
Proof.
  intros H. apply (@chain_ok_layout _ _ H).
  - unfold unbreakGaps. rewrite map_map. reflexivity.
  - destruct (chain_gaps _ H) as [G _]. unfold unbreakGaps.
    rewrite forallb_forall in *. intros wt Hwt.
    apply in_map_iff in Hwt as (wt0 & <- & Hin). unfold gapOk. cbn [fst].
    apply unbreak_ws, (G wt0 Hin).
Qed.

Lemma unbreak_safe (toks : list (jsstring * token)) :
  safeTokens toks = true -> safeTokens (unbreakGaps toks) = true.
Proof.
  intros H. destruct toks as [|[w t] rest]; [discriminate H |].
  destruct w; [| discriminate H]. destruct t; try discriminate H.
  cbn [safeTokens] in H. apply (unbreak_chain _ H).
Qed.

(** ** The sanitizer on a text of tokens *)

Lemma print_last (toks : list (jsstring * token)) :
  chain_ok toks = true -> exists pre, print_tokens toks = pre ++ [rbrace].
Proof.
  induction toks as [|wt rest IH]; intros H; [discriminate H |].
  rewrite print_cons. destruct rest as [|wt2 rest].
  - rewrite (chain_last _ H). exists (fst wt).
    cbn [print_token print_tokens flat_map]. rewrite app_nil_r. reflexivity.
  - apply chain_cons in H as (_ & _ & _ & H). destruct (IH H) as [pre E].
    exists (fst wt ++ print_token (snd wt) ++ pre).
    rewrite E, <- !app_assoc. reflexivity.
Qed.

Lemma trim_tight (x y : jschar) (m : jsstring) :
  is_space x = false -> is_space y = false ->
  trim (x :: m ++ [y]) = x :: m ++ [y].
Proof.
  intros Hx Hy. unfold trim, trimEnd. rewrite trimStart_head by exact Hx.
  change (x :: m ++ [y]) with ((x :: m) ++ [y]).
  rewrite rev_unit, trimStart_head by exact Hy.
  rewrite <- rev_unit. apply rev_involutive.
Qed.

Lemma safe_chain (toks : list (jsstring * token)) :
  safeTokens toks = true -> chain_ok toks = true.
Proof.
  intros H. destruct toks as [|[w t] rest]; [discriminate H |].
  destruct w; [| discriminate H]. destruct t; try discriminate H. exact H.
Qed.

Lemma safe_shape (toks : list (jsstring * token)) :
  safeTokens toks = true ->
  exists m, print_tokens toks = lbrace :: m ++ [rbrace].
Proof.
  intros H. pose proof (safe_chain _ H) as Hc.
  destruct toks as [|[w t] rest]; [discriminate H |].
  destruct w; [| discriminate H]. destruct t; try discriminate H.
  destruct rest as [|wt2 rest].
  - apply chain_last in Hc. discriminate Hc.
  - apply chain_cons in Hc as (_ & _ & _ & Hc).
    destruct (@print_last _ Hc) as [pre E].
    exists pre. rewrite print_cons, E. reflexivity.
Qed.

Lemma safe_envelope (toks : list (jsstring * token)) :
  safeTokens toks = true ->
  trim (print_tokens toks) = print_tokens toks /\
  ensureObject (print_tokens toks) = print_tokens toks.
Proof.
  intros H. destruct (@safe_shape _ H) as [m E]. split.
  - rewrite E. apply trim_tight; reflexivity.
  - unfold ensureObject.
    assert (H1 : startsWith (print_tokens toks) [lbrace] = true)
      by (apply startsWith_char; rewrite E; eexists; reflexivity).
    rewrite H1. cbn [negb].
    assert (H2 : endsWith (print_tokens toks) [rbrace] = true)
      by (apply endsWith_char; rewrite E; exists (lbrace :: m); reflexivity).
    rewrite H2. reflexivity.
Qed.

Lemma sanitized_safe (toks : list (jsstring * token)) :
  safeTokens toks = true ->
  safeTokens (sanitizedTokens toks) = true /\
  List.map snd (sanitizedTokens toks) = List.map snd toks.
Proof.
  intros H. split.
  - apply unbreak_safe, respace_safe, respace_safe, H.
  - unfold sanitizedTokens. rewrite map_map. cbn [snd].
    change (fun x : jsstring * token => snd x) with (@snd jsstring token).
    destruct (@respace_layout false _ (respace true false toks) false (le_n _))
      as [-> _].
    destruct (@respace_layout true _ toks false (le_n _)) as [-> _].
    reflexivity.
Qed.

(** Steps 2 to 6 on the text of a sequence of tokens: the tokens stay,
    and the white space is that of [sanitizedTokens]. *)
Lemma safe_sanitizeSteps (toks : list (jsstring * token)) :
  safeTokens toks = true ->
  sanitizeSteps (print_tokens toks) = print_tokens (sanitizedTokens toks).
Proof.
  intros H. pose proof (safe_chain _ H) as Hc.
  pose proof (respace_safe true _ H) as H1.
  pose proof (respace_safe false _ H1) as H2.
  pose proof (unbreak_safe _ H2) as H3.
  pose proof (safe_chain _ H1) as Hc1. pose proof (safe_chain _ H2) as Hc2.
  pose proof (safe_chain _ H3) as Hc3.
  change (unbreakGaps (respace false false (respace true false toks)))
    with (sanitizedTokens toks) in *.
  unfold sanitizeSteps. cbv zeta.
  rewrite (proj1 (safe_envelope _ H)).
  rewrite (local_fixEscapes (tokens_local _ Hc)).
  assert (Hfix : fixSyntax (print_tokens toks)
                 = print_tokens (sanitizedTokens toks)).
  { unfold fixSyntax.
    change syntaxFixes with (firstn 11 syntaxFixes ++ skipn 11 syntaxFixes).
    rewrite fold_left_app.
    rewrite (local_fixes (tokens_local _ Hc) (tokens_propertyName _ Hc)).
    unfold syntaxFixes. cbn [skipn fold_left fst snd].
    change (replace_all Re.quoteCommaQuote0 [TLit (jsq "~, ~")]
              (print_tokens toks))
      with (requote true (print_tokens toks)).
    rewrite (proj1 (@respace_text true _ toks (le_n _) Hc)).
    change (replace_all Re.quoteCommaQuote [TLit (jsq "~, ~")]
              (print_tokens (respace true false toks)))
      with (requote false (print_tokens (respace true false toks))).
    rewrite (proj1 (@respace_text false _ _ (le_n _) Hc1)).
    rewrite (local_brokenString (tokens_local _ Hc2)).
    rewrite lineBreak_unbreak. apply print_unbreak, (chain_gaps _ Hc2). }
  rewrite Hfix, (proj2 (safe_envelope _ H3)).
  rewrite (local_doubleEscapedQuote (tokens_local _ Hc3)).
  apply (local_nestedQuotes (tokens_local _ Hc3)).
Qed.

(** ** A text in normal form is left as it is *)

Lemma respace_tidy (tight : bool) (n : nat) :
  forall toks b, List.length toks <= n -> tidy b toks = true ->
    respace tight b toks = toks /\ unbreakGaps toks = toks.
Proof.
  induction n as [|n IH]; intros toks b Hn Ht.
  { destruct toks; [split; reflexivity | cbn [List.length] in Hn; lia]. }
  destruct toks as [|[w t] rest]; [split; reflexivity |].
  cbn [List.length] in Hn.
  change (unbreakGaps ((w, t) :: rest)) with ((unbreak w, t) :: unbreakGaps rest).
  assert (G : forallb (fun c => negb (N.eqb c newline)) w = true ->
              tidy (isStr t) rest = true ->
              (w, t) :: respace tight (isStr t) rest = (w, t) :: rest /\
              (unbreak w, t) :: unbreakGaps rest = (w, t) :: rest).
  { intros Hw Hr. destruct (IH rest (isStr t)) as [E1 E2]; [lia | exact Hr |].
    rewrite E1, E2, (unbreak_id _ Hw). split; reflexivity. }
  cbn [tidy fst snd] in Ht. apply andb_true_iff in Ht as [Hw Ht].
  destruct t;
    try (rewrite respace_other by (cbn [snd]; intros E0; discriminate E0);
         apply (G Hw Ht)).
  destruct rest as [|[w3 t3] rest3];
    [rewrite respace_other by reflexivity; apply (G Hw Ht) |].
  rewrite respace_sep. cbn [fst snd] in *.
  destruct (b && startsQuote t3) eqn:Eb; cbn [andb].
  - apply andb_true_iff in Ht as [Ht Hr]. apply andb_true_iff in Ht as [He Hs].
    destruct w; [| discriminate He]. apply str_eqb_eq in Hs. subst w3.
    rewrite orb_true_r.
    destruct (IH rest3 (isStr t3)) as [E1 E2];
      [cbn [List.length] in *; lia | exact Hr |].
    change (unbreakGaps (([space], t3) :: rest3))
      with (([space], t3) :: unbreakGaps rest3).
    rewrite E1, E2. split; reflexivity.
  - destruct (IH ((w3, t3) :: rest3) false) as [E1 E2];
      [cbn [List.length] in *; lia | exact Ht |].
    rewrite E1, E2, (unbreak_id _ Hw). split; reflexivity.
Qed.

Lemma normal_safe (toks : list (jsstring * token)) :
  normalTokens toks = true -> safeTokens toks = true /\ tidy false toks = true.
Proof. unfold normalTokens. intros H. apply andb_true_iff in H. exact H. Qed.

Lemma normal_shape (toks : list (jsstring * token)) :
  normalTokens toks = true ->
  exists m, print_tokens toks = lbrace :: m ++ [rbrace].
Proof. intros H. apply safe_shape, (normal_safe _ H). Qed.

Lemma normal_tokens (toks : list (jsstring * token)) :
  normalTokens toks = true -> sanitizedTokens toks = toks.
Proof.
  intros H. destruct (normal_safe _ H) as [_ Ht].
  change (sanitizedTokens toks)
    with (unbreakGaps (respace false false (respace true false toks))).
  destruct (@respace_tidy true _ toks false (le_n _) Ht) as [-> E].
  destruct (@respace_tidy false _ toks false (le_n _) Ht) as [-> _].
  exact E.
Qed.

Lemma normal_sanitizeSteps (toks : list (jsstring * token)) :
  normalTokens toks = true ->
  sanitizeSteps (print_tokens toks) = print_tokens toks.
Proof.
  intros H. destruct (normal_safe _ H) as [Hs _].
  rewrite (safe_sanitizeSteps _ Hs), (normal_tokens _ H). reflexivity.
Qed.

(** ** [JSON.parse] reads tokens, whatever the white space *)

(** Tests on characters that are given *)
Ltac eqb_eval :=
  repeat match goal with
         | |- context [N.eqb ?a ?b] =>
             let r := eval vm_compute in (N.eqb a b) in
             match r with
             | true => change (N.eqb a b) with true
             | false => change (N.eqb a b) with false
             end
         end;
  cbv iota.

Lemma skip_ws_run (w s : jsstring) :
  forallb Json.is_ws w = true ->
  match s with [] => true | y :: _ => negb (Json.is_ws y) end = true ->
  Json.skip_ws (w ++ s) = s.
Proof.
  intros Hw Hs. induction w as [|x w IH]; cbn [app].
  - destruct s as [|y s]; [reflexivity |]. cbn [Json.skip_ws].
    apply negb_true_iff in Hs. rewrite Hs. reflexivity.
  - cbn [forallb] in Hw. apply andb_true_iff in Hw as [Hx Hw].
    cbn [Json.skip_ws]. rewrite Hx. exact (IH Hw).
Qed.

Lemma skip_ws_idem (s : jsstring) :
  Json.skip_ws (Json.skip_ws s) = Json.skip_ws s.
Proof.
  induction s as [|x s IH]; [reflexivity |]. cbn [Json.skip_ws].
  destruct (Json.is_ws x) eqn:E; [exact IH |]. cbn [Json.skip_ws].
  rewrite E. reflexivity.
Qed.

Lemma value_skip (f : nat) (s : jsstring) :
  Json.parse_value f (Json.skip_ws s) = Json.parse_value f s.
Proof. destruct f; [reflexivity |]. cbn [Json.parse_value]. rewrite skip_ws_idem. reflexivity. Qed.

Lemma elements_skip (f : nat) (acc : list value) (s : jsstring) :
  Json.parse_elements f acc (Json.skip_ws s) = Json.parse_elements f acc s.
Proof. destruct f; [reflexivity |]. cbn [Json.parse_elements]. rewrite value_skip. reflexivity. Qed.

Lemma members_skip (f : nat) (acc : list (jsstring * value)) (s : jsstring) :
  Json.parse_members f acc (Json.skip_ws s) = Json.parse_members f acc s.
Proof. destruct f; [reflexivity |]. cbn [Json.parse_members]. rewrite skip_ws_idem. reflexivity. Qed.

(** A string without escapes *)
Lemma string_body_plain (s R : jsstring) :
  forallb (fun c => N.leb 32 c && negb (N.eqb c dq) && negb (N.eqb c backslash)) s
    = true ->
  Json.string_body (s ++ dq :: R) = Some (s, R).
Proof.
  induction s as [|x s IH]; cbn [app forallb Json.string_body]; intros H.
  - rewrite N.eqb_refl. reflexivity.
  - apply andb_true_iff in H as [Hx H]. apply andb_true_iff in Hx as [Hx Hb].
    apply andb_true_iff in Hx as [Hx Hq].
    apply negb_true_iff in Hq, Hb. rewrite Hq, Hb.
    replace (N.ltb x 32) with false
      by (symmetry; apply N.ltb_ge, N.leb_le, Hx).
    rewrite (IH H). reflexivity.
Qed.

Lemma str_body (s R : jsstring) :
  forallb strChar s = true -> Json.string_body (s ++ dq :: R) = Some (s, R).
Proof.
  intros H. apply string_body_plain.
  apply forallb_impl with (2 := H). intros x Hx. class_lia.
Qed.

Lemma key_body (k R : jsstring) :
  forallb is_word k = true -> Json.string_body (k ++ dq :: R) = Some (k, R).
Proof.
  intros H. apply string_body_plain.
  apply forallb_impl with (2 := H). intros x Hx. class_lia.
Qed.

(** The digits at the front of a text that goes on with no digit *)
Lemma span_stop (p : jschar -> bool) (a R : jsstring) :
  match R with [] => true | y :: _ => negb (p y) end = true ->
  span p (a ++ R) = (fst (span p a), snd (span p a) ++ R).
Proof.
  intros HR. induction a as [|x a IH]; cbn [app span].
  - destruct R as [|y R]; [reflexivity |]. cbn [span].
    apply negb_true_iff in HR. rewrite HR. reflexivity.
  - destruct (p x); [| reflexivity]. rewrite IH.
    destruct (span p a). reflexivity.
Qed.

Lemma stops_digit (R : jsstring) :
  stops R -> match R with [] => true | y :: _ => negb (is_digit y) end = true.
Proof. destruct R as [|y R]; [reflexivity |]. cbn [stops]. intros H. class_lia. Qed.

Lemma read_sign_stop (r R : jsstring) :
  stops R ->
  read_sign (r ++ R) = (fst (read_sign r), snd (read_sign r) ++ R).
Proof.
  intros HR. destruct r as [|c r]; cbn [app].
  - destruct R as [|y R]; [reflexivity |]. cbn [stops] in HR. cbn [read_sign].
    replace (N.eqb y (ch "-")) with false by (symmetry; class_lia).
    replace (N.eqb y (ch "+")) with false by (symmetry; class_lia).
    reflexivity.
  - cbn [read_sign]. destruct (N.eqb c (ch "-")); [reflexivity |].
    destruct (N.eqb c (ch "+")); reflexivity.
Qed.

(** What a text that stops has at its front is none of the characters
    that a number goes on with. *)
Ltac stop_tests y :=
  repeat match goal with
         | |- context [N.eqb y ?k] =>
             replace (N.eqb y k) with false by (symmetry; class_lia)
         end;
  try replace (is_digit y) with false by (symmetry; class_lia);
  cbn [orb].

Ltac at_stop R HR :=
  let y := fresh "y" in
  destruct R as [|y R]; [reflexivity |]; cbn [stops] in HR; stop_tests y;
  reflexivity.

(** The three parts of a number, each at the front [c :: r] or [s] of
    what is left *)
Ltac exp_cons c r R HR HD :=
  destruct (N.eqb c (ch "e") || N.eqb c (ch "E")); [| reflexivity];
  cbv beta iota; rewrite (read_sign_stop r R HR);
  let eneg := fresh "eneg" in
  let r' := fresh "r'" in
  let ed := fresh "ed" in
  let s3 := fresh "s3" in
  destruct (read_sign r) as [eneg r']; cbn [fst snd];
  rewrite (span_stop is_digit r' R HD);
  destruct (span is_digit r') as [ed s3]; cbn [fst snd];
  destruct ed; reflexivity.

Ltac exp_stage s R HR HD :=
  let c := fresh "c" in
  let r := fresh "r" in
  destruct s as [|c r]; cbn [app]; [at_stop R HR | exp_cons c r R HR HD].

Ltac frac_cons c r R HR HD :=
  destruct (N.eqb c (ch ".")); cbv beta iota;
  [ rewrite (span_stop is_digit r R HD);
    let frac := fresh "frac" in
    let s2 := fresh "s2" in
    destruct (span is_digit r) as [frac s2]; cbn [fst snd];
    destruct frac; [reflexivity |]; cbv beta iota; exp_stage s2 R HR HD
  | exp_cons c r R HR HD ].

Ltac frac_stage s R HR HD :=
  let c := fresh "c" in
  let r := fresh "r" in
  destruct s as [|c r]; cbn [app]; [at_stop R HR | frac_cons c r R HR HD].

Ltac int_cons c r R HR HD :=
  destruct (N.eqb c 48); cbv beta iota;
  [ frac_stage r R HR HD
  | destruct (is_digit c); [| reflexivity];
    change (c :: r ++ R) with ((c :: r) ++ R);
    rewrite (span_stop is_digit (c :: r) R HD);
    let int := fresh "int" in
    let s1 := fresh "s1" in
    destruct (span is_digit (c :: r)) as [int s1]; cbn [fst snd];
    cbv beta iota; frac_stage s1 R HR HD ].

(** A number at the front of a text that goes on with no character of
    a number is read as it is read alone. *)
Lemma number_token_app (n R : jsstring) :
  stops R ->
  Json.number_token (n ++ R) =
  match Json.number_token n with
  | Some (x, rest) => Some (x, rest ++ R)
  | None => None
  end.
Proof.
  intros HR. pose proof (stops_digit _ HR) as HD.
  unfold Json.number_token.
  destruct n as [|c r]; cbn [app].
  { destruct R as [|y R']; [reflexivity |]. cbn [stops] in HR.
    stop_tests y. reflexivity. }
  destruct (N.eqb c (ch "-")); cbv beta iota.
  - destruct r as [|c1 r1]; cbn [app]; [at_stop R HR | int_cons c1 r1 R HR HD].
  - int_cons c r R HR HD.
Qed.

(** What is left of a sequence that can be read *)
Lemma lexable_cons (wt : jsstring * token) (rest : list (jsstring * token)) :
  lexable (wt :: rest) = true ->
  forallb Json.is_ws (fst wt) = true /\ token_ok (snd wt) = true /\
  match snd wt with TNum n => jsonNumber n | _ => true end = true /\
  match rest with [] => true | wt2 :: _ => follows (snd wt) (snd wt2) end = true /\
  lexable rest = true.
Proof.
  cbn [lexable]. intros H.
  apply andb_true_iff in H as [H H5]. apply andb_true_iff in H as [H H4].
  apply andb_true_iff in H as [H H3]. apply andb_true_iff in H as [H1 H2].
  auto.
Qed.

Lemma lexable_skipn (k : nat) (toks : list (jsstring * token)) :
  lexable toks = true -> lexable (skipn k toks) = true.
Proof.
  revert toks. induction k as [|k IH]; intros toks H; [exact H |].
  destruct toks as [|wt rest]; [reflexivity |]. cbn [skipn].
  apply IH. apply lexable_cons in H as (_ & _ & _ & _ & H). exact H.
Qed.

Lemma chain_lexable (toks : list (jsstring * token)) :
  chain_ok toks = true -> jsonNumbers toks = true -> lexable toks = true.
Proof.
  induction toks as [|wt rest IH]; intros H N; [reflexivity |].
  destruct (@chain_token _ _ H) as [Hw Hok].
  cbn [jsonNumbers forallb] in N. apply andb_true_iff in N as [N1 N2].
  cbn [lexable]. repeat (apply andb_true_iff; split);
    [exact Hw | exact Hok | exact N1 | |].
  - destruct rest as [|wt2 rest]; [reflexivity |].
    apply chain_cons in H as (_ & _ & Hf & _). exact Hf.
  - destruct rest as [|wt2 rest]; [reflexivity |].
    apply chain_cons in H as (_ & _ & _ & Hch). apply (IH Hch N2).
Qed.

Lemma jsonNumbers_tokens (toks toks' : list (jsstring * token)) :
  List.map snd toks' = List.map snd toks -> jsonNumbers toks' = jsonNumbers toks.
Proof.
  revert toks'. induction toks as [|wt rest IH]; intros [|wt' rest'] E;
    try discriminate E; [reflexivity |].
  cbn [List.map] in E. injection E as E1 E2.
  cbn [jsonNumbers forallb]. rewrite E1. f_equal. apply IH, E2.
Qed.

Lemma not_space_ws (c : jschar) : is_space c = false -> Json.is_ws c = false.
Proof.
  intros H. destruct (Json.is_ws c) eqn:E; [| reflexivity].
  rewrite (ws_space _ E) in H. discriminate H.
Qed.

(** After the white space comes the token. *)
Lemma skip_print (wt : jsstring * token) (rest : list (jsstring * token)) :
  lexable (wt :: rest) = true ->
  Json.skip_ws (print_tokens (wt :: rest))
  = print_token (snd wt) ++ print_tokens rest.
Proof.
  intros H. apply lexable_cons in H as (Hw & Hok & _). rewrite print_cons.
  apply skip_ws_run; [exact Hw |].
  destruct (token_start _ Hok) as (R & -> & Hs). cbn [app].
  rewrite (not_space_ws _ Hs). reflexivity.
Qed.

(** The first character of a token, against the characters that the
    parser looks for *)
Lemma start_tests (t : token) :
  token_ok t = true ->
  exists R, print_token t = startChar t :: R /\
    N.eqb (startChar t) lbrace = match t with TLBrace => true | _ => false end /\
    N.eqb (startChar t) rbrace = match t with TRBrace => true | _ => false end /\
    N.eqb (startChar t) lbracket = match t with TLBracket => true | _ => false end /\
    N.eqb (startChar t) rbracket = match t with TRBracket => true | _ => false end /\
    N.eqb (startChar t) dq = startsQuote t /\
    N.eqb (startChar t) (ch ",") = match t with TSep => true | _ => false end /\
    N.eqb (startChar t) (ch ":") = false.
Proof.
  intros Hok. destruct (token_start _ Hok) as (R & E & _). exists R.
  split; [exact E |]. clear E.
  destruct t; cbn [startChar startsQuote]; try (repeat split; reflexivity).
  - cbn [token_ok] in Hok. destruct n as [|d ds]; [discriminate Hok |].
    apply andb_true_iff in Hok as [Hd _]. cbn [hd]. repeat split; class_lia.
  - cbn [token_ok] in Hok. apply isWord_inv in Hok as [-> | [-> | ->]];
      repeat split; reflexivity.
Qed.

(** After a number or a word the text goes on with white space, a
    comma or a closing bracket, if it goes on. *)
Lemma atom_stops (wt : jsstring * token) (rest : list (jsstring * token)) :
  lexable (wt :: rest) = true ->
  match snd wt with TNum _ | TWord _ => True | _ => False end ->
  stops (print_tokens rest).
Proof.
  intros H Ht. apply lexable_cons in H as (_ & _ & _ & Hf & Hl).
  destruct rest as [|[w2 t2] rest2]; [exact I |].
  apply lexable_cons in Hl as (Hw2 & _). cbn [fst snd] in *.
  rewrite print_cons. cbn [fst snd].
  destruct w2 as [|x w2]; cbn [app stops].
  - destruct (snd wt); try contradiction;
      destruct t2; try discriminate Hf; reflexivity.
  - cbn [forallb] in Hw2. apply andb_true_iff in Hw2 as [Hx _].
    unfold Json.is_ws in Hx. class_lia.
Qed.

Lemma strip_word_miss (c : jschar) (s : jsstring) :
  is_alpha c = false ->
  strip_prefix (js "true") (c :: s) = None /\
  strip_prefix (js "false") (c :: s) = None /\
  strip_prefix (js "null") (c :: s) = None.
Proof.
  intros H. unfold js.
  cbn [list_ascii_of_string List.map strip_prefix].
  repeat split.
  - replace (N.eqb (N_of_ascii "t") c) with false; [reflexivity |].
    symmetry. cbn [N_of_ascii N_of_digits]. class_lia.
  - replace (N.eqb (N_of_ascii "f") c) with false; [reflexivity |].
    symmetry. cbn [N_of_ascii N_of_digits]. class_lia.
  - replace (N.eqb (N_of_ascii "n") c) with false; [reflexivity |].
    symmetry. cbn [N_of_ascii N_of_digits]. class_lia.
Qed.

Lemma number_miss (c : jschar) (s : jsstring) :
  is_digit c = false -> N.eqb c (ch "-") = false ->
  Json.number_token (c :: s) = None.
Proof.
  intros Hd Hm. unfold Json.number_token. rewrite Hm. cbv beta iota.
  rewrite Hd. replace (N.eqb c 48) with false by (symmetry; class_lia).
  reflexivity.
Qed.

Lemma strip_prefix_app (p R : jsstring) : strip_prefix p (p ++ R) = Some R.
Proof.
  induction p as [|x p IH]; [reflexivity |]. cbn [app strip_prefix].
  rewrite N.eqb_refl. exact IH.
Qed.

(** No value starts with the character [c]. *)
Ltac no_value c :=
  eqb_eval; cbn [app];
  rewrite (proj1 (@strip_word_miss c _ eq_refl)),
    (proj1 (proj2 (@strip_word_miss c _ eq_refl))),
    (proj2 (proj2 (@strip_word_miss c _ eq_refl)));
  rewrite (@number_miss c _ eq_refl eq_refl); reflexivity.

(** [parse_value] at the front of a sequence of tokens *)
Lemma value_step (f : nat) (w : jsstring) (t : token)
    (rest : list (jsstring * token)) :
  lexable ((w, t) :: rest) = true ->
  Json.parse_value (S f) (print_tokens ((w, t) :: rest)) =
  match t with
  | TLBrace =>
      match rest with
      | (_, TRBrace) :: rest2 => Some (VObj [], print_tokens rest2)
      | _ => Json.parse_members f [] (print_tokens rest)
      end
  | TLBracket =>
      match rest with
      | (_, TRBracket) :: rest2 => Some (VArr [], print_tokens rest2)
      | _ => Json.parse_elements f [] (print_tokens rest)
      end
  | TStr s => Some (VStr s, print_tokens rest)
  | TKey k => Some (VStr k, colon :: print_tokens rest)
  | TNum n =>
      match Json.number_token n with
      | Some (x, _) => Some (VNum x, print_tokens rest)
      | None => None
      end
  | TWord w0 => Some (wordValue w0, print_tokens rest)
  | TRBrace | TRBracket | TSep => None
  end.
Proof.
  intros H. pose proof (atom_stops _ _ H) as Hstop.
  cbn [Json.parse_value]. rewrite (skip_print _ _ H).
  apply lexable_cons in H as (_ & Hok & Hn & Hf & Hl). cbn [fst snd] in *.
  destruct t; cbn [print_token app].
  - (* { *)
    eqb_eval. destruct rest as [|[w2 t2] rest2].
    + destruct f; reflexivity.
    + rewrite (skip_print _ _ Hl). cbn [snd].
      pose proof (lexable_cons _ _ Hl) as (_ & Hok2 & _). cbn [snd] in Hok2.
      destruct t2; try discriminate Hf; cbn [print_token app]; eqb_eval.
      * reflexivity.
      * rewrite <- (members_skip f [] (print_tokens ((w2, TKey k) :: rest2))).
        rewrite (skip_print _ _ Hl). reflexivity.
  - no_value rbrace.
  - (* [ *)
    eqb_eval. destruct rest as [|[w2 t2] rest2].
    + destruct f as [|[|f]]; reflexivity.
    + rewrite (skip_print _ _ Hl). cbn [snd].
      pose proof (lexable_cons _ _ Hl) as (_ & Hok2 & _). cbn [snd] in Hok2.
      destruct (start_tests _ Hok2) as (R2 & E2 & _ & _ & _ & Hb & _).
      rewrite E2. cbn [app]. rewrite Hb.
      destruct t2; try discriminate Hf;
        try (rewrite <- (elements_skip f [] (print_tokens ((w2, _) :: rest2)));
             rewrite (skip_print _ _ Hl); cbn [snd]; rewrite E2; reflexivity).
      cbn [print_token] in E2. injection E2 as <-. reflexivity.
  - no_value rbracket.
  - (* a key *)
    eqb_eval. rewrite <- app_assoc. cbn [app].
    cbn [token_ok] in Hok.
    rewrite key_body by (destruct k; [discriminate Hok | exact Hok]).
    reflexivity.
  - (* a string *)
    eqb_eval. rewrite <- app_assoc. cbn [app].
    cbn [token_ok] in Hok. apply andb_true_iff in Hok as [Hok _].
    rewrite (str_body _ _ Hok). reflexivity.
  - (* a number *)
    pose proof Hok as Hok'. cbn [token_ok] in Hok.
    destruct n as [|d ds]; [discriminate Hok |].
    apply andb_true_iff in Hok as [Hd _]. cbn [app].
    replace (N.eqb d lbrace) with false by (symmetry; class_lia).
    replace (N.eqb d lbracket) with false by (symmetry; class_lia).
    replace (N.eqb d dq) with false by (symmetry; class_lia).
    assert (Ha : is_alpha d = false) by class_lia.
    rewrite (proj1 (strip_word_miss d (ds ++ print_tokens rest) Ha)).
    rewrite (proj1 (proj2 (strip_word_miss d (ds ++ print_tokens rest) Ha))).
    rewrite (proj2 (proj2 (strip_word_miss d (ds ++ print_tokens rest) Ha))).
    change (d :: ds ++ print_tokens rest) with ((d :: ds) ++ print_tokens rest).
    rewrite (@number_token_app (d :: ds) _ (Hstop I)).
    unfold jsonNumber in Hn.
    destruct (Json.number_token (d :: ds)) as [[x r] |]; [| discriminate Hn].
    destruct r; [reflexivity | discriminate Hn].
  - (* a word *)
    cbn [token_ok] in Hok.
    apply isWord_inv in Hok as [-> | [-> | ->]].
    + change (js "true" ++ print_tokens rest)
        with (ch "t" :: js "rue" ++ print_tokens rest).
      eqb_eval.
      change (ch "t" :: js "rue" ++ print_tokens rest)
        with (js "true" ++ print_tokens rest).
      rewrite strip_prefix_app. reflexivity.
    + change (js "false" ++ print_tokens rest)
        with (ch "f" :: js "alse" ++ print_tokens rest).
      eqb_eval.
      change (strip_prefix (js "true") (ch "f" :: js "alse" ++ print_tokens rest))
        with (@None jsstring).
      change (ch "f" :: js "alse" ++ print_tokens rest)
        with (js "false" ++ print_tokens rest).
      rewrite strip_prefix_app. reflexivity.
    + change (js "null" ++ print_tokens rest)
        with (ch "n" :: js "ull" ++ print_tokens rest).
      eqb_eval.
      change (strip_prefix (js "true") (ch "n" :: js "ull" ++ print_tokens rest))
        with (@None jsstring).
      change (strip_prefix (js "false") (ch "n" :: js "ull" ++ print_tokens rest))
        with (@None jsstring).
      change (ch "n" :: js "ull" ++ print_tokens rest)
        with (js "null" ++ print_tokens rest).
      rewrite strip_prefix_app. reflexivity.
  - no_value comma.
Qed.

(** [parse_members] at the front of a sequence of tokens *)
Lemma members_step (f : nat) (acc : list (jsstring * value)) (w k : jsstring)
    (rest : list (jsstring * token)) :
  lexable ((w, TKey k) :: rest) = true ->
  Json.parse_members (S f) acc (print_tokens ((w, TKey k) :: rest)) =
  match Json.parse_value f (print_tokens rest) with
  | Some (v, rest') =>
      match Json.skip_ws rest' with
      | c :: r2 =>
          if N.eqb c (ch ",")
          then Json.parse_members f (Json.set_prop k v acc) r2
          else if N.eqb c rbrace
               then Some (VObj (Json.set_prop k v acc), r2)
               else None
      | [] => None
      end
  | None => None
  end.
Proof.
  intros H. cbn [Json.parse_members]. rewrite (skip_print _ _ H).
  apply lexable_cons in H as (_ & Hok & _). cbn [snd token_ok] in Hok.
  cbn [snd print_token app]. eqb_eval. rewrite <- app_assoc. cbn [app].
  rewrite key_body by (destruct k; [discriminate Hok | exact Hok]).
  cbn [Json.skip_ws]. change (Json.is_ws colon) with false. cbv iota.
  eqb_eval. reflexivity.
Qed.

Lemma members_nonkey (f : nat) (acc : list (jsstring * value)) (w : jsstring)
    (t : token) (rest : list (jsstring * token)) :
  lexable ((w, t) :: rest) = true ->
  match t with TKey _ => False | _ => True end ->
  Json.parse_members (S f) acc (print_tokens ((w, t) :: rest)) = None.
Proof.
  intros H Ht. cbn [Json.parse_members]. rewrite (skip_print _ _ H).
  apply lexable_cons in H as (_ & Hok & _ & Hf & Hl). cbn [snd] in *.
  destruct (start_tests _ Hok) as (R & E & _ & _ & _ & _ & Hq & _).
  destruct t; try contradiction; rewrite E; cbn [app]; rewrite Hq;
    cbn [startsQuote]; try reflexivity.
  cbn [print_token] in E. injection E as <-. rewrite <- app_assoc. cbn [app].
  cbn [token_ok] in Hok. apply andb_true_iff in Hok as [Hok _].
  rewrite (str_body _ _ Hok).
  destruct rest as [|[w2 t2] rest2]; [reflexivity |].
  rewrite (skip_print _ _ Hl). cbn [snd].
  apply lexable_cons in Hl as (_ & Hok2 & _). cbn [snd] in Hok2.
  destruct (start_tests _ Hok2) as (R2 & E2 & _ & _ & _ & _ & _ & _ & Hc).
  rewrite E2. cbn [app]. rewrite Hc. reflexivity.
Qed.

(** ** The same tokens with other white space *)

Lemma skipn_next (A : Type) (k : nat) (l : list A) (x : A) (r : list A) :
  skipn k l = x :: r -> skipn (S k) l = r /\ S k <= List.length l.
Proof.
  revert l. induction k as [|k IH]; intros l H.
  - cbn [skipn] in H. subst l. split; [reflexivity | cbn [List.length]; lia].
  - destruct l as [|y l]; [discriminate H |]. cbn [skipn] in H.
    destruct (IH l H) as [E Hl]. split; [exact E | cbn [List.length]; lia].
Qed.

Lemma skipn_more (A : Type) (k2 k : nat) (l : list A) :
  skipn (k2 + k) l = skipn k2 (skipn k l).
Proof. symmetry. apply skipn_skipn. Qed.

Lemma same_skipn (k : nat) (toks toks' : list (jsstring * token)) :
  List.map snd toks' = List.map snd toks ->
  List.map snd (skipn k toks') = List.map snd (skipn k toks).
Proof. intros E. rewrite <- !skipn_map, E. reflexivity. Qed.

Lemma same_cons (T' : list (jsstring * token)) (w : jsstring) (t : token)
    (T2 : list (jsstring * token)) :
  List.map snd T' = List.map snd ((w, t) :: T2) ->
  exists w' T2', T' = (w', t) :: T2' /\ List.map snd T2' = List.map snd T2.
Proof.
  destruct T' as [|[w' t'] T2']; [discriminate |]. cbn [List.map snd].
  intros E. injection E as -> E. exists w', T2'. auto.
Qed.

Lemma members_nil (f : nat) (acc : list (jsstring * value)) :
  Json.parse_members f acc [] = None.
Proof. destruct f; reflexivity. Qed.

Lemma value_nil (f : nat) : Json.parse_value f [] = None.
Proof. destruct f; reflexivity. Qed.

Lemma elements_nil (f : nat) (acc : list value) :
  Json.parse_elements f acc [] = None.
Proof. destruct f; [reflexivity |]. cbn [Json.parse_elements]. rewrite value_nil. reflexivity. Qed.

(** What the three functions of the parser return on a sequence of
    tokens, they return on the same tokens with other white space, with
    any fuel that is at least the number of tokens read. *)
Lemma parse_layout (f : nat) :
  (forall toks toks' v rest,
     lexable toks = true -> lexable toks' = true ->
     List.map snd toks' = List.map snd toks ->
     match toks with (_, TKey _) :: _ => False | _ => True end ->
     Json.parse_value f (print_tokens toks) = Some (v, rest) ->
     exists k,
       1 <= k /\ k <= List.length toks /\
       rest = print_tokens (skipn k toks) /\
       forall g, k <= g ->
         Json.parse_value g (print_tokens toks')
         = Some (v, print_tokens (skipn k toks'))) /\
  (forall acc toks toks' v rest,
     lexable toks = true -> lexable toks' = true ->
     List.map snd toks' = List.map snd toks ->
     Json.parse_elements f acc (print_tokens toks) = Some (v, rest) ->
     exists k,
       1 <= k /\ k <= List.length toks /\
       rest = print_tokens (skipn k toks) /\
       forall g, k <= g ->
         Json.parse_elements g acc (print_tokens toks')
         = Some (v, print_tokens (skipn k toks'))) /\
  (forall acc toks toks' v rest,
     lexable toks = true -> lexable toks' = true ->
     List.map snd toks' = List.map snd toks ->
     Json.parse_members f acc (print_tokens toks) = Some (v, rest) ->
     exists k,
       1 <= k /\ k <= List.length toks /\
       rest = print_tokens (skipn k toks) /\
       forall g, k <= g ->
         Json.parse_members g acc (print_tokens toks')
         = Some (v, print_tokens (skipn k toks'))).
Proof.
  induction f as [|f (IHV & IHE & IHM)].
  { repeat split; intros; discriminate. }
  split; [| split].
  - (* parse_value *)
    intros toks toks' v rest L L' E K H.
    destruct toks as [|[w t] rest0]; [rewrite value_nil in H; discriminate H |].
    destruct (same_cons _ E) as (w' & rest0' & -> & E0).
    rewrite (value_step f _ _ _ L) in H.
    assert (One : forall x,
              Some (x, print_tokens rest0) = Some (v, rest) ->
              (forall g, Json.parse_value (S g) (print_tokens ((w', t) :: rest0'))
                         = Some (x, print_tokens rest0')) ->
              exists k,
                1 <= k /\ k <= List.length ((w, t) :: rest0) /\
                rest = print_tokens (skipn k ((w, t) :: rest0)) /\
                forall g, k <= g ->
                  Json.parse_value g (print_tokens ((w', t) :: rest0'))
                  = Some (v, print_tokens (skipn k ((w', t) :: rest0')))).
    { intros x Hx Hg. injection Hx as <- <-. exists 1.
      cbn [List.length skipn]. repeat split; try lia.
      intros g Hk. destruct g as [|g]; [lia |]. apply Hg. }
    destruct t; try contradiction; try discriminate H.
    + (* an object *)
      destruct rest0 as [|[w2 t2] rest2]; [rewrite members_nil in H; discriminate H |].
      destruct (same_cons _ E0) as (w2' & rest2' & -> & E2).
      assert (Inner : Json.parse_members f [] (print_tokens ((w2, t2) :: rest2))
                      = Some (v, rest) ->
                      (forall g, Json.parse_value (S g)
                                   (print_tokens ((w', TLBrace) :: (w2', t2) :: rest2'))
                                 = Json.parse_members g []
                                     (print_tokens ((w2', t2) :: rest2'))) ->
                      exists k,
                        1 <= k /\
                        k <= List.length ((w, TLBrace) :: (w2, t2) :: rest2) /\
                        rest = print_tokens (skipn k ((w, TLBrace) :: (w2, t2) :: rest2)) /\
                        forall g, k <= g ->
                          Json.parse_value g
                            (print_tokens ((w', TLBrace) :: (w2', t2) :: rest2'))
                          = Some (v, print_tokens
                                       (skipn k ((w', TLBrace) :: (w2', t2) :: rest2')))).
      { intros Hm Hg.
        apply lexable_cons in L as (_ & _ & _ & _ & L2).
        apply lexable_cons in L' as (_ & _ & _ & _ & L2').
        destruct (IHM [] _ _ _ _ L2 L2' E0 Hm) as (k & Hk1 & Hk2 & -> & Hk).
        exists (S k). cbn [List.length skipn] in *. repeat split; try lia.
        intros g Hg'. destruct g as [|g]; [lia |]. rewrite Hg.
        apply Hk. lia. }
      destruct t2;
        try (apply Inner; [exact H |];
             intros g; rewrite (value_step g _ _ _ L'); reflexivity).
      injection H as <- <-. exists 2. cbn [List.length skipn].
      repeat split; try lia.
      intros g Hg. destruct g as [|g]; [lia |].
      rewrite (value_step g _ _ _ L'). reflexivity.
    + (* an array *)
      destruct rest0 as [|[w2 t2] rest2]; [rewrite elements_nil in H; discriminate H |].
      destruct (same_cons _ E0) as (w2' & rest2' & -> & E2).
      assert (Inner : Json.parse_elements f [] (print_tokens ((w2, t2) :: rest2))
                      = Some (v, rest) ->
                      (forall g, Json.parse_value (S g)
                                   (print_tokens ((w', TLBracket) :: (w2', t2) :: rest2'))
                                 = Json.parse_elements g []
                                     (print_tokens ((w2', t2) :: rest2'))) ->
                      exists k,
                        1 <= k /\
                        k <= List.length ((w, TLBracket) :: (w2, t2) :: rest2) /\
                        rest = print_tokens (skipn k ((w, TLBracket) :: (w2, t2) :: rest2)) /\
                        forall g, k <= g ->
                          Json.parse_value g
                            (print_tokens ((w', TLBracket) :: (w2', t2) :: rest2'))
                          = Some (v, print_tokens
                                       (skipn k ((w', TLBracket) :: (w2', t2) :: rest2')))).
      { intros Hm Hg.
        apply lexable_cons in L as (_ & _ & _ & _ & L2).
        apply lexable_cons in L' as (_ & _ & _ & _ & L2').
        destruct (IHE [] _ _ _ _ L2 L2' E0 Hm) as (k & Hk1 & Hk2 & -> & Hk).
        exists (S k). cbn [List.length skipn] in *. repeat split; try lia.
        intros g Hg'. destruct g as [|g]; [lia |]. rewrite Hg.
        apply Hk. lia. }
      destruct t2;
        try (apply Inner; [exact H |];
             intros g; rewrite (value_step g _ _ _ L'); reflexivity).
      injection H as <- <-. exists 2. cbn [List.length skipn].
      repeat split; try lia.
      intros g Hg. destruct g as [|g]; [lia |].
      rewrite (value_step g _ _ _ L'). reflexivity.
    + (* a string *)
      apply (One _ H). intros g. apply (value_step g _ _ _ L').
    + (* a number *)
      destruct (Json.number_token n) as [[x r] |] eqn:En; [| discriminate H].
      apply (One _ H). intros g. rewrite (value_step g _ _ _ L'), En. reflexivity.
    + (* a word *)
      apply (One _ H). intros g. apply (value_step g _ _ _ L').
  - (* parse_elements *)
    intros acc toks toks' v rest L L' E H.
    cbn [Json.parse_elements] in H.
    destruct (Json.parse_value f (print_tokens toks)) as [[v1 rest1] |] eqn:Hv;
      [| discriminate H].
    assert (K : match toks with (_, TKey _) :: _ => False | _ => True end).
    { destruct toks as [|[w t] rest0]; [exact I |].
      destruct t; try exact I. exfalso.
      destruct f as [|f0]; [discriminate Hv |].
      rewrite (value_step f0 _ _ _ L) in Hv. injection Hv as <- <-.
      cbn [Json.skip_ws] in H. change (Json.is_ws colon) with false in H.
      cbv iota in H. revert H. eqb_eval. discriminate. }
    destruct (IHV _ _ _ _ L L' E K Hv) as (k1 & Hk1 & Hl1 & -> & Hg1).
    pose proof (lexable_skipn k1 _ L) as L1.
    pose proof (lexable_skipn k1 _ L') as L1'.
    pose proof (same_skipn k1 _ _ E) as E1.
    destruct (skipn k1 toks) as [|[w1 t1] T2] eqn:ET; [discriminate H |].
    destruct (same_cons _ E1) as (w1' & T2' & ET' & E2).
    rewrite ET' in L1'.
    rewrite (skip_print _ _ L1) in H. cbn [snd] in H.
    pose proof (lexable_cons _ _ L1) as (_ & Hok1 & _ & _ & L2). cbn [snd] in Hok1.
    pose proof (lexable_cons _ _ L1') as (_ & _ & _ & _ & L2').
    destruct (start_tests _ Hok1) as (R1 & E1t & _ & _ & _ & Hrb & _ & Hc & _).
    destruct (skipn_next _ _ ET) as [EN HN].
    destruct (skipn_next _ _ ET') as [EN' _].
    assert (Step : forall g, k1 <= g ->
              Json.parse_elements (S g) acc (print_tokens toks') =
              match print_token t1 ++ print_tokens T2' with
              | c :: r =>
                  if N.eqb c (ch ",")
                  then Json.parse_elements g (acc ++ [v1]) r
                  else if N.eqb c rbracket then Some (VArr (acc ++ [v1]), r)
                       else None
              | [] => None
              end).
    { intros g Hg. cbn [Json.parse_elements]. rewrite (Hg1 g Hg), ET'.
      rewrite (skip_print _ _ L1'). reflexivity. }
    rewrite E1t in H, Step. cbn [app] in H, Step. rewrite Hc, Hrb in H, Step.
    destruct t1; try discriminate H.
    + (* the closing bracket *)
      cbn [print_token] in E1t. injection E1t as <-. cbn [app] in H, Step.
      injection H as <- <-. exists (S k1). rewrite EN, EN'.
      repeat split; try lia.
      intros g Hg. destruct g as [|g]; [lia |]. apply Step. lia.
    + (* a comma *)
      cbn [print_token] in E1t. injection E1t as <-. cbn [app] in H, Step.
      destruct (IHE _ _ _ _ _ L2 L2' E2 H) as (k2 & Hk2 & Hl2 & -> & Hg2).
      exists (k2 + S k1). rewrite !skipn_more, EN, EN'.
      assert (Hlen : List.length T2 = List.length toks - S k1)
        by (rewrite <- EN; apply length_skipn).
      repeat split; try lia.
      intros g Hg. destruct g as [|g]; [lia |]. rewrite Step by lia.
      apply Hg2. lia.
  - (* parse_members *)
    intros acc toks toks' v rest L L' E H.
    destruct toks as [|[w t] rest0]; [rewrite members_nil in H; discriminate H |].
    destruct (same_cons _ E) as (w' & rest0' & -> & E0).
    destruct t; try (rewrite (members_nonkey f acc _ _ _ L I) in H; discriminate H).
    rewrite (members_step f acc _ _ _ L) in H.
    destruct (Json.parse_value f (print_tokens rest0)) as [[v1 rest1] |] eqn:Hv;
      [| discriminate H].
    pose proof (lexable_cons _ _ L) as (_ & _ & _ & Hf & L0). cbn [snd] in Hf.
    pose proof (lexable_cons _ _ L') as (_ & _ & _ & _ & L0').
    assert (K : match rest0 with (_, TKey _) :: _ => False | _ => True end).
    { destruct rest0 as [|[w2 t2] rest2]; [exact I |].
      cbn [snd] in Hf. destruct t2; try exact I. discriminate Hf. }
    destruct (IHV _ _ _ _ L0 L0' E0 K Hv) as (k1 & Hk1 & Hl1 & -> & Hg1).
    pose proof (lexable_skipn k1 _ L0) as L1.
    pose proof (lexable_skipn k1 _ L0') as L1'.
    pose proof (same_skipn k1 _ _ E0) as E1.
    destruct (skipn k1 rest0) as [|[w1 t1] T2] eqn:ET; [discriminate H |].
    destruct (same_cons _ E1) as (w1' & T2' & ET' & E2).
    rewrite ET' in L1'.
    rewrite (skip_print _ _ L1) in H. cbn [snd] in H.
    pose proof (lexable_cons _ _ L1) as (_ & Hok1 & _ & _ & L2). cbn [snd] in Hok1.
    pose proof (lexable_cons _ _ L1') as (_ & _ & _ & _ & L2').
    destruct (start_tests _ Hok1) as (R1 & E1t & _ & Hrb & _ & _ & _ & Hc & _).
    destruct (skipn_next _ _ ET) as [EN HN].
    destruct (skipn_next _ _ ET') as [EN' _].
    assert (Step : forall g, k1 <= g ->
              Json.parse_members (S g) acc (print_tokens ((w', TKey k) :: rest0')) =
              match print_token t1 ++ print_tokens T2' with
              | c :: r =>
                  if N.eqb c (ch ",")
                  then Json.parse_members g (Json.set_prop k v1 acc) r
                  else if N.eqb c rbrace
                       then Some (VObj (Json.set_prop k v1 acc), r)
                       else None
              | [] => None
              end).
    { intros g Hg. rewrite (members_step g acc _ _ _ L'), (Hg1 g Hg), ET'.
      rewrite (skip_print _ _ L1'). reflexivity. }
    rewrite E1t in H, Step. cbn [app] in H, Step. rewrite Hc, Hrb in H, Step.
    cbn [List.length].
    destruct t1; try discriminate H.
    + (* the closing brace *)
      cbn [print_token] in E1t. injection E1t as <-. cbn [app] in H, Step.
      injection H as <- <-. exists (S (S k1)).
      rewrite !(skipn_cons (S k1)), EN, EN'.
      repeat split; try lia.
      intros g Hg. destruct g as [|g]; [lia |]. apply Step. lia.
    + (* a comma *)
      cbn [print_token] in E1t. injection E1t as <-. cbn [app] in H, Step.
      destruct (IHM _ _ _ _ _ L2 L2' E2 H) as (k2 & Hk2 & Hl2 & -> & Hg2).
      exists (S (k2 + S k1)).
      rewrite !(skipn_cons (k2 + S k1)), !skipn_more, EN, EN'.
      assert (Hlen : List.length T2 = List.length rest0 - S k1)
        by (rewrite <- EN; apply length_skipn).
      repeat split; try lia.
      intros g Hg. destruct g as [|g]; [lia |]. rewrite Step by lia.
      apply Hg2. lia.
Qed.

Lemma print_length (toks : list (jsstring * token)) :
  lexable toks = true -> List.length toks <= List.length (print_tokens toks).
Proof.
  induction toks as [|wt rest IH]; intros H; [apply le_n |].
  apply lexable_cons in H as (_ & Hok & _ & _ & Hl).
  rewrite print_cons, !length_app. destruct (token_start _ Hok) as (R & -> & _).
  specialize (IH Hl). cbn [List.length]. lia.
Qed.

Lemma skipn_nil_inv (A : Type) (k : nat) (l : list A) :
  skipn k l = [] -> List.length l <= k.
Proof.
  intros H. pose proof (length_skipn k l) as E. rewrite H in E.
  cbn [List.length] in E. lia.
Qed.

(** [JSON.parse] gives the same on the same tokens, whatever the white
    space between them. *)
Lemma parse_same (toks toks' : list (jsstring * token)) (v : value) :
  lexable toks = true -> lexable toks' = true ->
  List.map snd toks' = List.map snd toks ->
  match toks with (_, TKey _) :: _ => False | _ => True end ->
  Json.parse (print_tokens toks) = Ret v ->
  Json.parse (print_tokens toks') = Ret v.
Proof.
  intros L L' E K. unfold Json.parse.
  destruct (Json.parse_value _ (print_tokens toks)) as [[v0 rest] |] eqn:Hv;
    [| discriminate].
  destruct (Json.skip_ws rest) eqn:Hs; [| discriminate]. intros [= <-].
  destruct (proj1 (parse_layout _) _ _ _ _ L L' E K Hv)
    as (k & Hk1 & Hk2 & -> & Hg).
  assert (Hn : skipn k toks = []).
  { pose proof (lexable_skipn k _ L) as Lk.
    destruct (skipn k toks) as [|wt T]; [reflexivity |].
    rewrite (skip_print _ _ Lk) in Hs.
    apply lexable_cons in Lk as (_ & Hok & _).
    destruct (token_start _ Hok) as (R & E1 & _). rewrite E1 in Hs.
    discriminate Hs. }
  assert (Hlen : List.length toks' = List.length toks).
  { rewrite <- (length_map snd toks'), E. apply length_map. }
  assert (Hn' : skipn k toks' = []).
  { apply skipn_all2. apply skipn_nil_inv in Hn. lia. }
  rewrite Hg, Hn'; [reflexivity |].
  pose proof (print_length _ L'). lia.
Qed.

Lemma safe_lexable (toks : list (jsstring * token)) :
  safeTokens toks = true -> jsonNumbers toks = true ->
  lexable toks = true /\ lexable (sanitizedTokens toks) = true.
Proof.
  intros H N. destruct (sanitized_safe _ H) as [Hs Es]. split.
  - apply chain_lexable; [apply safe_chain, H | exact N].
  - apply chain_lexable; [apply safe_chain, Hs |].
    rewrite (jsonNumbers_tokens _ _ Es). exact N.
Qed.




(** * Further properties of the code *)

(** ** [getPositionFromLineCol] *)

Lemma split_char_cons (sep x : jschar) (s : jsstring) :
  split_char sep (x :: s) =
  if N.eqb x sep then [] :: split_char sep s
  else onFirst [x] (split_char sep s).
Proof.
  cbn [split_char]. destruct (N.eqb x sep); [reflexivity |].
  destruct (split_char sep s); reflexivity.
Qed.

Lemma split_char_nonempty (sep : jschar) (s : jsstring) :
  split_char sep s <> [].
Proof.
  destruct s as [|x s]; [discriminate |]. rewrite split_char_cons.
  destruct (N.eqb x sep); [discriminate |].
  destruct (split_char sep s); discriminate.
Qed.

Lemma onFirst_onFirst (a b : jsstring) (ls : list jsstring) :
  ls <> [] -> onFirst a (onFirst b ls) = onFirst (a ++ b) ls.
Proof.
  destruct ls as [|l ls]; [contradiction |]. intros _. cbn [onFirst].
  rewrite app_assoc. reflexivity.
Qed.

Lemma lineCol_line (p : jsstring) :
  forall line col, (line <= fst (lineCol p line col))%Z.
Proof.
  induction p as [|x p IH]; intros line col; cbn [lineCol fst]; [lia |].
  destruct (N.eqb x newline).
  - specialize (IH (line + 1)%Z 1%Z). lia.
  - apply IH.
Qed.

Lemma sumLines_cons (l : jsstring) (rest : list jsstring) (i line pos : Z) :
  sumLines (l :: rest) i line pos =
  if (i <? line - 1)%Z
  then sumLines rest (i + 1)%Z line (pos + Z.of_nat (List.length l) + 1)%Z
  else pos.
Proof. reflexivity. Qed.

Lemma onFirst_nil (ls : list jsstring) : ls <> [] -> onFirst [] ls = ls.
Proof. destruct ls; [contradiction | reflexivity]. Qed.

(** The loop of the source over the lines before the position, with the
    text read so far on the current line put back before the rest *)
Lemma sumLines_lineCol (p q : jsstring) :
  forall (a : jsstring) (i pos : Z),
    let lc := lineCol p (i + 1) (Z.of_nat (List.length a) + 1) in
    let lines := onFirst a (split_char newline (p ++ q)) in
    (sumLines lines i (fst lc) pos
     = pos + Z.of_nat (List.length a) + Z.of_nat (List.length p) - (snd lc - 1))%Z /\
    (fst lc - i <= Z.of_nat (List.length lines))%Z.
Proof.
  induction p as [|x p IH]; intros a i pos.
  - cbn [lineCol app fst snd List.length]. cbv zeta.
    pose proof (@split_char_nonempty newline q) as Hq.
    destruct (split_char newline q) as [|l ls]; [contradiction |].
    cbn [onFirst sumLines List.length].
    replace (i <? i + 1 - 1)%Z with false by (symmetry; apply Z.ltb_ge; lia).
    split; lia.
  - cbn [app lineCol]. rewrite split_char_cons.
    destruct (N.eqb x newline) eqn:E.
    + cbv zeta. cbn [onFirst]. rewrite app_nil_r, sumLines_cons.
      specialize (IH [] (i + 1)%Z (pos + Z.of_nat (List.length a) + 1)%Z).
      cbn [List.length] in IH. cbv zeta in IH.
      change (Z.of_nat 0 + 1)%Z with 1%Z in IH.
      rewrite onFirst_nil in IH by apply split_char_nonempty.
      pose proof (lineCol_line p (i + 1 + 1) 1) as Hl.
      replace (i <? fst (lineCol p (i + 1 + 1) 1) - 1)%Z with true
        by (symmetry; apply Z.ltb_lt; lia).
      destruct IH as [IH1 IH2]. split.
      * rewrite IH1. cbn [List.length]. lia.
      * cbn [List.length]. lia.
    + cbv zeta.
      rewrite onFirst_onFirst by apply split_char_nonempty.
      specialize (IH (a ++ [x]) i pos).
      rewrite length_app in IH. cbn [List.length] in IH. cbv zeta in IH.
      replace (Z.of_nat (List.length a + 1) + 1)%Z
        with (Z.of_nat (List.length a) + 1 + 1)%Z in IH by lia.
      destruct IH as [IH1 IH2]. split.
      * rewrite IH1. cbn [List.length]. lia.
      * exact IH2.
Qed.

(** X1: the position of a line and a column is the offset they were
    counted at. *)
Theorem getPositionFromLineCol_of_offset (p q : jsstring) :
  getPositionFromLineCol (p ++ q) (fst (lineCol p 1 1)) (snd (lineCol p 1 1))
  = Z.of_nat (List.length p).
Proof.
  unfold getPositionFromLineCol. cbv zeta.
  destruct (@sumLines_lineCol p q [] 0%Z 0%Z) as [H1 H2].
  cbn [List.length] in H1, H2. cbv zeta in H1, H2.
  change (0 + 1)%Z with 1%Z in H1, H2.
  change (Z.of_nat 0 + 1)%Z with 1%Z in H1, H2.
  rewrite onFirst_nil in H1, H2 by apply split_char_nonempty.
  replace (fst (lineCol p 1 1) <=?
           Z.of_nat (List.length (split_char newline (p ++ q))))%Z
    with true by (symmetry; apply Z.leb_le; lia).
  rewrite H1. lia.
Qed.

Lemma onFirst_length (a : jsstring) (ls : list jsstring) :
  ls <> [] -> List.length (onFirst a ls) = List.length ls.
Proof. destruct ls; [contradiction | reflexivity]. Qed.

(** The loop run over all the lines: every line and its line break are
    counted, one break more than the text has. *)
Lemma sumLines_all (text : jsstring) :
  forall (a : jsstring) (i line pos : Z),
    (i + Z.of_nat (List.length (split_char newline text)) <= line - 1)%Z ->
    sumLines (onFirst a (split_char newline text)) i line pos
    = (pos + Z.of_nat (List.length a) + Z.of_nat (List.length text) + 1)%Z.
Proof.
  induction text as [|x text IH]; intros a i line pos H.
  - cbn [split_char onFirst List.length] in *. rewrite app_nil_r, sumLines_cons.
    replace (i <? line - 1)%Z with true by (symmetry; apply Z.ltb_lt; lia).
    cbn [sumLines]. lia.
  - rewrite split_char_cons in *. destruct (N.eqb x newline).
    + cbn [onFirst List.length] in *. rewrite app_nil_r, sumLines_cons.
      replace (i <? line - 1)%Z with true by (symmetry; apply Z.ltb_lt; lia).
      rewrite <- (@onFirst_nil (split_char newline text))
        by apply split_char_nonempty.
      rewrite IH by lia. cbn [List.length]. lia.
    + rewrite onFirst_length in H by apply split_char_nonempty.
      rewrite onFirst_onFirst by apply split_char_nonempty.
      rewrite IH by lia. rewrite length_app. cbn [List.length]. lia.
Qed.

(** X2: a line past the last one gives the length of the text plus
    one, whatever the column. *)
Theorem getPositionFromLineCol_past_the_end (text : jsstring) (line col : Z) :
  (Z.of_nat (List.length (split_char newline text)) < line)%Z ->
  getPositionFromLineCol text line col = (Z.of_nat (List.length text) + 1)%Z.
Proof.
  intros H. unfold getPositionFromLineCol. cbv zeta.
  replace (line <=? Z.of_nat (List.length (split_char newline text)))%Z
    with false by (symmetry; apply Z.leb_gt; lia).
  rewrite <- (@onFirst_nil (split_char newline text))
    by apply split_char_nonempty.
  rewrite sumLines_all by lia. cbn [List.length]. lia.
Qed.

Lemma getPositionFromLineCol_past_the_end_witness :
  (Z.of_nat (List.length (split_char newline (js "{}"))) < 3)%Z /\
  getPositionFromLineCol (js "{}") 3 7 = 3%Z.
Proof.
  split; [vm_compute; reflexivity |].
  apply (@getPositionFromLineCol_past_the_end (js "{}") 3 7).
  vm_compute. reflexivity.
Defined.

Lemma sumLines_ge (lines : list jsstring) :
  forall i line pos, (pos <= sumLines lines i line pos)%Z.
Proof.
  induction lines as [|l lines IH]; intros i line pos; [cbn; lia |].
  rewrite sumLines_cons. destruct (i <? line - 1)%Z; [| lia].
  specialize (IH (i + 1)%Z line (pos + Z.of_nat (List.length l) + 1)%Z). lia.
Qed.

(** X3: with a line and a column that are not negative, as [parseInt]
    of digits gives them, the position is -1 only for column 0 on line
    0 or 1. *)
Theorem getPositionFromLineCol_minus_one (text : jsstring) (line col : Z) :
  (0 <= line)%Z -> (0 <= col)%Z ->
  (getPositionFromLineCol text line col = -1 <-> col = 0 /\ line <= 1)%Z.
Proof.
  intros Hl Hc. unfold getPositionFromLineCol. cbv zeta.
  pose proof (@split_char_nonempty newline text) as Hne.
  destruct (split_char newline text) as [|l ls]; [contradiction |].
  rewrite sumLines_cons. cbn [List.length].
  destruct (Z.ltb_spec 0 (line - 1)) as [H | H].
  - pose proof (sumLines_ge ls (0 + 1) line (0 + Z.of_nat (List.length l) + 1)).
    destruct (line <=? Z.of_nat (S (List.length ls)))%Z; split; lia.
  - replace (line <=? Z.of_nat (S (List.length ls)))%Z with true
      by (symmetry; apply Z.leb_le; lia).
    split; lia.
Qed.

Lemma getPositionFromLineCol_minus_one_witness :
  (0 <= 1)%Z /\ (0 <= 0)%Z /\
  (getPositionFromLineCol (js "{}") 1 0 = -1 <-> 0 = 0 /\ 1 <= 1)%Z.
Proof.
  split; [lia |]. split; [lia |].
  apply (@getPositionFromLineCol_minus_one (js "{}") 1 0); lia.
Defined.

(** ** The snippet of the diagnostic *)

Lemma substring_length (s : jsstring) (a b : nat) :
  List.length (substring s a b)
  = Nat.min (Nat.max a b - Nat.min a b) (List.length s - Nat.min a b).
Proof. unfold substring. rewrite length_firstn, length_skipn. reflexivity. Qed.

Lemma substring_infix (s : jsstring) (a b : nat) :
  exists pre post, s = pre ++ substring s a b ++ post.
Proof.
  unfold substring.
  exists (firstn (Nat.min a b) s),
    (skipn (Nat.max a b - Nat.min a b) (skipn (Nat.min a b) s)).
  rewrite firstn_skipn, firstn_skipn. reflexivity.
Qed.

Lemma substring_window (s : jsstring) (p : nat) :
  p <= List.length s ->
  substring s (p - 20) (Nat.min (List.length s) (p + 20))
  = skipn (p - 20) (firstn p s) ++ firstn 20 (skipn p s).
Proof.
  intros Hp. unfold substring.
  replace (Nat.min (p - 20) (Nat.min (List.length s) (p + 20))) with (p - 20)
    by lia.
  replace (Nat.max (p - 20) (Nat.min (List.length s) (p + 20)))
    with (Nat.min (List.length s) (p + 20)) by lia.
  assert (E : skipn (p - 20) s = skipn (p - 20) (firstn p s) ++ skipn p s).
  { rewrite <- (firstn_skipn p s) at 1.
    rewrite skipn_app, length_firstn.
    replace (p - 20 - Nat.min p (List.length s)) with 0 by lia.
    reflexivity. }
  rewrite E, firstn_app, length_skipn, length_firstn.
  rewrite firstn_all2 by (rewrite length_skipn, length_firstn; lia).
  f_equal.
  destruct (Nat.le_gt_cases (p + 20) (List.length s)) as [H | H].
  - f_equal. lia.
  - rewrite !firstn_all2 by (rewrite length_skipn; lia). reflexivity.
Qed.

(** X4: the snippet that the handler of the lenient parse logs is a
    part of the sanitized text of at most 40 characters; for a position
    inside the text it is the 20 characters before it and the 20 from
    it on, as far as there are that many. *)
Theorem errorContext_snippet (sanitizedJson : jsstring) (json5Error : exn)
    (position : Z) (context : jsstring) :
  errorContext sanitizedJson json5Error = Some (position, context) ->
  List.length context <= 40 /\
  (exists pre post, sanitizedJson = pre ++ context ++ post) /\
  ((0 <= position <= Z.of_nat (List.length sanitizedJson))%Z ->
   context = skipn (Z.to_nat position - 20) (firstn (Z.to_nat position) sanitizedJson)
             ++ firstn 20 (skipn (Z.to_nat position) sanitizedJson)).
Proof.
  unfold errorContext.
  destruct (includes (message json5Error) (js "at")); [| discriminate].
  destruct (search Re.errorAt (message json5Error)) as [m |]; [| discriminate].
  destruct (groupInt m 1) as [line |]; [| discriminate].
  destruct (groupInt m 2) as [col |]; [| discriminate].
  cbv zeta.
  destruct (negb (getPositionFromLineCol sanitizedJson line col =? -1)%Z);
    [| discriminate].
  intros [= <- <-].
  set (pos := getPositionFromLineCol sanitizedJson line col).
  split; [| split].
  - rewrite substring_length. lia.
  - apply substring_infix.
  - intros Hpos.
    replace (Z.to_nat (Z.max 0 (pos - 20))) with (Z.to_nat pos - 20) by lia.
    replace (Z.to_nat (Z.min (Z.of_nat (List.length sanitizedJson)) (pos + 20)))
      with (Nat.min (List.length sanitizedJson) (Z.to_nat pos + 20)) by lia.
    apply substring_window. lia.
Qed.

Lemma errorContext_snippet_witness :
  errorContext (jsq "{~a~:1 ~b~:2}")
    (SyntaxError (jsq "JSON5: invalid character '~' at 1:8"))
  = Some (7%Z, jsq "{~a~:1 ~b~:2}") /\
  List.length (jsq "{~a~:1 ~b~:2}") <= 40.
Proof.
  assert (H : errorContext (jsq "{~a~:1 ~b~:2}")
                (SyntaxError (jsq "JSON5: invalid character '~' at 1:8"))
              = Some (7%Z, jsq "{~a~:1 ~b~:2}")) by (vm_compute; reflexivity).
  split; [exact H |].
  exact (proj1 (@errorContext_snippet _ _ _ _ H)).
Defined.

(** ** Searching *)

Lemma search_from_hit (r : regex) (before s rest : jsstring) (c : caps) :
  match_here r s = Some (rest, c) ->
  search_from r before s =
  Some (MatchResult (rev before)
          (firstn (List.length s - List.length rest) s) rest c).
Proof. intros H. destruct s; cbn [search_from]; rewrite H; reflexivity. Qed.

Lemma search_from_none (r : regex) (s : jsstring) :
  (forall u, Suffix u s -> match_here r u = None) ->
  forall before, search_from r before s = None.
Proof.
  induction s as [|x s IH]; intros H before; cbn [search_from].
  - rewrite (H [] (Suffix_refl [])). reflexivity.
  - rewrite (H (x :: s) (Suffix_refl _)). apply IH.
    intros u Hu. apply H. destruct Hu as [pre ->]. exists (x :: pre). reflexivity.
Qed.

Lemma search_from_skip (r : regex) (pre s : jsstring) :
  (forall y v, Suffix (y :: v) pre -> match_here r ((y :: v) ++ s) = None) ->
  forall before,
    search_from r before (pre ++ s) = search_from r (rev pre ++ before) s.
Proof.
  induction pre as [|x pre IH]; intros H before; [reflexivity |].
  cbn [app search_from].
  pose proof (H x pre (Suffix_refl _)) as H0. cbn [app] in H0.
  rewrite H0, IH.
  - cbn [rev]. rewrite <- app_assoc. reflexivity.
  - intros y v Hv. apply H. destruct Hv as [p ->]. exists (x :: p). reflexivity.
Qed.

(** An expression that starts with a character fails where the text
    starts with another one. *)
Lemma head_miss (p : jschar -> bool) (b : regex) (x : jschar) (s : jsstring) :
  p x = false ->
  match_here (Chr p) (x :: s) = None /\
  match_here (Seq (Chr p) b) (x :: s) = None.
Proof.
  intros H. unfold match_here. cbn [rmatch]. rewrite H. split; reflexivity.
Qed.

Lemma not_In_eqb (c : jschar) (s : jsstring) (x : jschar) :
  ~ In c s -> In x s -> N.eqb c x = false.
Proof.
  intros Hn Hx. apply N.eqb_neq. intros ->. contradiction.
Qed.

(** ** Literals and stars *)

Lemma lit_hit (l : jsstring) :
  forall (A : Type) (s : jsstring) (c : caps) (k : jsstring -> caps -> option A),
    rmatch (Lit l) (l ++ s) c k = k s c.
Proof.
  induction l as [|x l IH]; intros A s c k; [reflexivity |].
  destruct l as [|y l].
  - cbn [Lit app rmatch]. unfold is_char. rewrite N.eqb_refl. reflexivity.
  - change (Lit (x :: y :: l)) with (Seq (Chr (is_char x)) (Lit (y :: l))).
    cbn [rmatch]. change ((x :: y :: l) ++ s) with (x :: (y :: l) ++ s).
    cbv iota beta. unfold is_char at 1. rewrite N.eqb_refl. apply IH.
Qed.

Lemma lit_miss (x : jschar) (l : jsstring) (A : Type) (s : jsstring) (c : caps)
    (k : jsstring -> caps -> option A) :
  match s with y :: _ => N.eqb x y | [] => false end = false ->
  rmatch (Lit (x :: l)) s c k = None.
Proof.
  intros H. destruct l as [|z l].
  - cbn [Lit rmatch]. destruct s as [|y s]; [reflexivity |].
    unfold is_char. rewrite H. reflexivity.
  - change (Lit (x :: z :: l)) with (Seq (Chr (is_char x)) (Lit (z :: l))).
    cbn [rmatch]. destruct s as [|y s]; [reflexivity |].
    unfold is_char at 1. rewrite H. reflexivity.
Qed.

Lemma star_lazy_here (a : regex) (A : Type) (s : jsstring) (c : caps)
    (k : jsstring -> caps -> option A) (r : A) :
  k s c = Some r -> rmatch (Star false a) s c k = Some r.
Proof. intros H. rewrite rmatch_star. cbv zeta. rewrite H. reflexivity. Qed.

Lemma star_lazy_cons (p : jschar -> bool) (A : Type)
    (k : jsstring -> caps -> option A) (c : caps) (x : jschar) (s : jsstring) :
  rmatch (Star false (Chr p)) (x :: s) c k =
  match k (x :: s) c with
  | Some r => Some r
  | None => if p x then rmatch (Star false (Chr p)) s c k else None
  end.
Proof.
  rewrite rmatch_star. cbv zeta.
  match goal with
  | |- context [rmatch (Chr p) (x :: s) c ?K] =>
      change (rmatch (Chr p) (x :: s) c K) with (if p x then K s c else None)
  end.
  destruct (k (x :: s) c); [reflexivity |].
  destruct (p x); [| reflexivity]. cbv beta.
  replace (Nat.ltb (List.length s) (List.length (x :: s)))
    with true by (symmetry; apply Nat.ltb_lt; cbn [List.length]; lia).
  reflexivity.
Qed.

(** A lazy star stops at the first position where what follows it
    matches. *)
Lemma star_lazy_first (p : jschar -> bool) (A : Type)
    (k : jsstring -> caps -> option A) (c : caps) (r : A) (w rest : jsstring) :
  forallb p w = true ->
  (forall y v, Suffix (y :: v) w -> k ((y :: v) ++ rest) c = None) ->
  k rest c = Some r ->
  rmatch (Star false (Chr p)) (w ++ rest) c k = Some r.
Proof.
  induction w as [|x w IH]; intros Hw Hmiss Hk.
  - apply star_lazy_here, Hk.
  - cbn [forallb] in Hw. apply andb_true_iff in Hw as [Hx Hw].
    cbn [app]. rewrite star_lazy_cons.
    change (x :: w ++ rest) with ((x :: w) ++ rest).
    rewrite (Hmiss x w (Suffix_refl _)), Hx. apply IH; [exact Hw | | exact Hk].
    intros y v Hv. apply Hmiss. destruct Hv as [pre ->]. exists (x :: pre).
    reflexivity.
Qed.

(** A greedy star fails where what follows it matches nowhere. *)
Lemma star_greedy_none (p : jschar -> bool) (A : Type)
    (k : jsstring -> caps -> option A) (c : caps) (s : jsstring) :
  (forall u, Suffix u s -> k u c = None) ->
  rmatch (Star true (Chr p)) s c k = None.
Proof.
  induction s as [|x s IH]; intros H.
  - rewrite star_class_nil. apply H, Suffix_refl.
  - rewrite star_class_cons, IH, (H (x :: s) (Suffix_refl _)).
    + destruct (p x); reflexivity.
    + intros u Hu. apply H. destruct Hu as [pre ->]. exists (x :: pre).
      reflexivity.
Qed.

(** A greedy star keeps the match that lies further on. *)
Lemma star_greedy_further (p : jschar -> bool) (A : Type)
    (k : jsstring -> caps -> option A) (c : caps) (r : A) (w rest : jsstring) :
  forallb p w = true ->
  rmatch (Star true (Chr p)) rest c k = Some r ->
  rmatch (Star true (Chr p)) (w ++ rest) c k = Some r.
Proof.
  intros Hw Hr. induction w as [|x w IH]; [exact Hr |].
  cbn [forallb] in Hw. apply andb_true_iff in Hw as [Hx Hw].
  cbn [app]. rewrite star_class_cons, Hx, (IH Hw). reflexivity.
Qed.

Lemma forallb_any (s : jsstring) : forallb any_char s = true.
Proof. induction s; [reflexivity | exact IHs]. Qed.

(** ** The span of the braces *)

Lemma jsonBlock_miss (x : jschar) (s : jsstring) :
  N.eqb lbrace x = false -> match_here Re.jsonBlock (x :: s) = None.
Proof. intros H. apply (@head_miss (is_char lbrace) _ x s H). Qed.

Lemma jsonBlock_needs_rbrace (u : jsstring) :
  ~ In rbrace u -> match_here Re.jsonBlock u = None.
Proof.
  intros Hn. destruct (match_here Re.jsonBlock u) eqn:E; [| reflexivity].
  exfalso. unfold match_here, Re.jsonBlock in E. cbn [Seqs] in E.
  assert (H : rmatch (Seq (C "{") (Seq (Star true (Chr any_char)) (C "}"))) u []
                (fun s' c' => Some (s', c')) <> None) by (rewrite E; discriminate).
  apply seq_chr_inv in H as (y & s' & -> & _ & H).
  change (rmatch (Seq (Star true (Chr any_char)) (C "}")) s' []
            (fun s' c' => Some (s', c')))
    with (rmatch (Star true (Chr any_char)) s' []
            (fun s1 c1 => rmatch (C "}") s1 c1 (fun s' c' => Some (s', c')))) in H.
  apply star_run_inv in H as (w & rest & -> & _ & H).
  apply chr_inv in H as (z & s2 & -> & Hz & _).
  apply N.eqb_eq in Hz. subst z. apply Hn. right. apply in_or_app. right.
  left. reflexivity.
Qed.

Lemma jsonBlock_hit (mid post : jsstring) :
  ~ In rbrace post ->
  match_here Re.jsonBlock (lbrace :: mid ++ rbrace :: post) = Some (post, []).
Proof.
  intros Hn. unfold match_here, Re.jsonBlock. cbn [Seqs].
  change (rmatch (Seq (C "{") (Seq (Star true (Chr any_char)) (C "}")))
            (lbrace :: mid ++ rbrace :: post) [] (fun s' c' => Some (s', c')))
    with (rmatch (Star true (Chr any_char)) (mid ++ rbrace :: post) []
            (fun s1 c1 => rmatch (C "}") s1 c1 (fun s' c' => Some (s', c')))).
  apply star_greedy_further; [apply forallb_any |].
  rewrite star_class_cons. cbn [any_char].
  rewrite star_greedy_none; [reflexivity |].
  intros u Hu. destruct u as [|y u]; [reflexivity |].
  change (C "}") with (Chr (is_char rbrace)). cbn [rmatch]. unfold is_char.
  rewrite (@not_In_eqb rbrace post y Hn); [reflexivity |].
  apply (@Suffix_In _ _ _ Hu).
Qed.

Lemma codeBlock_miss (x : jschar) (s : jsstring) :
  N.eqb backtick x = false -> match_here Re.codeBlock (x :: s) = None.
Proof.
  intros H. unfold match_here, Re.codeBlock. cbn [Seqs].
  change (Lit (js "```"))
    with (Seq (Chr (is_char backtick)) (Lit [backtick; backtick])).
  cbn [rmatch]. unfold is_char at 1. rewrite H. reflexivity.
Qed.

Lemma codeBlock_none (s : jsstring) :
  ~ In backtick s -> forall before, search_from Re.codeBlock before s = None.
Proof.
  intros Hn. apply search_from_none. intros u Hu.
  destruct u as [|x u]; [reflexivity |].
  apply codeBlock_miss, (@not_In_eqb backtick s x Hn), (@Suffix_In _ _ _ Hu).
Qed.



(** X6: without a fence, the candidate is the span from the first
    opening brace to the last closing brace of the response. *)
Theorem locateJson_first_to_last_brace (pre mid post : jsstring) :
  ~ In backtick (pre ++ lbrace :: mid ++ rbrace :: post) ->
  ~ In lbrace pre ->
  ~ In rbrace post ->
  locateJson (pre ++ lbrace :: mid ++ rbrace :: post)
    = Some (lbrace :: mid ++ [rbrace]).
Proof.
  intros Hb Hpre Hpost. unfold locateJson, search.
  rewrite (@codeBlock_none _ Hb).
  rewrite search_from_skip.
  - rewrite (@search_from_hit _ _ _ post [] (@jsonBlock_hit mid post Hpost)).
    cbn [m_text]. f_equal.
    replace (lbrace :: mid ++ rbrace :: post)
      with ((lbrace :: mid ++ [rbrace]) ++ post)
      by (cbn [app]; rewrite <- app_assoc; reflexivity).
    apply firstn_length_app.
  - intros y v Hv. cbn [app]. apply jsonBlock_miss.
    apply (@not_In_eqb lbrace pre y Hpre), (@Suffix_In _ _ _ Hv).
Qed.

Lemma locateJson_first_to_last_brace_witness :
  locateJson (jsq "Here you go: {~items~:[{~name~:~tea~}]} Anything else?")
    = Some (jsq "{~items~:[{~name~:~tea~}]}").
Proof.
  apply (@locateJson_first_to_last_brace (js "Here you go: ")
           (jsq "~items~:[{~name~:~tea~}]") (js " Anything else?"));
    vm_compute; intuition discriminate.
Defined.

(** ** The fenced block *)

Lemma fenceEnd_hit (A : Type) (ws post : jsstring) (c : caps)
    (k : jsstring -> caps -> option A) (r : A) :
  forallb is_space ws = true ->
  k post c = Some r ->
  rmatch fenceEnd (ws ++ fence ++ post) c k = Some r.
Proof.
  intros Hws Hk. unfold fenceEnd. cbn [rmatch].
  change (star_iter _ true _ (List.length (ws ++ fence ++ post))
            (ws ++ fence ++ post) c)
    with (rmatch (Star true (Chr is_space)) (ws ++ fence ++ post) c
            (fun s' c' => rmatch (Lit fence) s' c' k)).
  apply star_run_hit; [exact Hws | reflexivity |].
  rewrite lit_hit. exact Hk.
Qed.

(** The closing fence is not found from inside a text without a
    backtick that ends with a character other than white space. *)
Lemma fenceEnd_miss (A : Type) (v rest : jsstring) (z : jschar) (c : caps)
    (k : jsstring -> caps -> option A) :
  ~ In backtick (v ++ [z]) -> is_space z = false ->
  rmatch fenceEnd ((v ++ [z]) ++ rest) c k = None.
Proof.
  intros Hb Hz. destruct (rmatch fenceEnd ((v ++ [z]) ++ rest) c k) eqn:E;
    [| reflexivity].
  exfalso.
  assert (H : rmatch (Seq Spaces (Lit fence)) ((v ++ [z]) ++ rest) c k <> None)
    by (unfold fenceEnd in E; rewrite E; discriminate).
  apply seq_spaces_inv in H as (w & rest' & E1 & Hw & H).
  change (Lit fence)
    with (Seq (Chr (is_char backtick)) (Lit [backtick; backtick])) in H.
  apply seq_chr_inv in H as (y & s' & -> & Hy & _).
  apply N.eqb_eq in Hy. subst y.
  rewrite forallb_forall in Hw.
  apply app_eq_app in E1 as [l [[E1 E2] | [E1 E2]]].
  - destruct l as [|b l].
    + rewrite app_nil_r in E1. subst w.
      assert (Hs : is_space z = true)
        by (apply Hw, in_or_app; right; left; reflexivity).
      rewrite Hs in Hz. discriminate.
    + cbn [app] in E2. injection E2 as <- _. apply Hb. rewrite E1.
      apply in_or_app. right. left. reflexivity.
  - assert (Hs : is_space z = true).
    { apply Hw. rewrite E1. apply in_or_app. left. apply in_or_app. right.
      left. reflexivity. }
    rewrite Hs in Hz. discriminate.
Qed.

Lemma Suffix_snoc (y : jschar) (v a : jsstring) (z : jschar) :
  Suffix (y :: v) (a ++ [z]) -> exists v', y :: v = v' ++ [z] /\ Suffix v' a.
Proof.
  intros H. apply Suffix_app_inv in H as [H | (x & u & Hu & E)].
  - apply Suffix_cons_inv in H as [H | H].
    + exists []. split; [exact H | exists a; rewrite app_nil_r; reflexivity].
    + apply Suffix_nil_inv in H. discriminate H.
  - exists (x :: u). split; [exact E | exact Hu].
Qed.

(** The optional [json] after the opening fence *)
Lemma opt_json_hit (A : Type) (tag s : jsstring) (c : caps)
    (k : jsstring -> caps -> option A) (r : A) :
  tag = [] \/ tag = js "json" ->
  match s with y :: _ => N.eqb (ch "j") y | [] => false end = false ->
  k s c = Some r ->
  rmatch (Opt (Lit (js "json"))) (tag ++ s) c k = Some r.
Proof.
  intros [-> | ->] Hs Hk; unfold Opt.
  - cbn [app]. change (js "json") with (ch "j" :: js "son").
    change (rmatch (Alt (Lit (ch "j" :: js "son")) Eps) s c k)
      with (match rmatch (Lit (ch "j" :: js "son")) s c k with
            | Some x => Some x
            | None => k s c
            end).
    rewrite (@lit_miss (ch "j") (js "son") A s c k Hs). exact Hk.
  - change (rmatch (Alt (Lit (js "json")) Eps) (js "json" ++ s) c k)
      with (match rmatch (Lit (js "json")) (js "json" ++ s) c k with
            | Some x => Some x
            | None => k (js "json" ++ s) c
            end).
    rewrite lit_hit, Hk. reflexivity.
Qed.

Lemma codeBlock_hit (tag ws1 mid ws2 post : jsstring) :
  tag = [] \/ tag = js "json" ->
  forallb is_space ws1 = true -> forallb is_space ws2 = true ->
  ~ In backtick mid ->
  match_here Re.codeBlock
    (fence ++ tag ++ ws1 ++ (lbrace :: mid ++ [rbrace]) ++ ws2 ++ fence ++ post)
  = Some (post, [(1, lbrace :: mid ++ [rbrace])]).
Proof.
  intros Htag H1 H2 Hb. unfold match_here, Re.codeBlock. cbn [Seqs].
  set (body := lbrace :: mid ++ [rbrace]).
  set (k0 := fun (s' : jsstring) (c' : caps) => Some (s', c')).
  change (rmatch (Seq (Lit (js "```")) ?R) ?s [] k0)
    with (rmatch (Lit fence) s [] (fun s1 c1 => rmatch R s1 c1 k0)).
  rewrite lit_hit.
  match goal with
  | |- rmatch (Seq (Opt ?J) ?R) ?s [] k0 = _ =>
      change (rmatch (Seq (Opt J) R) s [] k0)
        with (rmatch (Opt J) s [] (fun s1 c1 => rmatch R s1 c1 k0))
  end.
  apply opt_json_hit; [exact Htag | |].
  { destruct ws1 as [|w ws1]; [reflexivity |].
    cbn [forallb] in H1. apply andb_true_iff in H1 as [Hw _].
    cbn [app]. destruct (N.eqb_spec (ch "j") w) as [<- |]; [discriminate Hw | reflexivity]. }
  match goal with
  | |- rmatch (Seq Spaces ?R) ?s [] k0 = _ =>
      change (rmatch (Seq Spaces R) s [] k0)
        with (rmatch (Star true (Chr is_space)) s []
                (fun s1 c1 => rmatch R s1 c1 k0))
  end.
  apply star_run_hit; [exact H1 | reflexivity |].
  match goal with
  | |- rmatch (Seq (Group 1 ?L) ?R) ?s [] k0 = _ =>
      change (rmatch (Seq (Group 1 L) R) s [] k0)
        with (rmatch L s []
                (fun s' c' =>
                   rmatch fenceEnd s'
                     ((1, firstn (List.length s - List.length s') s) :: c') k0))
  end.
  apply star_lazy_first; [apply forallb_any | |].
  - intros y v Hv. unfold body in Hv.
    change (lbrace :: mid ++ [rbrace]) with ((lbrace :: mid) ++ [rbrace]) in Hv.
    apply Suffix_snoc in Hv as (v' & -> & Hv').
    apply fenceEnd_miss; [| reflexivity].
    intros Hin. apply in_app_or in Hin as [Hin | [Hin | []]].
    + destruct Hv' as [pre E].
      assert (Hm : In backtick (lbrace :: mid))
        by (rewrite E; apply in_or_app; right; exact Hin).
      destruct Hm as [Hm | Hm]; [discriminate Hm | contradiction].
    + discriminate Hin.
  - rewrite firstn_length_app.
    apply fenceEnd_hit; [exact H2 | reflexivity].
Qed.

(** The candidate inside code fences *)
Lemma locateJson_fenced (pre tag ws1 mid ws2 post : jsstring) :
  ~ In backtick pre ->
  tag = [] \/ tag = js "json" ->
  forallb is_space ws1 = true -> forallb is_space ws2 = true ->
  ~ In backtick mid ->
  locateJson
    (pre ++ fence ++ tag ++ ws1 ++ (lbrace :: mid ++ [rbrace]) ++ ws2
         ++ fence ++ post)
  = Some (lbrace :: mid ++ [rbrace]).
Proof.
  intros Hpre Htag H1 H2 Hb. unfold locateJson, search.
  rewrite search_from_skip.
  - rewrite (@search_from_hit _ _ _ post _
               (@codeBlock_hit tag ws1 mid ws2 post Htag H1 H2 Hb)).
    reflexivity.
  - intros y v Hv. cbn [app]. apply codeBlock_miss.
    apply (@not_In_eqb backtick pre y Hpre), (@Suffix_In _ _ _ Hv).
Qed.

(** X7: an object between code fences, with or without the tag [json],
    is the candidate, without the white space around it, whatever
    comes before the block (braces included, but no backtick) and
    whatever comes after it. *)
Theorem locateJson_fenced_block (pre tag ws1 mid ws2 post : jsstring) :
  ~ In backtick pre ->
  tag = [] \/ tag = js "json" ->
  forallb is_space ws1 = true -> forallb is_space ws2 = true ->
  ~ In backtick mid ->
  locateJson
    (pre ++ fence ++ tag ++ ws1 ++ (lbrace :: mid ++ [rbrace]) ++ ws2
         ++ fence ++ post)
  = Some (lbrace :: mid ++ [rbrace]).
Proof. apply locateJson_fenced. Qed.

Lemma locateJson_fenced_block_witness :
  locateJson
    (js "Here is {the} data:" ++ [newline] ++ js "```json" ++ [newline]
       ++ jsq "{~totalAmount~:16.05}" ++ [newline] ++ js "```" ++ js " Done.")
  = Some (jsq "{~totalAmount~:16.05}").
Proof.
  apply (@locateJson_fenced_block (js "Here is {the} data:" ++ [newline])
           (js "json") [newline] (jsq "~totalAmount~:16.05") [newline]
           (js " Done."));
    vm_compute; intuition discriminate.
Defined.

(** ** More on the sanitizer *)

Section ScanAll.
Variable P : jschar -> Prop.
Variable r : regex.
Variable t : template.
Hypothesis expand_P : forall c, Forall P (expand t c).

Lemma scan_Forall (s : jsstring) :
  Forall P s ->
  forall skip,
    Forall P (scan r (fun x out => x :: out)
                (fun (_ : jsstring) c out => expand t c ++ out) [] skip s).
Proof.
  induction s as [|x s IH]; intros Hs skip.
  - destruct skip; cbn [scan]; [| constructor].
    destruct (match_here r []) as [[rest c] |]; [| constructor].
    cbv zeta. cbn [List.length Nat.sub]. rewrite app_nil_r. apply expand_P.
  - inversion Hs as [| ? ? Hx Hs']; subst.
    destruct skip as [|n]; cbn [scan]; [| apply IH, Hs'].
    destruct (match_here r (x :: s)) as [[rest c] |].
    + cbv zeta. destruct (List.length (x :: s) - List.length rest).
      * apply Forall_app. split; [apply expand_P |].
        constructor; [exact Hx | apply IH, Hs'].
      * apply Forall_app. split; [apply expand_P | apply IH, Hs'].
    + constructor; [exact Hx | apply IH, Hs'].
Qed.

Lemma replace_all_Forall (s : jsstring) :
  Forall P s -> Forall P (replace_all r t s).
Proof. intros H. apply scan_Forall, H. Qed.
End ScanAll.

Lemma replace_all_class_lit (p : jschar -> bool) (l s : jsstring) :
  replace_all (Chr p) [TLit l] s = flat_map (fun x => if p x then l else [x]) s.
Proof.
  unfold replace_all. induction s as [|x s IH]; [reflexivity |].
  cbn [flat_map]. destruct (p x) eqn:E.
  - rewrite scan_hit with (rest := s) (c := []) (n := 0).
    + rewrite IH. cbn [expand flat_map]. rewrite app_nil_r. reflexivity.
    + unfold match_here. cbn [rmatch]. rewrite E. reflexivity.
    + cbn [List.length]. lia.
  - rewrite scan_miss.
    + rewrite IH. reflexivity.
    + unfold match_here. cbn [rmatch]. rewrite E. reflexivity.
Qed.

Lemma quoteLoop_Forall2 (s : jsstring) :
  forall inString inEscape,
    Forall2 keptOrBlanked s (quoteLoop inString inEscape s).
Proof.
  induction s as [|x s IH]; intros inString inEscape; [constructor |].
  destruct (quoteLoop_cons inString inEscape x s)
    as (c' & i' & e' & -> & Hc).
  constructor; [| apply IH].
  destruct Hc as [-> | [-> ->]]; [left; reflexivity | right; split; reflexivity].
Qed.

Lemma nestedQuotes_Forall2 (s : jsstring) :
  Forall2 keptOrBlanked s (nestedQuotes s).
Proof.
  unfold nestedQuotes. pose proof (quoteLoop_Forall2 s false false) as H.
  destruct (quoteLoop false false s) eqn:E; [| exact H].
  inversion H. constructor.
Qed.

(** X11: step 6 keeps the length of the text and changes nothing but
    single quotes, which it may turn into spaces; in particular it
    leaves a text without single quotes as it is, unescaped double
    quotes inside strings included. *)
Theorem nestedQuotes_only_blanks_single_quotes (cleaned : jsstring) :
  Forall2 keptOrBlanked cleaned (nestedQuotes cleaned) /\
  List.length (nestedQuotes cleaned) = List.length cleaned /\
  (~ In sq cleaned -> nestedQuotes cleaned = cleaned).
Proof.
  pose proof (nestedQuotes_Forall2 cleaned) as H.
  split; [exact H |]. split.
  - symmetry. apply (Forall2_length H).
  - intros Hn. induction H as [| x y l l' Hxy H IH]; [reflexivity |].
    destruct Hxy as [-> | [-> _]].
    + f_equal. apply IH. intros Hin. apply Hn. right. exact Hin.
    + exfalso. apply Hn. left. reflexivity.
Qed.

Lemma nestedQuotes_only_blanks_single_quotes_witness :
  ~ In sq (jsq "{~note~: ~5~ nails~}") /\
  nestedQuotes (jsq "{~note~: ~5~ nails~}") = jsq "{~note~: ~5~ nails~}".
Proof.
  assert (Hn : ~ In sq (jsq "{~note~: ~5~ nails~}"))
    by (vm_compute; intuition discriminate).
  split; [exact Hn |].
  apply (nestedQuotes_only_blanks_single_quotes (jsq "{~note~: ~5~ nails~}")).
  exact Hn.
Defined.

Lemma Forall2_Forall (P : jschar -> Prop) (s s' : jsstring) :
  P space -> Forall2 keptOrBlanked s s' -> Forall P s -> Forall P s'.
Proof.
  intros Hsp H. induction H as [| x y l l' Hxy H IH]; intros Hs; [constructor |].
  inversion Hs as [| ? ? Hx Hl]; subst. constructor; [| apply IH, Hl].
  destruct Hxy as [-> | [_ ->]]; assumption.
Qed.

Lemma ensureObject_Forall (P : jschar -> Prop) (s : jsstring) :
  P lbrace -> P rbrace -> Forall P s -> Forall P (ensureObject s).
Proof.
  intros Hl Hr Hs. unfold ensureObject.
  destruct (negb (startsWith s [lbrace]));
    match goal with
    | |- context [negb (endsWith ?u [rbrace])] =>
        destruct (negb (endsWith u [rbrace]))
    end;
    repeat first [ assumption | apply Forall_app; split | constructor ].
Qed.

Lemma fixSyntax_no_newline (s : jsstring) :
  Forall (fun x => x <> newline) (fixSyntax s).
Proof.
  unfold fixSyntax, syntaxFixes. cbn [fold_left fst snd].
  unfold Re.lineBreak. rewrite replace_all_class_lit.
  apply Forall_flat_map, Forall_forall. intros x _.
  unfold is_char. destruct (N.eqb_spec newline x) as [<- | Hx].
  - repeat constructor. discriminate.
  - repeat constructor. congruence.
Qed.

Lemma sanitizeSteps_no_newline (s : jsstring) :
  Forall (fun x => x <> newline) (sanitizeSteps s).
Proof.
  unfold sanitizeSteps. cbv zeta.
  apply Forall2_Forall with (2 := nestedQuotes_Forall2 _); [discriminate |].
  apply replace_all_Forall.
  - intros c. repeat constructor; discriminate.
  - apply ensureObject_Forall; [discriminate | discriminate |].
    apply fixSyntax_no_newline.
Qed.

(** X8: the text that [sanitizeJsonString] returns holds no line
    feed. *)
Theorem sanitizeJsonString_no_line_feed (jsonStr : value) (s : jsstring) :
  sanitizeJsonString jsonStr = Ret s -> ~ In newline s.
Proof.
  unfold sanitizeJsonString. intros H Hin.
  assert (F : Forall (fun x => x <> newline) fallbackJson).
  { apply Forall_forall. intros x Hx ->.
    assert (G : forallb (fun c => negb (N.eqb c newline)) fallbackJson = true)
      by (vm_compute; reflexivity).
    pose proof (proj1 (forallb_forall _ _) G newline Hx) as E.
    cbv in E. discriminate E. }
  assert (Hs : Forall (fun x => x <> newline) s).
  { destruct jsonStr; cbn [sanitizeBody] in H; injection H as <-;
      try exact F.
    apply sanitizeSteps_no_newline. }
  rewrite Forall_forall in Hs. exact (Hs newline Hin eq_refl).
Qed.

Lemma sanitizeJsonString_no_line_feed_witness :
  sanitizeJsonString
    (VStr (jsq "{~vendorName~:~Cafe~," ++ [newline] ++ jsq "~totalAmount~:3}"))
    = Ret (jsq "{~vendorName~:~Cafe~, ~totalAmount~:3}") /\
  ~ In newline (jsq "{~vendorName~:~Cafe~, ~totalAmount~:3}").
Proof.
  assert (H : sanitizeJsonString
    (VStr (jsq "{~vendorName~:~Cafe~," ++ [newline] ++ jsq "~totalAmount~:3}"))
    = Ret (jsq "{~vendorName~:~Cafe~, ~totalAmount~:3}"))
    by (vm_compute; reflexivity).
  split; [exact H |].
  exact (@sanitizeJsonString_no_line_feed _ _ H).
Defined.

Lemma trimStart_blank (s : jsstring) :
  forallb is_space s = true -> trimStart s = [].
Proof.
  induction s as [|x s IH]; [reflexivity |]. cbn [forallb trimStart].
  intros H. apply andb_true_iff in H as [-> H]. apply IH, H.
Qed.

(** X9: a text of white space only, the empty text included, is
    sanitized to the empty object. *)
Theorem sanitizeJsonString_blank (s : jsstring) :
  forallb is_space s = true ->
  sanitizeJsonString (VStr s) = Ret (js "{}").
Proof.
  intros H. unfold sanitizeJsonString, sanitizeBody.
  cbn [stringReceiver bind try_catch]. f_equal.
  unfold sanitizeSteps. cbv zeta. unfold trim.
  rewrite (@trimStart_blank s H). vm_compute. reflexivity.
Qed.

Lemma sanitizeJsonString_blank_witness :
  sanitizeJsonString (VStr (js "  " ++ [newline])) = Ret (js "{}").
Proof.
  apply (@sanitizeJsonString_blank (js "  " ++ [newline])).
  vm_compute. reflexivity.
Defined.

Lemma validEscape_here (x : jschar) (s : jsstring) :
  match_here Re.validEscape (x :: s) =
  if N.eqb backslash x then
    match s with
    | y :: s' => if one_of (dq :: js "\/bfnrt") y then Some (s', []) else None
    | [] => None
    end
  else None.
Proof. reflexivity. Qed.

Lemma noValidEscape_matches (s : jsstring) :
  noValidEscape s = true ->
  forall u, Suffix u s -> match_here Re.validEscape u = None.
Proof.
  induction s as [|x s IH]; intros H u Hu.
  - apply Suffix_nil_inv in Hu. subst u. reflexivity.
  - cbn [noValidEscape] in H. apply andb_true_iff in H as [Hx H].
    apply Suffix_cons_inv in Hu as [-> | Hu]; [| apply IH; assumption].
    rewrite validEscape_here. rewrite N.eqb_sym.
    destruct (N.eqb x backslash); [| reflexivity].
    destruct s as [|y s]; [reflexivity |].
    cbn [andb] in Hx. apply negb_true_iff in Hx. rewrite Hx. reflexivity.
Qed.

(** X10: where no backslash is followed by one of [~ \ / b f n r t],
    step 3 deletes every backslash, that of a [\u] escape included,
    and nothing else. *)
Theorem fixEscapes_deletes_lone_backslashes (cleaned : jsstring) :
  noValidEscape cleaned = true ->
  fixEscapes cleaned = filter (fun c => negb (N.eqb c backslash)) cleaned.
Proof.
  intros H. unfold fixEscapes.
  rewrite (@match_all_nomatch _ _ (@noValidEscape_matches cleaned H)).
  cbn [storeEscapes restoreEscapes]. unfold Re.anyBackslash, C.
  rewrite replace_all_class_empty. apply filter_ext.
  intros c. unfold is_char. rewrite N.eqb_sym. reflexivity.
Qed.

Lemma fixEscapes_deletes_lone_backslashes_witness :
  fixEscapes (jsq "{~path~:~C:\Users\u00e9~}") = jsq "{~path~:~C:Usersu00e9~}".
Proof.
  rewrite (@fixEscapes_deletes_lone_backslashes (jsq "{~path~:~C:\Users\u00e9~}"));
    vm_compute; reflexivity.
Defined.

(** ** More on [validateAndCleanData] *)

(** X12: whatever is not an object with properties of its own, arrays
    included, is normalised to the record of defaults. *)
Theorem validateAndCleanData_of_non_object (nowISO : jsstring) (data : value) :
  (forall props, data <> VObj props) ->
  validateAndCleanData nowISO data = Ret (defaultData nowISO).
Proof.
  intros H. destruct data as [| | b | n | s | l | props];
    try reflexivity.
  - destruct b; reflexivity.
  - destruct n as [| neg | neg m e]; try reflexivity.
    unfold validateAndCleanData. cbn [truthy isObjectType negb orb].
    rewrite orb_true_r. reflexivity.
  - destruct s; reflexivity.
  - exfalso. apply (H props). reflexivity.
Qed.

Lemma validateAndCleanData_of_non_object_witness :
  validateAndCleanData (js "2025-05-18T10:30:00.000Z")
    (VArr [receiptItem (VStr (js "tea")) (VNum (Fin false 2 0))
                       (VNum (Fin false 3 0))])
  = Ret (defaultData (js "2025-05-18T10:30:00.000Z")).
Proof.
  apply (@validateAndCleanData_of_non_object (js "2025-05-18T10:30:00.000Z")).
  intros props. discriminate.
Defined.

Lemma cleanItem_bad (item : value) :
  if badItem item
  then exists m, cleanItem item = Throw (TypeError m)
  else exists out, cleanItem item = Ret out.
Proof.
  unfold badItem.
  destruct item as [| | b | n | s | l | props];
    try (cbn; eexists; reflexivity).
  cbn [isNullish rawField orb]. rewrite cleanItem_object.
  pose proof (coerceNumber_unprintable (lookup props (js "quantity")) "1") as Hq.
  pose proof (coerceNumber_unprintable (lookup props (js "price")) "0") as Hp.
  destruct (unprintable (lookup props (js "quantity"))); cbn [orb].
  - rewrite Hq. eexists. reflexivity.
  - destruct Hq as [q ->]. cbn [bind].
    destruct (unprintable (lookup props (js "price"))).
    + rewrite Hp. eexists. reflexivity.
    + destruct Hp as [pr ->]. eexists. reflexivity.
Qed.

Lemma mapM_cleanItem_bad (l : list value) :
  if existsb badItem l
  then exists m, mapM cleanItem l = Throw (TypeError m)
  else exists l', mapM cleanItem l = Ret l' /\ List.length l' = List.length l.
Proof.
  induction l as [|x l IH]; [exists []; split; reflexivity |].
  cbn [existsb mapM]. pose proof (cleanItem_bad x) as Hx.
  destruct (badItem x); cbn [orb].
  - destruct Hx as [m ->]. exists m. reflexivity.
  - destruct Hx as [out ->]. cbn [bind].
    destruct (existsb badItem l).
    + destruct IH as [m ->]. exists m. reflexivity.
    + destruct IH as (l' & -> & Hl). exists (out :: l'). cbn [bind List.length].
      split; [reflexivity | rewrite Hl; reflexivity].
Qed.

(** X13: on an object whose [items] is an array, [validateAndCleanData]
    throws, a [TypeError], exactly when [String] cannot convert the
    total, or an element of the array is [null] or [undefined], or
    [String] cannot convert the quantity or the price of an element;
    otherwise it returns as many items as it was given.  A strict parse
    that makes it throw makes the strict strategy fail. *)
Theorem validateAndCleanData_throws_on_bad_item
    (nowISO : jsstring) (props : list (jsstring * value)) (l : list value) :
  lookup props (js "items") = VArr l ->
  (if unprintable (lookup props (js "totalAmount")) || existsb badItem l
   then exists m, validateAndCleanData nowISO (VObj props) = Throw (TypeError m)
   else exists v d t l',
          validateAndCleanData nowISO (VObj props)
            = Ret (receipt v d t (VArr l')) /\
          List.length l' = List.length l) /\
  (forall JSON_parse sanitized,
     JSON_parse sanitized = Ret (VObj props) ->
     unprintable (lookup props (js "totalAmount")) || existsb badItem l = true ->
     strictStrategy nowISO JSON_parse sanitized = None).
Proof.
  intros Hitems.
  assert (H : if unprintable (lookup props (js "totalAmount")) ||
                 existsb badItem l
              then exists m, validateAndCleanData nowISO (VObj props)
                             = Throw (TypeError m)
              else exists v d t l',
                     validateAndCleanData nowISO (VObj props)
                       = Ret (receipt v d t (VArr l')) /\
                     List.length l' = List.length l).
  { unfold validateAndCleanData. cbn [truthy isObjectType negb orb get bind].
    rewrite Hitems.
    pose proof (coerceNumber_unprintable (lookup props (js "totalAmount")) "0")
      as Ht.
    destruct (unprintable (lookup props (js "totalAmount"))); cbn [orb].
    - rewrite Ht. eexists. reflexivity.
    - destruct Ht as [t ->]. cbn [bind].
      pose proof (mapM_cleanItem_bad l) as Hl.
      destruct (existsb badItem l).
      + destruct Hl as [m ->]. exists m. reflexivity.
      + destruct Hl as (l' & -> & Hlen). cbn [bind].
        do 4 eexists. split; [reflexivity | exact Hlen]. }
  split; [exact H |].
  intros JSON_parse sanitized Hp Hn. rewrite Hn in H. destruct H as [m He].
  unfold strictStrategy. rewrite Hp. cbn [bind]. rewrite He. reflexivity.
Qed.

Lemma validateAndCleanData_throws_on_bad_item_witness :
  lookup [(js "items", VArr [VObj [(js "quantity", VObj [(js "toString", VNum (Fin false 1 0))])]])]
    (js "items")
    = VArr [VObj [(js "quantity", VObj [(js "toString", VNum (Fin false 1 0))])]] /\
  Json.parse (jsq "{~items~:[{~quantity~:{~toString~:1}}]}")
    = Ret (VObj [(js "items", VArr [VObj [(js "quantity", VObj [(js "toString", VNum (Fin false 1 0))])]])]) /\
  strictStrategy (js "2025-05-18T10:30:00.000Z") Json.parse
    (jsq "{~items~:[{~quantity~:{~toString~:1}}]}") = None.
Proof.
  split; [reflexivity |]. split; [vm_compute; reflexivity |].
  apply (@validateAndCleanData_throws_on_bad_item
           (js "2025-05-18T10:30:00.000Z")
           [(js "items", VArr [VObj [(js "quantity", VObj [(js "toString", VNum (Fin false 1 0))])]])]
           [VObj [(js "quantity", VObj [(js "toString", VNum (Fin false 1 0))])]]);
    vm_compute; reflexivity.
Defined.

(** ** What a successful match hands on *)

(** A match that succeeds has called what follows it, on a text that is
    left of the input. *)
Lemma rmatch_cont (r : regex) :
  forall (A : Type) (s : jsstring) (c : caps)
         (k : jsstring -> caps -> option A) (x : A),
    rmatch r s c k = Some x ->
    exists s' c', Suffix s' s /\ k s' c' = Some x.
Proof.
  induction r as [|p|a IHa b IHb|a IHa b IHb|g a IHa|i a IHa|a IHa];
    intros A s c k x H.
  - exists s, c. split; [apply Suffix_refl | exact H].
  - cbn [rmatch] in H. destruct s as [|y s]; [discriminate |].
    destruct (p y); [| discriminate].
    exists s, c. split; [exists [y]; reflexivity | exact H].
  - cbn [rmatch] in H. apply IHa in H as (s1 & c1 & Hs1 & H).
    apply IHb in H as (s2 & c2 & Hs2 & H).
    exists s2, c2. split; [exact (Suffix_trans Hs2 Hs1) | exact H].
  - cbn [rmatch] in H. destruct (rmatch a s c k) eqn:E.
    + injection H as <-. apply IHa in E. exact E.
    + apply IHb in H. exact H.
  - cbn [rmatch] in H. revert H. generalize (List.length s) at 1. intros n.
    revert s c. induction n as [|n IH]; intros s c H; cbn [star_iter] in H.
    + exists s, c. split; [apply Suffix_refl |].
      destruct g; [exact H |]. destruct (k s c); [exact H | discriminate].
    + match type of H with
      | context [rmatch a s c ?K] => destruct (rmatch a s c K) eqn:E
      end.
      * apply IHa in E as (s1 & c1 & Hs1 & E).
        destruct (Nat.ltb (List.length s1) (List.length s)); [| discriminate].
        assert (Hx : a0 = x \/ k s c = Some x).
        { destruct g; [left; congruence |].
          destruct (k s c) eqn:Ek; [right; exact H | left; congruence]. }
        destruct Hx as [-> | Hx].
        -- apply IH in E as (s2 & c2 & Hs2 & E).
           exists s2, c2. split; [exact (Suffix_trans Hs2 Hs1) | exact E].
        -- exists s, c. split; [apply Suffix_refl | exact Hx].
      * exists s, c. split; [apply Suffix_refl |].
        destruct g; [exact H |]. destruct (k s c); [exact H | discriminate].
  - cbn [rmatch] in H. apply IHa in H as (s1 & c1 & Hs1 & H).
    exists s1, ((i, firstn (List.length s - List.length s1) s) :: c1).
    split; [exact Hs1 | exact H].
  - cbn [rmatch] in H.
    destruct (rmatch a s c (fun _ c' => Some c')) as [c' |]; [| discriminate].
    exists s, c'. split; [apply Suffix_refl | exact H].
Qed.

Lemma star_run_some (p : jschar -> bool) (A : Type)
    (k : jsstring -> caps -> option A) (c : caps) (x : A) (s : jsstring) :
  rmatch (Star true (Chr p)) s c k = Some x ->
  exists w rest, s = w ++ rest /\ forallb p w = true /\ k rest c = Some x.
Proof.
  induction s as [|y s IH].
  - intros H. exists [], []. auto.
  - rewrite star_class_cons. destruct (p y) eqn:Hy.
    + destruct (rmatch (Star true (Chr p)) s c k) eqn:E.
      * intros [= <-]. destruct IH as (w & rest & -> & Hw & Hk); [reflexivity |].
        exists (y :: w), rest. cbn [forallb]. rewrite Hy. auto.
      * intros H. exists [], (y :: s). auto.
    + intros H. exists [], (y :: s). auto.
Qed.

(** A group over one or more characters of a class captures a run of
    such characters that is not empty. *)
Lemma group_plus_some (i : nat) (p : jschar -> bool) (A : Type)
    (k : jsstring -> caps -> option A) (c : caps) (x : A) (s : jsstring) :
  rmatch (Group i (Plus (Chr p))) s c k = Some x ->
  exists y w rest,
    s = (y :: w) ++ rest /\ forallb p (y :: w) = true /\
    k rest ((i, y :: w) :: c) = Some x.
Proof.
  intros H. unfold Plus in H.
  change (rmatch (Group i (Seq (Chr p) (Star true (Chr p)))) s c k)
    with (rmatch (Chr p) s c (fun s1 c1 =>
            rmatch (Star true (Chr p)) s1 c1 (fun s' c' =>
              k s' ((i, firstn (List.length s - List.length s') s) :: c'))))
    in H.
  cbn [rmatch] in H. destruct s as [|y s]; [discriminate |].
  destruct (p y) eqn:Hy; [| discriminate].
  change (star_iter _ true _ (List.length s) s c)
    with (rmatch (Star true (Chr p)) s c (fun s' c' =>
            k s' ((i, firstn (List.length (y :: s) - List.length s') (y :: s))
                    :: c'))) in H.
  apply star_run_some in H as (w & rest & -> & Hw & H).
  exists y, w, rest. cbn [forallb]. rewrite Hy, Hw.
  split; [reflexivity |]. split; [reflexivity |].
  change (y :: w ++ rest) with ((y :: w) ++ rest) in H.
  rewrite firstn_length_app in H. exact H.
Qed.

Lemma search_from_some (r : regex) (s : jsstring) :
  forall before m,
    search_from r before s = Some m ->
    exists u, Suffix u s /\ match_here r u = Some (m_after m, m_caps m).
Proof.
  induction s as [|x s IH]; intros before m H; cbn [search_from] in H.
  - destruct (match_here r []) as [[rest c] |] eqn:E; [| discriminate].
    injection H as <-. exists []. split; [apply Suffix_refl | exact E].
  - destruct (match_here r (x :: s)) as [[rest c] |] eqn:E.
    + injection H as <-. exists (x :: s). split; [apply Suffix_refl | exact E].
    + apply IH in H as (u & Hu & H). exists u. split; [| exact H].
      destruct Hu as [pre ->]. exists (x :: pre). reflexivity.
Qed.

(** ** Numbers read by the expressions of the fallback *)

Lemma numberField_capture (key : string) (u rest : jsstring) (c : caps) :
  match_here (Re.numberField key) u = Some (rest, c) ->
  exists y w, cap c 1 = Some (y :: w) /\ forallb digitOrDot (y :: w) = true.
Proof.
  unfold match_here, Re.numberField. cbn [Seqs]. intros H.
  repeat match type of H with
         | rmatch (Seq ?a ?b) ?s ?c0 ?k = Some _ =>
             change (rmatch (Seq a b) s c0 k)
               with (rmatch a s c0 (fun s1 c1 => rmatch b s1 c1 k)) in H;
             apply rmatch_cont in H as (? & ? & _ & H)
         end.
  apply group_plus_some in H as (y & w & rest' & _ & Hw & H).
  injection H as _ <-. exists y, w. split; [reflexivity | exact Hw].
Qed.

Lemma parseFloat_unsigned (y : jschar) (w : jsstring) :
  digitOrDot y = true ->
  nanOrNonNegative (VNum (parseFloat (y :: w))) = true.
Proof.
  intros Hy. unfold parseFloat.
  assert (Hsp : is_space y = false) by (unfold digitOrDot in Hy; class_lia).
  rewrite (@trimStart_head y w Hsp). unfold read_sign.
  replace (N.eqb y (ch "-")) with false
    by (symmetry; unfold digitOrDot in Hy; class_lia).
  replace (N.eqb y (ch "+")) with false
    by (symmetry; unfold digitOrDot in Hy; class_lia).
  replace (startsWith (y :: w) (js "Infinity")) with false.
  2: { symmetry. unfold startsWith. cbn [js List.map list_ascii_of_string strip_prefix].
       replace (N.eqb (N_of_ascii "I") y) with false
         by (symmetry; unfold digitOrDot in Hy; class_lia).
       reflexivity. }
  destruct (span is_digit (y :: w)) as [int s1].
  match goal with
  | |- context [let (frac, s2) := ?X in _] => destruct X as [frac s2]
  end.
  destruct (int ++ frac); [reflexivity |].
  unfold mk_number. cbv zeta.
  repeat match goal with
         | |- context [if ?b then _ else _] => destruct b
         end; reflexivity.
Qed.

Lemma numberField_value (key : string) (text : jsstring) (dflt : value) :
  nanOrNonNegative dflt = true ->
  nanOrNonNegative
    (group1Or (search (Re.numberField key) text)
              (fun s => VNum (parseFloat s)) dflt) = true.
Proof.
  intros Hd. unfold group1Or.
  destruct (search (Re.numberField key) text) as [m |] eqn:E; [| exact Hd].
  apply search_from_some in E as (u & _ & E).
  apply numberField_capture in E as (y & w & Hc & Hw).
  cbn [m_group]. rewrite Hc.
  cbn [forallb] in Hw. apply andb_true_iff in Hw as [Hy _].
  apply parseFloat_unsigned, Hy.
Qed.

(** X14: a number that the fallback reads with an expression (the
    total, and the quantity and price of an item that no parser
    accepts) is [NaN] or a number that is not negative: the expressions
    see digits and dots only, so a sign is lost.  The number need not be
    finite: a run of 310 nines is read as the positive infinity. *)
Theorem regex_numbers_are_nan_or_non_negative
    (nowISO : jsstring) (JSON_parse JSON5_parse : jsstring -> outcome value)
    (text : jsstring) :
  (exists v d t i,
     extractDataWithRegex JSON_parse JSON5_parse text (defaultData nowISO)
       = Ret (receipt v d t i) /\
     nanOrNonNegative t = true) /\
  (exists name quantity price,
     itemFromFields text = receiptItem name quantity price /\
     nanOrNonNegative quantity = true /\ nanOrNonNegative price = true) /\
  itemFromFields (jsq "{~price~: " ++ repeat (ch "9") 310 ++ js "}") =
  receiptItem (VStr (js "Unknown Item")) (VNum (Fin false 1 0))
              (VNum (Inf false)).
Proof.
  split; [| split; [| vm_compute; reflexivity]].
  - unfold extractDataWithRegex. cbv zeta.
    change (get (defaultData nowISO) (js "vendorName"))
      with (Ret (VStr (js "Unknown Vendor"))).
    change (get (defaultData nowISO) (js "transactionDate"))
      with (Ret (VStr nowISO)).
    change (get (defaultData nowISO) (js "totalAmount"))
      with (Ret (VNum (Fin false 0 0))).
    cbn [bind].
    match goal with
    | |- context [bind ?X _] => assert (H : exists l, X = Ret l)
    end.
    { destruct (search Re.items text) as [m|]; [| eexists; reflexivity].
      destruct (m_group m 1) as [[|c body]|]; try (eexists; reflexivity).
      apply mapM_returns, parseItem_returns. }
    destruct H as [l ->]. cbn [bind]. do 4 eexists. split; [reflexivity |].
    apply numberField_value. reflexivity.
  - unfold itemFromFields. cbv zeta. do 3 eexists. split; [reflexivity |].
    split; apply numberField_value; reflexivity.
Qed.

(** ** More on [parseDate] *)

Lemma chr_some (p : jschar -> bool) (A : Type) (s : jsstring) (c : caps)
    (k : jsstring -> caps -> option A) (x : A) :
  rmatch (Chr p) s c k = Some x ->
  exists y s', s = y :: s' /\ p y = true /\ k s' c = Some x.
Proof.
  cbn [rmatch]. destruct s as [|y s]; [discriminate |].
  destruct (p y) eqn:E; [| discriminate]. intros H. exists y, s. auto.
Qed.

(** Each of the three expressions asks for its separator after the
    first group. *)
Lemma date_needs_separator (sep : jschar) (R : regex) (u : jsstring) :
  match_here (Seq (Group 1 Digit12) (Seq (Chr (is_char sep)) R)) u <> None ->
  In sep u.
Proof.
  unfold match_here. intros H.
  destruct (rmatch _ u [] _) as [x |] eqn:E; [| contradiction].
  change (rmatch (Seq (Group 1 Digit12) (Seq (Chr (is_char sep)) R)) u []
            (fun s' c' => Some (s', c')))
    with (rmatch (Group 1 Digit12) u []
            (fun s1 c1 => rmatch (Chr (is_char sep)) s1 c1
               (fun s2 c2 => rmatch R s2 c2 (fun s' c' => Some (s', c'))))) in E.
  apply rmatch_cont in E as (s1 & c1 & Hs1 & E).
  apply chr_some in E as (y & s' & -> & Hy & _).
  apply N.eqb_eq in Hy. subst y. apply (@Suffix_In _ _ _ Hs1).
Qed.

Lemma search_needs_separator (sep : jschar) (R : regex) (s : jsstring) :
  ~ In sep s ->
  search (Seq (Group 1 Digit12) (Seq (Chr (is_char sep)) R)) s = None.
Proof.
  intros Hn. apply search_from_none. intros u Hu.
  destruct (match_here _ u) eqn:E; [| reflexivity]. exfalso.
  apply Hn. destruct Hu as [pre ->]. apply in_or_app. right.
  apply (@date_needs_separator sep R). rewrite E. discriminate.
Qed.

Section MoreDates.

Variable LocalTZA : Z.
Variable now : Date.
Variable nativeParse : jsstring -> Date.

Lemma tryFormats_hyphens (s : jsstring) :
  ~ In slash s ->
  tryFormats now (formats LocalTZA) s =
  match search Re.dateDMYYYY s with
  | Some m => fnDMYYYY LocalTZA m
  | None => now
  end.
Proof.
  intros Hn. unfold formats. cbn [tryFormats].
  replace (search Re.dateDMYY s) with (@None rmatch_result)
    by (symmetry; apply (@search_needs_separator slash _ s Hn)).
  replace (search Re.dateMDYYYY s) with (@None rmatch_result)
    by (symmetry; apply (@search_needs_separator slash _ s Hn)).
  reflexivity.
Qed.

(** X16: a string without a slash and without a hyphen that the
    engine does not read as a date gives the current date. *)
Theorem parseDate_without_separator (s : jsstring) :
  nativeParse s = None ->
  ~ In slash s -> ~ In hyphen s ->
  parseDate LocalTZA now nativeParse (AValue (VStr s)) = Ret now.
Proof.
  intros Hp Hs Hh. destruct s as [|x s]; [reflexivity |].
  rewrite parseDate_string by (discriminate || exact Hp).
  rewrite (@tryFormats_hyphens _ Hs).
  replace (search Re.dateDMYYYY (x :: s)) with (@None rmatch_result)
    by (symmetry; apply (@search_needs_separator hyphen _ (x :: s) Hh)).
  reflexivity.
Qed.

End MoreDates.

Lemma parseDate_without_separator_witness :
  isoDateOnly (js "yesterday at noon") = None /\
  parseDate 0 (Some 1747564200000%Z) isoDateOnly
    (AValue (VStr (js "yesterday at noon"))) = Ret (Some 1747564200000%Z).
Proof.
  split; [vm_compute; reflexivity |].
  apply (@parseDate_without_separator 0 (Some 1747564200000%Z) isoDateOnly
           (js "yesterday at noon"));
    vm_compute; intuition discriminate.
Defined.

(** ** Groups of digits *)

Lemma firstn_1 (a : jschar) (s : jsstring) :
  firstn (List.length (a :: s) - List.length s) (a :: s) = [a].
Proof. apply (@firstn_length_app [a] s). Qed.

Lemma firstn_2 (a b : jschar) (s : jsstring) :
  firstn (List.length (a :: b :: s) - List.length s) (a :: b :: s) = [a; b].
Proof. apply (@firstn_length_app [a; b] s). Qed.

Lemma firstn_4 (a b c d : jschar) (s : jsstring) :
  firstn (List.length (a :: b :: c :: d :: s) - List.length s)
         (a :: b :: c :: d :: s) = [a; b; c; d].
Proof. apply (@firstn_length_app [a; b; c; d] s). Qed.

(** [(\d{1,2})]: two digits if there are two, else one; one digit
    again if what follows does not match after two. *)
Lemma group_digit12_eq (i : nat) (A : Type) (s : jsstring) (c : caps)
    (k : jsstring -> caps -> option A) :
  rmatch (Group i Digit12) s c k =
  match s with
  | d1 :: s1 =>
      if is_digit d1 then
        match
          match s1 with
          | d2 :: s2 => if is_digit d2 then k s2 ((i, [d1; d2]) :: c) else None
          | [] => None
          end
        with
        | Some x => Some x
        | None => k s1 ((i, [d1]) :: c)
        end
      else None
  | [] => None
  end.
Proof.
  unfold Digit12, Digit, Opt. cbn [rmatch].
  destruct s as [|d1 s1]; [reflexivity |].
  destruct (is_digit d1); [| reflexivity].
  rewrite firstn_1.
  destruct s1 as [|d2 s2]; [reflexivity |].
  destruct (is_digit d2); [| reflexivity].
  rewrite firstn_2. reflexivity.
Qed.

Lemma group_digit2_eq (i : nat) (A : Type) (s : jsstring) (c : caps)
    (k : jsstring -> caps -> option A) :
  rmatch (Group i (Seq Digit Digit)) s c k =
  match s with
  | d1 :: d2 :: s2 =>
      if is_digit d1 && is_digit d2 then k s2 ((i, [d1; d2]) :: c) else None
  | _ => None
  end.
Proof.
  unfold Digit. cbn [rmatch].
  destruct s as [|d1 [|d2 s2]]; try reflexivity.
  - destruct (is_digit d1); reflexivity.
  - destruct (is_digit d1); [| reflexivity].
    destruct (is_digit d2); [| reflexivity].
    rewrite firstn_2. reflexivity.
Qed.

Lemma group_digit4_eq (i : nat) (A : Type) (s : jsstring) (c : caps)
    (k : jsstring -> caps -> option A) :
  rmatch (Group i Re.Digit4) s c k =
  match s with
  | d1 :: d2 :: d3 :: d4 :: s4 =>
      if is_digit d1 && is_digit d2 && is_digit d3 && is_digit d4
      then k s4 ((i, [d1; d2; d3; d4]) :: c) else None
  | _ => None
  end.
Proof.
  unfold Re.Digit4, Digit. cbn [Seqs rmatch].
  destruct s as [|d1 [|d2 [|d3 [|d4 s4]]]]; try reflexivity;
    repeat match goal with
           | |- context [is_digit ?d] =>
               is_var d; destruct (is_digit d); try reflexivity
           end.
  rewrite firstn_4. reflexivity.
Qed.

(** The group of one or two digits before a character that is no
    digit *)
Lemma group_digit12_hit (i : nat) (A : Type) (w s' : jsstring) (c : caps)
    (k : jsstring -> caps -> option A) (x : A) :
  isDigits 1 2 w = true ->
  match s' with y :: _ => is_digit y | [] => false end = false ->
  k s' ((i, w) :: c) = Some x ->
  rmatch (Group i Digit12) (w ++ s') c k = Some x.
Proof.
  unfold isDigits. intros Hw Hs Hk.
  apply andb_true_iff in Hw as [Hw H2]. apply andb_true_iff in Hw as [Hw H1].
  apply Nat.leb_le in H1, H2.
  destruct w as [|d1 [|d2 [|d3 w]]]; cbn [List.length] in H1, H2; try lia;
    cbn [forallb] in Hw; rewrite group_digit12_eq; cbn [app].
  - rewrite andb_true_r in Hw. rewrite Hw.
    destruct s' as [|y s']; [exact Hk |]. rewrite Hs. exact Hk.
  - apply andb_true_iff in Hw as [Hd1 Hd2]. rewrite andb_true_r in Hd2.
    rewrite Hd1, Hd2.
    match goal with
    | |- match ?X with _ => _ end = _ =>
        replace X with (Some x) by (symmetry; exact Hk)
    end.
    reflexivity.
Qed.

Lemma group_digit12_some (i : nat) (A : Type) (s : jsstring) (c : caps)
    (k : jsstring -> caps -> option A) (x : A) :
  rmatch (Group i Digit12) s c k = Some x ->
  exists w s', s = w ++ s' /\ isDigits 1 2 w = true /\
               k s' ((i, w) :: c) = Some x.
Proof.
  rewrite group_digit12_eq. destruct s as [|d1 s1]; [discriminate |].
  destruct (is_digit d1) eqn:H1; [| discriminate].
  destruct s1 as [|d2 s2].
  - intros H. exists [d1], []. unfold isDigits. cbn [forallb List.length].
    rewrite H1. auto.
  - destruct (is_digit d2) eqn:H2.
    + destruct (k s2 ((i, [d1; d2]) :: c)) eqn:E.
      * intros [= <-]. exists [d1; d2], s2. unfold isDigits.
        cbn [forallb List.length]. rewrite H1, H2. auto.
      * intros H. exists [d1], (d2 :: s2). unfold isDigits.
        cbn [forallb List.length]. rewrite H1. auto.
    + intros H. exists [d1], (d2 :: s2). unfold isDigits.
      cbn [forallb List.length]. rewrite H1. auto.
Qed.

Lemma group_digit2_some (i : nat) (A : Type) (s : jsstring) (c : caps)
    (k : jsstring -> caps -> option A) (x : A) :
  rmatch (Group i (Seq Digit Digit)) s c k = Some x ->
  exists w s', s = w ++ s' /\ isDigits 2 2 w = true /\
               k s' ((i, w) :: c) = Some x.
Proof.
  rewrite group_digit2_eq. destruct s as [|d1 [|d2 s2]]; try discriminate.
  destruct (is_digit d1 && is_digit d2) eqn:H; [| discriminate].
  intros Hk. exists [d1; d2], s2. unfold isDigits. cbn [forallb List.length].
  apply andb_true_iff in H as [-> ->]. auto.
Qed.

Lemma group_digit4_some (i : nat) (A : Type) (s : jsstring) (c : caps)
    (k : jsstring -> caps -> option A) (x : A) :
  rmatch (Group i Re.Digit4) s c k = Some x ->
  exists w s', s = w ++ s' /\ isDigits 4 4 w = true /\
               k s' ((i, w) :: c) = Some x.
Proof.
  rewrite group_digit4_eq.
  destruct s as [|d1 [|d2 [|d3 [|d4 s4]]]]; try discriminate.
  destruct (is_digit d1 && is_digit d2 && is_digit d3 && is_digit d4) eqn:H;
    [| discriminate].
  intros Hk. exists [d1; d2; d3; d4], s4. unfold isDigits.
  cbn [forallb List.length].
  apply andb_true_iff in H as [H ->]. apply andb_true_iff in H as [H ->].
  apply andb_true_iff in H as [-> ->]. auto.
Qed.

(** ** [parseInt] of a run of digits *)

Lemma parseInt_digits (lo hi : nat) (w : jsstring) :
  isDigits (S lo) hi w = true -> parseInt w = Some (digitsZ w).
Proof.
  unfold isDigits. intros H.
  apply andb_true_iff in H as [H _]. apply andb_true_iff in H as [Hw H1].
  destruct w as [|y w]; [discriminate H1 |].
  pose proof Hw as Hw'. cbn [forallb] in Hw'.
  apply andb_true_iff in Hw' as [Hy _].
  unfold parseInt.
  rewrite (@trimStart_head y w) by class_lia. unfold read_sign.
  replace (N.eqb y (ch "-")) with false by (symmetry; class_lia).
  replace (N.eqb y (ch "+")) with false by (symmetry; class_lia).
  rewrite (span_all _ _ Hw). reflexivity.
Qed.

Lemma digitsZ_bound (lo hi : nat) (w : jsstring) :
  isDigits lo hi w = true -> (0 <= digitsZ w < 10 ^ Z.of_nat hi)%Z.
Proof.
  unfold isDigits, digitsZ, digits_val. intros H.
  apply andb_true_iff in H as [H H2]. apply andb_true_iff in H as [Hw _].
  apply Nat.leb_le in H2.
  assert (G : forall (l : jsstring) (acc : N),
             forallb is_digit l = true ->
             (fold_left (fun a c => 10 * a + (c - 48)) l acc
              < (acc + 1) * 10 ^ N.of_nat (List.length l))%N).
  { induction l as [|x l IH]; intros acc Hl.
    - cbn. lia.
    - cbn [forallb] in Hl. apply andb_true_iff in Hl as [Hx Hl].
      cbn [fold_left List.length]. specialize (IH (10 * acc + (x - 48))%N Hl).
      eapply N.lt_le_trans; [exact IH |].
      rewrite Nat2N.inj_succ, N.pow_succ_r by lia.
      assert (Hx' : (x - 48 <= 9)%N) by class_lia.
      nia. }
  specialize (G w 0%N Hw). cbn [N.add] in G. rewrite N.mul_1_l in G.
  split; [lia |].
  apply Z.lt_le_trans with (Z.of_N (10 ^ N.of_nat (List.length w))); [lia |].
  rewrite N2Z.inj_pow, nat_N_Z. cbn [Z.of_N].
  apply Z.pow_le_mono_r; lia.
Qed.

Lemma chr_hit (p : jschar -> bool) (R : regex) (A : Type) (y : jschar)
    (s : jsstring) (c : caps) (k : jsstring -> caps -> option A) :
  p y = true -> rmatch (Seq (Chr p) R) (y :: s) c k = rmatch R s c k.
Proof. intros H. cbn [rmatch]. rewrite H. reflexivity. Qed.

Lemma seq_eq (a b : regex) (A : Type) (s : jsstring) (c : caps)
    (k : jsstring -> caps -> option A) :
  rmatch (Seq a b) s c k = rmatch a s c (fun s1 c1 => rmatch b s1 c1 k).
Proof. reflexivity. Qed.

(** The day, the month and the year, with hyphens *)
Lemma dateDMYYYY_hit (d m y rest : jsstring) :
  isDigits 1 2 d = true -> isDigits 1 2 m = true -> isDigits 4 4 y = true ->
  match_here Re.dateDMYYYY (d ++ hyphen :: m ++ hyphen :: y ++ rest)
  = Some (rest, [(3, y); (2, m); (1, d)]).
Proof.
  intros Hd Hm Hy. unfold match_here, Re.dateDMYYYY. cbn [Seqs].
  rewrite seq_eq. apply group_digit12_hit; [exact Hd | reflexivity |].
  unfold C. rewrite chr_hit by reflexivity.
  rewrite seq_eq. apply group_digit12_hit; [exact Hm | reflexivity |].
  rewrite chr_hit by reflexivity.
  rewrite group_digit4_eq.
  unfold isDigits in Hy. apply andb_true_iff in Hy as [Hy H2].
  apply andb_true_iff in Hy as [Hy H1]. apply Nat.leb_le in H1, H2.
  destruct y as [|a [|b [|c [|e [|f y]]]]]; cbn [List.length] in H1, H2; try lia.
  cbn [forallb] in Hy. rewrite andb_true_r in Hy. cbn [app].
  rewrite !andb_assoc in Hy. rewrite Hy. reflexivity.
Qed.

Section HyphenDate.

Variable LocalTZA : Z.
Variable now : Date.
Variable nativeParse : jsstring -> Date.

(** X15: a day and a month of one or two digits and a year of four,
    with hyphens between them and no slash after them, are read in
    that order when the engine does not read the string itself: the
    result is local midnight of that day. *)
Theorem parseDate_day_month_year_with_hyphens (d m y rest : jsstring) :
  isDigits 1 2 d = true -> isDigits 1 2 m = true -> isDigits 4 4 y = true ->
  ~ In slash rest ->
  nativeParse (d ++ hyphen :: m ++ hyphen :: y ++ rest) = None ->
  parseDate LocalTZA now nativeParse
    (AValue (VStr (d ++ hyphen :: m ++ hyphen :: y ++ rest)))
  = Ret (newDate LocalTZA (Some (digitsZ y)) (Some (digitsZ m - 1)%Z)
           (Some (digitsZ d)) (Some 0%Z) (Some 0%Z) (Some 0%Z)).
Proof.
  intros Hd Hm Hy Hrest Hnat.
  assert (Hin : forall w lo hi, isDigits lo hi w = true -> ~ In slash w).
  { intros w lo hi Hw Hin. unfold isDigits in Hw.
    apply andb_true_iff in Hw as [Hw _]. apply andb_true_iff in Hw as [Hw _].
    rewrite forallb_forall in Hw. specialize (Hw slash Hin). discriminate Hw. }
  assert (Hno : ~ In slash (d ++ hyphen :: m ++ hyphen :: y ++ rest)).
  { intros H. apply in_app_or in H as [H | [H | H]];
      [exact (Hin _ _ _ Hd H) | discriminate H |].
    apply in_app_or in H as [H | [H | H]];
      [exact (Hin _ _ _ Hm H) | discriminate H |].
    apply in_app_or in H as [H | H]; [exact (Hin _ _ _ Hy H) | exact (Hrest H)]. }
  rewrite parseDate_string; [| | exact Hnat].
  2: { unfold isDigits in Hd. destruct d; [discriminate Hd | discriminate]. }
  rewrite (@tryFormats_hyphens LocalTZA now _ Hno).
  unfold search.
  rewrite (@search_from_hit _ [] _ _ _ (@dateDMYYYY_hit d m y rest Hd Hm Hy)).
  unfold fnDMYYYY, groupInt. cbn [m_group m_caps cap Nat.eqb].
  rewrite (@parseInt_digits 0 2 d Hd), (@parseInt_digits 0 2 m Hm),
    (@parseInt_digits 3 4 y Hy).
  reflexivity.
Qed.

End HyphenDate.

Lemma parseDate_day_month_year_with_hyphens_witness :
  parseDate 0 None isoDateOnly
    (AValue (VStr (js "18" ++ hyphen :: js "05" ++ hyphen :: js "2025" ++ [])))
  = Ret (Some 1747526400000%Z).
Proof.
  rewrite (@parseDate_day_month_year_with_hyphens 0 None isoDateOnly
             (js "18") (js "05") (js "2025") []);
    vm_compute; (reflexivity || intuition discriminate).
Defined.

(** ** The dates that the three formats build *)

Lemma newDate_valid (LocalTZA y mo d h mi s : Z) :
  (- msPerDay < LocalTZA < msPerDay)%Z ->
  (0 <= y <= 9999)%Z -> (-1 <= mo <= 98)%Z -> (0 <= d <= 99)%Z ->
  (0 <= h <= 99)%Z -> (0 <= mi <= 99)%Z -> (0 <= s <= 99)%Z ->
  exists t,
    newDate LocalTZA (Some y) (Some mo) (Some d) (Some h) (Some mi) (Some s)
    = Some t.
Proof.
  intros Htz Hy Hmo Hd Hh Hmi Hs. unfold newDate.
  set (yr := (if (0 <=? y)%Z && (y <=? 99)%Z then 1900 + y else y)%Z).
  assert (Hyr : (100 <= yr <= 9999)%Z).
  { subst yr. destruct (Z.leb_spec 0 y), (Z.leb_spec y 99); cbn [andb]; lia. }
  clearbody yr. unfold TimeClip.
  match goal with
  | |- context [(Z.abs ?T <=? _)%Z] =>
      assert (HT : (Z.abs T <= 8640000000000000)%Z)
  end.
  { unfold MakeDate, MakeTime, MakeDay, msPerDay in *. cbv zeta.
    destruct (Z.leb_spec (mo mod 12 + 1) 2), (Z.ltb_spec 2 (mo mod 12 + 1));
      Z.div_mod_to_equations; lia. }
  apply Z.leb_le in HT. rewrite HT. eexists. reflexivity.
Qed.

Lemma seq_chr_some (p : jschar -> bool) (R : regex) (A : Type) (s : jsstring)
    (c : caps) (k : jsstring -> caps -> option A) (x : A) :
  rmatch (Seq (Chr p) R) s c k = Some x ->
  exists y s', s = y :: s' /\ p y = true /\ rmatch R s' c k = Some x.
Proof. rewrite seq_eq. apply chr_some. Qed.

Lemma dateYYYY_caps (sep : jschar) (u rest : jsstring) (c : caps) :
  match_here
    (Seqs [Group 1 Digit12; Chr (is_char sep); Group 2 Digit12;
           Chr (is_char sep); Group 3 Re.Digit4]) u = Some (rest, c) ->
  capsYYYY c.
Proof.
  unfold match_here. cbn [Seqs]. rewrite seq_eq. intros H.
  apply group_digit12_some in H as (a & s1 & _ & Ha & H).
  apply seq_chr_some in H as (? & s2 & _ & _ & H). rewrite seq_eq in H.
  apply group_digit12_some in H as (b & s3 & _ & Hb & H).
  apply seq_chr_some in H as (? & s4 & _ & _ & H).
  apply group_digit4_some in H as (y & s5 & _ & Hy & H).
  injection H as _ <-. exists a, b, y. auto.
Qed.

Lemma dateDMYY_caps (u rest : jsstring) (c : caps) :
  match_here Re.dateDMYY u = Some (rest, c) -> capsDMYY c.
Proof.
  unfold match_here, Re.dateDMYY, C. cbn [Seqs]. rewrite seq_eq. intros H.
  apply group_digit12_some in H as (d & s1 & _ & Hd & H).
  apply seq_chr_some in H as (? & s2 & _ & _ & H). rewrite seq_eq in H.
  apply group_digit12_some in H as (mo & s3 & _ & Hmo & H).
  apply seq_chr_some in H as (? & s4 & _ & _ & H). rewrite seq_eq in H.
  apply group_digit2_some in H as (y & s5 & _ & Hy & H).
  exists d, mo, y. repeat (split; [assumption |]).
  unfold Opt in H.
  match type of H with
  | rmatch (Alt ?T Eps) ?s ?c0 ?k = _ =>
      change (rmatch (Alt T Eps) s c0 k)
        with (match rmatch T s c0 k with
              | Some x => Some x
              | None => k s c0
              end) in H;
      destruct (rmatch T s c0 k) as [r1 |] eqn:E
  end.
  2: { injection H as _ <-. left. reflexivity. }
  injection H as ->. right.
  unfold Spaces1, Plus in E.
  match type of E with
  | rmatch (Seq (Seq (Chr ?p) ?S) ?R) ?s ?c0 ?k = _ =>
      change (rmatch (Seq (Seq (Chr p) S) R) s c0 k)
        with (rmatch (Chr p) s c0 (fun s1 c1 =>
                rmatch S s1 c1 (fun s2 c2 => rmatch R s2 c2 k))) in E
  end.
  apply chr_some in E as (? & s6 & _ & _ & E).
  apply star_run_some in E as (? & s7 & _ & _ & E). rewrite seq_eq in E.
  apply group_digit12_some in E as (h & s8 & _ & Hh & E).
  apply seq_chr_some in E as (? & s9 & _ & _ & E). rewrite seq_eq in E.
  apply group_digit12_some in E as (mi & s10 & _ & Hmi & E).
  exists h, mi. repeat (split; [assumption |]).
  match type of E with
  | rmatch (Alt ?T Eps) ?s ?c0 ?k = _ =>
      change (rmatch (Alt T Eps) s c0 k)
        with (match rmatch T s c0 k with
              | Some x => Some x
              | None => k s c0
              end) in E;
      destruct (rmatch T s c0 k) as [r2 |] eqn:E2
  end.
  2: { injection E as _ <-. left. reflexivity. }
  injection E as ->. right.
  apply seq_chr_some in E2 as (? & s11 & _ & _ & E2).
  apply group_digit12_some in E2 as (sec & s12 & _ & Hsec & E2).
  injection E2 as _ <-. exists sec. auto.
Qed.

Section ValidDates.

Variable LocalTZA : Z.
Hypothesis LocalTZA_range : (- msPerDay < LocalTZA < msPerDay)%Z.

Lemma field_bound (lo hi : nat) (w : jsstring) :
  isDigits (S lo) hi w = true -> hi <= 4 ->
  parseInt w = Some (digitsZ w) /\ (0 <= digitsZ w < 10 ^ Z.of_nat hi)%Z.
Proof.
  intros H _. split; [exact (@parseInt_digits lo hi w H) |].
  exact (@digitsZ_bound (S lo) hi w H).
Qed.

Lemma groupIntOr0_digits (m : rmatch_result) (i : nat) (w : jsstring) :
  cap (m_caps m) (S i) = Some w -> isDigits 1 2 w = true ->
  groupIntOr0 m (S i) = Some (digitsZ w).
Proof.
  intros Hc Hw. unfold groupIntOr0. cbn [m_group]. rewrite Hc.
  rewrite <- (@parseInt_digits 0 2 w Hw).
  destruct w; [discriminate Hw | reflexivity].
Qed.

Lemma fnDMYY_valid (m : rmatch_result) :
  capsDMYY (m_caps m) -> exists t, fnDMYY LocalTZA m = Some t.
Proof.
  intros (d & mo & y & Hd & Hmo & Hy & Hc).
  destruct (@field_bound 0 2 d Hd) as [Pd Bd]; [lia |].
  destruct (@field_bound 0 2 mo Hmo) as [Pmo Bmo]; [lia |].
  destruct (@field_bound 1 2 y Hy) as [Py By]; [lia |].
  change (10 ^ Z.of_nat 2)%Z with 100%Z in *.
  unfold fnDMYY, groupInt.
  destruct Hc as [Hc | (h & mi & Hh & Hmi & Hc)].
  - unfold groupIntOr0. cbn [m_group]. rewrite Hc. cbn [cap Nat.eqb].
    rewrite Pd, Pmo, Py. cbn [option_map].
    apply newDate_valid; try exact LocalTZA_range; lia.
  - destruct (@field_bound 0 2 h Hh) as [Ph Bh]; [lia |].
    destruct (@field_bound 0 2 mi Hmi) as [Pmi Bmi]; [lia |].
    change (10 ^ Z.of_nat 2)%Z with 100%Z in *.
    destruct Hc as [Hc | (sec & Hsec & Hc)].
    + rewrite (@groupIntOr0_digits m 3 h), (@groupIntOr0_digits m 4 mi);
        try assumption; try (rewrite Hc; reflexivity).
      unfold groupIntOr0. cbn [m_group]. rewrite Hc. cbn [cap Nat.eqb].
      rewrite Pd, Pmo, Py. cbn [option_map].
      apply newDate_valid; try exact LocalTZA_range; lia.
    + destruct (@field_bound 0 2 sec Hsec) as [Psec Bsec]; [lia |].
      change (10 ^ Z.of_nat 2)%Z with 100%Z in *.
      rewrite (@groupIntOr0_digits m 3 h), (@groupIntOr0_digits m 4 mi),
        (@groupIntOr0_digits m 5 sec);
        try assumption; try (rewrite Hc; reflexivity).
      cbn [m_group]. rewrite Hc. cbn [cap Nat.eqb].
      rewrite Pd, Pmo, Py. cbn [option_map].
      apply newDate_valid; try exact LocalTZA_range; lia.
Qed.

Lemma fnYYYY_valid (m : rmatch_result) :
  capsYYYY (m_caps m) ->
  (exists t, fnMDYYYY LocalTZA m = Some t) /\
  (exists t, fnDMYYYY LocalTZA m = Some t).
Proof.
  intros (a & b & y & Ha & Hb & Hy & Hc).
  destruct (@field_bound 0 2 a Ha) as [Pa Ba]; [lia |].
  destruct (@field_bound 0 2 b Hb) as [Pb Bb]; [lia |].
  destruct (@field_bound 3 4 y Hy) as [Py By]; [lia |].
  change (10 ^ Z.of_nat 2)%Z with 100%Z in *.
  change (10 ^ Z.of_nat 4)%Z with 10000%Z in *.
  unfold fnMDYYYY, fnDMYYYY, groupInt. cbn [m_group]. rewrite Hc.
  cbn [cap Nat.eqb]. rewrite Pa, Pb, Py. cbn [option_map].
  split; apply newDate_valid; try exact LocalTZA_range; lia.
Qed.

Lemma parseDate_string_valid
    (now : Date) (nativeParse : jsstring -> Date) (s : jsstring) :
  now <> None ->
  exists t,
    parseDate LocalTZA now nativeParse (AValue (VStr s)) = Ret (Some t).
Proof.
  intros Hnow. destruct now as [t0 |]; [| contradiction].
  destruct s as [|x s]; [exists t0; reflexivity |].
  destruct (nativeParse (x :: s)) as [t |] eqn:En.
  - exists t. unfold parseDate. cbn [truthy negb dateOfValue]. rewrite En.
    reflexivity.
  - rewrite parseDate_string by (discriminate || exact En).
    unfold formats. cbn [tryFormats]. unfold search.
    destruct (search_from Re.dateDMYY [] (x :: s)) as [m |] eqn:E1.
    { apply search_from_some in E1 as (u & _ & E1).
      apply dateDMYY_caps in E1.
      destruct (@fnDMYY_valid m E1) as [t ->]. exists t. reflexivity. }
    destruct (search_from Re.dateMDYYYY [] (x :: s)) as [m |] eqn:E2.
    { apply search_from_some in E2 as (u & _ & E2).
      apply (@dateYYYY_caps slash) in E2.
      destruct (@fnYYYY_valid m E2) as [[t ->] _]. exists t. reflexivity. }
    destruct (search_from Re.dateDMYYYY [] (x :: s)) as [m |] eqn:E3.
    { apply search_from_some in E3 as (u & _ & E3).
      apply (@dateYYYY_caps hyphen) in E3.
      destruct (@fnYYYY_valid m E3) as [_ [t ->]]. exists t. reflexivity. }
    exists t0. reflexivity.
Qed.

(** Whatever [parseDate] returns for a value that is no [Date] is a
    valid date. *)
Lemma parseDate_value_valid
    (now : Date) (nativeParse : jsstring -> Date) (d : value) (r : Date) :
  now <> None ->
  parseDate LocalTZA now nativeParse (AValue d) = Ret r ->
  exists t, r = Some t.
Proof.
  intros Hnow H.
  destruct (truthy d) eqn:Ht.
  - destruct (dateOfValue nativeParse d) as [[t |] | e] eqn:Ed.
    + unfold parseDate in H. rewrite Ht, Ed in H. cbn [negb bind] in H.
      injection H as <-. exists t. reflexivity.
    + destruct d; try (unfold parseDate in H; rewrite Ht, Ed in H;
                       cbn [negb bind] in H; discriminate H).
      destruct (@parseDate_string_valid now nativeParse s Hnow) as [t E].
      rewrite E in H. injection H as <-. exists t. reflexivity.
    + unfold parseDate in H. rewrite Ht, Ed in H. cbn [negb bind] in H.
      discriminate H.
  - unfold parseDate in H. rewrite Ht in H. cbn [negb] in H.
    injection H as <-. destruct now as [t0 |]; [| contradiction].
    exists t0. reflexivity.
Qed.

(** X17: for a string, [parseDate] returns a valid date whenever the
    clock gives one: what the engine reads is valid, and the fields
    that the three formats read, of at most two digits (the year:
    four), always make a date in the range of [Date]. *)
Theorem parseDate_of_string_is_valid
    (now : Date) (nativeParse : jsstring -> Date) (s : jsstring) :
  now <> None ->
  exists t,
    parseDate LocalTZA now nativeParse (AValue (VStr s)) = Ret (Some t).
Proof. apply parseDate_string_valid. Qed.

End ValidDates.

Lemma parseDate_of_string_is_valid_witness :
  (- msPerDay < 28800000 < msPerDay)%Z /\
  Some 1747564200000%Z <> None /\
  exists t,
    parseDate 28800000 (Some 1747564200000%Z) isoDateOnly
      (AValue (VStr (js "99/99/99 99:99:99"))) = Ret (Some t).
Proof.
  assert (H1 : (- msPerDay < 28800000 < msPerDay)%Z) by (unfold msPerDay; lia).
  assert (H2 : Some 1747564200000%Z <> None) by discriminate.
  split; [exact H1 |]. split; [exact H2 |].
  exact (@parseDate_of_string_is_valid 28800000 H1 (Some 1747564200000%Z)
           isoDateOnly (js "99/99/99 99:99:99") H2).
Defined.

(** ** From the response to the record *)

Lemma extractJson_record
    (nowISO : jsstring) (JSON_parse JSON5_parse : jsstring -> outcome value)
    (text : jsstring) :
  exists v d t i,
    extractJsonFromLLMResponse nowISO JSON_parse JSON5_parse (VStr text)
      = Ret (receipt v d t i) /\ unprintable t = false.
Proof.
  destruct (locateJson text) as [jsonText |] eqn:Hloc.
  - destruct (extract_located nowISO JSON_parse JSON5_parse _ Hloc)
      as (data & Hchain & ->).
    apply strategyChain_shape in Hchain as (v & d & t & i & -> & Ht). eauto 6.
  - unfold extractJsonFromLLMResponse, extractBody.
    cbn [stringReceiver bind]. rewrite Hloc. cbn [try_catch].
    unfold defaultData. do 4 eexists. split; reflexivity.
Qed.

(** X20: a receipt in the normal form of the sanitizer, inside code
    fences, is read by the strict strategy: what
    [extractJsonFromLLMResponse] returns is [validateAndCleanData] of
    the strict parse of the receipt, whatever the lenient parser would
    do and whatever surrounds the block. *)
Theorem extractJson_of_fenced_normal_receipt
    (nowISO : jsstring) (JSON_parse JSON5_parse : jsstring -> outcome value)
    (toks : list (jsstring * token)) (parsed data : value)
    (pre tag ws1 ws2 post : jsstring) :
  normalTokens toks = true ->
  ~ In backtick (print_tokens toks) ->
  ~ In backtick pre ->
  tag = [] \/ tag = js "json" ->
  forallb is_space ws1 = true -> forallb is_space ws2 = true ->
  JSON_parse (print_tokens toks) = Ret parsed ->
  validateAndCleanData nowISO parsed = Ret data ->
  extractJsonFromLLMResponse nowISO JSON_parse JSON5_parse
    (VStr (pre ++ fence ++ tag ++ ws1 ++ print_tokens toks ++ ws2
               ++ fence ++ post))
  = Ret data.
Proof.
  intros Hn Hb Hpre Htag H1 H2 Hp Hv.
  destruct (@normal_shape _ Hn) as [mid E].
  assert (Hmid : ~ In backtick mid).
  { intros Hin. apply Hb. rewrite E. right. apply in_or_app. left. exact Hin. }
  pose proof (@locateJson_fenced pre tag ws1 mid ws2 post Hpre Htag H1 H2 Hmid)
    as Hloc.
  rewrite <- E in Hloc.
  destruct (extract_located nowISO JSON_parse JSON5_parse _ Hloc)
    as (d & Hchain & ->).
  rewrite (@normal_sanitizeSteps _ Hn) in Hchain.
  unfold strategyChain in Hchain. cbn [firstSuccess] in Hchain.
  unfold strictStrategy in Hchain. rewrite Hp in Hchain. cbn [bind] in Hchain.
  rewrite Hv in Hchain. cbn [succeeded] in Hchain. congruence.
Qed.

Lemma extractJson_of_fenced_normal_receipt_witness :
  extractJsonFromLLMResponse (js "2025-05-18T10:30:00.000Z") Json.parse
    (fun _ => Throw (SyntaxError (js "JSON5: invalid end of input at 1:1")))
    (VStr (js "Here is the receipt:" ++ fence ++ js "json" ++ [newline]
             ++ print_tokens receiptTokens ++ [newline] ++ fence
             ++ js " Thanks."))
  = Ret receiptValue.
Proof.
  apply (@extractJson_of_fenced_normal_receipt
           (js "2025-05-18T10:30:00.000Z") Json.parse
           (fun _ => Throw (SyntaxError (js "JSON5: invalid end of input at 1:1")))
           receiptTokens receiptValue receiptValue
           (js "Here is the receipt:") (js "json") [newline] [newline]
           (js " Thanks."));
    vm_compute; intuition discriminate.
Defined.

Section ScanFailure.

Variable LocalTZA : Z.
Variable now : Date.
Variable nativeParse : jsstring -> Date.
Variable nowISO : jsstring.
Variable JSON5_parse : jsstring -> outcome value.

(** The two ways in which [parseDate] throws *)
Lemma parseDate_throws (d : value) (e : exn) :
  parseDate LocalTZA now nativeParse (AValue d) = Throw e ->
  truthy d = true /\ (forall s, d <> VStr s) /\
  (if unprintable d then e = conversionError
   else e = notAFunction "dateStr" "match").
Proof.
  unfold parseDate. destruct (truthy d) eqn:Ht; cbn [negb]; [| discriminate].
  pose proof (ToString_unprintable d) as Hs.
  destruct d as [| | b | n | s | l | props];
    cbn [dateOfValue bind unprintable] in *; try discriminate.
  - destruct n as [| neg | neg m e']; cbn [bind]; try discriminate;
      try (intros [= <-]; repeat split; intros s; discriminate).
    destruct (TimeClip (truncate neg m e')); [discriminate |].
    intros [= <-]. repeat split. intros s; discriminate.
  - destruct (nativeParse s); discriminate.
  - destruct (existsb unprintable l).
    + rewrite Hs. cbn [bind]. intros [= <-]. repeat split. intros s; discriminate.
    + destruct Hs as [s ->]. cbn [bind].
      destruct (nativeParse s); [discriminate |].
      intros [= <-]. repeat split. intros s'; discriminate.
  - destruct (hasOwn props (js "toString")).
    + rewrite Hs. cbn [bind]. intros [= <-]. repeat split. intros s; discriminate.
    + destruct Hs as [s ->]. cbn [bind].
      destruct (nativeParse s); [discriminate |].
      intros [= <-]. repeat split. intros s'; discriminate.
Qed.

(** Where [String] cannot convert the date, [parseDate] throws. *)
Lemma parseDate_unprintable (d : value) :
  unprintable d = true ->
  parseDate LocalTZA now nativeParse (AValue d) = Throw conversionError.
Proof.
  intros U. unfold parseDate. rewrite (unprintable_truthy _ U). cbn [negb].
  pose proof (ToString_unprintable d) as Hs. rewrite U in Hs.
  destruct d; try discriminate U; cbn [dateOfValue]; rewrite Hs; reflexivity.
Qed.

Lemma formatReceipt_throws (v d t i : value) (imagePath userId : jsstring)
    (e : exn) :
  unprintable t = false ->
  formatReceipt LocalTZA now nativeParse (receipt v d t i) imagePath userId
    = Throw e ->
  parseDate LocalTZA now nativeParse (AValue d) = Throw e.
Proof.
  intros Ut. unfold formatReceipt.
  change (get (receipt v d t i) (js "vendorName")) with (Ret v).
  change (get (receipt v d t i) (js "transactionDate")) with (Ret d).
  change (get (receipt v d t i) (js "totalAmount")) with (Ret t).
  change (get (receipt v d t i) (js "items")) with (Ret i).
  cbn [bind].
  destruct (parseDate LocalTZA now nativeParse (AValue d)); cbn [bind];
    [| intros [= ->]; reflexivity].
  pose proof (coerceNumber_unprintable t "0") as Hc. rewrite Ut in Hc.
  destruct Hc as [n ->]. cbn [bind]. discriminate.
Qed.

Lemma scanResponse_failure (aiResponse imagePath userId : jsstring) (e : exn) :
  scanResponse LocalTZA now nativeParse nowISO JSON5_parse
    aiResponse imagePath userId = Throw e ->
  e = conversionError \/ e = notAFunction "dateStr" "match".
Proof.
  unfold scanResponse.
  destruct (extractJson_record nowISO Json.parse JSON5_parse aiResponse)
    as (v & d & t & i & -> & Ut).
  cbn [bind]. intros H. apply formatReceipt_throws in H; [| exact Ut].
  apply parseDate_throws in H as (_ & _ & H).
  destruct (unprintable d); [left | right]; exact H.
Qed.

(** X18: once the model has answered with a text, the scan can fail in
    two ways only, both on the transaction date of the record.  Where
    [String] cannot convert the date (an object with a member
    [toString], or an array that holds one), [new Date(dateStr)] throws
    [Cannot convert object to primitive value].  Where the date is
    neither a string nor falsy and [new Date] does not read it,
    [dateStr.match] is called on something that is no string and throws
    [dateStr.match is not a function].  A record whose date is a
    string, or falsy, always gives a result. *)
Theorem scanResponse_fails_only_on_the_date
    (aiResponse imagePath userId : jsstring) :
  (forall e,
     scanResponse LocalTZA now nativeParse nowISO JSON5_parse
       aiResponse imagePath userId = Throw e ->
     e = TypeError (js "Cannot convert object to primitive value") \/
     e = TypeError (js "dateStr.match is not a function")) /\
  (forall v d t i,
     unprintable t = false -> unprintable d = true ->
     formatReceipt LocalTZA now nativeParse (receipt v d t i) imagePath userId
       = Throw (TypeError (js "Cannot convert object to primitive value"))) /\
  (forall v d t i,
     unprintable t = false ->
     truthy d = false \/ (exists s, d = VStr s) ->
     exists rec,
       formatReceipt LocalTZA now nativeParse (receipt v d t i) imagePath userId
         = Ret rec).
Proof.
  split; [| split].
  - intros e. apply scanResponse_failure.
  - intros v d t i Ut Ud. unfold formatReceipt.
    change (get (receipt v d t i) (js "vendorName")) with (Ret v).
    change (get (receipt v d t i) (js "transactionDate")) with (Ret d).
    cbn [bind]. rewrite (parseDate_unprintable _ Ud). reflexivity.
  - intros v d t i Ut Hd.
    destruct (formatReceipt LocalTZA now nativeParse (receipt v d t i)
                imagePath userId) as [rec | e] eqn:E; [exists rec; reflexivity |].
    apply formatReceipt_throws in E; [| exact Ut].
    apply parseDate_throws in E as (Ht & Hs & _).
    destruct Hd as [Hd | [s Hd]]; [congruence | exfalso; exact (Hs s Hd)].
Qed.

Hypothesis LocalTZA_range : (- msPerDay < LocalTZA < msPerDay)%Z.
Hypothesis clock_valid : now <> None.

(** X19: every record that the scan returns has a vendor name that is
    truthy, a valid transaction date, an array of items, the path of
    the image without its leading dot and the user it was given. *)
Theorem scanResponse_record_invariants
    (aiResponse imagePath user : jsstring) (rec : ReceiptData) :
  scanResponse LocalTZA now nativeParse nowISO JSON5_parse
    aiResponse imagePath user = Ret rec ->
  truthy (vendorName rec) = true /\
  (exists t, transactionDate rec = Some t) /\
  isArray (items rec) = true /\
  imageUrl rec = relativeUrl imagePath /\
  userId rec = user.
Proof.
  unfold scanResponse.
  destruct (extractJson_record nowISO Json.parse JSON5_parse aiResponse)
    as (v & d & t & i & -> & Ut).
  cbn [bind]. unfold formatReceipt.
  change (get (receipt v d t i) (js "vendorName")) with (Ret v).
  change (get (receipt v d t i) (js "transactionDate")) with (Ret d).
  change (get (receipt v d t i) (js "totalAmount")) with (Ret t).
  change (get (receipt v d t i) (js "items")) with (Ret i).
  cbn [bind].
  destruct (parseDate LocalTZA now nativeParse (AValue d)) as [r | e] eqn:E;
    cbn [bind]; [| discriminate].
  destruct (coerceNumber t "0") as [total | e]; cbn [bind]; [| discriminate].
  intros [= <-]. cbn [vendorName transactionDate items imageUrl userId].
  split; [| split; [| split; [| split; reflexivity]]].
  - unfold or_else. destruct (truthy v) eqn:Hv; [exact Hv | reflexivity].
  - exact (@parseDate_value_valid LocalTZA LocalTZA_range now nativeParse d r
             clock_valid E).
  - destruct (isArray i) eqn:Hi; [exact Hi | reflexivity].
Qed.

End ScanFailure.

Lemma scanResponse_fails_only_on_the_date_witness :
  scanResponse 0 (Some 0%Z) isoDateOnly (js "2025-05-18T10:30:00.000Z")
    strictAsLenient (jsq "{~transactionDate~:{~toString~:1}}")
    (js "./uploads/r.jpg") (js "demo-user")
  = Throw (TypeError (js "Cannot convert object to primitive value")) /\
  scanResponse 0 (Some 0%Z) isoDateOnly (js "2025-05-18T10:30:00.000Z")
    strictAsLenient (jsq "{~transactionDate~:{~a~:1}}")
    (js "./uploads/r.jpg") (js "demo-user")
  = Throw (TypeError (js "dateStr.match is not a function")) /\
  (TypeError (js "dateStr.match is not a function")
   = TypeError (js "Cannot convert object to primitive value") \/
   TypeError (js "dateStr.match is not a function")
   = TypeError (js "dateStr.match is not a function")).
Proof.
  assert (E : scanResponse 0 (Some 0%Z) isoDateOnly
                (js "2025-05-18T10:30:00.000Z") strictAsLenient
                (jsq "{~transactionDate~:{~a~:1}}")
                (js "./uploads/r.jpg") (js "demo-user")
              = Throw (TypeError (js "dateStr.match is not a function")))
    by (vm_compute; reflexivity).
  split; [vm_compute; reflexivity |]. split; [exact E |].
  exact (proj1 (@scanResponse_fails_only_on_the_date 0 (Some 0%Z) isoDateOnly
                  (js "2025-05-18T10:30:00.000Z") strictAsLenient
                  (jsq "{~transactionDate~:{~a~:1}}")
                  (js "./uploads/r.jpg") (js "demo-user")) _ E).
Defined.

Lemma scanResponse_record_invariants_witness :
  exists rec,
    scanResponse 28800000 (Some 1747564200000%Z) isoDateOnly
      (js "2025-05-18T10:30:00.000Z") strictAsLenient
      (jsq "{~transactionDate~:~18/05/25~,~items~:7}")
      (js "./uploads/r.jpg") (js "demo-user") = Ret rec /\
    truthy (vendorName rec) = true /\
    (exists t, transactionDate rec = Some t) /\
    isArray (items rec) = true /\
    imageUrl rec = js "/uploads/r.jpg" /\
    userId rec = js "demo-user".
Proof.
  eexists. split; [vm_compute; reflexivity |].
  refine (@scanResponse_record_invariants 28800000 (Some 1747564200000%Z)
            isoDateOnly (js "2025-05-18T10:30:00.000Z") strictAsLenient
            _ _ (jsq "{~transactionDate~:~18/05/25~,~items~:7}")
            (js "./uploads/r.jpg") (js "demo-user") _ _).
  - unfold msPerDay. lia.
  - discriminate.
  - vm_compute. reflexivity.
Defined.

(** ** The HTTP layer *)

Section ServiceProperties.

Variable LocalTZA : Z.
Variable now : Date.
Variable nativeParse : jsstring -> Date.
Variable nowISO : jsstring.
Variable JSON5_parse : jsstring -> outcome value.
Variable readImage : jsstring -> result jsstring.
Variable apiKey : value.
Variable post : jsstring -> value -> result value.

(** X21: the image is read first, so that a file that cannot be read
    is reported even when the key is missing; with the image read, a
    key that is missing or empty is reported without a request; with a
    key, a response without data, without [choices] or with an empty
    array of choices is reported as invalid. *)
Theorem scanReceipt_checks_in_order (imagePath userId : jsstring) :
  (forall cause,
     readImage imagePath = Raised cause ->
     scanReceipt LocalTZA now nativeParse nowISO JSON5_parse readImage apiKey
       post imagePath userId
     = Raised (BadRequestException
                 (js "Failed to scan receipt: " ++ errorMessage cause))) /\
  (forall image,
     readImage imagePath = Done image -> truthy apiKey = false ->
     scanReceipt LocalTZA now nativeParse nowISO JSON5_parse readImage apiKey
       post imagePath userId
     = Raised (BadRequestException
                 (js "Failed to scan receipt: OpenRouter API key is not configured"))) /\
  (forall image data,
     readImage imagePath = Done image -> truthy apiKey = true ->
     post image apiKey = Done data ->
     truthy data = false \/
     (exists props, data = VObj props /\
        (truthy (lookup props (js "choices")) = false \/
         lookup props (js "choices") = VArr [])) ->
     scanReceipt LocalTZA now nativeParse nowISO JSON5_parse readImage apiKey
       post imagePath userId
     = Raised (BadRequestException
                 (js "Failed to scan receipt: Invalid response from OpenRouter API"))).
Proof.
  split; [| split].
  - intros cause H. unfold scanReceipt, scanReceiptBody. rewrite H. reflexivity.
  - intros image H Hk. unfold scanReceipt, scanReceiptBody. rewrite H.
    cbn [andThen]. rewrite Hk. reflexivity.
  - intros image data H Hk Hp Hd. unfold scanReceipt, scanReceiptBody.
    rewrite H. cbn [andThen]. rewrite Hk. cbn [negb]. rewrite Hp.
    cbn [andThen]. destruct Hd as [Hd | (props & -> & Hd)].
    + rewrite Hd. reflexivity.
    + cbn [truthy negb get ofOutcome andThen].
      destruct Hd as [Hd | Hd]; rewrite Hd; reflexivity.
Qed.

(** X22: when the model answers with a text, [scanReceipt] of the
    service is [scanResponse] of that text: the record if there is
    one, and else one of the two failures that [scanResponse] has,
    under the prefix: [Failed to scan receipt: Cannot convert object to
    primitive value] or [Failed to scan receipt: dateStr.match is not a
    function]. *)
Theorem scanReceipt_of_an_answer (imagePath userId image text : jsstring) :
  readImage imagePath = Done image -> truthy apiKey = true ->
  post image apiKey = Done (answer (VStr text)) ->
  (forall receiptData,
     scanResponse LocalTZA now nativeParse nowISO JSON5_parse
       text imagePath userId = Ret receiptData ->
     scanReceipt LocalTZA now nativeParse nowISO JSON5_parse readImage apiKey
       post imagePath userId = Done receiptData) /\
  (forall e,
     scanResponse LocalTZA now nativeParse nowISO JSON5_parse
       text imagePath userId = Throw e ->
     (e = TypeError (js "Cannot convert object to primitive value") /\
      scanReceipt LocalTZA now nativeParse nowISO JSON5_parse readImage apiKey
        post imagePath userId
      = Raised (BadRequestException
                  (js "Failed to scan receipt: Cannot convert object to primitive value"))) \/
     (e = TypeError (js "dateStr.match is not a function") /\
      scanReceipt LocalTZA now nativeParse nowISO JSON5_parse readImage apiKey
        post imagePath userId
      = Raised (BadRequestException
                  (js "Failed to scan receipt: dateStr.match is not a function")))).
Proof.
  intros H Hk Hp.
  assert (Hs : scanReceipt LocalTZA now nativeParse nowISO JSON5_parse readImage
                 apiKey post imagePath userId =
               match scanResponse LocalTZA now nativeParse nowISO JSON5_parse
                       text imagePath userId with
               | Ret receiptData => Done receiptData
               | Throw e =>
                   Raised (BadRequestException
                             (js "Failed to scan receipt: " ++ message e))
               end).
  { unfold scanReceipt, scanReceiptBody.
    rewrite H. cbn [andThen]. rewrite Hk. cbn [negb]. rewrite Hp.
    cbn [answer truthy negb get ofOutcome andThen lookup str_eqb orb
         lengthTruthy index0 stringReceiver].
    change (str_eqb (js "choices") (js "choices")) with true. cbv iota.
    cbn [truthy negb orb lengthTruthy index0 get ofOutcome andThen lookup].
    change (str_eqb (js "message") (js "message")) with true. cbv iota.
    cbn [get ofOutcome andThen lookup].
    change (str_eqb (js "content") (js "content")) with true. cbv iota.
    cbn [stringReceiver ofOutcome andThen].
    destruct (scanResponse LocalTZA now nativeParse nowISO JSON5_parse
                text imagePath userId) as [r | e]; reflexivity. }
  split.
  - intros r E. rewrite Hs, E. reflexivity.
  - intros e E. rewrite Hs, E.
    destruct (@scanResponse_failure LocalTZA now nativeParse nowISO JSON5_parse
                text imagePath userId e E) as [-> | ->];
      [left | right]; split; reflexivity.
Qed.

End ServiceProperties.

Lemma scanReceipt_checks_in_order_witness :
  scanReceipt 0 (Some 0%Z) isoDateOnly (js "2025-05-18T10:30:00.000Z")
    strictAsLenient (fun _ => Done (js "aW1hZ2U=")) (VStr (js "sk-or-1"))
    (fun _ _ => Done (VObj [(js "choices", VArr [])]))
    (js "./uploads/r.jpg") (js "demo-user")
  = Raised (BadRequestException
              (js "Failed to scan receipt: Invalid response from OpenRouter API")).
Proof.
  apply (@scanReceipt_checks_in_order 0 (Some 0%Z) isoDateOnly
           (js "2025-05-18T10:30:00.000Z") strictAsLenient
           (fun _ => Done (js "aW1hZ2U=")) (VStr (js "sk-or-1"))
           (fun _ _ => Done (VObj [(js "choices", VArr [])]))
           (js "./uploads/r.jpg") (js "demo-user"))
    with (image := js "aW1hZ2U=") (data := VObj [(js "choices", VArr [])]);
    try reflexivity.
  right. exists [(js "choices", VArr [])]. split; [reflexivity |].
  right. reflexivity.
Defined.

Lemma scanReceipt_of_an_answer_witness :
  scanReceipt 0 (Some 0%Z) isoDateOnly (js "2025-05-18T10:30:00.000Z")
    strictAsLenient (fun _ => Done (js "aW1hZ2U=")) (VStr (js "sk-or-1"))
    (fun _ _ => Done (answer (VStr (jsq "{~transactionDate~:{~toString~:1}}"))))
    (js "./uploads/r.jpg") (js "demo-user")
  = Raised (BadRequestException
              (js "Failed to scan receipt: Cannot convert object to primitive value")).
Proof.
  destruct (proj2 (@scanReceipt_of_an_answer 0 (Some 0%Z) isoDateOnly
             (js "2025-05-18T10:30:00.000Z") strictAsLenient
             (fun _ => Done (js "aW1hZ2U=")) (VStr (js "sk-or-1"))
             (fun _ _ =>
                Done (answer (VStr (jsq "{~transactionDate~:{~toString~:1}}"))))
             (js "./uploads/r.jpg") (js "demo-user") (js "aW1hZ2U=")
             (jsq "{~transactionDate~:{~toString~:1}}")
             eq_refl eq_refl eq_refl)
             (TypeError (js "Cannot convert object to primitive value")))
    as [[_ E] | [E _]].
  - vm_compute. reflexivity.
  - exact E.
  - discriminate E.
Defined.

Section ControllerProperties.

Variable LocalTZA : Z.
Variable now : Date.
Variable nativeParse : jsstring -> Date.
Variable nowISO : jsstring.
Variable JSON5_parse : jsstring -> outcome value.
Variable readImage : jsstring -> result jsstring.
Variable apiKey : value.
Variable post : jsstring -> value -> result value.
Variable Saved : Type.
Variable create : ReceiptData -> result Saved.

(** X23: the controller on top of the service, for the user
    [demo-user].  Every failure reaches the client as a
    [BadRequestException]: [No receipt image provided] without a file;
    the cause under the prefixes of both layers when the scan fails;
    the cause under the prefix of the controller when the save fails.
    A scan that succeeds and is saved is answered with [Receipt
    scanned and saved successfully] and the saved document. *)
Theorem controllerScanReceipt_failures (file : option jsstring) :
  (forall e,
     controllerScanReceipt
       (scanReceipt LocalTZA now nativeParse nowISO JSON5_parse readImage
          apiKey post) create file = Raised e ->
     (file = None /\
      e = BadRequestException (js "No receipt image provided")) \/
     (exists path cause,
        file = Some path /\
        scanReceiptBody LocalTZA now nativeParse nowISO JSON5_parse readImage
          apiKey post path (js "demo-user") = Raised cause /\
        e = BadRequestException
              (js "Failed to process receipt: Failed to scan receipt: "
                 ++ errorMessage cause)) \/
     (exists path receiptData cause,
        file = Some path /\
        scanReceiptBody LocalTZA now nativeParse nowISO JSON5_parse readImage
          apiKey post path (js "demo-user") = Done receiptData /\
        create receiptData = Raised cause /\
        e = BadRequestException
              (js "Failed to process receipt: " ++ errorMessage cause))) /\
  (forall path receiptData saved,
     file = Some path ->
     scanReceiptBody LocalTZA now nativeParse nowISO JSON5_parse readImage
       apiKey post path (js "demo-user") = Done receiptData ->
     create receiptData = Done saved ->
     controllerScanReceipt
       (scanReceipt LocalTZA now nativeParse nowISO JSON5_parse readImage
          apiKey post) create file
     = Done (js "Receipt scanned and saved successfully", saved)).
Proof.
  split.
  - intros e. unfold controllerScanReceipt, scanReceipt.
    destruct file as [path |]; [| intros [= <-]; left; auto].
    destruct (scanReceiptBody LocalTZA now nativeParse nowISO JSON5_parse
                readImage apiKey post path (js "demo-user"))
      as [r | cause] eqn:Es; cbn [andThen].
    + destruct (create r) as [saved | cause] eqn:Ec; cbn [andThen];
        [discriminate |].
      intros [= <-]. right. right. exists path, r, cause. auto.
    + intros [= <-]. right. left. exists path, cause. auto.
  - intros path receiptData saved -> H Hc.
    unfold controllerScanReceipt, scanReceipt. rewrite H. cbn [andThen].
    rewrite Hc. reflexivity.
Qed.

End ControllerProperties.

Lemma controllerScanReceipt_failures_witness :
  controllerScanReceipt
    (scanReceipt 0 (Some 0%Z) isoDateOnly (js "2025-05-18T10:30:00.000Z")
       strictAsLenient (fun _ => Done (js "aW1hZ2U=")) (VStr (js "sk-or-1"))
       (fun _ _ => Done (answer (VStr (jsq "{~vendorName~:~Cafe~}")))))
    (fun r : ReceiptData => Done (imageUrl r)) (Some (js "./uploads/r.jpg"))
  = Done (js "Receipt scanned and saved successfully", js "/uploads/r.jpg").
Proof.
  eapply (@controllerScanReceipt_failures 0 (Some 0%Z) isoDateOnly
            (js "2025-05-18T10:30:00.000Z") strictAsLenient
            (fun _ => Done (js "aW1hZ2U=")) (VStr (js "sk-or-1"))
            (fun _ _ => Done (answer (VStr (jsq "{~vendorName~:~Cafe~}"))))
            jsstring (fun r : ReceiptData => Done (imageUrl r))
            (Some (js "./uploads/r.jpg"))).
  - reflexivity.
  - vm_compute. reflexivity.
  - reflexivity.
Defined.

(** ** Normalising twice *)

(** X24: the total is coerced twice, by [validateAndCleanData] and by
    [scanReceipt]; the second coercion gives the number of the first,
    and zero when that was zero or [NaN].  Where the first coercion
    throws there is no second. *)
Theorem coerceNumber_of_coerced_total (raw : value) (dflt : string) :
  (first <- coerceNumber raw dflt ;; coerceNumber first "0") =
  (first <- coerceNumber raw dflt ;;
   Ret (if truthy first then first else VNum (Fin false 0 0))).
Proof.
  destruct (coerceNumber raw dflt) as [first | e] eqn:E; cbn [bind];
    [| reflexivity].
  destruct (truthy first) eqn:Ht.
  - apply (@coerceNumber_again _ _ "0" _ E Ht).
  - rewrite (@coerceNumber_falsy _ "0" Ht). reflexivity.
Qed.

Lemma or_else_again (a b c : value) :
  truthy b = true -> or_else (or_else a b) c = or_else a b.
Proof.
  intros Hb. unfold or_else. destruct (truthy a) eqn:Ha.
  - rewrite Ha. reflexivity.
  - rewrite Hb. reflexivity.
Qed.

Lemma cleanItem_again (item out : value) :
  cleanItem item = Ret out -> itemTruthy out = true -> cleanItem out = Ret out.
Proof.
  intros H Ht. unfold cleanItem in H.
  apply bind_Ret_inv in H as (n & _ & H).
  apply bind_Ret_inv in H as (rq & _ & H).
  apply bind_Ret_inv in H as (q & Hq & H).
  apply bind_Ret_inv in H as (rp & _ & H).
  apply bind_Ret_inv in H as (p & Hp & [= <-]).
  unfold itemTruthy, receiptItem in Ht.
  change (lookup _ (js "quantity")) with q in Ht.
  change (lookup _ (js "price")) with p in Ht.
  apply andb_true_iff in Ht as [Htq Htp].
  unfold receiptItem at 1. rewrite cleanItem_object.
  change (lookup _ (js "name")) with (or_else n (VStr (js "Unnamed Item"))).
  change (lookup _ (js "quantity")) with q.
  change (lookup _ (js "price")) with p.
  rewrite or_else_again by reflexivity.
  rewrite (@coerceNumber_again _ _ "1" _ Hq Htq). cbn [bind].
  rewrite (@coerceNumber_again _ _ "0" _ Hp Htp). reflexivity.
Qed.

Lemma mapM_cleanItem_again (l out : list value) :
  mapM cleanItem l = Ret out -> forallb itemTruthy out = true ->
  mapM cleanItem out = Ret out.
Proof.
  revert out. induction l as [|x l IH]; intros out.
  - intros [= <-] _. reflexivity.
  - cbn [mapM]. destruct (cleanItem x) as [o | e] eqn:Ex; cbn [bind];
      [| discriminate].
    destruct (mapM cleanItem l) as [os | e] eqn:El; cbn [bind]; [| discriminate].
    intros [= <-]. cbn [forallb mapM]. intros H.
    apply andb_true_iff in H as [Ho Hos].
    rewrite (cleanItem_again _ Ex Ho). cbn [bind].
    rewrite (IH os eq_refl Hos). reflexivity.
Qed.

(** X25: [validateAndCleanData] applied to a record it returned, at a
    later time, returns the record unchanged, provided the total and the
    quantity and price of every item are other than zero and [NaN]. *)
Theorem validateAndCleanData_is_idempotent
    (nowISO nowISO' : jsstring) (data out : value) :
  nowISO <> [] ->
  validateAndCleanData nowISO data = Ret out ->
  numbersTruthy out = true ->
  validateAndCleanData nowISO' out = Ret out.
Proof.
  intros Hnow H Ht.
  assert (Hdef : out <> defaultData nowISO) by (intros ->; discriminate Ht).
  unfold validateAndCleanData in H.
  destruct (negb (truthy data) || negb (isObjectType data)) eqn:E;
    [injection H as <-; contradiction |].
  apply bind_Ret_inv in H as (v0 & _ & H).
  apply bind_Ret_inv in H as (d0 & _ & H).
  apply bind_Ret_inv in H as (raw & _ & H).
  apply bind_Ret_inv in H as (t & Hraw & H).
  apply bind_Ret_inv in H as (its0 & _ & H).
  apply bind_Ret_inv in H as (its' & Hi & [= <-]).
  set (v := or_else v0 (VStr (js "Unknown Vendor"))) in *.
  set (d := or_else d0 (VStr nowISO)) in *.
  assert (G : forall its,
            numbersTruthy (receipt v d t (VArr its)) = true ->
            mapM cleanItem its = Ret its ->
            validateAndCleanData nowISO' (receipt v d t (VArr its))
            = Ret (receipt v d t (VArr its))).
  { intros its Hn Hits. unfold numbersTruthy, receipt in Hn.
    change (lookup _ (js "totalAmount")) with t in Hn.
    apply andb_true_iff in Hn as [Htot _].
    unfold validateAndCleanData, receipt. cbn [truthy isObjectType negb orb get bind].
    change (lookup _ (js "vendorName")) with v.
    change (lookup _ (js "transactionDate")) with d.
    change (lookup _ (js "totalAmount")) with t.
    change (lookup _ (js "items")) with (VArr its).
    cbv iota. rewrite (@coerceNumber_again _ _ "0" _ Hraw Htot). cbn [bind].
    rewrite Hits. cbn [bind].
    unfold v at 1. rewrite or_else_again by reflexivity. fold v.
    unfold d at 1. rewrite or_else_again
      by (destruct nowISO; [contradiction | reflexivity]). fold d.
    reflexivity. }
  destruct its0 as [| | b | x | s | l | ps];
    try (injection Hi as <-; apply (G [] Ht); reflexivity).
  apply bind_Ret_inv in Hi as (l' & El & [= <-]).
  apply (G l' Ht).
  apply (mapM_cleanItem_again _ El).
  unfold numbersTruthy, receipt in Ht.
  change (lookup _ (js "items")) with (VArr l') in Ht.
  apply andb_true_iff in Ht as [_ Ht]. exact Ht.
Qed.

Lemma validateAndCleanData_is_idempotent_witness :
  validateAndCleanData (js "2025-05-18T10:30:00.000Z") kopiData = Ret kopiRecord /\
  validateAndCleanData (js "2025-05-19T08:00:00.000Z") kopiRecord = Ret kopiRecord.
Proof.
  assert (H : validateAndCleanData (js "2025-05-18T10:30:00.000Z") kopiData
              = Ret kopiRecord) by (vm_compute; reflexivity).
  split; [exact H |].
  apply (@validateAndCleanData_is_idempotent
           (js "2025-05-18T10:30:00.000Z") (js "2025-05-19T08:00:00.000Z")
           kopiData kopiRecord); [discriminate | exact H | vm_compute; reflexivity].
Defined.

(** ** The items of the regex strategy *)

Section SplitLemmas.
Variable r : regex.

Lemma split_regex_cons (s : jsstring) (n : nat) :
  exists l ls,
    scan r
      (fun x out => match out with
                    | [] => [[x]]
                    | l :: ls => (x :: l) :: ls
                    end)
      (fun _ _ out => [] :: out) [[]] n s = l :: ls.
Proof.
  revert n. induction s as [|x s IH]; intros n.
  - destruct n; cbn [scan]; [| eauto].
    destruct (match_here r []) as [[rest c] |]; eauto.
  - destruct n as [|n]; cbn [scan]; [| apply IH].
    destruct (match_here r (x :: s)) as [[rest c] |].
    + cbv zeta. destruct (List.length (x :: s) - List.length rest); eauto.
    + destruct (IH 0%nat) as (l & ls & ->). eauto.
Qed.

(** What is not matched goes to the piece in hand. *)
Lemma split_regex_keep (a s : jsstring) :
  (forall x u, In x a -> match_here r (x :: u) = None) ->
  split_regex r (a ++ s) =
  match split_regex r s with
  | l :: ls => (a ++ l) :: ls
  | [] => [a]
  end.
Proof.
  intros H. induction a as [|x a IH]; cbn [app].
  - destruct (split_regex_cons s 0) as (l & ls & E).
    unfold split_regex. rewrite E. reflexivity.
  - unfold split_regex at 1. rewrite scan_miss by (apply H; left; reflexivity).
    fold (split_regex r (a ++ s)). rewrite IH by (intros; apply H; right; assumption).
    destruct (split_regex r s); reflexivity.
Qed.

(** A match ends the piece in hand. *)
Lemma split_regex_hit (x : jschar) (m rest : jsstring) (c : caps) :
  match_here r (x :: m ++ rest) = Some (rest, c) ->
  split_regex r (x :: m ++ rest) = [] :: split_regex r rest.
Proof.
  intros H. unfold split_regex.
  rewrite (@scan_hit _ r _ _ _ x (m ++ rest) rest c (List.length m) H)
    by (cbn [List.length]; rewrite length_app; lia).
  rewrite scan_skip. reflexivity.
Qed.
End SplitLemmas.

Lemma itemSplit_miss (x : jschar) (u : jsstring) :
  N.eqb rbrace x = false -> match_here Re.itemSplit (x :: u) = None.
Proof. intros H. apply (@head_miss (is_char rbrace) _ x u H). Qed.

Lemma itemSplit_end : match_here Re.itemSplit [rbrace] = None.
Proof. reflexivity. Qed.

Lemma itemSplit_hit (w1 w2 rest : jsstring) :
  forallb is_space w1 = true -> forallb is_space w2 = true ->
  match_here Re.itemSplit (rbrace :: (w1 ++ comma :: w2 ++ [lbrace]) ++ rest)
  = Some (rest, []).
Proof.
  intros H1 H2. unfold match_here, Re.itemSplit. cbn [Seqs].
  change (C "}") with (Chr (is_char rbrace)).
  rewrite chr_hit by reflexivity.
  rewrite seq_eq. unfold Spaces at 1.
  rewrite <- app_assoc. cbn [app].
  apply star_run_hit; [exact H1 | reflexivity |].
  change (C ",") with (Chr (is_char comma)).
  rewrite chr_hit by reflexivity.
  rewrite seq_eq. unfold Spaces. rewrite <- app_assoc. cbn [app].
  apply star_run_hit; [exact H2 | reflexivity |].
  reflexivity.
Qed.

Lemma noBrace_In (a : jsstring) (x : jschar) :
  noBrace a = true -> In x a -> N.eqb lbrace x = false /\ N.eqb rbrace x = false.
Proof.
  intros H Hx. unfold noBrace in H.
  pose proof (proj1 (forallb_forall _ _) H x Hx) as Hb. cbv beta in Hb.
  apply andb_true_iff in Hb as [H1 H2].
  apply negb_true_iff in H1, H2. split; assumption.
Qed.

Lemma split_itemsTail (first : jsstring)
    (more : list (jsstring * jsstring * jsstring)) :
  noBrace first = true -> flatItems more = true ->
  split_regex Re.itemSplit (itemsTail first more) = tailPieces first more.
Proof.
  revert first. induction more as [|[gap item] more IH]; intros first Hf Hm;
    cbn [itemsTail tailPieces].
  - rewrite split_regex_keep
      by (intros x u Hx; apply itemSplit_miss, (@noBrace_In _ _ Hf Hx)).
    unfold split_regex. rewrite scan_miss by exact itemSplit_end.
    reflexivity.
  - cbn [flatItems forallb fst snd] in Hm.
    apply andb_true_iff in Hm as [Hg Hm]. apply andb_true_iff in Hg as [Hg Hi].
    unfold isGap in Hg. apply andb_true_iff in Hg as [Hg1 Hg2].
    rewrite split_regex_keep
      by (intros x u Hx; apply itemSplit_miss, (@noBrace_In _ _ Hf Hx)).
    rewrite (@split_regex_hit Re.itemSplit rbrace _ _ []
               (@itemSplit_hit (fst gap) (snd gap) _ Hg1 Hg2)).
    rewrite (IH item Hi Hm), app_nil_r. reflexivity.
Qed.

Lemma tailPieces_cons (first : jsstring)
    (more : list (jsstring * jsstring * jsstring)) :
  exists p ps, tailPieces first more = p :: ps.
Proof. destruct more as [|[gap item] more]; cbn [tailPieces]; eauto. Qed.

Lemma split_itemsText (first : jsstring)
    (more : list (jsstring * jsstring * jsstring)) :
  noBrace first = true -> flatItems more = true ->
  split_regex Re.itemSplit (itemsText first more) =
  match tailPieces first more with
  | p :: ps => (lbrace :: p) :: ps
  | [] => []
  end.
Proof.
  intros Hf Hm. unfold itemsText.
  change (lbrace :: itemsTail first more) with ([lbrace] ++ itemsTail first more).
  rewrite split_regex_keep.
  - rewrite (@split_itemsTail _ _ Hf Hm).
    destruct (tailPieces_cons first more) as (p & ps & ->). reflexivity.
  - intros x u [<- | []]. apply itemSplit_miss. reflexivity.
Qed.

(** ** The braces put back *)

Lemma trim_In (x : jschar) (s : jsstring) : In x (trim s) -> In x s.
Proof.
  assert (G : forall u, In x (trimStart u) -> In x u).
  { induction u as [|y u IH]; [intros []|]. cbn [trimStart].
    destruct (is_space y); [right; apply IH; assumption | intros H; exact H]. }
  unfold trim, trimEnd. intros H. apply (proj2 (in_rev _ _)) in H.
  apply G in H. apply (proj2 (in_rev _ _)) in H. apply G. exact H.
Qed.

Lemma startsWith_trim_miss (c : jschar) (s : jsstring) :
  ~ In c s -> startsWith (trim s) [c] = false.
Proof.
  intros Hn. destruct (startsWith (trim s) [c]) eqn:E; [| reflexivity].
  apply startsWith_char in E as [r E]. exfalso. apply Hn, trim_In.
  rewrite E. left. reflexivity.
Qed.

Lemma endsWith_trim_miss (c : jschar) (s : jsstring) :
  ~ In c s -> endsWith (trim s) [c] = false.
Proof.
  intros Hn. destruct (endsWith (trim s) [c]) eqn:E; [| reflexivity].
  apply endsWith_char in E as [r E]. exfalso. apply Hn, trim_In.
  rewrite E. apply in_or_app. right. left. reflexivity.
Qed.

Lemma noBrace_not_In (a : jsstring) :
  noBrace a = true -> ~ In lbrace a /\ ~ In rbrace a.
Proof.
  intros H. split; intros Hin; destruct (@noBrace_In _ _ H Hin) as [H1 H2];
    [discriminate H1 | discriminate H2].
Qed.

Lemma trimStart_snoc (l : jsstring) (x : jschar) :
  is_space x = false -> trimStart (l ++ [x]) = trimStart l ++ [x].
Proof.
  intros H. induction l as [|y l IH]; cbn [app trimStart].
  - rewrite H. reflexivity.
  - destruct (is_space y); [exact IH | reflexivity].
Qed.

Lemma trim_lbrace (s : jsstring) :
  startsWith (trim (lbrace :: s)) [lbrace] = true.
Proof.
  unfold trim. rewrite trimStart_head by reflexivity. unfold trimEnd.
  cbn [rev]. rewrite trimStart_snoc by reflexivity.
  rewrite rev_app_distr. reflexivity.
Qed.

(** A piece that opens with its brace *)
Lemma ensureBraces_first (a : jsstring) :
  noBrace a = true -> ensureBraces (lbrace :: a) = braced a.
Proof.
  intros H. destruct (@noBrace_not_In _ H) as [_ Hr].
  unfold ensureBraces. rewrite trim_lbrace. cbn [negb].
  rewrite endsWith_trim_miss; [reflexivity |].
  intros [E | Hin]; [discriminate E | contradiction].
Qed.

(** A piece from between two separators *)
Lemma ensureBraces_middle (a : jsstring) :
  noBrace a = true -> ensureBraces a = braced a.
Proof.
  intros H. destruct (@noBrace_not_In _ H) as [Hl Hr].
  unfold ensureBraces. rewrite (@startsWith_trim_miss _ _ Hl). cbn [negb].
  rewrite endsWith_trim_miss; [reflexivity |].
  intros [E | Hin]; [discriminate E | contradiction].
Qed.

(** The piece that closes with its brace *)
Lemma ensureBraces_last (a : jsstring) :
  noBrace a = true -> ensureBraces (a ++ [rbrace]) = braced a.
Proof.
  intros H. destruct (@noBrace_not_In _ H) as [Hl Hr].
  unfold ensureBraces. rewrite startsWith_trim_miss.
  - cbn [negb]. rewrite trim_tight by reflexivity.
    replace (endsWith (lbrace :: a ++ [rbrace]) [rbrace]) with true; [reflexivity |].
    symmetry. apply endsWith_char. exists (lbrace :: a). reflexivity.
  - intros Hin. apply in_app_or in Hin as [Hin | [E | []]];
      [contradiction | discriminate E].
Qed.

(** An object alone *)
Lemma ensureBraces_braced (a : jsstring) : ensureBraces (braced a) = braced a.
Proof.
  unfold ensureBraces, braced. rewrite trim_tight by reflexivity.
  replace (startsWith (lbrace :: a ++ [rbrace]) [lbrace]) with true
    by reflexivity.
  cbn [negb]. cbv beta iota zeta. rewrite trim_tight by reflexivity.
  replace (endsWith (lbrace :: a ++ [rbrace]) [rbrace]) with true; [reflexivity |].
  symmetry. apply endsWith_char. exists (lbrace :: a). reflexivity.
Qed.

Lemma ensureBraces_tailPieces (first : jsstring)
    (more : list (jsstring * jsstring * jsstring)) :
  noBrace first = true -> flatItems more = true ->
  List.map ensureBraces (tailPieces first more) =
  List.map braced (first :: List.map snd more).
Proof.
  revert first. induction more as [|[gap item] more IH]; intros first Hf Hm;
    cbn [tailPieces List.map snd].
  - rewrite (@ensureBraces_last _ Hf). reflexivity.
  - cbn [flatItems forallb fst snd] in Hm.
    apply andb_true_iff in Hm as [Hg Hm]. apply andb_true_iff in Hg as [_ Hi].
    rewrite (@ensureBraces_middle _ Hf), (IH item Hi Hm). reflexivity.
Qed.

Lemma itemStrings_flat (first : jsstring)
    (more : list (jsstring * jsstring * jsstring)) :
  noBrace first = true -> flatItems more = true ->
  List.map ensureBraces (split_regex Re.itemSplit (itemsText first more)) =
  List.map braced (first :: List.map snd more).
Proof.
  intros Hf Hm. rewrite (@split_itemsText _ _ Hf Hm).
  destruct more as [|[gap item] more]; cbn [tailPieces List.map snd].
  - change (lbrace :: first ++ [rbrace]) with (braced first).
    rewrite (ensureBraces_braced first). reflexivity.
  - cbn [flatItems forallb fst snd] in Hm.
    apply andb_true_iff in Hm as [Hg Hm]. apply andb_true_iff in Hg as [_ Hi].
    rewrite (@ensureBraces_first _ Hf).
    rewrite (@ensureBraces_tailPieces _ _ Hi Hm). reflexivity.
Qed.

Section FlatItems.

Variable nowISO : jsstring.
Variable JSON_parse : jsstring -> outcome value.
Variable JSON5_parse : jsstring -> outcome value.

Lemma mapM_parseItem_braces (l : list jsstring) :
  mapM (parseItem JSON_parse JSON5_parse) (List.map ensureBraces l) =
  mapM (parseItem JSON_parse JSON5_parse) l \/
  List.map ensureBraces (List.map ensureBraces l) <> List.map ensureBraces l.
Proof.
  induction l as [|x l IH]; [left; reflexivity |].
  destruct (list_eq_dec N.eq_dec (ensureBraces (ensureBraces x)) (ensureBraces x))
    as [E | E].
  - destruct IH as [IH | IH].
    + left. cbn [List.map mapM]. rewrite IH. unfold parseItem at 1 3.
      rewrite E. reflexivity.
    + right. cbn [List.map]. intros [= _ H]. contradiction.
  - right. cbn [List.map]. intros [= H _]. contradiction.
Qed.

Lemma mapM_length (A B : Type) (f : A -> outcome B) (l : list A) (out : list B) :
  mapM f l = Ret out -> List.length out = List.length l.
Proof.
  revert out. induction l as [|x l IH]; intros out; cbn [mapM].
  - intros [= <-]. reflexivity.
  - destruct (f x); cbn [bind]; [| discriminate].
    destruct (mapM f l); cbn [bind]; [| discriminate].
    intros [= <-]. cbn [List.length]. rewrite (IH _ eq_refl). reflexivity.
Qed.

(** X26: when the array of items that the regex strategy finds holds
    objects without braces inside, a comma with any white space between
    them, the record has one item for each object, and each item is
    what the three attempts give on the text of its object alone. *)
Theorem extractDataWithRegex_flat_items (text first : jsstring)
    (more : list (jsstring * jsstring * jsstring)) :
  match search Re.items text with
  | Some m => m_group m 1
  | None => None
  end = Some (itemsText first more) ->
  noBrace first = true -> flatItems more = true ->
  exists v d t its,
    extractDataWithRegex JSON_parse JSON5_parse text (defaultData nowISO)
      = Ret (receipt v d t (VArr its)) /\
    mapM (parseItem JSON_parse JSON5_parse)
         (List.map braced (first :: List.map snd more)) = Ret its /\
    List.length its = S (List.length more).
Proof.
  intros Hs Hf Hm.
  destruct (search Re.items text) as [m |] eqn:Em; [| discriminate Hs].
  pose proof (@itemStrings_flat _ _ Hf Hm) as Hsplit.
  assert (Hits : mapM (parseItem JSON_parse JSON5_parse)
                   (split_regex Re.itemSplit (itemsText first more)) =
                 mapM (parseItem JSON_parse JSON5_parse)
                   (List.map braced (first :: List.map snd more))).
  { destruct (mapM_parseItem_braces
                (split_regex Re.itemSplit (itemsText first more))) as [E | E].
    - rewrite <- E, Hsplit. reflexivity.
    - exfalso. apply E. rewrite Hsplit, List.map_map.
      apply List.map_ext. intros a. apply ensureBraces_braced. }
  destruct (mapM (parseItem JSON_parse JSON5_parse)
              (List.map braced (first :: List.map snd more))) as [its | e] eqn:El.
  - do 3 eexists. exists its. split; [| split; [reflexivity |]].
    + apply (@extractDataWithRegex_items nowISO JSON_parse JSON5_parse text
               (itemsText first more) m its Em Hs); [discriminate | exact Hits].
    + rewrite (mapM_length _ _ El). cbn [List.map List.length].
      rewrite !length_map. reflexivity.
  - exfalso. clear Hits.
    assert (G : forall l, exists out,
              mapM (parseItem JSON_parse JSON5_parse) l = Ret out).
    { induction l as [|x l [out IH]]; [exists []; reflexivity |].
      destruct (parseItem_returns JSON_parse JSON5_parse x) as [item Hx].
      exists (item :: out). cbn [mapM]. rewrite Hx, IH. reflexivity. }
    destruct (G (List.map braced (first :: List.map snd more))) as [out Hout].
    rewrite Hout in El. discriminate El.
Qed.

End FlatItems.

Lemma extractDataWithRegex_flat_items_witness :
  exists v d t its,
    extractDataWithRegex Json.parse strictAsLenient
      (jsq "{~vendorName~: ~Kedai Kopi~ ~items~: [{~name~: ~teh~, ~price~: 2} , {~name~: ~roti~, ~price~: 1.5}]}")
      (defaultData (js "2025-05-18T10:30:00.000Z"))
      = Ret (receipt v d t (VArr its)) /\
    mapM (parseItem Json.parse strictAsLenient)
         (List.map braced
            (jsq "~name~: ~teh~, ~price~: 2" ::
             List.map snd [ (js " ", js " ", jsq "~name~: ~roti~, ~price~: 1.5") ]))
      = Ret its /\
    List.length its =
    S (List.length [ (js " ", js " ", jsq "~name~: ~roti~, ~price~: 1.5") ]).
Proof.
  apply (@extractDataWithRegex_flat_items (js "2025-05-18T10:30:00.000Z")
           Json.parse strictAsLenient
           (jsq "{~vendorName~: ~Kedai Kopi~ ~items~: [{~name~: ~teh~, ~price~: 2} , {~name~: ~roti~, ~price~: 1.5}]}")
           (jsq "~name~: ~teh~, ~price~: 2")
           [ (js " ", js " ", jsq "~name~: ~roti~, ~price~: 1.5") ]);
    vm_compute; reflexivity.
Defined.

